(* ===== verification/_CoqProject ===== *)
-Q . S2P
Prelude.v
CString.v
Hash.v
Uri.v
Node.v
Encode.v
World.v
Intern.v
Decode.v
Invariant.v
Lifecycle.v
Open.v
Blank.v
Resource.v
Literal.v
Release.v
Interning.v
Roundtrip.v
NodeChecks.v
Statement.v
Tstore.v
TstoreStream.v
SelfTest.v
Parser.v
ParserStream.v
ParserNodes.v
