(* ===== verification/Prelude.v ===== *)
(** * A verification development for the Redland (librdf) node core

    ** The program

    The repository holds three C files of the Redland RDF library:

    - [src/src/rdf_node.c]: the node (RDF term) module.  A node is a
      Resource (a URI), a Literal (a byte string with an optional language
      tag or datatype URI) or a Blank node (an identifier).  Nodes are
      interned per world in three hash tables ([world->nodes_hash[H_RESOURCE]],
      [H_LITERAL], [H_BLANK]), reference counted through their [usage] field,
      and serialised to a tagged big-endian byte format by
      [librdf_node_encode] / [librdf_node_decode].
    - [src/src/rdf_parser_raptor.c]: the glue that turns the callbacks of the
      raptor parser into nodes and statements and serves them as a stream.
    - [src/librdf/rdf_storage_tstore.c]: a storage back end over an external
      triple store, converting between statements and [rs_triple] rows.

    The URI module, the hash tables, the world object, statements, lists,
    streams, UTF-8 conversion, the raptor library and the client library of
    the triple store are used by these files and are not part of the
    sources; what the three files rely on is stated as definitions or classes
    modelled from the specification ([Hash.HashTable], the URI table of
    [Uri], [Statement], [Parser.Raptor], [Tstore.TripleStore]).

    ** The files, in the order they are compiled

    - [Prelude] (this file): outcomes of C code ([res]: a value, or stuck on
      undefined behaviour, [abort()] or a deadlock), the state-and-outcome
      monad [st] with its run lemmas and the rules of [hoare] (total),
      [returns] and [leaves] (partial), the build configuration
      ([BuildConfig]: the level of [LIBRDF_ASSERT] and [WITH_THREADS]), the
      assertion macros, machine integers ([uchar], [int32], [size_t]), the
      big-endian fields [put16], [put32], [get16], [get32] with their round
      trips, and the tactics and hint databases of the development.
    - [CString]: C strings and buffers as lists of bytes: [strlen], [strcpy],
      [strncpy], [memcpy], [strncmp], [atoi], and writing into a buffer at an
      offset, each undefined when it reads or writes outside its object.
    - [Hash]: the interface of [librdf_hash] as a class of operations with
      laws, and its implementation by finite maps.
    - [Uri]: the URI objects (interned by string, reference counted) and the
      invariant of their table.
    - [Node]: the node value, the accessors and predicates
      ([librdf_node_get_uri], [librdf_node_is_resource], ...) and the
      printers.
    - [Encode]: [librdf_node_encode], both phases (measure and fill), the
      wire format of the specification ([wire_format]) and the theorems
      that relate them.
    - [World]: the world state (URI table, heap of nodes, the three tables,
      the mutex, the log, the outcomes of the allocations to come), the
      primitives on it ([LIBRDF_MALLOC], [pthread_mutex_lock], the calls
      into the hash and URI modules), [librdf_init_node],
      [librdf_finish_node] and [librdf_world_open].
    - [Intern]: the constructors ([librdf_new_node_from_uri_string_or_uri],
      [librdf_new_node_from_typed_counted_literal],
      [librdf_new_node_from_counted_blank_identifier] and the functions
      built on them), [librdf_new_node_from_node] and [librdf_free_node].
    - [Decode]: [librdf_node_decode] (definitions only; its theorems are in
      [Roundtrip] and [NodeChecks]).
    - [Invariant]: the well-formedness invariant [world_wf] of a world
      (one live node per key; every table entry points to a live node with
      that key and [usage >= 1]; the count of a URI covers the nodes and
      callers that hold it), worlds up to [world_equiv], and the lemmas
      that each change of a world keeps the invariant.
    - [Lifecycle]: the steps the constructors share (copying a counted
      string, entering a node in a table, locking and unlocking).
    - [Open]: [librdf_world_open] establishes the invariant;
      [librdf_finish_node] called twice.
    - [Blank], [Resource], [Literal]: the contract of each constructor on
      every path, allocation failures included; the return that leaves the
      mutex locked.
    - [Release]: [librdf_free_node] and [librdf_new_node_from_node];
      construction followed by release.
    - [Interning]: a constructor called with the content of a live node
      returns that node.
    - [Roundtrip]: decoding what the encoder wrote returns the node.
    - [NodeChecks]: what the literal constructors and the decoder refuse,
      what the decoder does not check, and the typing of live nodes.
    - [Statement]: statements, lists, streams and models as the parser and
      the storage use them.
    - [Tstore]: the storage back end of [rdf_storage_tstore.c].
    - [TstoreStream]: the stream of the storage as a cursor over a result;
      what becomes of blank nodes in the store.
    - [SelfTest]: the byte fixtures and [main] of [rdf_node.c] under
      [STANDALONE], with a run of the model on the data of the test.
    - [Parser]: the callbacks, the statement stream and
      [librdf_parser_raptor_parse_file_handle_as_stream] of
      [rdf_parser_raptor.c].
    - [ParserStream]: termination of the loops of the stream, the end of
      every stream, the namespaces seen, and what parsing a file
      returns.
    - [ParserNodes]: the statement handler and the nodes it makes; the
      table of blank node identifiers.

    ** Modelling conventions

    - A byte is a [Z] in [0, 256); storing into an [unsigned char] is
      [uchar] (reduction modulo 256).  A [size_t] is a non-negative [Z]; the
      masks and shifts of the source are written with [Z.land] and
      [Z.shiftr] exactly as in the code.  An [int] is kept at 32 bits where
      the code can overflow it: [usage++] past [INT_MAX] is [Stuck UB];
      [buffer[1] << 24] in the decoder is computed with two's complement
      wrap-around and sign extension to [size_t] ([get32]), which is what
      the compilers in use do although the C standard leaves it undefined.
    - Memory that C code reads through a pointer is the list of bytes from
      that pointer to the end of its object.  Reading or writing past the end
      is [Stuck UB]; so is dereferencing a freed node.  The strings and the
      key of a node are stored by value in the node object, so freeing the
      node frees them: a leak of a string block cannot be stated.
    - Pointers to nodes and URIs are addresses ([N], [NULL] is 0) into typed
      heaps, so that identity ([librdf_node_equals] compares pointers) and
      reuse of a freed address are visible.  The world pointer is never
      NULL; assertions on it are left out.
    - Every allocation, and every external call that can fail, draws its
      outcome from the list [world_allocs] of the world: [alloc_fail] or
      [alloc_ok junk], where [junk] is the indeterminate content of the
      fresh block.  An empty list means success with zeroed memory.  Theorems
      about failure and rollback quantify over this list.
    - [WITH_THREADS] and the level of [LIBRDF_ASSERT] are fields of the
      class [BuildConfig]; the theorems hold for every build.  The mutex is
      the boolean [nodes_mutex] of the world: there is one thread, locking
      a locked mutex is [Stuck Deadlock], and interleavings of several
      threads are not modelled (so the unlocked [usage++] of
      [librdf_new_node_from_node] shows as "the mutex is not taken", not as
      a race).
    - [LIBRDF_FATAL1] is [Stuck Abort].  Logging records the message kind
      and its arguments in [world_log].
    - Loops over input of unknown length take fuel and return [None] when
      it runs out.  The loop of [librdf_parser_raptor_get_next_statement]
      is given one round per chunk of [RAPTOR_IO_BUFFER_LEN] bytes of the
      file and one ([Parser.rounds]); the loop of
      [librdf_parser_raptor_serialise_next_statement] is given two.
      [ParserStream] proves that this is enough: with that fuel or more
      neither loop ever returns [None], and more fuel changes nothing.
    - raptor is the class [Parser.Raptor]: what a chunk makes it call back
      with, whether it starts a parse, the description of its syntax.
      The theorems about the parser hold for every instance.  The
      callbacks of one chunk are run in the order raptor makes them, after
      the chunk has been handed over.

    ** What is proved

    - Encoder ([Encode]): the bytes written are the wire format of the
      specification and the rest of the buffer is untouched; the measuring
      call returns its length; the two phases agree; a field that does not
      fit or a length that is too small gives 0, with the matching error
      logged; a buffer with length 0 is written without bound; the threshold
      between tags M and N; the 32-bit length of tag N; strings with an
      embedded NUL.
    - Constructors ([Blank], [Resource], [Literal]): from a well-formed
      world each call returns, keeps the invariant, and either returns NULL
      with the world as it was, or the interned node with one more use, or
      a new node at a fresh address; the key of a literal is its wire
      format; when the encoder refuses the literal the function returns
      with the mutex still locked.
    - Release ([Release]): [librdf_free_node] drops one use or removes the
      node, its table entry and its URI reference; copy then free, and
      construct then free, restore the world.
    - World ([Open]): the first [librdf_world_open] establishes the
      invariant; a second [librdf_finish_node] frees the tables again.
    - Interning ([Interning]): equal content gives the same node object.
    - Round trip ([Roundtrip]): decode after encode returns the same node
      object and the number of bytes written, for resources, blank nodes and
      literals of tag M and N.
    - Refusals and types ([NodeChecks]): a language excludes a datatype and
      the well-formed XML flag, with the world untouched; the decoder
      refuses short buffers and unknown tags, takes the string of a
      resource or blank node from the buffer whatever its header says, and
      reads the flag of the old literal form as 0; every live node of a
      well-formed world has one of the three types and the accessors
      answer by it.
    - Storage ([TstoreStream]): the stream refines a cursor over the rows
      of the result; a blank subject is stored without the prefix the
      reader looks for, and the test of the object only matches the
      string [:].
    - Parser ([ParserStream]): the handlers leave the file and the current
      statement alone; the reading loop and the loop of [next_statement]
      terminate within the fuel of the model; every stream ends after
      finitely many calls; the status of [get_next_statement]; the
      namespaces seen stay aligned, free of NULL and of duplicates, and
      their accessors answer NULL outside the sequence;
      [librdf_parser_raptor_parse_file_handle_as_stream] returns such a
      stream or NULL after a message, and logs a parse that raptor
      refuses to start as a lack of memory.
    - Parser and nodes ([ParserNodes]): a triple whose predicate cannot be
      converted is dropped with the world as it was, the node of its
      subject released; an identifier of the document keeps its mapping
      from one call of the generate-id handler to the next, unless the
      copy of the mapped string cannot be allocated.

    ** What is not modelled

    - In [rdf_node.c]: [librdf_node_get_digest] (it only hands the string to
      the digest module) and the static iterator over an array of nodes.
    - In [rdf_parser_raptor.c]: the entry points that hand raptor a URI, a
      string or an iostream (parse_as_stream_common and the functions built
      on it, the parse_*_into_model functions), init and terminate,
      features, the accept header and the registration of the factories.
      The syntax parsers of raptor are the class [Parser.Raptor].
    - In [rdf_storage_tstore.c]: init, terminate, get_feature and the
      registration of the factory.  The triple store is a class
      ([Tstore.TripleStore]).
    - What the printers write to a [FILE] or a raptor iostream is modelled
      as the bytes they produce; what the test program prints is left out;
      [fclose] of the file of a stream is left out.
    - Several threads: see the conventions above. *)

From stdpp Require Export gmap list numbers.
From coqutil Require Import Z.bitblast.

#[local] Open Scope Z_scope.

(** ** Outcomes of C code *)

(** Why an execution does not return: undefined behaviour, a call of
    [abort()], or a thread waiting for a mutex that is never released. *)
Inductive stuck : Set := UB | Abort | Deadlock.

#[global] Instance stuck_eq_dec : EqDecision stuck.
Proof. solve_decision. Defined.

(** The outcome of running a C function: the value it returns, or the reason
    it never does. *)
Inductive res (A : Type) : Type :=
| Val (a : A)
| Stuck (s : stuck).
Arguments Val {A} a.
Arguments Stuck {A} s.

#[global] Instance res_ret : MRet res := @Val.
#[global] Instance res_bind : MBind res := λ A B f m,
  match m with Val a => f a | Stuck s => Stuck s end.
#[global] Instance res_fmap : FMap res := λ A B f m,
  match m with Val a => Val (f a) | Stuck s => Stuck s end.

#[global] Instance res_eq_dec `{EqDecision A} : EqDecision (res A).
Proof. solve_decision. Defined.

(** [of_option o] is the outcome of an operation that is undefined exactly
    when [o] is [None]. *)
Definition of_option {A} (o : option A) : res A :=
  match o with Some a => Val a | None => Stuck UB end.

Definition is_val {A} (r : res A) : bool :=
  match r with Val _ => true | Stuck _ => false end.

(** A computation over a state [S]: the state is threaded through, and a
    stuck computation has no final state. *)
Definition st (S A : Type) : Type := S → res (A * S).

#[global] Instance st_ret S : MRet (st S) := λ A a s, Val (a, s).
#[global] Instance st_bind S : MBind (st S) := λ A B f m s,
  match m s with Val (a, s') => f a s' | Stuck e => Stuck e end.

Definition st_get {S} : st S S := λ s, Val (s, s).
Definition st_put {S} (s : S) : st S unit := λ _, Val (tt, s).
Definition st_modify {S} (f : S → S) : st S unit := λ s, Val (tt, f s).
Definition st_lift {S A} (r : res A) : st S A := λ s,
  match r with Val a => Val (a, s) | Stuck e => Stuck e end.
Definition st_stuck {S A} (e : stuck) : st S A := λ _, Stuck e.

(** [hoare P m Q]: from a state that satisfies [P] the computation [m]
    returns, with a result and a state that satisfy [Q]. *)
Definition hoare {S A} (P : S → Prop) (m : st S A) (Q : A → S → Prop) : Prop :=
  ∀ s, P s → ∃ a s', m s = Val (a, s') ∧ Q a s'.

(** What a computation returns when it returns: [returns m Q] says that
    every value [m] returns, from any state, satisfies [Q].  It says
    nothing of the runs that are stuck. *)
Definition returns {S A} (m : st S A) (Q : A → Prop) : Prop :=
  ∀ s a s', m s = Val (a, s') → Q a.

(** The same with the state the computation leaves. *)
Definition leaves {S A} (m : st S A) (Q : A → S → Prop) : Prop :=
  ∀ s a s', m s = Val (a, s') → Q a s'.

(** ** Build configuration *)

(** How the [LIBRDF_ASSERT_...] macros are compiled: to nothing, to a
    report followed by [return], or to a report followed by [abort()]. *)
Inductive assert_mode : Set := assert_off | assert_report | assert_die.

(** The compile-time switches the sources test. *)
Class BuildConfig : Set := {
  LIBRDF_ASSERT : assert_mode;
  WITH_THREADS : bool;
}.

(** The configuration of a default build: assertions report and return,
    thread support enabled. *)
Definition default_build : BuildConfig :=
  {| LIBRDF_ASSERT := assert_report; WITH_THREADS := true |}.

(** [LIBRDF_ASSERT_RETURN(condition, msg, ret)]: when [condition] holds the
    function returns [ret] (or aborts); compiled out, the function goes on. *)
Definition LIBRDF_ASSERT_RETURN `{BuildConfig} {A} (condition : bool) (ret : A)
    (k : res A) : res A :=
  if condition then
    match LIBRDF_ASSERT with
    | assert_off => k
    | assert_report => Val ret
    | assert_die => Stuck Abort
    end
  else k.

(** [LIBRDF_ASSERT_OBJECT_POINTER_RETURN_VALUE(pointer, type, ret)]: the same
    with the condition [!pointer]. *)
Definition LIBRDF_ASSERT_OBJECT_POINTER_RETURN_VALUE `{BuildConfig} {A B}
    (pointer : option B) (ret : A) (k : res A) : res A :=
  LIBRDF_ASSERT_RETURN (bool_decide (pointer = None :> option B)) ret k.

(** ** Addresses *)

(** A pointer to a heap object; [NULL] is address 0. *)
Abbreviation ptr := N.
Definition NULL : ptr := 0%N.
Definition is_null (p : ptr) : bool := bool_decide (p = NULL).

(** ** Machine integers *)

Definition INT_MAX : Z := 2147483647.
Definition INT_MIN : Z := -2147483648.
Definition SIZE_MAX : Z := 18446744073709551615.

(** Conversion to [unsigned char]. *)
Definition uchar (z : Z) : Z := z mod 256.

(** Conversion to a 32-bit [int] with two's complement wrap-around. *)
Definition int32 (z : Z) : Z := (z + 2147483648) mod 4294967296 - 2147483648.

(** Conversion to [size_t] (64 bits). *)
Definition size_t (z : Z) : Z := z mod 18446744073709551616.

Definition is_byte (z : Z) : Prop := 0 ≤ z < 256.
Definition is_bytes (l : list Z) : Prop := Forall is_byte l.

#[global] Instance is_byte_dec z : Decision (is_byte z).
Proof. unfold is_byte. apply _. Defined.

(** The length of a byte list as a [size_t]. *)
Definition blen (l : list Z) : Z := Z.of_nat (length l).

(** ** Big-endian length fields *)

(** The bytes [(n & 0xff00) >> 8] and [n & 0x00ff] the encoder stores for a
    16-bit field, and the four bytes of a 32-bit field. *)
Definition put16 (n : Z) : list Z :=
  [uchar (Z.shiftr (Z.land n 0xff00) 8); uchar (Z.land n 0x00ff)].

Definition put32 (n : Z) : list Z :=
  [uchar (Z.shiftr (Z.land n 0xff000000) 24);
   uchar (Z.shiftr (Z.land n 0x00ff0000) 16);
   uchar (Z.shiftr (Z.land n 0x0000ff00) 8);
   uchar (Z.land n 0x000000ff)].

(** [(b1 << 8) | b2], as the decoder reads a 16-bit field. *)
Definition get16 (b1 b2 : Z) : Z := Z.lor (Z.shiftl b1 8) b2.

(** [(b1 << 24) | (b2 << 16) | (b3 << 8) | b4] computed in [int] and
    converted to [size_t]: a first byte of 0x80 or more makes the [int]
    negative, and the conversion sign-extends it. *)
Definition get32 (b1 b2 b3 b4 : Z) : Z :=
  size_t (int32 (Z.lor (Z.lor (Z.lor (Z.shiftl b1 24) (Z.shiftl b2 16))
                              (Z.shiftl b3 8)) b4)).

(** ** Tactics and hint databases *)

Create HintDb rdf discriminated.
Create Rewrite HintDb rdf.

(** Linear arithmetic with the divisions and remainders by constants that
    byte extraction produces. *)
Ltac dlia := Z.div_mod_to_equations; lia.

(** Case analysis on the outcome a goal or hypothesis matches on. *)
Ltac case_res :=
  match goal with
  | |- context [match ?r with Val _ => _ | Stuck _ => _ end] =>
      let E := fresh "E" in destruct r eqn:E
  | H : context [match ?r with Val _ => _ | Stuck _ => _ end] |- _ =>
      let E := fresh "E" in destruct r eqn:E
  end.

(** Unfold the monad operations of [res] and [st]. *)
Ltac unfold_st :=
  unfold mbind, mret, st_bind, st_ret, res_bind, res_ret, fmap, res_fmap,
    st_get, st_put, st_modify, st_lift, st_stuck, of_option in *.

Ltac invc H := inversion H; subst; clear H.

(** Finish a bitwise identity left by [Z.bitblast]: bits at negative
    positions are false. *)
Ltac bits :=
  Z.bitblast;
  repeat match goal with
         | |- context [Z.testbit ?a ?i] =>
             rewrite (Z.testbit_neg_r a i) by lia
         end;
  try reflexivity.

(** ** Lemmas on outcomes *)

Section res_lemmas.
Context {A B : Type}.
Implicit Types (r : res A) (f : A → res B).

Lemma res_bind_val f a : (Val a ≫= f) = f a.
Proof. reflexivity. Qed.

Lemma res_bind_stuck f e : (Stuck e ≫= f) = Stuck e.
Proof. reflexivity. Qed.

Lemma res_bind_assoc {C} r f (g : B → res C) :
  ((r ≫= f) ≫= g) = (r ≫= λ a, f a ≫= g).
Proof. by destruct r. Qed.

Lemma res_bind_ret r : (r ≫= Val) = r.
Proof. by destruct r. Qed.

Lemma res_bind_inv f r b :
  (r ≫= f) = Val b → ∃ a, r = Val a ∧ f a = Val b.
Proof. destruct r; [eauto | discriminate]. Qed.

Lemma of_option_val (o : option A) a : of_option o = Val a ↔ o = Some a.
Proof. destruct o; simpl; split; congruence. Qed.

Lemma of_option_stuck (o : option A) e : of_option o = Stuck e → o = None.
Proof. destruct o; simpl; congruence. Qed.

End res_lemmas.

(** ** Running a computation on a state *)

Section st_lemmas.
Context {S A B : Type}.
Implicit Types (m : st S A) (k : A → st S B) (s : S).

Lemma st_bind_val m k s a s' : m s = Val (a, s') → (m ≫= k) s = k a s'.
Proof. unfold mbind, st_bind. by intros ->. Qed.

Lemma st_bind_stuck m k s e : m s = Stuck e → (m ≫= k) s = Stuck e.
Proof. unfold mbind, st_bind. by intros ->. Qed.

Lemma st_bind_inv m k s b s' :
  (m ≫= k) s = Val (b, s') → ∃ a s1, m s = Val (a, s1) ∧ k a s1 = Val (b, s').
Proof.
  unfold mbind, st_bind. destruct (m s) as [[a s1]|]; [eauto | discriminate].
Qed.

Lemma st_lift_val (r : res A) a s : r = Val a → st_lift r s = Val (a, s).
Proof. by intros ->. Qed.

Lemma st_lift_stuck (r : res A) e s : r = Stuck e → st_lift (S:=S) r s = Stuck e.
Proof. by intros ->. Qed.

Lemma st_lift_inv (r : res A) s s' a :
  st_lift r s = Val (a, s') → r = Val a ∧ s' = s.
Proof. unfold st_lift. destruct r; [|done]. by intros [= -> ->]. Qed.

(** *** The rules of the triples *)

Lemma hoare_ret (P : S → Prop) (Q : A → S → Prop) a :
  (∀ s, P s → Q a s) → hoare P (mret a) Q.
Proof. intros HQ s Hs. exists a, s. split; [done | by apply HQ]. Qed.

Lemma hoare_bind (P : S → Prop) (R : A → S → Prop) (Q : B → S → Prop) m k :
  hoare P m R → (∀ a, hoare (R a) (k a) Q) → hoare P (m ≫= k) Q.
Proof.
  intros Hm Hk s Hs. destruct (Hm s Hs) as (a & s1 & E & HR).
  destruct (Hk a s1 HR) as (b & s2 & E2 & HQ).
  exists b, s2. split; [by rewrite (st_bind_val _ _ _ _ _ E) | done].
Qed.

Lemma hoare_conseq (P P' : S → Prop) (Q Q' : A → S → Prop) m :
  hoare P' m Q' → (∀ s, P s → P' s) → (∀ a s, Q' a s → Q a s) →
  hoare P m Q.
Proof.
  intros Hm HP HQ s Hs. destruct (Hm s (HP s Hs)) as (a & s' & E & H').
  exists a, s'. eauto.
Qed.

Lemma hoare_pre (P P' : S → Prop) (Q : A → S → Prop) m :
  hoare P' m Q → (∀ s, P s → P' s) → hoare P m Q.
Proof. intros Hm HP. eapply hoare_conseq; eauto. Qed.

Lemma hoare_post (P : S → Prop) (Q Q' : A → S → Prop) m :
  hoare P m Q' → (∀ a s, Q' a s → Q a s) → hoare P m Q.
Proof. intros Hm HQ. eapply hoare_conseq; eauto. Qed.

(** A fact that does not depend on the state moves out of the
    precondition. *)
Lemma hoare_pure (φ : Prop) (P : S → Prop) (Q : A → S → Prop) m :
  (φ → hoare P m Q) → hoare (λ s, φ ∧ P s) m Q.
Proof. intros Hm s [Hφ Hs]. by apply Hm. Qed.

(** The initial state can be named. *)
Lemma hoare_state (P : S → Prop) (Q : A → S → Prop) m :
  (∀ s0, P s0 → hoare (λ s, s = s0) m Q) → hoare P m Q.
Proof. intros Hm s Hs. by apply (Hm s Hs). Qed.

Lemma hoare_lift (P : S → Prop) (Q : A → S → Prop) (r : res A) a :
  r = Val a → (∀ s, P s → Q a s) → hoare P (st_lift r) Q.
Proof. intros -> HQ s Hs. exists a, s. split; [done | by apply HQ]. Qed.

Lemma hoare_run (P : S → Prop) (Q : A → S → Prop) m :
  (∀ s, P s → ∃ a s', m s = Val (a, s') ∧ Q a s') → hoare P m Q.
Proof. done. Qed.

(** *** The rules of [returns] *)

Lemma returns_ret (Q : A → Prop) a : Q a → returns (S:=S) (mret a) Q.
Proof. intros HQ s a' s' [= <- _]. done. Qed.

Lemma returns_bind (R : A → Prop) (Q : B → Prop) m k :
  returns m R → (∀ a, R a → returns (k a) Q) → returns (m ≫= k) Q.
Proof.
  intros Hm Hk s b s' (a & s1 & E1 & E2)%st_bind_inv.
  exact (Hk a (Hm _ _ _ E1) _ _ _ E2).
Qed.

Lemma returns_bind_any (Q : B → Prop) m k :
  (∀ a, returns (k a) Q) → returns (m ≫= k) Q.
Proof. intros Hk. apply (returns_bind (λ _, True)); [done|]. by intros a _. Qed.

Lemma returns_mono (Q Q' : A → Prop) m :
  returns m Q → (∀ a, Q a → Q' a) → returns m Q'.
Proof. intros Hm HQ s a s' E. exact (HQ _ (Hm _ _ _ E)). Qed.

Lemma returns_lift (Q : A → Prop) (r : res A) :
  (∀ a, r = Val a → Q a) → returns (S:=S) (st_lift r) Q.
Proof.
  intros HQ s a s'. unfold st_lift. destruct r; [|done].
  intros [= <- _]. by apply HQ.
Qed.

Lemma returns_bind_lift (r : res A) (k : A → st S B) (Q : B → Prop) :
  (∀ a, r = Val a → returns (k a) Q) → returns (st_lift r ≫= k) Q.
Proof.
  intros Hk. apply (returns_bind (λ a, r = Val a)); [|done].
  by apply returns_lift.
Qed.

Lemma returns_and (Q1 Q2 : A → Prop) m :
  returns m Q1 → returns m Q2 → returns m (λ a, Q1 a ∧ Q2 a).
Proof. intros H1 H2 s a s' E. split; [eapply H1|eapply H2]; exact E. Qed.

Lemma leaves_ret (Q : A → S → Prop) a : (∀ s, Q a s) → leaves (mret a) Q.
Proof. intros HQ s a' s' [= <- <-]. apply HQ. Qed.

Lemma leaves_bind (R : A → Prop) (Q : B → S → Prop) m k :
  returns m R → (∀ a, R a → leaves (k a) Q) → leaves (m ≫= k) Q.
Proof.
  intros Hm Hk s b s' (a & s1 & E1 & E2)%st_bind_inv.
  exact (Hk a (Hm _ _ _ E1) _ _ _ E2).
Qed.

Lemma leaves_bind_any (Q : B → S → Prop) m k :
  (∀ a, leaves (k a) Q) → leaves (m ≫= k) Q.
Proof. intros Hk. apply (leaves_bind (λ _, True)); [done|]. by intros a _. Qed.

End st_lemmas.

(** One step of a computation, by the equation [E] that gives the outcome of
    its first call. *)
Ltac run E := rewrite (st_bind_val _ _ _ _ _ E).
Ltac run_lift E := rewrite (st_bind_val _ _ _ _ _ (st_lift_val _ _ _ E)).

Lemma hoare_get {S} (P : S → Prop) (Q : S → S → Prop) :
  (∀ s, P s → Q s s) → hoare P st_get Q.
Proof. intros HQ s Hs. exists s, s. split; [done | by apply HQ]. Qed.

Lemma hoare_modify {S} (P : S → Prop) (Q : unit → S → Prop) (f : S → S) :
  (∀ s, P s → Q tt (f s)) → hoare P (st_modify f) Q.
Proof. intros HQ s Hs. exists tt, (f s). split; [done | by apply HQ]. Qed.

#[export] Hint Rewrite @res_bind_val @res_bind_stuck : rdf.

(** ** Lemmas on machine integers *)

Lemma uchar_range z : is_byte (uchar z).
Proof. unfold is_byte, uchar. dlia. Qed.

Lemma uchar_small z : is_byte z → uchar z = z.
Proof. unfold is_byte, uchar. intros. by rewrite Z.mod_small. Qed.

Lemma int32_small z : INT_MIN ≤ z ≤ INT_MAX → int32 z = z.
Proof. unfold int32, INT_MIN, INT_MAX. intros. rewrite Z.mod_small; lia. Qed.

Lemma int32_range z : INT_MIN ≤ int32 z ≤ INT_MAX.
Proof. unfold int32, INT_MIN, INT_MAX. dlia. Qed.

Lemma size_t_small z : 0 ≤ z ≤ SIZE_MAX → size_t z = z.
Proof. unfold size_t, SIZE_MAX. intros. rewrite Z.mod_small; lia. Qed.

Lemma blen_nonneg l : 0 ≤ blen l.
Proof. unfold blen. lia. Qed.

Lemma blen_app l1 l2 : blen (l1 ++ l2) = blen l1 + blen l2.
Proof. unfold blen. rewrite length_app. lia. Qed.

Lemma blen_cons x l : blen (x :: l) = 1 + blen l.
Proof. unfold blen. simpl. lia. Qed.

Lemma blen_nil : blen [] = 0.
Proof. reflexivity. Qed.

#[export] Hint Rewrite blen_app blen_cons blen_nil : rdf.
#[export] Hint Resolve uchar_range blen_nonneg : rdf.

(** The byte the source extracts with a mask and a shift is a base-256 digit. *)
Lemma mask_shift n k :
  0 ≤ k → Z.shiftr (Z.land n (Z.shiftl 255 k)) k = (n / 2 ^ k) mod 256.
Proof.
  intros Hk. change 255 with (Z.ones 8). change 256 with (2 ^ 8).
  rewrite <- Z.land_ones, <- Z.shiftr_div_pow2 by lia. bits.
Qed.

Lemma mask_low n : Z.land n 255 = n mod 256.
Proof. change 255 with (Z.ones 8). by rewrite Z.land_ones. Qed.

Lemma land_shiftl_small hi lo k :
  0 ≤ k → 0 ≤ lo < 2 ^ k → Z.land (Z.shiftl hi k) lo = 0.
Proof.
  intros Hk H. rewrite <- (Z.mod_small lo (2 ^ k)) by done.
  rewrite <- Z.land_ones by lia. bits.
Qed.

(** [|] of a shifted high part and a small low part is their sum. *)
Lemma lor_shiftl_add hi lo k :
  0 ≤ k → 0 ≤ lo < 2 ^ k → Z.lor (Z.shiftl hi k) lo = hi * 2 ^ k + lo.
Proof.
  intros Hk H. pose proof (land_shiftl_small hi lo k Hk H).
  rewrite <- Z.lxor_lor, <- Z.add_nocarry_lxor by done.
  by rewrite Z.shiftl_mul_pow2.
Qed.

Lemma put16_digits n :
  put16 n = [(n / 256) mod 256; n mod 256].
Proof.
  unfold put16. change 0xff00 with (Z.shiftl 255 8).
  rewrite mask_shift, mask_low by lia. change (2 ^ 8) with 256.
  rewrite !uchar_small; [done | unfold is_byte; dlia..].
Qed.

Lemma put32_digits n :
  put32 n = [(n / 16777216) mod 256; (n / 65536) mod 256;
             (n / 256) mod 256; n mod 256].
Proof.
  unfold put32. change 0xff000000 with (Z.shiftl 255 24).
  change 0x00ff0000 with (Z.shiftl 255 16).
  change 0x0000ff00 with (Z.shiftl 255 8).
  rewrite !mask_shift, mask_low by lia.
  change (2 ^ 24) with 16777216. change (2 ^ 16) with 65536.
  change (2 ^ 8) with 256.
  rewrite !uchar_small; [done | unfold is_byte; dlia..].
Qed.

Lemma digit_add n m d :
  0 < d → ((n + 256 * m * d) / d) mod 256 = (n / d) mod 256.
Proof.
  intros. rewrite Z.div_add by lia.
  by rewrite (Z.mul_comm 256 m), Z_mod_plus_full.
Qed.

(** The four bytes of a 32-bit field drop everything from bit 32 up. *)
Lemma put32_wraps n : put32 (n + 2 ^ 32) = put32 n.
Proof.
  rewrite !put32_digits.
  rewrite <- (digit_add n 1 16777216), <- (digit_add n 256 65536),
    <- (digit_add n 65536 256) by done.
  by rewrite <- (Z.div_1_r n), <- (digit_add n 16777216 1), !Z.div_1_r.
Qed.

Lemma assert_pointer_none `{BuildConfig} {A B} (ret : A) (k : res A) :
  LIBRDF_ASSERT_OBJECT_POINTER_RETURN_VALUE (@None B) ret k
  = match LIBRDF_ASSERT with
    | assert_off => k
    | assert_report => Val ret
    | assert_die => Stuck Abort
    end.
Proof. reflexivity. Qed.

Lemma put16_bytes n : is_bytes (put16 n).
Proof. unfold put16. repeat constructor; apply uchar_range. Qed.

Lemma put32_bytes n : is_bytes (put32 n).
Proof. unfold put32. repeat constructor; apply uchar_range. Qed.

Lemma get16_add b1 b2 : is_byte b2 → get16 b1 b2 = b1 * 256 + b2.
Proof.
  unfold is_byte, get16. intros. rewrite lor_shiftl_add by lia. lia.
Qed.

Lemma get16_range b1 b2 : is_byte b1 → is_byte b2 → 0 ≤ get16 b1 b2 ≤ 0xFFFF.
Proof. intros H1 H2. rewrite get16_add by done. unfold is_byte in *. lia. Qed.

(** Round trip of a 16-bit length field: what the decoder reads from the two
    bytes the encoder stored is the length, provided it fits 16 bits. *)
Lemma get16_put16 n b1 b2 :
  0 ≤ n ≤ 0xFFFF → put16 n = [b1; b2] → get16 b1 b2 = n.
Proof.
  intros Hn. rewrite put16_digits. intros [= <- <-].
  rewrite get16_add by (unfold is_byte; dlia). dlia.
Qed.

(** Above 16 bits the field keeps the low 16 bits only. *)
Lemma get16_put16_mod n b1 b2 :
  0 ≤ n → put16 n = [b1; b2] → get16 b1 b2 = n mod 65536.
Proof.
  intros Hn. rewrite put16_digits. intros [= <- <-].
  rewrite get16_add by (unfold is_byte; dlia). dlia.
Qed.

Lemma get32_add b1 b2 b3 b4 :
  is_byte b1 → is_byte b2 → is_byte b3 → is_byte b4 →
  Z.lor (Z.lor (Z.lor (Z.shiftl b1 24) (Z.shiftl b2 16)) (Z.shiftl b3 8)) b4
  = b1 * 16777216 + b2 * 65536 + b3 * 256 + b4.
Proof.
  unfold is_byte. intros.
  rewrite (Z.shiftl_mul_pow2 b3), (Z.shiftl_mul_pow2 b2) by lia.
  change (2 ^ 8) with 256. change (2 ^ 16) with 65536.
  replace (Z.lor (Z.shiftl b1 24) (b2 * 65536))
    with (b1 * 16777216 + b2 * 65536).
  2:{ rewrite lor_shiftl_add by lia. lia. }
  replace (Z.lor (b1 * 16777216 + b2 * 65536) (b3 * 256))
    with (Z.lor (Z.shiftl (b1 * 256 + b2) 16) (b3 * 256)).
  2:{ rewrite Z.shiftl_mul_pow2 by lia. f_equal. lia. }
  rewrite lor_shiftl_add by lia.
  replace ((b1 * 256 + b2) * 2 ^ 16 + b3 * 256)
    with (Z.shiftl (b1 * 65536 + b2 * 256 + b3) 8).
  2:{ rewrite Z.shiftl_mul_pow2 by lia. lia. }
  rewrite lor_shiftl_add by lia. lia.
Qed.

(** Round trip of the 32-bit length field of tag N below 2^31. *)
Lemma get32_put32 n b1 b2 b3 b4 :
  0 ≤ n ≤ INT_MAX → put32 n = [b1; b2; b3; b4] → get32 b1 b2 b3 b4 = n.
Proof.
  unfold INT_MAX. intros Hn. rewrite put32_digits. intros [= <- <- <- <-].
  unfold get32. rewrite get32_add by (unfold is_byte; dlia).
  rewrite int32_small by (unfold INT_MIN, INT_MAX; dlia).
  rewrite size_t_small by (unfold SIZE_MAX; dlia). dlia.
Qed.
