(* ===== verification/CString.v ===== *)
(** * C strings and buffers

    The byte-level primitives [rdf_node.c] relies on, over memory objects
    represented as lists of bytes: a pointer into an object is the list of
    the bytes from the pointer to the end of the object.  Each operation is
    [Stuck UB] exactly when the C function would read or write outside the
    object.  The lemmas give their behaviour on NUL-terminated strings
    ([s ++ 0 :: t] with [0 ∉ s]) and the frame and length facts the codec
    proofs share. *)

From Stdlib Require String Ascii.
Export Stdlib.Strings.String.StringSyntax.
Delimit Scope string_scope with string.
From S2P Require Import Prelude.

#[local] Open Scope Z_scope.

(** ** Reading *)

(** [strlen(s)]: the index of the first NUL; undefined when the object holds
    none. *)
Fixpoint strlen_opt (s : list Z) : option Z :=
  match s with
  | [] => None
  | c :: s' => if decide (c = 0) then Some 0 else Z.succ <$> strlen_opt s'
  end.

Definition strlen (s : list Z) : res Z := of_option (strlen_opt s).

(** The bytes of the C string at [s], without its terminator. *)
Fixpoint c_str_opt (s : list Z) : option (list Z) :=
  match s with
  | [] => None
  | c :: s' => if decide (c = 0) then Some [] else (c ::.) <$> c_str_opt s'
  end.

Definition c_str (s : list Z) : res (list Z) := of_option (c_str_opt s).

(** [p + n] for a pointer [p] into an object: the object from offset [n];
    undefined beyond one past the end. *)
Definition ptr_add (s : list Z) (n : Z) : res (list Z) :=
  if decide (0 ≤ n ≤ blen s) then Val (drop (Z.to_nat n) s) else Stuck UB.

(** [p[n]]. *)
Definition load (s : list Z) (n : Z) : res Z :=
  if decide (0 ≤ n) then of_option (s !! Z.to_nat n) else Stuck UB.

(** The [n] bytes [memcpy] reads from [src]. *)
Definition memcpy_bytes (src : list Z) (n : Z) : res (list Z) :=
  if decide (0 ≤ n ≤ blen src) then Val (take (Z.to_nat n) src) else Stuck UB.

(** The [n] bytes [strncpy(dst, src, n)] writes: the bytes of [src] up to
    its terminator, padded with NULs to length [n]; or the first [n] bytes of
    [src], unterminated, when no NUL occurs among them. *)
Fixpoint strncpy_opt (src : list Z) (n : nat) {struct n} : option (list Z) :=
  match n with
  | O => Some []
  | S n' =>
      match src with
      | [] => None
      | c :: src' =>
          if decide (c = 0) then Some (replicate (S n') 0)
          else (c ::.) <$> strncpy_opt src' n'
      end
  end.

Definition strncpy_bytes (src : list Z) (n : Z) : res (list Z) :=
  if decide (0 ≤ n) then of_option (strncpy_opt src (Z.to_nat n))
  else Stuck UB.

(** [strncmp(a, b, n) == 0]: the strings agree on their first [n] bytes or up
    to a common terminator. *)
Fixpoint strncmp_eq_opt (a b : list Z) (n : nat) {struct n} : option bool :=
  match n with
  | O => Some true
  | S n' =>
      match a, b with
      | ca :: a', cb :: b' =>
          if decide (ca = cb)
          then (if decide (ca = 0) then Some true else strncmp_eq_opt a' b' n')
          else Some false
      | _, _ => None
      end
  end.

Definition strncmp_eq (a b : list Z) (n : Z) : res bool :=
  if decide (0 ≤ n) then of_option (strncmp_eq_opt a b (Z.to_nat n))
  else Stuck UB.

Definition strcmp_eq (a b : list Z) : res bool :=
  strncmp_eq a b (Z.max (blen a) (blen b)).

(** ** Writing *)

(** A block of [n] bytes as [malloc] returns it: its content is whatever
    [junk] the allocator left there. *)
Definition malloc_bytes (junk : list Z) (n : Z) : list Z :=
  take (Z.to_nat n) (junk ++ replicate (Z.to_nat n) 0).

(** Overwrite [bytes] at offset [off] of [buf]; undefined when they do not
    fit. *)
Definition poke (buf : list Z) (off : Z) (bytes : list Z) : res (list Z) :=
  if decide (0 ≤ off ∧ off + blen bytes ≤ blen buf)
  then Val (take (Z.to_nat off) buf ++ bytes
            ++ drop (Z.to_nat off + length bytes) buf)
  else Stuck UB.

(** [buf[off] = v], stored as an [unsigned char]. *)
Definition store (buf : list Z) (off : Z) (v : Z) : res (list Z) :=
  poke buf off [uchar v].

(** [strcpy(buf + off, src)]: copies the string and its terminator. *)
Definition strcpy (buf : list Z) (off : Z) (src : list Z) : res (list Z) :=
  s ← c_str src; poke buf off (s ++ [0]).

(** ** ASCII *)

Definition ascii (s : String.string) : list Z :=
  (λ a, Z.of_nat (Ascii.nat_of_ascii a)) <$> String.list_ascii_of_string s.
Arguments ascii s%_string.

Definition is_digit (c : Z) : bool := bool_decide (48 ≤ c ≤ 57).
Definition is_space (c : Z) : bool :=
  bool_decide (c = 32 ∨ 9 ≤ c ≤ 13).

(** The digits [atoi] consumes, accumulated in an [int]; undefined on
    overflow and on an unterminated string. *)
Fixpoint atoi_digits (s : list Z) (acc : Z) : res Z :=
  match s with
  | [] => Stuck UB
  | c :: s' =>
      if is_digit c
      then (let acc' := acc * 10 + (c - 48) in
            if decide (acc' ≤ INT_MAX) then atoi_digits s' acc'
            else Stuck UB)
      else Val acc
  end.

Fixpoint atoi_skip (s : list Z) : res (list Z) :=
  match s with
  | [] => Stuck UB
  | c :: s' => if is_space c then atoi_skip s' else Val s
  end.

(** [atoi(s)]: optional white space, an optional sign, then decimal digits. *)
Definition atoi (s : list Z) : res Z :=
  s1 ← atoi_skip s;
  match s1 with
  | 45 :: s2 => Z.opp <$> atoi_digits s2 0
  | 43 :: s2 => atoi_digits s2 0
  | _ => atoi_digits s1 0
  end.

(** The decimal digits of a non-negative number, as [sprintf("%d")] prints
    them. *)
Fixpoint decimal_fuel (fuel : nat) (n : Z) (acc : list Z) : list Z :=
  match fuel with
  | O => acc
  | S f =>
      let acc' := (48 + n mod 10) :: acc in
      if decide (n < 10) then acc' else decimal_fuel f (n / 10) acc'
  end.

Definition decimal (n : Z) : list Z := decimal_fuel (Z.to_nat n + 1) n [].

(** ** NUL-terminated strings *)

Section cstring_lemmas.
Implicit Types (s t buf bytes : list Z) (n off : Z).

Lemma strlen_opt_cstr s t : 0 ∉ s → strlen_opt (s ++ 0 :: t) = Some (blen s).
Proof.
  induction s as [|c s IH]; simpl; intros Hs; [done|].
  apply not_elem_of_cons in Hs as [Hc Hs].
  rewrite decide_False, IH, blen_cons by done. simpl. f_equal. lia.
Qed.

Lemma strlen_cstr s t : 0 ∉ s → strlen (s ++ 0 :: t) = Val (blen s).
Proof. intros. unfold strlen. by rewrite strlen_opt_cstr. Qed.

Lemma c_str_opt_cstr s t : 0 ∉ s → c_str_opt (s ++ 0 :: t) = Some s.
Proof.
  induction s as [|c s IH]; simpl; intros Hs; [done|].
  apply not_elem_of_cons in Hs as [Hc Hs].
  by rewrite decide_False, IH.
Qed.

Lemma c_str_cstr s t : 0 ∉ s → c_str (s ++ 0 :: t) = Val s.
Proof. intros. unfold c_str. by rewrite c_str_opt_cstr. Qed.

(** What [c_str] returns is NUL-free and is followed by a NUL in the
    object. *)
Lemma c_str_opt_inv s r :
  c_str_opt s = Some r → (0 ∉ r) ∧ (∃ t, s = r ++ 0 :: t).
Proof.
  revert r. induction s as [|c s IH]; simpl; intros r; [done|].
  case_decide as Hc.
  - intros [= <-]. subst. split; [apply not_elem_of_nil | by exists s].
  - destruct (c_str_opt s) as [r'|] eqn:E; simpl; [|done].
    intros [= <-]. destruct (IH r' eq_refl) as (Hr & t & ->).
    split; [by apply not_elem_of_cons | by exists t].
Qed.

Lemma strlen_opt_c_str_opt s :
  strlen_opt s = blen <$> c_str_opt s.
Proof.
  induction s as [|c s IH]; simpl; [done|]. case_decide; [done|].
  rewrite IH. destruct (c_str_opt s); simpl; [|done].
  rewrite blen_cons. f_equal. lia.
Qed.

Lemma strlen_c_str s r : c_str s = Val r → strlen s = Val (blen r).
Proof.
  unfold c_str, strlen. rewrite strlen_opt_c_str_opt.
  destruct (c_str_opt s); simpl; congruence.
Qed.

Lemma strncpy_opt_length s (k : nat) r :
  strncpy_opt s k = Some r → length r = k.
Proof.
  revert s r. induction k as [|k IH]; intros s r; simpl; intros H.
  - by simplify_eq.
  - destruct s as [|c s]; [done|]. case_decide.
    + simplify_eq. simpl. by rewrite length_replicate.
    + destruct (strncpy_opt s k) eqn:E; simplify_eq/=. f_equal. eauto.
Qed.

(** Copying exactly the length of a NUL-free prefix copies the prefix. *)
Lemma strncpy_opt_prefix s t : 0 ∉ s → strncpy_opt (s ++ t) (length s) = Some s.
Proof.
  induction s as [|c s IH]; simpl; intros Hs; [done|].
  apply not_elem_of_cons in Hs as [Hc Hs].
  by rewrite decide_False, IH.
Qed.

Lemma strncpy_bytes_prefix s t :
  0 ∉ s → strncpy_bytes (s ++ t) (blen s) = Val s.
Proof.
  intros Hs. unfold strncpy_bytes, blen.
  rewrite decide_True by lia. rewrite Nat2Z.id.
  by rewrite strncpy_opt_prefix.
Qed.

(** A NUL inside the counted range cuts the copy short and pads it. *)
Lemma strncpy_opt_nul s t (k : nat) :
  0 ∉ s → (length s < k)%nat →
  strncpy_opt (s ++ 0 :: t) k = Some (s ++ replicate (k - length s) 0).
Proof.
  revert k. induction s as [|c s IH]; simpl; intros k Hs Hk.
  - destruct k; [lia|]. done.
  - apply not_elem_of_cons in Hs as [Hc Hs].
    destruct k; [lia|]. simpl. rewrite decide_False by done.
    rewrite IH by (done || lia). done.
Qed.

Lemma strncpy_bytes_length s n r : strncpy_bytes s n = Val r → blen r = n.
Proof.
  unfold strncpy_bytes. case_decide; [|done].
  intros Hr%of_option_val%strncpy_opt_length. unfold blen. lia.
Qed.

Lemma poke_length buf off bytes r :
  poke buf off bytes = Val r → length r = length buf.
Proof.
  unfold poke, blen. case_decide as H; [|done]. intros [= <-].
  rewrite !length_app, length_take, length_drop. lia.
Qed.

Lemma poke_blen buf off bytes r : poke buf off bytes = Val r → blen r = blen buf.
Proof. intros H%poke_length. unfold blen. by rewrite H. Qed.

(** Writing at the start of a buffer that is exactly as long as the bytes
    written leaves nothing of the old content. *)
Lemma poke_all buf bytes :
  length buf = length bytes → poke buf 0 bytes = Val bytes.
Proof.
  intros H. unfold poke, blen. rewrite decide_True by lia. simpl.
  rewrite drop_ge by lia. by rewrite app_nil_r.
Qed.

(** Writing a prefix: the rest of the buffer is unchanged. *)
Lemma poke_0 buf bytes :
  (length bytes ≤ length buf)%nat →
  poke buf 0 bytes = Val (bytes ++ drop (length bytes) buf).
Proof. intros H. unfold poke, blen. by rewrite decide_True by lia. Qed.

(** Writing after what was already written. *)
Lemma poke_app_r pre old off bytes :
  off = blen pre → (length bytes ≤ length old)%nat →
  poke (pre ++ old) off bytes = Val (pre ++ bytes ++ drop (length bytes) old).
Proof.
  intros -> H. unfold poke, blen.
  rewrite decide_True by (rewrite length_app; lia).
  rewrite Nat2Z.id, take_app_length, drop_app_add'; done.
Qed.

Lemma poke_val_inv buf off bytes x :
  poke buf off bytes = Val x →
  0 ≤ off ∧ off + blen bytes ≤ blen buf ∧
  x = take (Z.to_nat off) buf ++ bytes
      ++ drop (Z.to_nat off + length bytes) buf.
Proof. unfold poke. case_decide; [|done]. intros [= <-]. tauto. Qed.

Lemma poke_stuck_inv buf off bytes e :
  poke buf off bytes = Stuck e →
  e = UB ∧ ¬ (0 ≤ off ∧ off + blen bytes ≤ blen buf).
Proof. unfold poke. case_decide; [done|]. by intros [= <-]. Qed.

(** Two writes, the second right after the first, are one write of the
    concatenation; so is the failure of either. *)
Lemma poke_poke buf off a c x :
  poke buf off a = Val x → poke x (off + blen a) c = poke buf off (a ++ c).
Proof.
  intros (Hoff & Hfit & ->)%poke_val_inv.
  assert (length (take (Z.to_nat off) buf) = Z.to_nat off) as HT
    by (rewrite length_take; unfold blen in *; lia).
  set (T := take (Z.to_nat off) buf) in *.
  unfold poke. rewrite !blen_app. unfold blen in *.
  rewrite !length_app, length_drop, HT.
  replace (Z.to_nat (off + Z.of_nat (length a)))
    with (length T + length a)%nat by lia.
  destruct (decide (0 ≤ off ∧ off + (Z.of_nat (length a) + Z.of_nat (length c))
                              ≤ Z.of_nat (length buf))) as [Hc|Hc].
  - case_decide as Hd; [|exfalso; lia]. f_equal.
    rewrite (app_assoc T a).
    rewrite (take_app_length' (T ++ a) _ (length T + length a)%nat)
      by (symmetry; apply length_app).
    rewrite (drop_app_add' (T ++ a) _ (length T + length a)%nat)
      by (symmetry; apply length_app).
    rewrite drop_drop, <- !app_assoc. by rewrite Nat.add_assoc.
  - case_decide as Hd; [exfalso; lia|done].
Qed.

Lemma poke_app_stuck buf off a c e :
  poke buf off a = Stuck e → poke buf off (a ++ c) = Stuck e.
Proof.
  intros [-> Hn]%poke_stuck_inv. unfold poke. rewrite decide_False; [done|].
  rewrite blen_app. pose proof (blen_nonneg c). lia.
Qed.

Lemma poke_seq_k {A} buf off a c off' (k : list Z → res A) :
  off' = off + blen a →
  (x ← poke buf off a; y ← poke x off' c; k y)
  = (y ← poke buf off (a ++ c); k y).
Proof.
  intros ->. destruct (poke buf off a) as [x|e] eqn:E; simpl.
  - by rewrite (poke_poke _ _ _ _ _ E).
  - by rewrite (poke_app_stuck _ _ _ _ _ E).
Qed.

Lemma poke_seq buf off a c off' :
  off' = off + blen a →
  (x ← poke buf off a; poke x off' c) = poke buf off (a ++ c).
Proof.
  intros ->. destruct (poke buf off a) as [x|e] eqn:E; simpl.
  - by rewrite (poke_poke _ _ _ _ _ E).
  - by rewrite (poke_app_stuck _ _ _ _ _ E).
Qed.

Lemma poke_out_of_bounds buf off bytes :
  blen buf < off + blen bytes → poke buf off bytes = Stuck UB.
Proof. intros H. unfold poke. rewrite decide_False; [done | lia]. Qed.

Lemma store_app_r pre old off v x :
  off = blen pre → store (pre ++ x :: old) off v = Val (pre ++ uchar v :: old).
Proof.
  intros ->. unfold store. by rewrite poke_app_r by (done || simpl; lia).
Qed.

Lemma strcpy_app_r pre old off s t :
  off = blen pre → 0 ∉ s → (length s < length old)%nat →
  strcpy (pre ++ old) off (s ++ 0 :: t)
  = Val (pre ++ s ++ 0 :: drop (S (length s)) old).
Proof.
  intros Hoff Hs Hlen. unfold strcpy. rewrite c_str_cstr by done. simpl.
  rewrite poke_app_r by (done || rewrite length_app; simpl; lia).
  by rewrite length_app, <- app_assoc, Nat.add_1_r.
Qed.

Lemma malloc_bytes_length junk n : 0 ≤ n → blen (malloc_bytes junk n) = n.
Proof.
  intros Hn. unfold malloc_bytes, blen.
  rewrite length_take, length_app, length_replicate. lia.
Qed.

Lemma ptr_add_app s t n : n = blen s → ptr_add (s ++ t) n = Val t.
Proof.
  intros ->. unfold ptr_add, blen. rewrite decide_True.
  - by rewrite Nat2Z.id, drop_app_length.
  - rewrite length_app. lia.
Qed.

Lemma load_app s t c n : n = blen s → load (s ++ c :: t) n = Val c.
Proof.
  intros ->. unfold load, blen. rewrite decide_True by lia.
  rewrite Nat2Z.id. by rewrite list_lookup_middle.
Qed.

End cstring_lemmas.

#[export] Hint Rewrite strlen_cstr c_str_cstr strncpy_bytes_prefix
  using done : rdf.
