(* ===== verification/Hash.v ===== *)
(** * The hash tables of the node module

    [rdf_node.c] keeps its intern tables in [librdf_hash] objects, which it
    only uses through [librdf_hash_get_one], [librdf_hash_put] and
    [librdf_hash_delete_all] on [librdf_hash_datum] keys and values.  The
    hash module is not part of the sources, so this file states what the
    node module needs of it as a class of operations with laws
    ([HashTable]), proves the derived facts the lifecycle proofs use from
    the laws alone, and implements the class by finite maps ([gmap_hash]).

    Tables are compared by their lookups ([hash_equiv]): the laws do not
    determine a table up to equality, only up to what [librdf_hash_get_one]
    returns, and the operations respect that equivalence. *)

From S2P Require Import Prelude.

(** A [librdf_hash_datum]: a pointer to [size] bytes.  The node module
    stores two kinds: the bytes of a pointer variable ([key.data = &new_uri;
    key.size = sizeof(librdf_uri* )]) and a byte string ([key.data = buffer;
    key.size = size]). *)
Inductive librdf_hash_datum : Set :=
| datum_ptr (p : ptr)
| datum_bytes (b : list Z).

#[global] Instance librdf_hash_datum_eq_dec : EqDecision librdf_hash_datum.
Proof. solve_decision. Defined.

#[global] Instance librdf_hash_datum_countable : Countable librdf_hash_datum.
Proof.
  refine (inj_countable'
    (λ d, match d with datum_ptr p => inl p | datum_bytes b => inr b end)
    (λ s, match s with inl p => datum_ptr p | inr b => datum_bytes b end) _).
  by intros [].
Defined.

(** [*(librdf_node** )datum->data]: reading a datum as a pointer is defined
    only for a datum that holds one. *)
Definition datum_as_ptr (d : librdf_hash_datum) : res ptr :=
  match d with datum_ptr p => Val p | datum_bytes _ => Stuck UB end.

(** What the node module relies on: a lookup that returns a stored value, an
    insertion that makes the key found, a deletion that makes it not found,
    and none of them disturbing other keys.  [hash_put] on a key that is
    already present is left unspecified (a [librdf_hash] then holds two
    values for the key); the node module never does it. *)
Class HashTable (T : Type) : Type := {
  hash_empty : T;
  hash_get_one : T → librdf_hash_datum → option librdf_hash_datum;
  hash_put : T → librdf_hash_datum → librdf_hash_datum → T;
  hash_delete_all : T → librdf_hash_datum → T;
  hash_get_empty k : hash_get_one hash_empty k = None;
  hash_get_put_eq t k v :
    hash_get_one t k = None → hash_get_one (hash_put t k v) k = Some v;
  hash_get_put_ne t k k' v :
    k ≠ k' → hash_get_one (hash_put t k v) k' = hash_get_one t k';
  hash_get_delete_eq t k : hash_get_one (hash_delete_all t k) k = None;
  hash_get_delete_ne t k k' :
    k ≠ k' → hash_get_one (hash_delete_all t k) k' = hash_get_one t k';
}.

#[export] Hint Rewrite @hash_get_empty @hash_get_delete_eq : rdf.
#[export] Hint Rewrite @hash_get_put_eq @hash_get_put_ne @hash_get_delete_ne
  using done : rdf.

(** Two tables are equivalent when every lookup agrees. *)
Definition hash_equiv `{HashTable T} (t1 t2 : T) : Prop :=
  ∀ k, hash_get_one t1 k = hash_get_one t2 k.

#[global] Instance hash_equiv_instance `{HashTable T} : Equiv T := hash_equiv.

Section hash_laws.
Context `{HashTable T}.
Implicit Types (t : T) (k v : librdf_hash_datum).

#[global] Instance hash_equiv_equivalence : Equivalence (≡@{T}).
Proof.
  split.
  - by intros t k.
  - intros t1 t2 E k. by rewrite (E k).
  - intros t1 t2 t3 E1 E2 k. by rewrite (E1 k), (E2 k).
Qed.

#[global] Instance hash_get_one_proper :
  Proper ((≡@{T}) ==> (=) ==> (=)) hash_get_one.
Proof. intros t1 t2 E k ? <-. apply E. Qed.

#[global] Instance hash_delete_all_proper :
  Proper ((≡@{T}) ==> (=) ==> (≡@{T})) hash_delete_all.
Proof.
  intros t1 t2 E k ? <- k'. destruct (decide (k = k')) as [->|].
  - by rewrite !hash_get_delete_eq.
  - by rewrite !hash_get_delete_ne, (E k').
Qed.

(** Insertion respects the equivalence on tables that do not hold the
    key. *)
Lemma hash_put_proper t1 t2 k v :
  t1 ≡ t2 → hash_get_one t1 k = None → hash_put t1 k v ≡ hash_put t2 k v.
Proof.
  intros E Hk k'. destruct (decide (k = k')) as [<-|].
  - rewrite !hash_get_put_eq; [done | by rewrite <- (E k) | done].
  - by rewrite !hash_get_put_ne, (E k').
Qed.

(** Lookup after insertion, by cases on the key. *)
Lemma hash_get_put t k k' v :
  hash_get_one t k = None →
  hash_get_one (hash_put t k v) k'
  = if decide (k = k') then Some v else hash_get_one t k'.
Proof.
  intros. case_decide as E; [subst; by apply hash_get_put_eq|].
  by apply hash_get_put_ne.
Qed.

Lemma hash_get_delete t k k' :
  hash_get_one (hash_delete_all t k) k'
  = if decide (k = k') then None else hash_get_one t k'.
Proof.
  case_decide as E; [subst; apply hash_get_delete_eq|].
  by apply hash_get_delete_ne.
Qed.

(** Deleting the key just inserted gives back the table, up to lookups. *)
Lemma hash_delete_put t k v :
  hash_get_one t k = None → hash_delete_all (hash_put t k v) k ≡ t.
Proof.
  intros Hk k'. rewrite hash_get_delete. case_decide; [by subst|].
  by rewrite hash_get_put_ne.
Qed.

(** Deleting an absent key changes no lookup: the "not found" result that
    [librdf_free_node] ignores. *)
Lemma hash_delete_absent t k :
  hash_get_one t k = None → hash_delete_all t k ≡ t.
Proof. intros Hk k'. rewrite hash_get_delete. case_decide; by subst. Qed.

End hash_laws.

(** ** The implementation by finite maps *)

#[global] Program Instance gmap_hash :
  HashTable (gmap librdf_hash_datum librdf_hash_datum) := {|
  hash_empty := ∅;
  hash_get_one t k := t !! k;
  hash_put t k v := <[k := v]> t;
  hash_delete_all t k := delete k t;
|}.
Next Obligation. intros. apply lookup_empty. Qed.
Next Obligation. intros. apply lookup_insert_eq. Qed.
Next Obligation. intros. by apply lookup_insert_ne. Qed.
Next Obligation. intros. apply lookup_delete_eq. Qed.
Next Obligation. intros. by apply lookup_delete_ne. Qed.

(** On finite maps the equivalence is equality. *)
Lemma gmap_hash_equiv_eq (t1 t2 : gmap librdf_hash_datum librdf_hash_datum) :
  hash_equiv t1 t2 ↔ t1 = t2.
Proof. split; [apply map_eq | by intros ->]. Qed.
