(* ===== verification/Uri.v ===== *)
(** * URI objects

    The URI module is an external collaborator of [rdf_node.c]: the node
    module calls [librdf_new_uri], [librdf_new_uri_from_uri],
    [librdf_free_uri], [librdf_uri_as_counted_string], [librdf_uri_as_string]
    and [librdf_uri_equals], and keys its resource table by the address of
    the URI object.  Its source is not in the repository; this file models
    what the specification says of it: URI objects are canonical (one object
    per string in a world), reference counted, and compared by identity.

    A URI table is the heap of URI objects with the index that interns them
    by string.  [uri_table_wf] is the invariant of the URI module (the index
    and the heap agree, every live object has a positive count, strings are
    NUL free) and every operation preserves it. *)

From S2P Require Import Prelude CString.

#[local] Open Scope Z_scope.

(** A URI object: its string (without the terminating NUL, which
    [librdf_uri_as_string] adds back) and its reference count. *)
Record librdf_uri : Set := {
  uri_string : list Z;
  uri_usage : Z;
}.

#[global] Instance librdf_uri_eq_dec : EqDecision librdf_uri.
Proof. solve_decision. Defined.

Record uri_table : Type := {
  uris : gmap N librdf_uri;
  uris_hash : gmap (list Z) N;
}.

Definition uri_table_empty : uri_table := {| uris := ∅; uris_hash := ∅ |}.

(** An address that holds no object of the heap [m] and is not [NULL]. *)
Definition fresh_ptr {A} (m : gmap N A) : ptr :=
  fresh ({[NULL]} ∪ dom m).

(** ** Reading *)

(** [librdf_uri_as_counted_string(uri, &len)]: the NUL-terminated string of
    the object and its length. *)
Definition librdf_uri_as_counted_string (ut : uri_table) (uri : ptr)
  : res (list Z * Z) :=
  u ← of_option (uris ut !! uri);
  mret (uri_string u ++ [0], blen (uri_string u)).

Definition librdf_uri_as_string (ut : uri_table) (uri : ptr) : res (list Z) :=
  fst <$> librdf_uri_as_counted_string ut uri.

(** [librdf_uri_equals]: identity of the objects; 0 when either is NULL. *)
Definition librdf_uri_equals (first_uri second_uri : ptr) : bool :=
  if is_null first_uri || is_null second_uri then false
  else bool_decide (first_uri = second_uri).

(** ** Reference counting *)

(** The object interned for a string, if one is live. *)
Definition uri_find (ut : uri_table) (s : list Z) : option ptr :=
  uris_hash ut !! s.

(** The table with the count of the object [u] at [uri] set to [n]. *)
Definition uri_set_usage (ut : uri_table) (uri : ptr) (u : librdf_uri) (n : Z)
  : uri_table :=
  {| uris := <[uri := {| uri_string := uri_string u; uri_usage := n |}]> (uris ut);
     uris_hash := uris_hash ut |}.

(** One more reference to a live object ([librdf_new_uri_from_uri], and
    [librdf_new_uri] on a string already interned). *)
Definition uri_ref (ut : uri_table) (uri : ptr) : res uri_table :=
  u ← of_option (uris ut !! uri);
  mret (uri_set_usage ut uri u (int32 (uri_usage u + 1))).

(** A new object for a string that is not interned yet. *)
Definition uri_insert (ut : uri_table) (s : list Z) : ptr * uri_table :=
  let p := fresh_ptr (uris ut) in
  (p, {| uris := <[p := {| uri_string := s; uri_usage := 1 |}]> (uris ut);
         uris_hash := <[s := p]> (uris_hash ut) |}).

(** [librdf_new_uri] once its memory is there: the object interned for the
    string with one more reference, or a new object. *)
Definition uri_new (ut : uri_table) (s : list Z) : res (ptr * uri_table) :=
  match uri_find ut s with
  | Some p => ut' ← uri_ref ut p; Val (p, ut')
  | None => Val (uri_insert ut s)
  end.

(** [librdf_free_uri] on a live object: one reference less; the object is
    removed from the index and freed when none is left. *)
Definition uri_release (ut : uri_table) (uri : ptr) : res uri_table :=
  u ← of_option (uris ut !! uri);
  let usage' := int32 (uri_usage u - 1) in
  if decide (usage' = 0)
  then mret {| uris := delete uri (uris ut);
               uris_hash := delete (uri_string u) (uris_hash ut) |}
  else mret (uri_set_usage ut uri u usage').

(** ** The invariant of the URI module *)

Record uri_table_wf (ut : uri_table) : Prop := {
  uri_wf_null : uris ut !! NULL = None;
  uri_wf_index s p :
    uris_hash ut !! s = Some p ↔
    ∃ u, uris ut !! p = Some u ∧ uri_string u = s;
  uri_wf_usage p u : uris ut !! p = Some u → 1 ≤ uri_usage u ≤ INT_MAX;
  uri_wf_string p u : uris ut !! p = Some u → 0 ∉ uri_string u;
}.

Section uri_lemmas.
Implicit Types (ut : uri_table) (p uri : ptr) (s : list Z) (u : librdf_uri).

Lemma fresh_ptr_fresh {A} (m : gmap N A) : m !! fresh_ptr m = None.
Proof.
  apply not_elem_of_dom. unfold fresh_ptr.
  pose proof (is_fresh ({[NULL]} ∪ dom m)). set_solver.
Qed.

Lemma fresh_ptr_not_null {A} (m : gmap N A) : fresh_ptr m ≠ NULL.
Proof.
  unfold fresh_ptr. pose proof (is_fresh ({[NULL]} ∪ dom m)). set_solver.
Qed.

Lemma uri_table_empty_wf : uri_table_wf uri_table_empty.
Proof.
  split; simpl; intros; rewrite ?lookup_empty in *; try done.
  split; [done | by intros (? & ? & ?)].
Qed.

(** Canonical objects: two live objects with the same string are the same
    object. *)
Lemma uri_canonical ut p1 p2 u1 u2 :
  uri_table_wf ut →
  uris ut !! p1 = Some u1 → uris ut !! p2 = Some u2 →
  uri_string u1 = uri_string u2 → p1 = p2.
Proof.
  intros Hwf H1 H2 Hs.
  assert (uris_hash ut !! uri_string u1 = Some p1) as E1
    by (apply (uri_wf_index _ Hwf); eauto).
  assert (uris_hash ut !! uri_string u1 = Some p2) as E2
    by (apply (uri_wf_index _ Hwf); eauto).
  congruence.
Qed.

Lemma uri_find_Some ut s p :
  uri_table_wf ut → uri_find ut s = Some p →
  ∃ u, uris ut !! p = Some u ∧ uri_string u = s.
Proof. intros Hwf. apply (uri_wf_index _ Hwf). Qed.

Lemma uri_find_None ut s p u :
  uri_table_wf ut → uri_find ut s = None →
  uris ut !! p = Some u → uri_string u ≠ s.
Proof.
  intros Hwf Hf Hp Hs. unfold uri_find in Hf.
  assert (uris_hash ut !! s = Some p) by (apply (uri_wf_index _ Hwf); eauto).
  congruence.
Qed.

Lemma uri_as_counted_string_val ut uri u :
  uris ut !! uri = Some u →
  librdf_uri_as_counted_string ut uri
  = Val (uri_string u ++ [0], blen (uri_string u)).
Proof. intros H. unfold librdf_uri_as_counted_string. by rewrite H. Qed.

Lemma uri_as_counted_string_inv ut uri str len :
  librdf_uri_as_counted_string ut uri = Val (str, len) →
  ∃ u, uris ut !! uri = Some u ∧ str = uri_string u ++ [0]
       ∧ len = blen (uri_string u).
Proof.
  unfold librdf_uri_as_counted_string.
  destruct (uris ut !! uri) as [u|]; simpl; [|done].
  intros [= <- <-]. eauto.
Qed.

Lemma uri_insert_wf ut s :
  uri_table_wf ut → uri_find ut s = None → 0 ∉ s →
  uri_table_wf (uri_insert ut s).2.
Proof.
  intros Hwf Hf Hs. pose proof (fresh_ptr_fresh (uris ut)) as Hfr.
  pose proof (fresh_ptr_not_null (uris ut)) as Hnn. split; simpl.
  - rewrite lookup_insert_ne by done. apply Hwf.
  - intros s' p. rewrite !lookup_insert. repeat case_decide; subst.
    all: rewrite ?(uri_wf_index _ Hwf).
    all: try (split; [intros ?|intros (u & ? & ?)]; simplify_eq/=; eauto; fail).
    + split; [by intros [= ?] | intros (u & Hu & Hsu)].
      by eapply uri_find_None in Hf.
    + split; intros (u & Hu & Hsu); simplify_eq/=.
  - intros p u. rewrite lookup_insert. case_decide.
    + intros [= <-]. simpl. unfold INT_MAX. lia.
    + apply Hwf.
  - intros p u. rewrite lookup_insert. case_decide.
    + by intros [= <-].
    + apply Hwf.
Qed.

(** Changing the count of a live object to another positive count keeps the
    invariant. *)
Lemma uri_set_usage_wf ut uri u n :
  uri_table_wf ut → uris ut !! uri = Some u → 1 ≤ n ≤ INT_MAX →
  uri_table_wf (uri_set_usage ut uri u n).
Proof.
  intros Hwf Hu Hn. split; simpl.
  - rewrite lookup_insert_ne; [apply Hwf|]. intros ->.
    pose proof (uri_wf_null _ Hwf). congruence.
  - intros s p. rewrite (uri_wf_index _ Hwf), lookup_insert.
    case_decide; subst; [|done].
    split; intros (u' & Hu' & <-); simplify_eq/=; eauto.
  - intros p u'. rewrite lookup_insert. case_decide.
    + by intros [= <-].
    + apply Hwf.
  - intros p u'. rewrite lookup_insert. case_decide.
    + intros [= <-]. simpl. by eapply uri_wf_string.
    + apply Hwf.
Qed.

(** Removing a live object together with its index entry keeps the
    invariant. *)
Lemma uri_remove_wf ut uri u :
  uri_table_wf ut → uris ut !! uri = Some u →
  uri_table_wf {| uris := delete uri (uris ut);
                  uris_hash := delete (uri_string u) (uris_hash ut) |}.
Proof.
  intros Hwf Hu. split; simpl.
  - rewrite lookup_delete_ne; [apply Hwf|]. intros ->.
    pose proof (uri_wf_null _ Hwf). congruence.
  - intros s p. rewrite !lookup_delete. repeat case_decide; subst.
    all: rewrite ?(uri_wf_index _ Hwf).
    all: try (split; [intros ?|intros (u' & ? & ?)]; simplify_eq/=; eauto; fail).
    + split; [done|]. intros (u' & Hu' & Hs).
      destruct H0. eapply uri_canonical; eauto.
    + split; intros (u' & Hu' & Hs); simplify_eq.
  - intros p u'. rewrite lookup_delete. case_decide; [done | apply Hwf].
  - intros p u'. rewrite lookup_delete. case_decide; [done | apply Hwf].
Qed.

Lemma uri_ref_wf ut uri ut' :
  uri_table_wf ut → uri_ref ut uri = Val ut' →
  (∀ u, uris ut !! uri = Some u → uri_usage u < INT_MAX) →
  uri_table_wf ut'.
Proof.
  intros Hwf. unfold uri_ref.
  destruct (uris ut !! uri) as [u|] eqn:Hu; simpl; [|done].
  intros [= <-] Hlt. specialize (Hlt u eq_refl).
  pose proof (uri_wf_usage _ Hwf _ _ Hu).
  rewrite int32_small by (unfold INT_MIN; lia).
  apply uri_set_usage_wf; [done..|lia].
Qed.

Lemma uri_release_wf ut uri ut' :
  uri_table_wf ut → uri_release ut uri = Val ut' → uri_table_wf ut'.
Proof.
  intros Hwf. unfold uri_release.
  destruct (uris ut !! uri) as [u|] eqn:Hu; simpl; [|done].
  pose proof (uri_wf_usage _ Hwf _ _ Hu) as Hus.
  rewrite int32_small by (unfold INT_MIN, INT_MAX in *; lia).
  case_decide as Hz; intros [= <-].
  - by apply uri_remove_wf.
  - apply uri_set_usage_wf; [done..|lia].
Qed.

Lemma uri_ref_val ut p u :
  uris ut !! p = Some u → uri_usage u < INT_MAX → 1 ≤ uri_usage u →
  uri_ref ut p = Val (uri_set_usage ut p u (uri_usage u + 1)).
Proof.
  intros Hu Hlt Hge. unfold uri_ref. rewrite Hu. simpl.
  by rewrite int32_small by (unfold INT_MIN, INT_MAX in *; lia).
Qed.

(** A reference taken and given back leaves the table as it was. *)
Lemma uri_ref_release ut p u :
  uri_table_wf ut → uris ut !! p = Some u → uri_usage u < INT_MAX →
  uri_release (uri_set_usage ut p u (uri_usage u + 1)) p = Val ut.
Proof.
  intros Hwf Hu Hlt. pose proof (uri_wf_usage _ Hwf _ _ Hu).
  unfold uri_release. simpl. rewrite lookup_insert_eq. simpl.
  rewrite int32_small by (unfold INT_MIN, INT_MAX in *; lia).
  rewrite decide_False by lia. unfold uri_set_usage. simpl.
  destruct ut as [m hm], u as [str us]. simpl in *. f_equal. f_equal.
  rewrite insert_insert_eq. replace (us + 1 - 1) with us by lia.
  by apply insert_id.
Qed.

(** So does a URI object created and released. *)
Lemma uri_insert_release ut s :
  uri_table_wf ut → uri_find ut s = None →
  uri_release (uri_insert ut s).2 (uri_insert ut s).1 = Val ut.
Proof.
  intros Hwf Hf. unfold uri_release, uri_insert. simpl.
  rewrite lookup_insert_eq. simpl. unfold mret, res_ret.
  destruct ut as [m hm]. simpl in *. f_equal. f_equal.
  - apply delete_insert_id, fresh_ptr_fresh.
  - by apply delete_insert_id.
Qed.

(** [uri_new] returns a live object of the string, and releasing it gives
    the table back. *)
Lemma uri_new_spec ut s :
  uri_table_wf ut → 0 ∉ s →
  (∀ p u, uris ut !! p = Some u → uri_usage u < INT_MAX) →
  ∃ p ut', uri_new ut s = Val (p, ut') ∧ p ≠ NULL
           ∧ uri_table_wf ut' ∧ uri_release ut' p = Val ut
           ∧ (∃ u, uris ut' !! p = Some u ∧ uri_string u = s)
           ∧ (uri_find ut s = None → p = fresh_ptr (uris ut)).
Proof.
  intros Hwf Hs Hroom. unfold uri_new.
  destruct (uri_find ut s) as [p|] eqn:Hf.
  - destruct (uri_find_Some _ _ _ Hwf Hf) as (u & Hu & <-).
    pose proof (uri_wf_usage _ Hwf _ _ Hu).
    rewrite (uri_ref_val _ _ _ Hu) by (eauto || lia). simpl.
    eexists p, _. split_and!; [done| | | | |done].
    + intros ->. pose proof (uri_wf_null _ Hwf). congruence.
    + apply uri_set_usage_wf; [done..|]. specialize (Hroom _ _ Hu). lia.
    + apply uri_ref_release; eauto.
    + eexists. simpl. by rewrite lookup_insert_eq.
  - exists (uri_insert ut s).1, (uri_insert ut s).2.
    split_and!; [done| | | | |done].
    + apply fresh_ptr_not_null.
    + by apply uri_insert_wf.
    + by apply uri_insert_release.
    + eexists. simpl. by rewrite lookup_insert_eq.
Qed.

End uri_lemmas.
