(* ===== verification/Node.v ===== *)
(** * Node values and their accessors

    The [librdf_node] structure as [rdf_node.c] uses it (a type tag, a usage
    count and a union of three payloads), and the functions of the file that
    only read a node: the typed accessors, the type predicates, the ordinal
    of a container-membership property and the debug writer.

    An accessor takes [Some n] for a pointer to the node object [n] and
    [None] for a NULL pointer.  The string blocks a node owns are stored in
    it by value (they are written once, by the constructor); a [char*]
    field that the code tests against NULL is an [option].  Reading a union
    member other than the one the tag selects is [Stuck UB]. *)

From S2P Require Import Prelude CString Uri.

#[local] Open Scope Z_scope.

(** ** The structure *)

(** [librdf_node_type]; the numeric values are those of the name table of
    [librdf_node_get_type_as_string] ("Blank" at index 4). *)
Inductive librdf_node_type : Set :=
| LIBRDF_NODE_TYPE_UNKNOWN
| LIBRDF_NODE_TYPE_RESOURCE
| LIBRDF_NODE_TYPE_LITERAL
| LIBRDF_NODE_TYPE_BLANK.

#[global] Instance librdf_node_type_eq_dec : EqDecision librdf_node_type.
Proof. solve_decision. Defined.

Definition LIBRDF_NODE_TYPE_LAST : Z := 4.

Definition node_type_value (t : librdf_node_type) : Z :=
  match t with
  | LIBRDF_NODE_TYPE_UNKNOWN => 0
  | LIBRDF_NODE_TYPE_RESOURCE => 1
  | LIBRDF_NODE_TYPE_LITERAL => 2
  | LIBRDF_NODE_TYPE_BLANK => 4
  end.

(** [value.literal]: the string block ([string_len + 1] bytes), the
    datatype URI (or NULL), the language block (or NULL) and the cached
    encoding [key] of [size] bytes. *)
Record literal_value : Set := {
  literal_string : option (list Z);
  literal_string_len : Z;
  literal_datatype_uri : N;
  literal_xml_language : option (list Z);
  literal_xml_language_len : Z;
  literal_key : option (list Z);
  literal_size : Z;
}.

(** [value.blank]. *)
Record blank_value : Set := {
  blank_identifier : option (list Z);
  blank_identifier_len : Z;
}.

(** The tag and the union together; [value_unknown] is the state of a
    zeroed structure ([LIBRDF_NODE_TYPE_UNKNOWN]). *)
Inductive node_value : Set :=
| value_unknown
| value_resource (uri : N)
| value_literal (l : literal_value)
| value_blank (b : blank_value).

Record librdf_node : Set := {
  node_usage : Z;
  node_value_of : node_value;
}.

#[global] Instance literal_value_eq_dec : EqDecision literal_value.
Proof. solve_decision. Defined.
#[global] Instance blank_value_eq_dec : EqDecision blank_value.
Proof. solve_decision. Defined.
#[global] Instance node_value_eq_dec : EqDecision node_value.
Proof. solve_decision. Defined.
#[global] Instance librdf_node_eq_dec : EqDecision librdf_node.
Proof. solve_decision. Defined.

(** [node->type]. *)
Definition node_type (n : librdf_node) : librdf_node_type :=
  match node_value_of n with
  | value_unknown => LIBRDF_NODE_TYPE_UNKNOWN
  | value_resource _ => LIBRDF_NODE_TYPE_RESOURCE
  | value_literal _ => LIBRDF_NODE_TYPE_LITERAL
  | value_blank _ => LIBRDF_NODE_TYPE_BLANK
  end.

(** [node->value.resource.uri], [node->value.literal] and
    [node->value.blank]. *)
Definition value_resource_uri (n : librdf_node) : res ptr :=
  match node_value_of n with value_resource u => Val u | _ => Stuck UB end.

Definition value_literal_of (n : librdf_node) : res literal_value :=
  match node_value_of n with value_literal l => Val l | _ => Stuck UB end.

Definition value_blank_of (n : librdf_node) : res blank_value :=
  match node_value_of n with value_blank b => Val b | _ => Stuck UB end.

Definition with_usage (n : librdf_node) (u : Z) : librdf_node :=
  {| node_usage := u; node_value_of := node_value_of n |}.

(** ** External functions the readers call *)

(** Functions of raptor and of the UTF-8 module, left uninterpreted: the
    bytes [raptor_string_ntriples_write(string, len, delim, iostr)] emits,
    and the result of [librdf_utf8_to_latin1]. *)
Class Externals : Type := {
  raptor_string_ntriples_write : list Z → Z → Z → list Z;
  librdf_utf8_to_latin1 : list Z → Z → option (list Z);
}.

Section accessors.
Context `{BuildConfig} `{Externals}.

(** ** Accessors *)

Definition librdf_node_get_uri (node : option librdf_node) : res ptr :=
  LIBRDF_ASSERT_OBJECT_POINTER_RETURN_VALUE node NULL (
    n ← of_option node;
    if decide (node_type n ≠ LIBRDF_NODE_TYPE_RESOURCE) then Val NULL
    else value_resource_uri n).

Definition librdf_node_get_type (node : option librdf_node)
  : res librdf_node_type :=
  LIBRDF_ASSERT_OBJECT_POINTER_RETURN_VALUE node LIBRDF_NODE_TYPE_UNKNOWN (
    n ← of_option node; Val (node_type n)).

Definition librdf_node_type_names : list (list Z) :=
  [ascii "Unknown"; ascii "Resource"; ascii "Literal"; ascii "<Unused1>";
   ascii "Blank"].

Definition librdf_node_get_type_as_string (type : Z) : option (list Z) :=
  if decide (type < 0 ∨ type > LIBRDF_NODE_TYPE_LAST) then None
  else librdf_node_type_names !! Z.to_nat type.

Definition librdf_node_get_literal_value (node : option librdf_node)
  : res (option (list Z)) :=
  LIBRDF_ASSERT_OBJECT_POINTER_RETURN_VALUE node None (
    n ← of_option node;
    if decide (node_type n ≠ LIBRDF_NODE_TYPE_LITERAL) then Val None
    else literal_string <$> value_literal_of n).

(** With a [len_p] the length is stored through it: the result carries the
    value written, [None] when nothing is written. *)
Definition librdf_node_get_literal_value_as_counted_string
    (node : option librdf_node) (len_p : bool)
  : res (option (list Z) * option Z) :=
  LIBRDF_ASSERT_OBJECT_POINTER_RETURN_VALUE node (None, None) (
    n ← of_option node;
    LIBRDF_ASSERT_RETURN
      (bool_decide (node_type n ≠ LIBRDF_NODE_TYPE_LITERAL)) (None, None) (
      if decide (node_type n ≠ LIBRDF_NODE_TYPE_LITERAL) then Val (None, None)
      else
        l ← value_literal_of n;
        Val (literal_string l,
             if len_p then Some (literal_string_len l) else None))).

Definition librdf_node_get_literal_value_as_latin1 (node : option librdf_node)
  : res (option (list Z)) :=
  LIBRDF_ASSERT_OBJECT_POINTER_RETURN_VALUE node None (
    n ← of_option node;
    LIBRDF_ASSERT_RETURN
      (bool_decide (node_type n ≠ LIBRDF_NODE_TYPE_LITERAL)) None (
      if decide (node_type n ≠ LIBRDF_NODE_TYPE_LITERAL) then Val None
      else
        l ← value_literal_of n;
        s ← of_option (literal_string l);
        Val (librdf_utf8_to_latin1 s (literal_string_len l)))).

Definition librdf_node_get_literal_value_language (node : option librdf_node)
  : res (option (list Z)) :=
  LIBRDF_ASSERT_OBJECT_POINTER_RETURN_VALUE node None (
    n ← of_option node;
    LIBRDF_ASSERT_RETURN
      (bool_decide (node_type n ≠ LIBRDF_NODE_TYPE_LITERAL)) None (
      if decide (node_type n ≠ LIBRDF_NODE_TYPE_LITERAL) then Val None
      else literal_xml_language <$> value_literal_of n)).

(** [XMLLiteral_URI] is [LIBRDF_RS_XMLLiteral_URI(node->world)]. *)
Definition librdf_node_get_literal_value_is_wf_xml (XMLLiteral_URI : ptr)
    (node : option librdf_node) : res Z :=
  LIBRDF_ASSERT_OBJECT_POINTER_RETURN_VALUE node 0 (
    n ← of_option node;
    LIBRDF_ASSERT_RETURN
      (bool_decide (node_type n ≠ LIBRDF_NODE_TYPE_LITERAL)) 0 (
      if decide (node_type n ≠ LIBRDF_NODE_TYPE_LITERAL) then Val 0
      else
        l ← value_literal_of n;
        if is_null (literal_datatype_uri l) then Val 0
        else Val (if librdf_uri_equals (literal_datatype_uri l) XMLLiteral_URI
                  then 1 else 0))).

Definition librdf_node_get_literal_value_datatype_uri
    (node : option librdf_node) : res ptr :=
  LIBRDF_ASSERT_OBJECT_POINTER_RETURN_VALUE node NULL (
    n ← of_option node;
    LIBRDF_ASSERT_RETURN
      (bool_decide (node_type n ≠ LIBRDF_NODE_TYPE_LITERAL)) NULL (
      if decide (node_type n ≠ LIBRDF_NODE_TYPE_LITERAL) then Val NULL
      else literal_datatype_uri <$> value_literal_of n)).

(** The prefix of the container-membership properties rdf:_1, rdf:_2, ... *)
Definition rdf_li_prefix : list Z :=
  ascii "http://www.w3.org/1999/02/22-rdf-syntax-ns#_".

Definition librdf_node_get_li_ordinal (ut : uri_table)
    (node : option librdf_node) : res Z :=
  LIBRDF_ASSERT_OBJECT_POINTER_RETURN_VALUE node 0 (
    n ← of_option node;
    LIBRDF_ASSERT_RETURN
      (bool_decide (node_type n ≠ LIBRDF_NODE_TYPE_RESOURCE)) 0 (
      if decide (node_type n ≠ LIBRDF_NODE_TYPE_RESOURCE) then Val (-1)
      else
        uri ← value_resource_uri n;
        uri_string ← librdf_uri_as_string ut uri;
        same ← strncmp_eq uri_string (rdf_li_prefix ++ [0]) 44;
        if negb same then Val (-1)
        else rest ← ptr_add uri_string 44; atoi rest)).

(** The one accessor without a test of the tag after its assertion: with
    assertions compiled out it reads the blank member of whatever node it is
    given. *)
Definition librdf_node_get_blank_identifier (node : option librdf_node)
  : res (option (list Z)) :=
  LIBRDF_ASSERT_OBJECT_POINTER_RETURN_VALUE node None (
    n ← of_option node;
    LIBRDF_ASSERT_RETURN
      (bool_decide (node_type n ≠ LIBRDF_NODE_TYPE_BLANK)) None (
      blank_identifier <$> value_blank_of n)).

Definition librdf_node_get_counted_blank_identifier
    (node : option librdf_node) (len_p : bool)
  : res (option (list Z) * option Z) :=
  LIBRDF_ASSERT_OBJECT_POINTER_RETURN_VALUE node (None, None) (
    n ← of_option node;
    LIBRDF_ASSERT_RETURN
      (bool_decide (node_type n ≠ LIBRDF_NODE_TYPE_BLANK)) (None, None) (
      b ← value_blank_of n;
      Val (blank_identifier b,
           if len_p then Some (blank_identifier_len b) else None))).

(** ** Predicates *)

Definition librdf_node_is_resource (node : option librdf_node) : res Z :=
  LIBRDF_ASSERT_OBJECT_POINTER_RETURN_VALUE node 0 (
    n ← of_option node;
    Val (if decide (node_type n = LIBRDF_NODE_TYPE_RESOURCE) then 1 else 0)).

Definition librdf_node_is_literal (node : option librdf_node) : res Z :=
  LIBRDF_ASSERT_OBJECT_POINTER_RETURN_VALUE node 0 (
    n ← of_option node;
    Val (if decide (node_type n = LIBRDF_NODE_TYPE_LITERAL) then 1 else 0)).

Definition librdf_node_is_blank (node : option librdf_node) : res Z :=
  LIBRDF_ASSERT_OBJECT_POINTER_RETURN_VALUE node 0 (
    n ← of_option node;
    Val (if decide (node_type n = LIBRDF_NODE_TYPE_BLANK) then 1 else 0)).

(** [librdf_node_equals]: the two pointers are compared, not the objects. *)
Definition librdf_node_equals (first_node second_node : ptr) : res Z :=
  LIBRDF_ASSERT_RETURN (is_null first_node) 0 (
    LIBRDF_ASSERT_RETURN (is_null second_node) 0 (
      if is_null first_node || is_null second_node then Val 0
      else Val (if decide (first_node = second_node) then 1 else 0))).

(** ** The debug writer *)

Definition null_string : list Z := ascii "(null)".
Definition NULL_STRING_LENGTH : Z := 6.

(** [librdf_node_write(node, iostr)]: the status returned and the bytes
    appended to the iostream ([iostr] is [None] for a NULL iostream). *)
Definition librdf_node_write (ut : uri_table) (node : option librdf_node)
    (iostr : option (list Z)) : res (Z * option (list Z)) :=
  LIBRDF_ASSERT_OBJECT_POINTER_RETURN_VALUE iostr (1, iostr) (
    out ← of_option iostr;
    match node with
    | None =>
        bytes ← memcpy_bytes null_string NULL_STRING_LENGTH;
        Val (0, Some (out ++ bytes))
    | Some n =>
        match node_value_of n with
        | value_literal l =>
            s ← of_option (literal_string l);
            let out1 := out ++ [34]
              ++ raptor_string_ntriples_write s (literal_string_len l) 34
              ++ [34] in
            out2 ← match literal_xml_language l with
                   | Some lang => lang' ← c_str lang; Val (out1 ++ [64] ++ lang')
                   | None => Val out1
                   end;
            out3 ← (if is_null (literal_datatype_uri l) then Val out2
                    else
                      '(term, len) ← librdf_uri_as_counted_string ut
                                       (literal_datatype_uri l);
                      Val (out2 ++ ascii "^^<"
                           ++ raptor_string_ntriples_write term len 62
                           ++ [62]));
            Val (0, Some out3)
        | value_blank b =>
            term ← of_option (blank_identifier b);
            bytes ← memcpy_bytes term (blank_identifier_len b);
            Val (0, Some (out ++ ascii "_:" ++ bytes))
        | value_resource uri =>
            '(term, len) ← librdf_uri_as_counted_string ut uri;
            Val (0, Some (out ++ [60]
                          ++ raptor_string_ntriples_write term len 62
                          ++ [62]))
        | value_unknown => Stuck Abort
        end
    end).

(** [librdf_node_to_counted_string]: the writer run on a fresh string
    iostream ([iostr_ok] tells whether [raptor_new_iostream_to_string]
    succeeded); the string and, through [len_p], its length. *)
Definition librdf_node_to_counted_string (ut : uri_table)
    (node : option librdf_node) (iostr_ok : bool)
  : res (option (list Z) * option Z) :=
  LIBRDF_ASSERT_OBJECT_POINTER_RETURN_VALUE node (None, None) (
    if negb iostr_ok then Val (None, None)
    else
      r ← librdf_node_write ut node (Some []);
      let len : option Z := blen <$> r.2 in
      if decide (r.1 ≠ 0) then Val (@None (list Z), len)
      else Val (r.2, len)).

Definition librdf_node_to_string (ut : uri_table) (node : option librdf_node)
    (iostr_ok : bool) : res (option (list Z)) :=
  fst <$> librdf_node_to_counted_string ut node iostr_ok.

(** [librdf_node_print(node, fh)]: the bytes written to the file handle
    ([fh] is [None] for a NULL handle). *)
Definition librdf_node_print (ut : uri_table) (node : option librdf_node)
    (fh : option (list Z)) (iostr_ok : bool) : res (option (list Z)) :=
  match LIBRDF_ASSERT_OBJECT_POINTER_RETURN_VALUE node true
          (LIBRDF_ASSERT_OBJECT_POINTER_RETURN_VALUE fh true (Val false)) with
  | Val true => Val fh
  | Val false =>
      match node with
      | None => Val fh
      | Some _ =>
          if negb iostr_ok then Val fh
          else snd <$> librdf_node_write ut node fh
      end
  | Stuck e => Stuck e
  end.

End accessors.

(** ** Lemmas: the accessors by variant *)

Section accessor_lemmas.
Context `{BuildConfig} `{Externals}.
Implicit Types (n : librdf_node) (l : literal_value) (b : blank_value).

Lemma node_type_resource n :
  node_type n = LIBRDF_NODE_TYPE_RESOURCE ↔ ∃ u, node_value_of n = value_resource u.
Proof. unfold node_type. destruct (node_value_of n); naive_solver. Qed.

Lemma node_type_literal n :
  node_type n = LIBRDF_NODE_TYPE_LITERAL ↔ ∃ l, node_value_of n = value_literal l.
Proof. unfold node_type. destruct (node_value_of n); naive_solver. Qed.

Lemma node_type_blank n :
  node_type n = LIBRDF_NODE_TYPE_BLANK ↔ ∃ b, node_value_of n = value_blank b.
Proof. unfold node_type. destruct (node_value_of n); naive_solver. Qed.

(** On a non-NULL pointer the assertion on the pointer is transparent. *)
Lemma assert_pointer_some {A B} (x : B) (ret : A) (k : res A) :
  LIBRDF_ASSERT_OBJECT_POINTER_RETURN_VALUE (Some x) ret k = k.
Proof. reflexivity. Qed.

Lemma assert_return_false {A} (ret : A) (k : res A) :
  LIBRDF_ASSERT_RETURN false ret k = k.
Proof. reflexivity. Qed.

End accessor_lemmas.

#[export] Hint Rewrite @assert_pointer_some @assert_return_false : rdf.
