(* ===== verification/Encode.v ===== *)
(** * The encoder

    [librdf_node_encode(node, buffer, length)] of [rdf_node.c], both phases:
    with a NULL buffer it returns the number of bytes the encoding needs,
    with a buffer it also writes them.  The model returns the value of the
    function, the buffer after the call, and the error it logged if any.

    The buffer is the object the caller passes, of whatever size it really
    has; [length] is what the caller says.  The function checks [length]
    only when it is not 0, so a write can run past the object: that outcome
    is [Stuck UB].  [strcpy] stops at the first NUL of its source, so a
    string with an embedded NUL leaves the bytes after it in the buffer as
    they were.

    [wire_format] is the byte layout of the specification (one tag byte,
    big-endian lengths, NUL-terminated payloads); the theorems show that on
    a well-formed node the encoder writes exactly that layout. *)

From S2P Require Import Prelude CString Uri Node.

#[local] Open Scope Z_scope.

(** The errors the encoder logs with [librdf_log]. *)
Inductive encode_error : Set :=
| uri_too_long (n : Z)
| datatype_uri_too_long (n : Z)
| language_too_long (n : Z)
| blank_identifier_too_long (n : Z)
| unknown_node_type.

#[global] Instance encode_error_eq_dec : EqDecision encode_error.
Proof. solve_decision. Defined.

(** What a call leaves behind: the value returned, the buffer, the error
    logged. *)
Definition encode_result : Type := Z * option (list Z) * option encode_error.

Definition encode_fail (buffer : option (list Z)) (e : option encode_error)
  : res encode_result := Val (0, buffer, e).

(** ** The three cases of the [switch] *)

(** [case LIBRDF_NODE_TYPE_RESOURCE] and [case LIBRDF_NODE_TYPE_BLANK] share
    their layout: a tag, a 16-bit length, the string and its NUL. *)
Definition encode_short (tag : Z) (too_long : Z → encode_error)
    (string : option (list Z)) (string_length : Z)
    (buffer : option (list Z)) (length : Z) : res encode_result :=
  let total_length := 3 + string_length + 1 in
  if decide (length ≠ 0 ∧ total_length > length) then encode_fail buffer None
  else if decide (string_length > 0xFFFF)
  then encode_fail buffer (Some (too_long string_length))
  else
    match buffer with
    | None => Val (total_length, None, None)
    | Some b =>
        b ← store b 0 tag;
        b ← store b 1 (Z.shiftr (Z.land string_length 0xff00) 8);
        b ← store b 2 (Z.land string_length 0x00ff);
        s ← of_option string;
        b ← strcpy b 3 s;
        Val (total_length, Some b, None)
    end.

Definition encode_resource (ut : uri_table) (uri : ptr)
    (buffer : option (list Z)) (length : Z) : res encode_result :=
  sl ← librdf_uri_as_counted_string ut uri;
  encode_short 82 uri_too_long (Some sl.1) sl.2 buffer length.

Definition encode_blank (b : blank_value)
    (buffer : option (list Z)) (length : Z) : res encode_result :=
  encode_short 66 blank_identifier_too_long
    (blank_identifier b) (blank_identifier_len b) buffer length.

(** The header of a literal: tag N with a 32-bit string length above
    0xFFFF, tag M with a 16-bit one otherwise; the new position of
    [buffer]. *)
Definition encode_literal_header (b : list Z)
    (string_length datatype_uri_length language_length : Z)
  : res (list Z * Z) :=
  if decide (string_length > 0xFFFF) then
    b ← store b 0 78;
    b ← store b 1 (Z.shiftr (Z.land string_length 0xff000000) 24);
    b ← store b 2 (Z.shiftr (Z.land string_length 0x00ff0000) 16);
    b ← store b 3 (Z.shiftr (Z.land string_length 0x0000ff00) 8);
    b ← store b 4 (Z.land string_length 0x000000ff);
    b ← store b 5 (Z.shiftr (Z.land datatype_uri_length 0xff00) 8);
    b ← store b 6 (Z.land datatype_uri_length 0x00ff);
    b ← store b 7 (Z.land language_length 0x00ff);
    Val (b, 8)
  else
    b ← store b 0 77;
    b ← store b 1 (Z.shiftr (Z.land string_length 0xff00) 8);
    b ← store b 2 (Z.land string_length 0x00ff);
    b ← store b 3 (Z.shiftr (Z.land datatype_uri_length 0xff00) 8);
    b ← store b 4 (Z.land datatype_uri_length 0x00ff);
    b ← store b 5 (Z.land language_length 0x00ff);
    Val (b, 6).

(** The size the encoding of a literal needs. *)
Definition literal_total_length
    (string_length datatype_uri_length language_length : Z) : Z :=
  let total_length := 6 + string_length + 1 in
  let total_length :=
    if decide (string_length > 0xFFFF) then total_length + 2
    else total_length in
  let total_length :=
    if decide (language_length ≠ 0) then total_length + (language_length + 1)
    else total_length in
  if decide (datatype_uri_length ≠ 0)
  then total_length + (datatype_uri_length + 1)
  else total_length.

(** The block [if(buffer) { ... }] of the literal case: the header, then the
    string, the datatype URI and the language, each copied with [strcpy] and
    followed by an advance of [buffer] by the recorded length plus one. *)
Definition encode_literal_language (b : list Z) (off : Z)
    (xml_language : option (list Z)) (language_length : Z) : res (list Z) :=
  if decide (language_length ≠ 0) then
    lang ← of_option xml_language;
    strcpy b off lang
  else Val b.

Definition encode_literal_fill (b : list Z)
    (string : option (list Z)) (string_length : Z)
    (datatype_uri_string : option (list Z)) (datatype_uri_length : Z)
    (xml_language : option (list Z)) (language_length : Z) : res (list Z) :=
  h ← encode_literal_header b string_length datatype_uri_length
         language_length;
  s ← of_option string;
  b ← strcpy h.1 h.2 s;
  let off := h.2 + (string_length + 1) in
  if decide (datatype_uri_length ≠ 0) then
    d ← of_option datatype_uri_string;
    b ← strcpy b off d;
    encode_literal_language b (off + (datatype_uri_length + 1))
      xml_language language_length
  else encode_literal_language b off xml_language language_length.

Definition encode_literal (ut : uri_table) (l : literal_value)
    (buffer : option (list Z)) (length : Z) : res encode_result :=
  let string := literal_string l in
  let string_length := literal_string_len l in
  let language_length :=
    match literal_xml_language l with
    | Some _ => literal_xml_language_len l
    | None => 0
    end in
  dt ← (if is_null (literal_datatype_uri l) then Val (None, 0)
        else sl ← librdf_uri_as_counted_string ut (literal_datatype_uri l);
             Val (Some sl.1, sl.2));
  let datatype_uri_string : option (list Z) := dt.1 in
  let datatype_uri_length : Z := dt.2 in
  let total_length :=
    literal_total_length string_length datatype_uri_length language_length in
  if decide (length ≠ 0 ∧ total_length > length) then encode_fail buffer None
  else if decide (datatype_uri_length > 0xFFFF)
  then encode_fail buffer (Some (datatype_uri_too_long datatype_uri_length))
  else if decide (language_length > 0xFF)
  then encode_fail buffer (Some (language_too_long language_length))
  else
    match buffer with
    | None => Val (total_length, None, None)
    | Some b =>
        b ← encode_literal_fill b string string_length
               datatype_uri_string datatype_uri_length
               (literal_xml_language l) language_length;
        Val (total_length, Some b, None)
    end.

(** ** [librdf_node_encode] *)

Section encode.
Context `{BuildConfig}.

Definition librdf_node_encode (ut : uri_table) (node : option librdf_node)
    (buffer : option (list Z)) (length : Z) : res encode_result :=
  LIBRDF_ASSERT_OBJECT_POINTER_RETURN_VALUE node (0, buffer, None) (
    n ← of_option node;
    match node_value_of n with
    | value_resource uri => encode_resource ut uri buffer length
    | value_literal l => encode_literal ut l buffer length
    | value_blank b => encode_blank b buffer length
    | value_unknown => encode_fail buffer (Some unknown_node_type)
    end).

(** The value the function returns. *)
Definition encode_size (r : encode_result) : Z := r.1.1.
Definition encode_buffer (r : encode_result) : option (list Z) := r.1.2.
Definition encode_logged (r : encode_result) : option encode_error := r.2.

End encode.

(** ** The wire format of the specification *)

(** An RDF term by content. *)
Inductive term : Set :=
| term_resource (uri : list Z)
| term_literal (string : list Z) (datatype : option (list Z))
    (language : option (list Z))
| term_blank (identifier : list Z).

#[global] Instance term_eq_dec : EqDecision term.
Proof. solve_decision. Defined.

(** A big-endian field of [k] bytes. *)
Fixpoint be (k : nat) (n : Z) : list Z :=
  match k with
  | O => []
  | S k' => (n / 256 ^ Z.of_nat k') mod 256 :: be k' n
  end.

Definition opt_len (o : option (list Z)) : Z := from_option blen 0 o.
Definition opt_payload (o : option (list Z)) : list Z :=
  match o with
  | Some s => if decide (blen s = 0) then [] else s ++ [0]
  | None => []
  end.

(** The layout table: tag, header, payloads. *)
Definition wire_format (t : term) : list Z :=
  match t with
  | term_resource uri => [82] ++ be 2 (blen uri) ++ uri ++ [0]
  | term_blank id => [66] ++ be 2 (blen id) ++ id ++ [0]
  | term_literal s dt lang =>
      (if decide (blen s ≤ 0xFFFF) then [77] ++ be 2 (blen s)
       else [78] ++ be 4 (blen s))
      ++ be 2 (opt_len dt) ++ be 1 (opt_len lang)
      ++ s ++ [0] ++ opt_payload dt ++ opt_payload lang
  end.

(** The fields of a term fit their widths. *)
Definition term_fits (t : term) : Prop :=
  match t with
  | term_resource uri => blen uri ≤ 0xFFFF
  | term_blank id => blen id ≤ 0xFFFF
  | term_literal s dt lang => opt_len dt ≤ 0xFFFF ∧ opt_len lang ≤ 0xFF
  end.

#[global] Instance term_fits_dec t : Decision (term_fits t).
Proof. destruct t; simpl; apply _. Defined.

(** ** Well-formed nodes and the term they denote *)

(** A string block as the constructors build it: the NUL-free bytes and one
    terminator, with the recorded length. *)
Definition cstring_block (block : option (list Z)) (len : Z) (s : list Z)
  : Prop :=
  block = Some (s ++ [0]) ∧ 0 ∉ s ∧ len = blen s.

(** [node_denotes ut n t]: the node [n] is well formed and its content is
    the term [t]. *)
Inductive node_denotes (ut : uri_table) : librdf_node → term → Prop :=
| denotes_resource usage uri u :
    uris ut !! uri = Some u → 0 ∉ uri_string u →
    node_denotes ut {| node_usage := usage; node_value_of := value_resource uri |}
      (term_resource (uri_string u))
| denotes_blank usage b id :
    cstring_block (blank_identifier b) (blank_identifier_len b) id →
    node_denotes ut {| node_usage := usage; node_value_of := value_blank b |}
      (term_blank id)
| denotes_literal usage l s dt lang :
    cstring_block (literal_string l) (literal_string_len l) s →
    match dt with
    | Some d => ∃ u, literal_datatype_uri l ≠ NULL
                     ∧ uris ut !! literal_datatype_uri l = Some u
                     ∧ uri_string u = d ∧ 0 ∉ d
    | None => literal_datatype_uri l = NULL
    end →
    match lang with
    | Some g => cstring_block (literal_xml_language l)
                  (literal_xml_language_len l) g
    | None => literal_xml_language l = None
    end →
    node_denotes ut {| node_usage := usage; node_value_of := value_literal l |}
      (term_literal s dt lang).

(** ** The bytes the encoder writes, as one block *)

(** The header the literal case writes. *)
Definition literal_header (slen dlen llen : Z) : list Z :=
  (if decide (slen > 0xFFFF) then [uchar 78] ++ put32 slen
   else [uchar 77] ++ put16 slen)
  ++ put16 dlen ++ [uchar (Z.land llen 0x00ff)].

(** A payload that is written only when its recorded length is not 0. *)
Definition payload_if (len : Z) (s : list Z) : list Z :=
  if decide (len ≠ 0) then s ++ [0] else [].

(** ** What the encoder promises *)

(** The field of a term that does not fit its width, as the error the
    encoder logs for it. *)
Definition term_overflow (t : term) : option encode_error :=
  match t with
  | term_resource uri =>
      if decide (blen uri > 0xFFFF) then Some (uri_too_long (blen uri))
      else None
  | term_blank id =>
      if decide (blen id > 0xFFFF)
      then Some (blank_identifier_too_long (blen id)) else None
  | term_literal s dt lang =>
      if decide (opt_len dt > 0xFFFF)
      then Some (datatype_uri_too_long (opt_len dt))
      else if decide (opt_len lang > 0xFF)
      then Some (language_too_long (opt_len lang)) else None
  end.

(** The contract of [librdf_node_encode] on a term: 0 when [length] is
    given and too small, 0 and a logged error when a field does not fit,
    otherwise the size of the wire format, written to the buffer when there
    is one.  Writing past the end of the buffer is undefined. *)
Definition encode_spec (t : term) (buffer : option (list Z)) (len : Z)
  : res encode_result :=
  let total := blen (wire_format t) in
  if decide (len ≠ 0 ∧ total > len) then Val (0, buffer, None)
  else match term_overflow t with
       | Some e => Val (0, buffer, Some e)
       | None =>
           match buffer with
           | None => Val (total, None, None)
           | Some b =>
               b' ← poke b 0 (wire_format t); Val (total, Some b', None)
           end
       end.

(** ** Two nodes of the self test *)

(** The URI heap holding [hp_string1] and [datatype_uri_string], the
    resource node of the first and the typed literal of
    [datatype_lit_string]. *)
Definition example_uris : uri_table :=
  (uri_insert (uri_insert uri_table_empty
                 (ascii "http://purl.org/net/dajobe/")).2
     (ascii "http://example.org/datatypeURI")).2.

Definition example_resource : librdf_node :=
  {| node_usage := 1; node_value_of := value_resource 1%N |}.

Definition example_typed_literal : librdf_node :=
  {| node_usage := 1;
     node_value_of := value_literal
       {| literal_string := Some (ascii "Datatyped literal value" ++ [0]);
          literal_string_len := 23;
          literal_datatype_uri := 2%N;
          literal_xml_language := None;
          literal_xml_language_len := 0;
          literal_key := None;
          literal_size := 0 |} |}.

Definition example_resource_term : term :=
  term_resource (ascii "http://purl.org/net/dajobe/").

Definition example_typed_literal_term : term :=
  term_literal (ascii "Datatyped literal value")
    (Some (ascii "http://example.org/datatypeURI")) None.

(** A blank node whose identifier is one byte too long for its 16-bit
    field, and the literal of 100,000 bytes the self test builds. *)
Definition example_long_blank : librdf_node :=
  {| node_usage := 1;
     node_value_of := value_blank
       {| blank_identifier := Some (replicate (Z.to_nat 65536) 120 ++ [0]);
          blank_identifier_len := 65536 |} |}.

Definition example_big_literal : librdf_node :=
  {| node_usage := 1;
     node_value_of := value_literal
       {| literal_string := Some (replicate (Z.to_nat 100000) 88 ++ [0]);
          literal_string_len := 100000;
          literal_datatype_uri := NULL;
          literal_xml_language := None;
          literal_xml_language_len := 0;
          literal_key := None;
          literal_size := 0 |} |}.

(** [hp_uri_encoded] and [datatyped_literal_M_encoded], the encodings the
    self test compares against. *)
Definition hp_uri_encoded : list Z :=
  [0x52; 0x00; 0x1b; 0x68; 0x74; 0x74; 0x70; 0x3a; 0x2f; 0x2f; 0x70; 0x75;
   0x72; 0x6c; 0x2e; 0x6f; 0x72; 0x67; 0x2f; 0x6e; 0x65; 0x74; 0x2f; 0x64;
   0x61; 0x6a; 0x6f; 0x62; 0x65; 0x2f; 0x00].

Definition datatyped_literal_M_encoded : list Z :=
  [0x4d; 0x00; 0x17; 0x00; 0x1e; 0x00; 0x44; 0x61; 0x74; 0x61; 0x74; 0x79;
   0x70; 0x65; 0x64; 0x20; 0x6c; 0x69; 0x74; 0x65; 0x72; 0x61; 0x6c; 0x20;
   0x76; 0x61; 0x6c; 0x75; 0x65; 0x00; 0x68; 0x74; 0x74; 0x70; 0x3a; 0x2f;
   0x2f; 0x65; 0x78; 0x61; 0x6d; 0x70; 0x6c; 0x65; 0x2e; 0x6f; 0x72; 0x67;
   0x2f; 0x64; 0x61; 0x74; 0x61; 0x74; 0x79; 0x70; 0x65; 0x55; 0x52; 0x49;
   0x00].

(** Collapse a chain of adjacent writes into one. *)
Ltac fuse_pokes :=
  unfold store, strcpy;
  repeat (erewrite poke_seq_k by reflexivity).

Section encode_blocks.
Implicit Types (b buf s d g : list Z).

Lemma be2_put16 n : be 2 n = put16 n.
Proof. rewrite put16_digits. simpl. by rewrite Z.div_1_r. Qed.

Lemma be4_put32 n : be 4 n = put32 n.
Proof. rewrite put32_digits. simpl. by rewrite Z.div_1_r. Qed.

Lemma be1_low n : be 1 n = [uchar (Z.land n 0x00ff)].
Proof.
  simpl. rewrite Z.div_1_r, mask_low, uchar_small; [done|].
  unfold is_byte. dlia.
Qed.

Lemma blen_be k n : blen (be k n) = Z.of_nat k.
Proof. unfold blen. f_equal. induction k; simpl; [done | by f_equal]. Qed.

Lemma encode_short_fill tag too_long s len buf length :
  0 ∉ s → ¬ (length ≠ 0 ∧ 3 + len + 1 > length) → len ≤ 0xFFFF →
  encode_short tag too_long (Some (s ++ [0])) len (Some buf) length
  = b ← poke buf 0 ([uchar tag] ++ put16 len ++ s ++ [0]);
    Val (3 + len + 1, Some b, None).
Proof.
  intros Hs Hlen Hfit. unfold encode_short.
  rewrite decide_False by done. rewrite decide_False by lia.
  simpl. unfold strcpy. rewrite c_str_cstr by done. simpl.
  by fuse_pokes.
Qed.

Lemma encode_literal_header_fill b slen dlen llen :
  encode_literal_header b slen dlen llen
  = b' ← poke b 0 (literal_header slen dlen llen);
    Val (b', blen (literal_header slen dlen llen)).
Proof.
  unfold encode_literal_header, literal_header. case_decide; by fuse_pokes.
Qed.

Lemma encode_literal_fill_poke b s d g dlen llen dts lang :
  0 ∉ s →
  (dlen ≠ 0 → dts = Some (d ++ [0]) ∧ (0 ∉ d) ∧ dlen = blen d) →
  (llen ≠ 0 → lang = Some (g ++ [0]) ∧ (0 ∉ g)) →
  encode_literal_fill b (Some (s ++ [0])) (blen s) dts dlen lang llen
  = poke b 0 (literal_header (blen s) dlen llen ++ s ++ [0]
              ++ payload_if dlen d ++ payload_if llen g).
Proof.
  intros Hs Hd Hg.
  unfold encode_literal_fill, encode_literal_language, payload_if.
  rewrite encode_literal_header_fill, res_bind_assoc.
  destruct (decide (dlen ≠ 0)) as [Hd'|Hd'];
    [destruct (Hd Hd') as (-> & ? & ->)|];
  (destruct (decide (llen ≠ 0)) as [Hg'|Hg'];
    [destruct (Hg Hg') as (-> & ?)|]); simpl.
  all: unfold strcpy; rewrite ?c_str_cstr by done; simpl.
  all: repeat (erewrite poke_seq_k by (autorewrite with rdf; lia)).
  all: rewrite ?poke_seq by (autorewrite with rdf; lia).
  all: by rewrite ?res_bind_ret, <- ?app_assoc, ?app_nil_r.
Qed.

Lemma blen_opt_payload o :
  blen (opt_payload o) = if decide (opt_len o = 0) then 0 else opt_len o + 1.
Proof.
  destruct o as [s|]; simpl; [|done].
  repeat case_decide; autorewrite with rdf; lia.
Qed.

Lemma wire_format_literal_length s dt lang :
  blen (wire_format (term_literal s dt lang))
  = literal_total_length (blen s) (opt_len dt) (opt_len lang).
Proof.
  unfold wire_format, literal_total_length.
  autorewrite with rdf. rewrite !blen_opt_payload, !blen_be.
  repeat case_decide; autorewrite with rdf; rewrite ?blen_be; lia.
Qed.

Lemma literal_header_wire s dt lang :
  literal_header (blen s) (opt_len dt) (opt_len lang)
  = (if decide (blen s ≤ 0xFFFF) then [77] ++ be 2 (blen s)
     else [78] ++ be 4 (blen s))
    ++ be 2 (opt_len dt) ++ be 1 (opt_len lang).
Proof.
  unfold literal_header. rewrite be4_put32, !be2_put16, be1_low.
  repeat case_decide; (done || lia).
Qed.

Lemma payload_if_opt o :
  payload_if (opt_len o) (default [] o) = opt_payload o.
Proof.
  destruct o as [s|]; [|done]. unfold payload_if. simpl.
  repeat case_decide; (done || lia).
Qed.

End encode_blocks.

(** ** The encoder implements its contract *)

Section encode_theorems.
Context `{BuildConfig}.
Implicit Types (ut : uri_table) (n : librdf_node) (t : term).
Implicit Types (buf : list Z) (buffer : option (list Z)).

Lemma wire_format_short_length tag s :
  blen ([tag] ++ be 2 (blen s) ++ s ++ [0]) = 3 + blen s + 1.
Proof. autorewrite with rdf. rewrite blen_be. lia. Qed.

(** The resource and blank cases, all branches. *)
Lemma encode_short_spec tag too_long s block len buffer length :
  cstring_block block len s → is_byte tag →
  encode_short tag too_long block len buffer length
  = let total := blen ([tag] ++ be 2 (blen s) ++ s ++ [0]) in
    if decide (length ≠ 0 ∧ total > length) then Val (0, buffer, None)
    else if decide (blen s > 0xFFFF)
    then Val (0, buffer, Some (too_long (blen s)))
    else match buffer with
         | None => Val (total, None, None)
         | Some b => b' ← poke b 0 ([tag] ++ be 2 (blen s) ++ s ++ [0]);
                     Val (total, Some b', None)
         end.
Proof.
  intros (-> & Hs & ->) Htag. cbv zeta. rewrite wire_format_short_length.
  destruct buffer as [b|].
  - repeat case_decide; try (unfold encode_short, encode_fail;
      rewrite ?decide_True by done; rewrite ?decide_False by done;
      rewrite ?decide_True by done; done).
    rewrite encode_short_fill by (done || lia).
    by rewrite be2_put16, uchar_small.
  - unfold encode_short, encode_fail. by repeat case_decide.
Qed.

Lemma literal_datatype_lookup ut l dt :
  match dt with
  | Some d => ∃ u, literal_datatype_uri l ≠ NULL
                   ∧ uris ut !! literal_datatype_uri l = Some u
                   ∧ uri_string u = d ∧ 0 ∉ d
  | None => literal_datatype_uri l = NULL
  end →
  (if is_null (literal_datatype_uri l) then Val (None, 0)
   else sl ← librdf_uri_as_counted_string ut (literal_datatype_uri l);
        Val (Some sl.1, sl.2))
  = Val ((λ d, d ++ [0]) <$> dt, opt_len dt).
Proof.
  destruct dt as [d|].
  - intros (u & Hn & Hu & <- & Hd). unfold is_null.
    rewrite bool_decide_eq_false_2 by done.
    by rewrite (uri_as_counted_string_val _ _ _ Hu).
  - intros ->. done.
Qed.

Lemma literal_language_length l lang :
  match lang with
  | Some g => cstring_block (literal_xml_language l)
                (literal_xml_language_len l) g
  | None => literal_xml_language l = None
  end →
  match literal_xml_language l with
  | Some _ => literal_xml_language_len l
  | None => 0
  end = opt_len lang.
Proof.
  destruct lang as [g|]; [intros (-> & _ & ->) | intros ->]; done.
Qed.

Lemma wire_format_literal_block s dt lang :
  wire_format (term_literal s dt lang)
  = literal_header (blen s) (opt_len dt) (opt_len lang) ++ s ++ [0]
    ++ payload_if (opt_len dt) (default [] dt)
    ++ payload_if (opt_len lang) (default [] lang).
Proof.
  unfold wire_format.
  by rewrite !payload_if_opt, literal_header_wire, <- !app_assoc.
Qed.

(** The literal case, all branches. *)
Lemma encode_literal_spec ut l s dt lang usage buffer length :
  node_denotes ut {| node_usage := usage; node_value_of := value_literal l |}
    (term_literal s dt lang) →
  encode_literal ut l buffer length
  = encode_spec (term_literal s dt lang) buffer length.
Proof.
  inversion 1 as [| |? ? ? ? ? (Hs & Hs0 & Hsl) Hdt Hlang]; subst.
  unfold encode_literal, encode_spec, term_overflow.
  rewrite (literal_datatype_lookup _ _ _ Hdt),
    (literal_language_length _ _ Hlang), Hsl, wire_format_literal_length,
    wire_format_literal_block.
  simpl. unfold encode_fail.
  repeat case_decide; try done. destruct buffer as [b|]; [|done].
  rewrite Hs.
  rewrite (encode_literal_fill_poke _ _ (default [] dt) (default [] lang));
    [done..| |].
  - destruct dt as [d|]; [|done]. by destruct Hdt as (u & ? & ? & <- & ?).
  - destruct lang as [g|]; [|done]. by destruct Hlang as (-> & ? & ?).
Qed.

(** On a well-formed node the function is its contract, on every branch. *)
Lemma encode_denotes ut n t buffer length :
  node_denotes ut n t →
  librdf_node_encode ut (Some n) buffer length = encode_spec t buffer length.
Proof.
  intros Hd. unfold librdf_node_encode. rewrite assert_pointer_some. simpl.
  destruct Hd as [usage uri u Hu Hz|usage b id Hb|usage l s dt lang].
  - simpl. unfold encode_resource.
    rewrite (uri_as_counted_string_val _ _ _ Hu). simpl.
    rewrite (encode_short_spec 82 _ (uri_string u)) by done.
    unfold encode_spec, term_overflow. simpl. by repeat case_decide.
  - simpl. unfold encode_blank.
    rewrite (encode_short_spec 66 _ id) by done.
    unfold encode_spec, term_overflow. simpl. by repeat case_decide.
  - simpl. apply (encode_literal_spec _ _ _ _ _ usage). by constructor.
Qed.

(** The contract when nothing overflows and [length] allows the size. *)
Lemma encode_spec_ok t buffer len :
  term_overflow t = None → ¬ (len ≠ 0 ∧ blen (wire_format t) > len) →
  encode_spec t buffer len
  = match buffer with
    | None => Val (blen (wire_format t), None, None)
    | Some b => b' ← poke b 0 (wire_format t);
                Val (blen (wire_format t), Some b', None)
    end.
Proof. intros Ho Hl. unfold encode_spec. by rewrite decide_False, Ho. Qed.

(** A measuring call that returns a size found nothing wrong. *)
Lemma encode_spec_measure_inv t size :
  encode_spec t None 0 = Val (size, None, None) → size ≠ 0 →
  term_overflow t = None ∧ size = blen (wire_format t).
Proof.
  unfold encode_spec. rewrite decide_False by lia.
  destruct (term_overflow t); intros [= <-]; done.
Qed.

(** A filling call that returns a size wrote the wire format. *)
Lemma encode_spec_fill_inv t buf len size bytes :
  encode_spec t (Some buf) len = Val (size, Some bytes, None) → size ≠ 0 →
  bytes = wire_format t ++ drop (length (wire_format t)) buf.
Proof.
  unfold encode_spec. case_decide; [by intros [= <-]|].
  destruct (term_overflow t); [done|]. unfold poke.
  case_decide; [|done]. by intros [= _ <-].
Qed.

Lemma literal_header_wraps slen dlen llen :
  slen > 0xFFFF →
  literal_header (slen + 2 ^ 32) dlen llen = literal_header slen dlen llen.
Proof.
  intros. unfold literal_header. rewrite !decide_True by lia.
  by rewrite put32_wraps.
Qed.

(** C5: with a buffer that is large enough, [librdf_node_encode] on a
    well-formed node whose fields fit returns the size of the wire format
    of the specification and leaves exactly those bytes at the start of
    the buffer, the rest of the buffer untouched. *)
Theorem encode_fill_wire_format ut n t buf len :
  node_denotes ut n t → term_overflow t = None →
  len = 0 ∨ blen (wire_format t) ≤ len →
  blen (wire_format t) ≤ blen buf →
  librdf_node_encode ut (Some n) (Some buf) len
  = Val (blen (wire_format t),
         Some (wire_format t ++ drop (length (wire_format t)) buf), None).
Proof.
  intros Hd Ho Hl Hb. rewrite (encode_denotes _ _ _ _ _ Hd).
  rewrite encode_spec_ok by (done || lia).
  rewrite poke_0; [done|]. unfold blen in Hb. lia.
Qed.

(** C6: the measuring call [librdf_node_encode(node, NULL, 0)] returns the
    length of the wire format and logs nothing. *)
Theorem encode_measure_wire_format ut n t :
  node_denotes ut n t → term_overflow t = None →
  librdf_node_encode ut (Some n) None 0
  = Val (blen (wire_format t), None, None).
Proof.
  intros Hd Ho. rewrite (encode_denotes _ _ _ _ _ Hd).
  by rewrite encode_spec_ok by (done || lia).
Qed.

(** C12: the two phases agree: when the measuring call returned a size
    other than 0, the filling call with a buffer of exactly that size
    returns the same size and the buffer holds the wire format. *)
Theorem encode_two_phase ut n t buf size :
  node_denotes ut n t →
  librdf_node_encode ut (Some n) None 0 = Val (size, None, None) →
  size ≠ 0 → blen buf = size →
  librdf_node_encode ut (Some n) (Some buf) size
  = Val (size, Some (wire_format t), None).
Proof.
  intros Hd. rewrite !(encode_denotes _ _ _ _ _ Hd). intros Hm Hs Hb.
  destruct (encode_spec_measure_inv _ _ Hm Hs) as [Ho ->].
  rewrite encode_spec_ok by (done || lia).
  rewrite poke_all; [done|]. unfold blen in Hb. lia.
Qed.

(** C13: a URI or blank identifier above 0xFFFF bytes, a datatype URI above
    0xFFFF bytes or a language above 0xFF bytes makes the call return 0
    with the matching error logged and the buffer as it was. *)
Theorem encode_field_overflow ut n t e buffer len :
  node_denotes ut n t → term_overflow t = Some e →
  len = 0 ∨ blen (wire_format t) ≤ len →
  librdf_node_encode ut (Some n) buffer len = Val (0, buffer, Some e).
Proof.
  intros Hd Ho Hl. rewrite (encode_denotes _ _ _ _ _ Hd).
  unfold encode_spec. rewrite decide_False by lia. by rewrite Ho.
Qed.

(** C14: a [length] that is not 0 and smaller than the encoding makes the
    call return 0 before anything is written or logged. *)
Theorem encode_length_too_small ut n t buffer len :
  node_denotes ut n t → len ≠ 0 → len < blen (wire_format t) →
  librdf_node_encode ut (Some n) buffer len = Val (0, buffer, None).
Proof.
  intros Hd Hz Hl. rewrite (encode_denotes _ _ _ _ _ Hd).
  unfold encode_spec. by rewrite decide_True by lia.
Qed.

(** C15: [length] 0 switches the bounds check off: with a buffer shorter
    than the encoding the call writes past its end. *)
Theorem encode_unchecked_length_overrun ut n t buf :
  node_denotes ut n t → term_overflow t = None →
  blen buf < blen (wire_format t) →
  librdf_node_encode ut (Some n) (Some buf) 0 = Stuck UB.
Proof.
  intros Hd Ho Hb. rewrite (encode_denotes _ _ _ _ _ Hd).
  rewrite encode_spec_ok by (done || lia).
  by rewrite poke_out_of_bounds by lia.
Qed.

(** C18: the tag of a literal is M up to 0xFFFF bytes of string and N
    above. *)
Theorem encode_literal_tag_threshold ut n s dt lang buf len size bytes :
  node_denotes ut n (term_literal s dt lang) →
  librdf_node_encode ut (Some n) (Some buf) len
  = Val (size, Some bytes, None) →
  size ≠ 0 →
  head bytes = Some (if decide (blen s ≤ 0xFFFF) then 77 else 78).
Proof.
  intros Hd. rewrite (encode_denotes _ _ _ _ _ Hd). intros He Hs.
  rewrite (encode_spec_fill_inv _ _ _ _ _ He Hs). simpl. by case_decide.
Qed.

(** C19: the header of tag N keeps the low 32 bits of the string length:
    two lengths that differ by 2^32 get the same header. *)
Theorem encode_literal_header_wraps b slen dlen llen :
  slen > 0xFFFF →
  encode_literal_header b (slen + 2 ^ 32) dlen llen
  = encode_literal_header b slen dlen llen.
Proof.
  intros. rewrite !encode_literal_header_fill.
  by rewrite literal_header_wraps.
Qed.

(** C20: a string with a NUL inside is copied up to that NUL only: the
    call returns the size of the whole string, and the bytes of the buffer
    after the NUL are what they were before the call. *)
Theorem encode_short_embedded_nul tag too_long s1 s2 buf :
  0 ∉ s1 → is_byte tag →
  blen s1 + 1 + blen s2 ≤ 0xFFFF → 4 + blen s1 ≤ blen buf →
  encode_short tag too_long (Some (s1 ++ [0] ++ s2 ++ [0]))
    (blen s1 + 1 + blen s2) (Some buf) 0
  = Val (3 + (blen s1 + 1 + blen s2) + 1,
         Some ([tag] ++ put16 (blen s1 + 1 + blen s2) ++ s1 ++ [0]
               ++ drop (4 + length s1) buf), None).
Proof.
  intros Hs Htag Hlen Hbuf. unfold encode_short.
  rewrite decide_False by lia. rewrite decide_False by lia.
  simpl. unfold strcpy. rewrite c_str_cstr by done. simpl. fuse_pokes.
  rewrite poke_0, uchar_small
    by (done || (simpl; rewrite length_app; unfold blen in *; simpl; lia)).
  simpl. rewrite <- app_assoc. simpl. repeat f_equal.
  rewrite length_app. simpl. lia.
Qed.

End encode_theorems.

(** ** The theorems at the nodes of the self test *)

Lemma example_resource_denotes :
  node_denotes example_uris example_resource example_resource_term.
Proof.
  apply (denotes_resource example_uris 1 1%N
           {| uri_string := ascii "http://purl.org/net/dajobe/";
              uri_usage := 1 |}); compute_done.
Defined.

Lemma example_typed_literal_denotes :
  node_denotes example_uris example_typed_literal example_typed_literal_term.
Proof.
  apply denotes_literal.
  - repeat split; compute_done.
  - exists {| uri_string := ascii "http://example.org/datatypeURI";
              uri_usage := 1 |}.
    repeat split; compute_done.
  - reflexivity.
Defined.

Lemma example_long_blank_denotes :
  node_denotes example_uris example_long_blank
    (term_blank (replicate (Z.to_nat 65536) 120)).
Proof. apply denotes_blank. repeat split; compute_done. Defined.

Lemma example_big_literal_denotes :
  node_denotes example_uris example_big_literal
    (term_literal (replicate (Z.to_nat 100000) 88) None None).
Proof. apply denotes_literal; repeat split; compute_done. Defined.

Lemma encode_fill_wire_format_witness :
  @librdf_node_encode default_build example_uris (Some example_resource)
    (Some (replicate 31 0)) 31
  = Val (31, Some hp_uri_encoded, None).
Proof.
  apply (@encode_fill_wire_format default_build example_uris example_resource
           example_resource_term (replicate 31 0) 31
           example_resource_denotes); [reflexivity|right|]; compute_done.
Defined.

Lemma encode_measure_wire_format_witness :
  @librdf_node_encode default_build example_uris (Some example_typed_literal)
    None 0 = Val (61, None, None).
Proof.
  exact (@encode_measure_wire_format default_build example_uris
           example_typed_literal example_typed_literal_term
           example_typed_literal_denotes eq_refl).
Defined.

Lemma encode_two_phase_witness :
  @librdf_node_encode default_build example_uris (Some example_typed_literal)
    (Some (replicate 61 255)) 61
  = Val (61, Some datatyped_literal_M_encoded, None).
Proof.
  apply (@encode_two_phase default_build example_uris example_typed_literal
           example_typed_literal_term (replicate 61 255) 61
           example_typed_literal_denotes); compute_done.
Defined.

Lemma encode_field_overflow_witness :
  @librdf_node_encode default_build example_uris (Some example_long_blank)
    None 0 = Val (0, None, Some (blank_identifier_too_long 65536)).
Proof.
  apply (@encode_field_overflow default_build example_uris example_long_blank
           _ _ None 0 example_long_blank_denotes); [reflexivity|by left].
Defined.

Lemma encode_length_too_small_witness :
  @librdf_node_encode default_build example_uris (Some example_resource)
    (Some (replicate 30 7)) 30
  = Val (0, Some (replicate 30 7), None).
Proof.
  apply (@encode_length_too_small default_build example_uris example_resource
           example_resource_term _ 30 example_resource_denotes); compute_done.
Defined.

Lemma encode_unchecked_length_overrun_witness :
  @librdf_node_encode default_build example_uris (Some example_resource)
    (Some (replicate 30 7)) 0 = Stuck UB.
Proof.
  apply (@encode_unchecked_length_overrun default_build example_uris
           example_resource example_resource_term _ example_resource_denotes);
    compute_done.
Defined.

Lemma encode_literal_tag_threshold_witness :
  head datatyped_literal_M_encoded = Some 77.
Proof.
  exact (@encode_literal_tag_threshold default_build example_uris
           example_typed_literal _ _ _ (replicate 61 255) 61 61
           datatyped_literal_M_encoded example_typed_literal_denotes
           encode_two_phase_witness ltac:(done)).
Defined.

Lemma encode_literal_header_wraps_witness :
  encode_literal_header (replicate 8 0) (65536 + 2 ^ 32) 0 0
  = Val ([78; 0; 1; 0; 0; 0; 0; 0], 8).
Proof.
  rewrite (encode_literal_header_wraps (replicate 8 0) 65536 0 0); [|done].
  reflexivity.
Defined.

Lemma encode_short_embedded_nul_witness :
  encode_short 66 blank_identifier_too_long (Some [97; 0; 98; 0]) 3
    (Some (replicate 7 255)) 0
  = Val (7, Some [66; 0; 3; 97; 0; 255; 255], None).
Proof.
  apply (encode_short_embedded_nul 66 blank_identifier_too_long [97] [98]
           (replicate 7 255)); compute_done.
Defined.
