(* ===== verification/World.v ===== *)
(** * The world of the node module

    What [rdf_node.c] keeps in the [librdf_world] and the services it calls
    on it: the three intern tables [world->nodes_hash[H_RESOURCE]],
    [[H_LITERAL]] and [[H_BLANK]], the mutex [world->nodes_mutex], the heap
    of node objects, the URI objects, the log and the blank identifier
    generator.  [librdf_init_node] and [librdf_finish_node] are the two
    functions of the source that create and destroy the tables.

    A function of the source becomes a computation [st librdf_world A]:
    the world goes in, and either a result and the world after the call
    come out or the call never returns ([Stuck]).

    Failure of an allocation is decided by the list [world_allocs]: every
    call that allocates ([LIBRDF_MALLOC], [LIBRDF_CALLOC], [librdf_new_uri],
    [librdf_hash_put], [librdf_new_hash]) takes the next event of the list,
    which is a failure or a success with the bytes the fresh block happens to
    hold; with the list empty every allocation succeeds with zero bytes. *)

From S2P Require Import Prelude CString Hash Uri Node Encode.

#[local] Open Scope Z_scope.

(** One allocation: it fails, or succeeds on a block that holds [junk]. *)
Inductive alloc_event : Set :=
| alloc_fail
| alloc_ok (junk : list Z).

(** The indices of [world->nodes_hash]. *)
Inductive node_hash_index : Set := H_RESOURCE | H_LITERAL | H_BLANK.

#[global] Instance node_hash_index_eq_dec : EqDecision node_hash_index.
Proof. solve_decision. Defined.

Definition H_COUNT : list node_hash_index := [H_RESOURCE; H_LITERAL; H_BLANK].

(** What [librdf_log] and [LIBRDF_FATAL1] are called with. *)
Inductive log_message : Set :=
| log_encode (e : encode_error)
| log_illegal_encoding (tag : Z)
| log_digest_unknown_type (type : Z)
| log_unknown_subject_type (type : Z)
| log_cannot_create_subject
| log_unknown_predicate_type (type : Z)
| log_cannot_create_predicate
| log_unknown_object_type (type : Z)
| log_cannot_create_object
| log_cannot_add_statement
| log_unknown_iterator_flag (flags : Z)
| log_simple (level : Z) (message : list Z).

(** A slot of [world->nodes_hash]: NULL, a pointer to a live table, or a
    pointer to a table that has been freed. *)
Inductive hash_slot (T : Type) : Type :=
| slot_null
| slot_live (h : T)
| slot_freed.
Arguments slot_null {T}.
Arguments slot_live {T} h.
Arguments slot_freed {T}.

(** The string [librdf_new_uri_normalised_to_base] makes of a URI string,
    the source URI and the base URI: a function of the URI module, left
    uninterpreted. *)
Class UriNormalise : Type :=
  uri_normalise : list Z → list Z → list Z → list Z.

Section world.
Context {T : Type} `{HashTable T} `{BuildConfig} `{UriNormalise}.

Record librdf_world : Type := {
  world_opened : bool;
  world_uris : uri_table;
  world_nodes : gmap N librdf_node;
  nodes_hash_resource : hash_slot T;
  nodes_hash_literal : hash_slot T;
  nodes_hash_blank : hash_slot T;
  nodes_mutex : bool;
  world_allocs : list alloc_event;
  genid_base : Z;
  genid_counter : Z;
  world_pid : Z;
  world_log : list log_message;
  XMLLiteral_URI : ptr;
}.

Abbreviation M := (st librdf_world).

(** ** Field updates *)

Definition set_uris (ut : uri_table) (w : librdf_world) : librdf_world :=
  {| world_opened := world_opened w; world_uris := ut;
     world_nodes := world_nodes w;
     nodes_hash_resource := nodes_hash_resource w;
     nodes_hash_literal := nodes_hash_literal w;
     nodes_hash_blank := nodes_hash_blank w;
     nodes_mutex := nodes_mutex w; world_allocs := world_allocs w;
     genid_base := genid_base w; genid_counter := genid_counter w;
     world_pid := world_pid w; world_log := world_log w;
     XMLLiteral_URI := XMLLiteral_URI w |}.

Definition set_nodes (ns : gmap N librdf_node) (w : librdf_world)
  : librdf_world :=
  {| world_opened := world_opened w; world_uris := world_uris w;
     world_nodes := ns;
     nodes_hash_resource := nodes_hash_resource w;
     nodes_hash_literal := nodes_hash_literal w;
     nodes_hash_blank := nodes_hash_blank w;
     nodes_mutex := nodes_mutex w; world_allocs := world_allocs w;
     genid_base := genid_base w; genid_counter := genid_counter w;
     world_pid := world_pid w; world_log := world_log w;
     XMLLiteral_URI := XMLLiteral_URI w |}.

Definition nodes_hash (w : librdf_world) (i : node_hash_index)
  : hash_slot T :=
  match i with
  | H_RESOURCE => nodes_hash_resource w
  | H_LITERAL => nodes_hash_literal w
  | H_BLANK => nodes_hash_blank w
  end.

Definition set_hash (i : node_hash_index) (h : hash_slot T)
    (w : librdf_world) : librdf_world :=
  {| world_opened := world_opened w; world_uris := world_uris w;
     world_nodes := world_nodes w;
     nodes_hash_resource :=
       if decide (i = H_RESOURCE) then h else nodes_hash_resource w;
     nodes_hash_literal :=
       if decide (i = H_LITERAL) then h else nodes_hash_literal w;
     nodes_hash_blank :=
       if decide (i = H_BLANK) then h else nodes_hash_blank w;
     nodes_mutex := nodes_mutex w; world_allocs := world_allocs w;
     genid_base := genid_base w; genid_counter := genid_counter w;
     world_pid := world_pid w; world_log := world_log w;
     XMLLiteral_URI := XMLLiteral_URI w |}.

Definition set_mutex (b : bool) (w : librdf_world) : librdf_world :=
  {| world_opened := world_opened w; world_uris := world_uris w;
     world_nodes := world_nodes w;
     nodes_hash_resource := nodes_hash_resource w;
     nodes_hash_literal := nodes_hash_literal w;
     nodes_hash_blank := nodes_hash_blank w;
     nodes_mutex := b; world_allocs := world_allocs w;
     genid_base := genid_base w; genid_counter := genid_counter w;
     world_pid := world_pid w; world_log := world_log w;
     XMLLiteral_URI := XMLLiteral_URI w |}.

Definition set_allocs (a : list alloc_event) (w : librdf_world)
  : librdf_world :=
  {| world_opened := world_opened w; world_uris := world_uris w;
     world_nodes := world_nodes w;
     nodes_hash_resource := nodes_hash_resource w;
     nodes_hash_literal := nodes_hash_literal w;
     nodes_hash_blank := nodes_hash_blank w;
     nodes_mutex := nodes_mutex w; world_allocs := a;
     genid_base := genid_base w; genid_counter := genid_counter w;
     world_pid := world_pid w; world_log := world_log w;
     XMLLiteral_URI := XMLLiteral_URI w |}.

Definition set_opened (b : bool) (w : librdf_world) : librdf_world :=
  {| world_opened := b; world_uris := world_uris w;
     world_nodes := world_nodes w;
     nodes_hash_resource := nodes_hash_resource w;
     nodes_hash_literal := nodes_hash_literal w;
     nodes_hash_blank := nodes_hash_blank w;
     nodes_mutex := nodes_mutex w; world_allocs := world_allocs w;
     genid_base := genid_base w; genid_counter := genid_counter w;
     world_pid := world_pid w; world_log := world_log w;
     XMLLiteral_URI := XMLLiteral_URI w |}.

Definition set_genid_counter (c : Z) (w : librdf_world) : librdf_world :=
  {| world_opened := world_opened w; world_uris := world_uris w;
     world_nodes := world_nodes w;
     nodes_hash_resource := nodes_hash_resource w;
     nodes_hash_literal := nodes_hash_literal w;
     nodes_hash_blank := nodes_hash_blank w;
     nodes_mutex := nodes_mutex w; world_allocs := world_allocs w;
     genid_base := genid_base w; genid_counter := c;
     world_pid := world_pid w; world_log := world_log w;
     XMLLiteral_URI := XMLLiteral_URI w |}.

Definition set_log (l : list log_message) (w : librdf_world) : librdf_world :=
  {| world_opened := world_opened w; world_uris := world_uris w;
     world_nodes := world_nodes w;
     nodes_hash_resource := nodes_hash_resource w;
     nodes_hash_literal := nodes_hash_literal w;
     nodes_hash_blank := nodes_hash_blank w;
     nodes_mutex := nodes_mutex w; world_allocs := world_allocs w;
     genid_base := genid_base w; genid_counter := genid_counter w;
     world_pid := world_pid w; world_log := l;
     XMLLiteral_URI := XMLLiteral_URI w |}.

(** ** Allocation *)

(** The next event of the allocation list. *)
Definition alloc_head (w : librdf_world) : alloc_event :=
  hd (alloc_ok []) (world_allocs w).

Definition alloc_rest (w : librdf_world) : librdf_world :=
  set_allocs (tl (world_allocs w)) w.

Definition next_alloc : M alloc_event := λ w,
  Val (alloc_head w, alloc_rest w).

(** [LIBRDF_MALLOC(cstring, n)]: a block of [n] bytes of unspecified
    content, or NULL. *)
Definition LIBRDF_MALLOC (n : Z) : M (option (list Z)) :=
  e ← next_alloc;
  match e with
  | alloc_fail => mret None
  | alloc_ok junk => mret (Some (malloc_bytes junk n))
  end.

(** [LIBRDF_CALLOC(librdf_node, 1, sizeof(librdf_node))]: a zeroed node
    object at a fresh address, or NULL. *)
Definition node_alloc : M ptr := λ w,
  let p := fresh_ptr (world_nodes w) in
  Val (p, set_nodes (<[p := {| node_usage := 0;
                               node_value_of := value_unknown |}]>
                      (world_nodes w)) w).

Definition LIBRDF_CALLOC_node : M ptr :=
  e ← next_alloc;
  match e with
  | alloc_fail => mret NULL
  | alloc_ok _ => node_alloc
  end.

(** [LIBRDF_FREE(librdf_node, node)]. *)
Definition LIBRDF_FREE_node (node : ptr) : M unit :=
  st_modify (λ w, set_nodes (delete node (world_nodes w)) w).

(** Reading and writing the node object a pointer refers to; a pointer to
    no live object cannot be followed. *)
Definition node_load (node : ptr) : M librdf_node := λ w,
  st_lift (of_option (world_nodes w !! node)) w.

(** The node a pointer refers to, as the accessors of [Node] take it:
    [None] for NULL. *)
Definition node_deref (node : ptr) : M (option librdf_node) :=
  if is_null node then mret None
  else n ← node_load node; mret (Some n).

Definition node_store (node : ptr) (n : librdf_node) : M unit := λ w,
  match world_nodes w !! node with
  | Some _ => Val (tt, set_nodes (<[node := n]> (world_nodes w)) w)
  | None => Stuck UB
  end.

(** ** The mutex of the node tables *)

(** [pthread_mutex_lock(world->nodes_mutex)] under [WITH_THREADS]; a
    thread that locks the mutex it already holds never returns. *)
Definition pthread_mutex_lock : M unit := λ w,
  if WITH_THREADS then
    if nodes_mutex w then Stuck Deadlock else Val (tt, set_mutex true w)
  else Val (tt, w).

Definition pthread_mutex_unlock : M unit := λ w,
  if WITH_THREADS then
    if nodes_mutex w then Val (tt, set_mutex false w) else Stuck UB
  else Val (tt, w).

(** ** The log *)

Definition librdf_log (msg : log_message) : M unit :=
  st_modify (λ w, set_log (world_log w ++ [msg]) w).

(** [LIBRDF_FATAL1]: the message is logged and the process aborts. *)
Definition LIBRDF_FATAL1 {A} : M A := st_stuck Abort.

(** ** The intern tables *)

(** Following [world->nodes_hash[i]]. *)
Definition the_hash (i : node_hash_index) : M T := λ w,
  match nodes_hash w i with
  | slot_live h => Val (h, w)
  | _ => Stuck UB
  end.

Definition librdf_hash_get_one (i : node_hash_index) (key : librdf_hash_datum)
  : M (option librdf_hash_datum) :=
  h ← the_hash i; mret (hash_get_one h key).

(** [librdf_hash_put]: 0, or non-zero when the table could not grow. *)
Definition librdf_hash_put (i : node_hash_index)
    (key value : librdf_hash_datum) : M Z :=
  h ← the_hash i;
  e ← next_alloc;
  match e with
  | alloc_fail => mret 1
  | alloc_ok _ =>
      _ ← st_modify (set_hash i (slot_live (hash_put h key value))); mret 0
  end.

Definition librdf_hash_delete_all (i : node_hash_index)
    (key : librdf_hash_datum) : M unit :=
  h ← the_hash i;
  st_modify (set_hash i (slot_live (hash_delete_all h key))).

(** ** URI objects *)

Definition with_uris (f : uri_table → res uri_table) : M unit := λ w,
  ut ← f (world_uris w); Val (tt, set_uris ut w).

(** [librdf_new_uri(world, uri_string)]: the interned object of the string,
    with one more reference, or NULL. *)
Definition uri_intern (s : list Z) : M ptr := λ w,
  r ← uri_new (world_uris w) s; Val (r.1, set_uris r.2 w).

Definition librdf_new_uri (uri_string : list Z) : M ptr :=
  s ← st_lift (c_str uri_string);
  e ← next_alloc;
  match e with
  | alloc_fail => mret NULL
  | alloc_ok _ => uri_intern s
  end.

Definition librdf_new_uri_from_uri (uri : ptr) : M ptr :=
  _ ← with_uris (λ ut, uri_ref ut uri); mret uri.

Definition librdf_free_uri (uri : ptr) : M unit :=
  with_uris (λ ut, uri_release ut uri).

(** [librdf_new_uri_from_uri_local_name(uri, local_name)]: the URI of the
    string of [uri] followed by [local_name]. *)
Definition librdf_new_uri_from_uri_local_name (uri : ptr)
    (local_name : list Z) : M ptr :=
  w ← st_get;
  s ← st_lift (librdf_uri_as_string (world_uris w) uri);
  l ← st_lift (c_str local_name);
  librdf_new_uri (take (length s - 1) s ++ l ++ [0]).

(** [librdf_new_uri_normalised_to_base(uri_string, source_uri, base_uri)]:
    the URI of the string [uri_normalise] computes from the three
    strings. *)
Definition librdf_new_uri_normalised_to_base (uri_string : list Z)
    (source_uri base_uri : ptr) : M ptr :=
  w ← st_get;
  s ← st_lift (c_str uri_string);
  src ← st_lift (librdf_uri_as_string (world_uris w) source_uri);
  base ← st_lift (librdf_uri_as_string (world_uris w) base_uri);
  librdf_new_uri (uri_normalise s (take (length src - 1) src)
                    (take (length base - 1) base) ++ [0]).

(** ** Assertions and node objects in the world *)

(** The assertion macros in a function that works on the world. *)
Definition ASSERT_RETURN {A} (condition : bool) (ret : A) (k : M A) : M A :=
  λ w, LIBRDF_ASSERT_RETURN condition (ret, w) (k w).

Definition ASSERT_OBJECT_POINTER_RETURN_VALUE {A B} (pointer : option B)
    (ret : A) (k : M A) : M A :=
  λ w, LIBRDF_ASSERT_OBJECT_POINTER_RETURN_VALUE pointer (ret, w) (k w).

(** [new_node->usage++]: overflow of the [int] is undefined. *)
Definition node_usage_incr (node : ptr) : M unit :=
  n ← node_load node;
  if decide (node_usage n = INT_MAX) then st_stuck UB
  else node_store node (with_usage n (node_usage n + 1)).

(** [librdf_node_encode] on a node of this world: the error goes to the
    log of the world. *)
Definition node_encode (n : librdf_node) (buffer : option (list Z))
    (length : Z) : M (Z * option (list Z)) :=
  w ← st_get;
  r ← st_lift (librdf_node_encode (world_uris w) (Some n) buffer length);
  _ ← match encode_logged r with
      | Some e => librdf_log (log_encode e)
      | None => mret tt
      end;
  mret (encode_size r, encode_buffer r).

(** ** The blank identifier generator *)

(** [librdf_world_get_genid]: the string ["r<base>r<pid>r<counter>"] in a
    fresh block, the counter advanced; NULL when the block cannot be
    allocated. *)
Definition librdf_world_get_genid : M (option (list Z)) := λ w,
  let counter := genid_counter w in
  (e ← next_alloc;
   match e with
   | alloc_fail => mret None
   | alloc_ok _ =>
       mret (Some (ascii "r" ++ decimal (genid_base w) ++ ascii "r"
                   ++ decimal (world_pid w) ++ ascii "r" ++ decimal counter
                   ++ [0]))
   end) (set_genid_counter (int32 (counter + 1)) w).

(** ** [librdf_init_node] and [librdf_finish_node] *)

(** [librdf_new_hash(world, NULL)]: an empty table, or NULL. *)
Definition librdf_new_hash : M (hash_slot T) :=
  e ← next_alloc;
  match e with
  | alloc_fail => mret slot_null
  | alloc_ok _ => mret (slot_live hash_empty)
  end.

(** [librdf_hash_open]: 0, or non-zero on failure. *)
Definition librdf_hash_open : M Z :=
  e ← next_alloc;
  match e with
  | alloc_fail => mret 1
  | alloc_ok _ => mret 0
  end.

(** The body of the loop of [librdf_init_node]. *)
Definition init_node_step (i : node_hash_index) : M unit :=
  h ← librdf_new_hash;
  _ ← st_modify (set_hash i h);
  match h with
  | slot_live _ =>
      rc ← librdf_hash_open;
      if decide (rc ≠ 0) then LIBRDF_FATAL1 else mret tt
  | _ => LIBRDF_FATAL1
  end.

Definition librdf_init_node : M unit :=
  foldr (λ i k, _ ← init_node_step i; k) (mret tt) H_COUNT.

(** The body of the loop of [librdf_finish_node]: a table that is not
    NULL is closed and freed; the pointer stays in the world. *)
Definition finish_node_step (i : node_hash_index) : M unit := λ w,
  match nodes_hash w i with
  | slot_live _ => Val (tt, set_hash i slot_freed w)
  | slot_null => Val (tt, w)
  | slot_freed => Stuck UB
  end.

Definition librdf_finish_node : M unit :=
  foldr (λ i k, _ ← finish_node_step i; k) (mret tt) H_COUNT.

(** [librdf_world_open]: the first call initialises the modules of the
    world, the node module among them; later calls do nothing. *)
Definition librdf_world_open : M unit := λ w,
  if world_opened w then Val (tt, w)
  else librdf_init_node (set_opened true w).

(** [librdf_new_world()] in a process with the given pid: nothing opened,
    no nodes, with the outcomes of the allocations to come. *)
Definition librdf_new_world (pid : Z) (allocs : list alloc_event)
  : librdf_world :=
  {| world_opened := false; world_uris := uri_table_empty; world_nodes := ∅;
     nodes_hash_resource := slot_null; nodes_hash_literal := slot_null;
     nodes_hash_blank := slot_null; nodes_mutex := false;
     world_allocs := allocs; genid_base := 1; genid_counter := 1;
     world_pid := pid; world_log := []; XMLLiteral_URI := NULL |}.

(** The world after a successful [librdf_world_open]: the three tables
    are there and empty. *)
Definition opened_world (w : librdf_world) : librdf_world :=
  set_hash H_BLANK (slot_live hash_empty)
    (set_hash H_LITERAL (slot_live hash_empty)
       (set_hash H_RESOURCE (slot_live hash_empty)
          (set_opened true w))).

End world.

Arguments librdf_world T : clear implicits.

(** The normalisation and the build used to run the definitions on
    examples. *)
Definition identity_normalise : UriNormalise := λ s _ _, s.

(** A new world that has been opened, with finite maps as its tables:
    the world the examples start from. *)
Definition example_world
  : librdf_world (gmap librdf_hash_datum librdf_hash_datum) :=
  opened_world (librdf_new_world 42 []).

(** ** Running the services

    What each service returns and the world it leaves, for the proofs that
    follow a function of the source step by step. *)

Section world_run.
Context {T : Type} `{HashTable T} `{BuildConfig} `{UriNormalise}.
Implicit Types (w : librdf_world T) (p : ptr) (n : librdf_node).

(** The tables after an update of a field. *)
Lemma nodes_hash_set_hash w i j x :
  nodes_hash (set_hash i x w) j = if decide (j = i) then x else nodes_hash w j.
Proof. by destruct i, j. Qed.

Lemma nodes_hash_set_nodes w ns i :
  nodes_hash (set_nodes ns w) i = nodes_hash w i.
Proof. by destruct i. Qed.

Lemma nodes_hash_set_uris w ut i :
  nodes_hash (set_uris ut w) i = nodes_hash w i.
Proof. by destruct i. Qed.

Lemma nodes_hash_set_allocs w a i :
  nodes_hash (set_allocs a w) i = nodes_hash w i.
Proof. by destruct i. Qed.

Lemma nodes_hash_alloc_rest w i : nodes_hash (alloc_rest w) i = nodes_hash w i.
Proof. by destruct i. Qed.

Lemma nodes_hash_set_mutex w b i :
  nodes_hash (set_mutex b w) i = nodes_hash w i.
Proof. by destruct i. Qed.

Lemma nodes_hash_set_log w l i :
  nodes_hash (set_log l w) i = nodes_hash w i.
Proof. by destruct i. Qed.

Lemma nodes_hash_set_genid_counter w c i :
  nodes_hash (set_genid_counter c w) i = nodes_hash w i.
Proof. by destruct i. Qed.

Lemma nodes_hash_set_opened w b i :
  nodes_hash (set_opened b w) i = nodes_hash w i.
Proof. by destruct i. Qed.

Lemma next_alloc_run w : next_alloc w = Val (alloc_head w, alloc_rest w).
Proof. reflexivity. Qed.

Lemma LIBRDF_MALLOC_run w size :
  LIBRDF_MALLOC size w
  = Val (match alloc_head w with
         | alloc_fail => None
         | alloc_ok junk => Some (malloc_bytes junk size)
         end, alloc_rest w).
Proof.
  unfold LIBRDF_MALLOC. rewrite (st_bind_val _ _ _ _ _ (next_alloc_run w)).
  by destruct (alloc_head w).
Qed.

Lemma LIBRDF_CALLOC_node_fail w :
  alloc_head w = alloc_fail →
  LIBRDF_CALLOC_node w = Val (NULL, alloc_rest w).
Proof.
  intros E. unfold LIBRDF_CALLOC_node.
  rewrite (st_bind_val _ _ _ _ _ (next_alloc_run w)). by rewrite E.
Qed.

Lemma LIBRDF_CALLOC_node_ok w junk :
  alloc_head w = alloc_ok junk →
  LIBRDF_CALLOC_node w
  = Val (fresh_ptr (world_nodes w),
         set_nodes (<[fresh_ptr (world_nodes w) :=
                        {| node_usage := 0; node_value_of := value_unknown |}]>
                      (world_nodes w)) (alloc_rest w)).
Proof.
  intros E. unfold LIBRDF_CALLOC_node.
  rewrite (st_bind_val _ _ _ _ _ (next_alloc_run w)). by rewrite E.
Qed.

Lemma node_load_run w p n :
  world_nodes w !! p = Some n → node_load p w = Val (n, w).
Proof. intros E. unfold node_load. by rewrite E. Qed.

Lemma node_store_run w p n0 n :
  world_nodes w !! p = Some n0 →
  node_store p n w = Val (tt, set_nodes (<[p := n]> (world_nodes w)) w).
Proof. intros E. unfold node_store. by rewrite E. Qed.

Lemma node_usage_incr_run w p n :
  world_nodes w !! p = Some n → node_usage n < INT_MAX →
  node_usage_incr p w
  = Val (tt, set_nodes (<[p := with_usage n (node_usage n + 1)]>
                          (world_nodes w)) w).
Proof.
  intros E Hn. unfold node_usage_incr.
  rewrite (st_bind_val _ _ _ _ _ (node_load_run w p n E)).
  rewrite decide_False by lia. by apply node_store_run with n.
Qed.

Lemma the_hash_run w i h :
  nodes_hash w i = slot_live h → the_hash i w = Val (h, w).
Proof. intros E. unfold the_hash. by rewrite E. Qed.

Lemma librdf_hash_get_one_run w i h k :
  nodes_hash w i = slot_live h →
  librdf_hash_get_one i k w = Val (hash_get_one h k, w).
Proof.
  intros E. unfold librdf_hash_get_one.
  by rewrite (st_bind_val _ _ _ _ _ (the_hash_run w i h E)).
Qed.

Lemma librdf_hash_put_run w i h k v :
  nodes_hash w i = slot_live h →
  librdf_hash_put i k v w
  = Val (match alloc_head w with alloc_fail => 1 | alloc_ok _ => 0 end,
         match alloc_head w with
         | alloc_fail => alloc_rest w
         | alloc_ok _ =>
             set_hash i (slot_live (hash_put h k v)) (alloc_rest w)
         end).
Proof.
  intros E. unfold librdf_hash_put.
  rewrite (st_bind_val _ _ _ _ _ (the_hash_run w i h E)).
  rewrite (st_bind_val _ _ _ _ _ (next_alloc_run w)).
  by destruct (alloc_head w).
Qed.

Lemma librdf_hash_delete_all_run w i h k :
  nodes_hash w i = slot_live h →
  librdf_hash_delete_all i k w
  = Val (tt, set_hash i (slot_live (hash_delete_all h k)) w).
Proof.
  intros E. unfold librdf_hash_delete_all.
  by rewrite (st_bind_val _ _ _ _ _ (the_hash_run w i h E)).
Qed.

Lemma with_uris_run w f ut :
  f (world_uris w) = Val ut → with_uris f w = Val (tt, set_uris ut w).
Proof. intros E. unfold with_uris. by rewrite E. Qed.

Lemma librdf_free_uri_run w p ut :
  uri_release (world_uris w) p = Val ut →
  librdf_free_uri p w = Val (tt, set_uris ut w).
Proof. intros E. by apply (with_uris_run w (λ ut, uri_release ut p)). Qed.

Lemma librdf_new_uri_from_uri_run w p ut :
  uri_ref (world_uris w) p = Val ut →
  librdf_new_uri_from_uri p w = Val (p, set_uris ut w).
Proof.
  intros E. unfold librdf_new_uri_from_uri.
  by rewrite (st_bind_val _ _ _ _ _
               (with_uris_run w (λ ut, uri_ref ut p) ut E)).
Qed.

Lemma pthread_mutex_lock_run w :
  nodes_mutex w = false →
  pthread_mutex_lock w
  = Val (tt, if WITH_THREADS then set_mutex true w else w).
Proof.
  intros E. unfold pthread_mutex_lock. rewrite E. by destruct WITH_THREADS.
Qed.

Lemma pthread_mutex_unlock_run w :
  nodes_mutex w = WITH_THREADS →
  pthread_mutex_unlock w
  = Val (tt, if WITH_THREADS then set_mutex false w else w).
Proof.
  intros E. unfold pthread_mutex_unlock. rewrite E. by destruct WITH_THREADS.
Qed.

Lemma pthread_mutex_lock_deadlock w :
  WITH_THREADS = true → nodes_mutex w = true →
  pthread_mutex_lock w = Stuck Deadlock.
Proof. intros E1 E2. unfold pthread_mutex_lock. by rewrite E1, E2. Qed.

Lemma librdf_world_open_run w :
  world_opened w = true → librdf_world_open w = Val (tt, w).
Proof. intros E. unfold librdf_world_open. by rewrite E. Qed.

End world_run.

Arguments nodes_hash : simpl never.

Create Rewrite HintDb world.
#[export] Hint Rewrite @nodes_hash_set_hash @nodes_hash_set_nodes
  @nodes_hash_set_uris @nodes_hash_set_allocs @nodes_hash_alloc_rest
  @nodes_hash_set_mutex @nodes_hash_set_log @nodes_hash_set_genid_counter
  @nodes_hash_set_opened : world.

(** Projections of updated worlds, normalised. *)
Ltac wsimpl := simpl; autorewrite with world; simpl.
