(* ===== verification/Intern.v ===== *)
(** * Construct-or-find, copy and release

    The constructors of [rdf_node.c], [librdf_new_node_from_node] and
    [librdf_free_node], as computations on the world.  Each constructor
    follows the source statement by statement: the assertions, the early
    returns, the lock, the lookup in the intern table of its kind, the
    allocations in the order the source makes them, the clean-up of every
    failure path, and the unlock at the label [unlock].  A path of the
    source that returns without passing the label leaves the mutex locked
    here as well.

    The node object is allocated where the source allocates it; its fields
    are written to the heap when the source has set the last of them (no
    other code can read the object before, the lock being held).  The string
    blocks a node owns are part of its value. *)

From S2P Require Import Prelude CString Hash Uri Node Encode World.

#[local] Open Scope Z_scope.

(** How the part of a constructor under the lock ends: at the label
    [unlock], or with a [return] of its own. *)
Inductive locked_exit : Set :=
| goto_unlock (new_node : ptr)
| return_now (result : ptr).

Section intern.
Context {T : Type} `{HashTable T} `{BuildConfig} `{UriNormalise}.

Abbreviation M := (st (librdf_world T)).

(** ** Resources *)

(** [librdf_new_node_from_uri_string_or_uri] from the lock to the label
    [unlock]. *)
Definition new_resource_locked (new_uri : ptr) : M ptr :=
  let key := datum_ptr new_uri in
  old_value ← librdf_hash_get_one H_RESOURCE key;
  match old_value with
  | Some d =>
      new_node ← st_lift (datum_as_ptr d);
      _ ← librdf_free_uri new_uri;
      _ ← node_usage_incr new_node;
      mret new_node
  | None =>
      new_node ← LIBRDF_CALLOC_node;
      if is_null new_node then
        _ ← librdf_free_uri new_uri; mret NULL
      else
        _ ← node_store new_node
              {| node_usage := 1; node_value_of := value_resource new_uri |};
        rc ← librdf_hash_put H_RESOURCE key (datum_ptr new_node);
        if decide (rc ≠ 0) then
          _ ← LIBRDF_FREE_node new_node;
          _ ← librdf_free_uri new_uri;
          mret NULL
        else mret new_node
  end.

Definition librdf_new_node_from_uri_string_or_uri
    (uri_string : option (list Z)) (len : Z) (uri : ptr) : M ptr :=
  _ ← librdf_world_open;
  ASSERT_RETURN (negb (bool_decide (is_Some uri_string)) && is_null uri) NULL (
  ASSERT_RETURN (bool_decide (is_Some uri_string) && negb (is_null uri)) NULL (
    if negb (bool_decide (is_Some uri_string)) && is_null uri then mret NULL
    else if bool_decide (is_Some uri_string) && negb (is_null uri)
    then mret NULL
    else
      new_uri ← match uri_string with
                | Some s => librdf_new_uri s
                | None => librdf_new_uri_from_uri uri
                end;
      if bool_decide (is_Some uri_string) && is_null new_uri then mret NULL
      else
        _ ← pthread_mutex_lock;
        new_node ← new_resource_locked new_uri;
        _ ← pthread_mutex_unlock;
        mret new_node)).

Definition librdf_new_node_from_uri_string (uri_string : option (list Z))
  : M ptr :=
  _ ← librdf_world_open;
  ASSERT_OBJECT_POINTER_RETURN_VALUE uri_string NULL (
    s ← st_lift (of_option uri_string);
    len ← st_lift (strlen s);
    librdf_new_node_from_uri_string_or_uri uri_string len NULL).

Definition librdf_new_node_from_counted_uri_string
    (uri_string : option (list Z)) (len : Z) : M ptr :=
  _ ← librdf_world_open;
  ASSERT_OBJECT_POINTER_RETURN_VALUE uri_string NULL (
    librdf_new_node_from_uri_string_or_uri uri_string len NULL).

(** A [librdf_uri*] argument as the assertion macro sees it. *)
Definition as_pointer (p : ptr) : option ptr :=
  if is_null p then None else Some p.

Definition librdf_new_node_from_uri (uri : ptr) : M ptr :=
  _ ← librdf_world_open;
  ASSERT_OBJECT_POINTER_RETURN_VALUE (as_pointer uri) NULL (
    librdf_new_node_from_uri_string_or_uri None 0 uri).

Definition librdf_new_node_from_uri_local_name (uri : ptr)
    (local_name : option (list Z)) : M ptr :=
  _ ← librdf_world_open;
  ASSERT_OBJECT_POINTER_RETURN_VALUE (as_pointer uri) NULL (
  ASSERT_OBJECT_POINTER_RETURN_VALUE local_name NULL (
    l ← st_lift (of_option local_name);
    new_uri ← librdf_new_uri_from_uri_local_name uri l;
    if is_null new_uri then mret NULL
    else
      new_node ← librdf_new_node_from_uri_string_or_uri None 0 new_uri;
      _ ← librdf_free_uri new_uri;
      mret new_node)).

Definition librdf_new_node_from_normalised_uri_string
    (uri_string : option (list Z)) (source_uri base_uri : ptr) : M ptr :=
  _ ← librdf_world_open;
  ASSERT_OBJECT_POINTER_RETURN_VALUE uri_string NULL (
  ASSERT_OBJECT_POINTER_RETURN_VALUE (as_pointer source_uri) NULL (
  ASSERT_OBJECT_POINTER_RETURN_VALUE (as_pointer base_uri) NULL (
    s ← st_lift (of_option uri_string);
    new_uri ← librdf_new_uri_normalised_to_base s source_uri base_uri;
    if is_null new_uri then mret NULL
    else
      new_node ← librdf_new_node_from_uri_string_or_uri None 0 new_uri;
      _ ← librdf_free_uri new_uri;
      mret new_node))).

(** ** Literals *)

(** [if(xml_language && !*xml_language) xml_language=NULL;] *)
Definition normalise_language (xml_language : option (list Z))
  : res (option (list Z)) :=
  match xml_language with
  | Some l => c ← load l 0; Val (if decide (c = 0) then None else Some l)
  | None => Val None
  end.

(** [LIBRDF_MALLOC(cstring, len + 1)], [strncpy(block, src, len)] and
    [block[len]='\0']; [None] when the allocation fails. *)
Definition copy_counted (src : list Z) (len : Z) : M (option (list Z)) :=
  block ← LIBRDF_MALLOC (size_t (len + 1));
  match block with
  | None => mret None
  | Some b =>
      copied ← st_lift (strncpy_bytes src len);
      b ← st_lift (poke b 0 copied);
      b ← st_lift (store b len 0);
      mret (Some b)
  end.

(** The block [if(xml_language && *xml_language) ... else
    new_xml_language=NULL]: [None] when the allocation fails, otherwise the
    copy or NULL. *)
Definition copy_language (xml_language : option (list Z))
    (xml_language_len : Z) : M (option (option (list Z))) :=
  match xml_language with
  | None => mret (Some None)
  | Some l =>
      c ← st_lift (load l 0);
      if decide (c = 0) then mret (Some None)
      else b ← copy_counted l xml_language_len; mret (Some <$> b)
  end.

(** [if(datatype_uri) librdf_free_uri(datatype_uri);] *)
Definition free_datatype_uri (datatype_uri : ptr) : M unit :=
  if is_null datatype_uri then mret tt else librdf_free_uri datatype_uri.

(** From the allocation of the key buffer to the label [unlock]: the key
    is the encoding of the node, the node found under the key is returned
    with one more use, a new key is entered with the new node. *)
Definition intern_literal (new_node : ptr) (l : literal_value) (size : Z)
    (buffer : list Z) : M locked_exit :=
  let n := {| node_usage := 0; node_value_of := value_literal l |} in
  r ← node_encode n (Some buffer) size;
  buffer ← st_lift (of_option r.2);
  let key := datum_bytes (take (Z.to_nat size) buffer) in
  old_value ← librdf_hash_get_one H_LITERAL key;
  match old_value with
  | Some d =>
      _ ← free_datatype_uri (literal_datatype_uri l);
      _ ← LIBRDF_FREE_node new_node;
      new_node ← st_lift (datum_as_ptr d);
      _ ← node_usage_incr new_node;
      mret (goto_unlock new_node)
  | None =>
      _ ← node_store new_node
            {| node_usage := 1;
               node_value_of := value_literal
                 {| literal_string := literal_string l;
                    literal_string_len := literal_string_len l;
                    literal_datatype_uri := literal_datatype_uri l;
                    literal_xml_language := literal_xml_language l;
                    literal_xml_language_len := literal_xml_language_len l;
                    literal_key := Some buffer;
                    literal_size := size |} |};
      rc ← librdf_hash_put H_LITERAL key (datum_ptr new_node);
      if decide (rc ≠ 0) then
        _ ← free_datatype_uri (literal_datatype_uri l);
        _ ← LIBRDF_FREE_node new_node;
        mret (goto_unlock NULL)
      else mret (goto_unlock new_node)
  end.

(** From the measuring call of the encoder on: a size of 0 or a failed
    allocation of the key buffer ends the function with [return NULL]. *)
Definition key_literal (new_node : ptr) (l : literal_value) : M locked_exit :=
  let n := {| node_usage := 0; node_value_of := value_literal l |} in
  r ← node_encode n None 0;
  let size := r.1 in
  buffer ← (if decide (size ≠ 0) then LIBRDF_MALLOC size else mret None);
  match buffer with
  | None =>
      _ ← free_datatype_uri (literal_datatype_uri l);
      _ ← LIBRDF_FREE_node new_node;
      mret (return_now NULL)
  | Some b => intern_literal new_node l size b
  end.

(** [librdf_new_node_from_typed_counted_literal] from the lock on. *)
Definition new_literal_locked (value : list Z) (value_len : Z)
    (xml_language : option (list Z)) (xml_language_len : Z)
    (datatype_uri : ptr) : M locked_exit :=
  new_node ← LIBRDF_CALLOC_node;
  if is_null new_node then mret (goto_unlock NULL)
  else
    new_value ← copy_counted value value_len;
    match new_value with
    | None => _ ← LIBRDF_FREE_node new_node; mret (goto_unlock NULL)
    | Some new_value =>
        lang ← copy_language xml_language xml_language_len;
        match lang with
        | None => _ ← LIBRDF_FREE_node new_node; mret (goto_unlock NULL)
        | Some new_xml_language =>
            datatype_uri ← (if is_null datatype_uri then mret NULL
                            else librdf_new_uri_from_uri datatype_uri);
            key_literal new_node
              {| literal_string := Some new_value;
                 literal_string_len := value_len;
                 literal_datatype_uri := datatype_uri;
                 literal_xml_language := new_xml_language;
                 literal_xml_language_len :=
                   match new_xml_language with
                   | Some _ => xml_language_len
                   | None => 0
                   end;
                 literal_key := None;
                 literal_size := 0 |}
        end
    end.

Definition librdf_new_node_from_typed_counted_literal
    (value : option (list Z)) (value_len : Z)
    (xml_language : option (list Z)) (xml_language_len : Z)
    (datatype_uri : ptr) : M ptr :=
  _ ← librdf_world_open;
  ASSERT_OBJECT_POINTER_RETURN_VALUE value NULL (
    v ← st_lift (of_option value);
    xml_language ← st_lift (normalise_language xml_language);
    if bool_decide (is_Some xml_language) && negb (is_null datatype_uri)
    then mret NULL
    else
      _ ← pthread_mutex_lock;
      e ← new_literal_locked v value_len xml_language xml_language_len
             datatype_uri;
      match e with
      | return_now result => mret result
      | goto_unlock new_node => _ ← pthread_mutex_unlock; mret new_node
      end).

Definition librdf_new_node_from_literal (string : option (list Z))
    (xml_language : option (list Z)) (is_wf_xml : Z) : M ptr :=
  _ ← librdf_world_open;
  ASSERT_OBJECT_POINTER_RETURN_VALUE string NULL (
    s ← st_lift (of_option string);
    xml_language ← st_lift (normalise_language xml_language);
    if bool_decide (is_Some xml_language) && bool_decide (is_wf_xml ≠ 0)
    then mret NULL
    else
      xml_language_len ← st_lift (match xml_language with
                                  | Some l => strlen l
                                  | None => Val 0
                                  end);
      len ← st_lift (strlen s);
      w ← st_get;
      librdf_new_node_from_typed_counted_literal string len xml_language
        xml_language_len
        (if decide (is_wf_xml ≠ 0) then XMLLiteral_URI w else NULL)).

Definition librdf_new_node_from_typed_literal (value : option (list Z))
    (xml_language : option (list Z)) (datatype_uri : ptr) : M ptr :=
  _ ← librdf_world_open;
  xml_language_len ← st_lift (match xml_language with
                              | Some l => strlen l
                              | None => Val 0
                              end);
  v ← st_lift (of_option value);
  len ← st_lift (strlen v);
  librdf_new_node_from_typed_counted_literal value len xml_language
    xml_language_len datatype_uri.

(** ** Blank nodes *)

(** The identifier block of a new blank node and its length: generated
    when NULL is passed, otherwise [identifier_len + 1] bytes copied from
    the argument; [None] when the allocation fails. *)
Definition new_blank_identifier (identifier : option (list Z))
    (identifier_len : Z) : M (option (list Z * Z)) :=
  match identifier with
  | None =>
      g ← librdf_world_get_genid;
      match g with
      | None => mret None
      | Some new_identifier =>
          len ← st_lift (strlen new_identifier);
          mret (Some (new_identifier, len))
      end
  | Some id =>
      block ← LIBRDF_MALLOC (size_t (identifier_len + 1));
      match block with
      | None => mret None
      | Some b =>
          bytes ← st_lift (memcpy_bytes id (identifier_len + 1));
          b ← st_lift (poke b 0 bytes);
          mret (Some (b, identifier_len))
      end
  end.

(** [librdf_new_node_from_counted_blank_identifier] from the lock to the
    label [unlock]. *)
Definition new_blank_locked (identifier : option (list Z))
    (identifier_len : Z) : M ptr :=
  r ← new_blank_identifier identifier identifier_len;
  match r with
  | None => mret NULL
  | Some (new_identifier, identifier_len) =>
      let key :=
        datum_bytes (take (Z.to_nat identifier_len) new_identifier) in
      old_value ← librdf_hash_get_one H_BLANK key;
      match old_value with
      | Some d =>
          new_node ← st_lift (datum_as_ptr d);
          _ ← node_usage_incr new_node;
          mret new_node
      | None =>
          new_node ← LIBRDF_CALLOC_node;
          if is_null new_node then mret NULL
          else
            _ ← node_store new_node
                  {| node_usage := 1;
                     node_value_of := value_blank
                       {| blank_identifier := Some new_identifier;
                          blank_identifier_len := identifier_len |} |};
            rc ← librdf_hash_put H_BLANK key (datum_ptr new_node);
            if decide (rc ≠ 0) then
              _ ← LIBRDF_FREE_node new_node; mret NULL
            else mret new_node
      end
  end.

Definition librdf_new_node_from_counted_blank_identifier
    (identifier : option (list Z)) (identifier_len : Z) : M ptr :=
  _ ← librdf_world_open;
  _ ← pthread_mutex_lock;
  new_node ← new_blank_locked identifier identifier_len;
  _ ← pthread_mutex_unlock;
  mret new_node.

Definition librdf_new_node_from_blank_identifier
    (identifier : option (list Z)) : M ptr :=
  _ ← librdf_world_open;
  identifier_len ← st_lift (match identifier with
                            | Some id => strlen id
                            | None => Val 0
                            end);
  librdf_new_node_from_counted_blank_identifier identifier identifier_len.

Definition librdf_new_node : M ptr :=
  _ ← librdf_world_open;
  librdf_new_node_from_blank_identifier None.

(** ** Copy and release *)

(** [librdf_new_node_from_node]: one more use of the same object; the
    mutex is not taken. *)
Definition librdf_new_node_from_node (node : ptr) : M ptr :=
  ASSERT_OBJECT_POINTER_RETURN_VALUE (as_pointer node) NULL (
    _ ← node_usage_incr node; mret node).

(** [node->usage--]. *)
Definition node_usage_decr (node : ptr) : M Z :=
  n ← node_load node;
  if decide (node_usage n = INT_MIN) then st_stuck UB
  else _ ← node_store node (with_usage n (node_usage n - 1));
       mret (node_usage n - 1).

(** The [switch] of [librdf_free_node]: the entry of the node leaves the
    table of its kind and the URI it refers to loses a reference. *)
Definition free_node_value (v : node_value) : M unit :=
  match v with
  | value_resource uri =>
      _ ← librdf_hash_delete_all H_RESOURCE (datum_ptr uri);
      librdf_free_uri uri
  | value_literal l =>
      _ ← match literal_key l with
          | Some key =>
              librdf_hash_delete_all H_LITERAL
                (datum_bytes (take (Z.to_nat (literal_size l)) key))
          | None => mret tt
          end;
      free_datatype_uri (literal_datatype_uri l)
  | value_blank b =>
      match blank_identifier b with
      | Some identifier =>
          librdf_hash_delete_all H_BLANK
            (datum_bytes
               (take (Z.to_nat (blank_identifier_len b)) identifier))
      | None =>
          if decide (blank_identifier_len b = 0)
          then librdf_hash_delete_all H_BLANK (datum_bytes [])
          else st_stuck UB
      end
  | value_unknown => mret tt
  end.

Definition librdf_free_node (node : ptr) : M unit :=
  if is_null node then mret tt
  else
    _ ← pthread_mutex_lock;
    usage ← node_usage_decr node;
    if decide (usage ≠ 0) then pthread_mutex_unlock
    else
      n ← node_load node;
      _ ← free_node_value (node_value_of n);
      _ ← pthread_mutex_unlock;
      LIBRDF_FREE_node node.

End intern.
