(* ===== verification/Decode.v ===== *)
(** * The decoder

    [librdf_node_decode(world, size_p, buffer, length)]: the tag byte
    selects the case, the header gives the lengths, and the node is built
    by the constructor of its kind, so a decoded node is interned like any
    other.  The model returns the node and the value stored through
    [size_p] (nothing is stored on the paths that return before the end of
    the function, or when [size_p] is NULL).

    [buffer] is the object the caller passes (the bytes from the pointer to
    the end of the object) and [length] what the caller says it holds; the
    function compares [length] with the size of the header only. *)

From S2P Require Import Prelude CString Hash Uri Node Encode World Intern.

#[local] Open Scope Z_scope.

Section decode.
Context {T : Type} `{HashTable T} `{BuildConfig} `{UriNormalise}.

Abbreviation M := (st (librdf_world T)).

(** What a case of the [switch] leaves: the node and [total_length]. *)
Definition decoded : Type := ptr * Z.

(** [buffer + total_length] when [len] is not 0, else NULL; the new
    [total_length]. *)
Definition decode_field (buffer : list Z) (total_length len : Z)
  : res (option (list Z) * Z) :=
  if decide (len ≠ 0) then
    p ← ptr_add buffer total_length;
    Val (Some p, total_length + (len + 1))
  else Val (None, total_length).

(** [case 'R'] and [case 'B']: the string is read up to its NUL, the
    length of the header only counts for [total_length]. *)
Definition decode_short (new_node : option (list Z) → M ptr)
    (buffer : list Z) : M decoded :=
  b1 ← st_lift (load buffer 1);
  b2 ← st_lift (load buffer 2);
  let string_length := get16 b1 b2 in
  let total_length := 3 + string_length + 1 in
  s ← st_lift (ptr_add buffer 3);
  node ← new_node (Some s);
  mret (node, total_length).

(** [case 'L']: the old form of a literal. *)
Definition decode_literal_L (buffer : list Z) : M decoded :=
  b1 ← st_lift (load buffer 1);
  b2 ← st_lift (load buffer 2);
  b3 ← st_lift (load buffer 3);
  b5 ← st_lift (load buffer 5);
  let is_wf_xml := Z.shiftr (Z.land b1 0xf0) 8 in
  let string_length := get16 b2 b3 in
  let language_length := b5 in
  let total_length := 6 + string_length + 1 in
  lang ← st_lift (decode_field buffer total_length language_length);
  s ← st_lift (ptr_add buffer 6);
  w ← st_get;
  node ← librdf_new_node_from_typed_counted_literal (Some s) string_length
            lang.1 language_length
            (if decide (is_wf_xml ≠ 0) then XMLLiteral_URI w else NULL);
  mret (node, lang.2).

(** The common part of [case 'M'] and [case 'N'] after the header: the
    datatype URI is made from its string, the literal is built, and the
    reference to the URI taken here is given back. *)
Definition decode_typed_literal (buffer : list Z) (header string_length
    datatype_uri_length language_length : Z) : M decoded :=
  let total_length := header + string_length + 1 in
  dt ← st_lift (decode_field buffer total_length datatype_uri_length);
  lang ← st_lift (decode_field buffer dt.2 language_length);
  datatype_uri ← match dt.1 with
                 | Some datatype_uri_string =>
                     librdf_new_uri datatype_uri_string
                 | None => mret NULL
                 end;
  s ← st_lift (ptr_add buffer header);
  node ← librdf_new_node_from_typed_counted_literal (Some s) string_length
            lang.1 language_length datatype_uri;
  _ ← free_datatype_uri datatype_uri;
  mret (node, lang.2).

Definition decode_literal_M (buffer : list Z) : M decoded :=
  b1 ← st_lift (load buffer 1);
  b2 ← st_lift (load buffer 2);
  b3 ← st_lift (load buffer 3);
  b4 ← st_lift (load buffer 4);
  b5 ← st_lift (load buffer 5);
  decode_typed_literal buffer 6 (get16 b1 b2) (get16 b3 b4) b5.

Definition decode_literal_N (buffer : list Z) : M decoded :=
  b1 ← st_lift (load buffer 1);
  b2 ← st_lift (load buffer 2);
  b3 ← st_lift (load buffer 3);
  b4 ← st_lift (load buffer 4);
  b5 ← st_lift (load buffer 5);
  b6 ← st_lift (load buffer 6);
  b7 ← st_lift (load buffer 7);
  decode_typed_literal buffer 8 (get32 b1 b2 b3 b4) (get16 b5 b6) b7.

(** The end of the function: [if(size_p) *size_p=total_length;]. *)
Definition decode_finish (size_p : bool) (d : M decoded)
  : M (ptr * option Z) :=
  r ← d; mret (r.1, if size_p then Some r.2 else None).

Definition librdf_node_decode (size_p : bool) (buffer : list Z) (length : Z)
  : M (ptr * option Z) :=
  _ ← librdf_world_open;
  if decide (length < 1) then mret (NULL, None)
  else
    tag ← st_lift (load buffer 0);
    if decide (tag = 82) then
      if decide (length < 3) then mret (NULL, None)
      else decode_finish size_p
             (decode_short librdf_new_node_from_uri_string buffer)
    else if decide (tag = 76) then
      if decide (length < 6) then mret (NULL, None)
      else decode_finish size_p (decode_literal_L buffer)
    else if decide (tag = 77) then
      if decide (length < 6) then mret (NULL, None)
      else decode_finish size_p (decode_literal_M buffer)
    else if decide (tag = 78) then
      if decide (length < 8) then mret (NULL, None)
      else decode_finish size_p (decode_literal_N buffer)
    else if decide (tag = 66) then
      if decide (length < 3) then mret (NULL, None)
      else decode_finish size_p
             (decode_short librdf_new_node_from_blank_identifier buffer)
    else
      _ ← librdf_log (log_illegal_encoding tag);
      mret (NULL, None).

End decode.
