(* ===== verification/Invariant.v ===== *)
(** * The invariant of the intern tables

    [world_wf ext w] says that the world [w] is consistent:

    - the URI module's own invariant holds;
    - the three tables exist, and a table entry and a node object name each
      other: the node stored under a key is live and has that key, and
      every live node is found under its key in the table of its kind
      (so two live nodes with the same key are the same object);
    - every live node has a usage count of at least 1;
    - a URI that nodes refer to is live, and its reference count covers the
      nodes that hold it plus [ext], the references the callers hold.

    The invariant holds between the calls of the interface; the theorems of
    [Lifecycle] show that every constructor, the copy and the release keep
    it, on every path.

    Worlds are compared by [world_equiv]: the same URIs and node objects,
    tables with the same lookups.  The allocation list, the log and the
    counter of the identifier generator are left out, so that "the world is
    as it was" can be said of a call that failed; the mutex is left out as
    well, and the theorems state what a call does to it. *)

From S2P Require Import Prelude CString Hash Uri Node Encode World Intern.

#[local] Open Scope Z_scope.

(** The table of a node and its key there: [key.data], [key.size] as
    [librdf_free_node] computes them. *)
Definition node_key (n : librdf_node)
  : option (node_hash_index * librdf_hash_datum) :=
  match node_value_of n with
  | value_resource uri => Some (H_RESOURCE, datum_ptr uri)
  | value_literal l =>
      key ← literal_key l;
      Some (H_LITERAL, datum_bytes (take (Z.to_nat (literal_size l)) key))
  | value_blank b =>
      id ← blank_identifier b;
      Some (H_BLANK, datum_bytes (take (Z.to_nat (blank_identifier_len b)) id))
  | value_unknown => None
  end.

(** The references to the URI object [p] the node holds. *)
Definition node_refs (n : librdf_node) (p : ptr) : Z :=
  if decide (p = NULL) then 0
  else match node_value_of n with
       | value_resource uri => if decide (uri = p) then 1 else 0
       | value_literal l =>
           if decide (literal_datatype_uri l = p) then 1 else 0
       | _ => 0
       end.

(** The references to [p] all the nodes of a heap hold. *)
Definition holders (ns : gmap N librdf_node) (p : ptr) : Z :=
  map_fold (λ _ n acc, node_refs n p + acc) 0 ns.

(** [k] more references to [p] held outside the nodes. *)
Definition ext_add (ext : ptr → Z) (p : ptr) (k : Z) : ptr → Z :=
  λ q, if decide (q = p) then ext q + k else ext q.

Section invariant.
Context {T : Type} `{HashTable T}.

Record world_wf (ext : ptr → Z) (w : librdf_world T) : Prop := {
  wf_uris : uri_table_wf (world_uris w);
  wf_opened : world_opened w = true;
  wf_tables i : ∃ h, nodes_hash w i = slot_live h;
  wf_null : world_nodes w !! NULL = None;
  wf_usage p n : world_nodes w !! p = Some n → 1 ≤ node_usage n ≤ INT_MAX;
  wf_heap_index p n :
    world_nodes w !! p = Some n →
    ∃ i k h, node_key n = Some (i, k) ∧ nodes_hash w i = slot_live h
             ∧ hash_get_one h k = Some (datum_ptr p);
  wf_index_heap i h k v :
    nodes_hash w i = slot_live h → hash_get_one h k = Some v →
    ∃ p n, v = datum_ptr p ∧ world_nodes w !! p = Some n
           ∧ node_key n = Some (i, k);
  wf_refs p :
    p ≠ NULL → 0 < holders (world_nodes w) p + ext p →
    ∃ u, uris (world_uris w) !! p = Some u
         ∧ holders (world_nodes w) p + ext p ≤ uri_usage u;
  wf_ext p : 0 ≤ ext p;
}.

(** No count is at its maximum: one more use of any node or URI can be
    recorded. *)
Definition nodes_room (w : librdf_world T) : Prop :=
  ∀ p n, world_nodes w !! p = Some n → node_usage n < INT_MAX.

Definition world_room (w : librdf_world T) : Prop :=
  nodes_room w
  ∧ (∀ p u, uris (world_uris w) !! p = Some u → uri_usage u < INT_MAX).

(** The node interned under a key. *)
Definition interned (w : librdf_world T) (i : node_hash_index)
    (k : librdf_hash_datum) : option ptr :=
  match nodes_hash w i with
  | slot_live h =>
      match hash_get_one h k with
      | Some (datum_ptr p) => Some p
      | _ => None
      end
  | _ => None
  end.

(** ** Worlds up to what a caller can observe *)

Definition slot_equiv (a b : hash_slot T) : Prop :=
  match a, b with
  | slot_null, slot_null => True
  | slot_live h1, slot_live h2 => h1 ≡ h2
  | slot_freed, slot_freed => True
  | _, _ => False
  end.

Record world_equiv (w w' : librdf_world T) : Prop := {
  eqv_uris : world_uris w = world_uris w';
  eqv_nodes : world_nodes w = world_nodes w';
  eqv_tables i : slot_equiv (nodes_hash w i) (nodes_hash w' i);
  eqv_opened : world_opened w = world_opened w';
  eqv_xml : XMLLiteral_URI w = XMLLiteral_URI w';
}.

#[global] Instance world_equiv_instance : Equiv (librdf_world T) :=
  world_equiv.

(** ** The changes a call makes to a consistent world *)

(** One more use of the node at [p]. *)
Definition world_bump (p : ptr) (w : librdf_world T) : librdf_world T :=
  match world_nodes w !! p with
  | Some n =>
      set_nodes (<[p := with_usage n (node_usage n + 1)]> (world_nodes w)) w
  | None => w
  end.

(** The node [n] entered at address [p] under the key [k] of table [i]. *)
Definition world_add (p : ptr) (n : librdf_node) (i : node_hash_index)
    (k : librdf_hash_datum) (w : librdf_world T) : librdf_world T :=
  match nodes_hash w i with
  | slot_live h =>
      set_hash i (slot_live (hash_put h k (datum_ptr p)))
        (set_nodes (<[p := n]> (world_nodes w)) w)
  | _ => w
  end.

(** The node at [p] removed from the heap, and its key from its table. *)
Definition world_remove (p : ptr) (w : librdf_world T) : librdf_world T :=
  match n ← world_nodes w !! p; node_key n with
  | Some (i, k) =>
      match nodes_hash w i with
      | slot_live h =>
          set_hash i (slot_live (hash_delete_all h k))
            (set_nodes (delete p (world_nodes w)) w)
      | _ => w
      end
  | None => w
  end.

End invariant.

(** ** Counting the holders of a URI *)

Section holders_lemmas.
Implicit Types (ns : gmap N librdf_node) (n : librdf_node) (p q : ptr).

Lemma node_refs_range n p : 0 ≤ node_refs n p ≤ 1.
Proof.
  unfold node_refs. case_decide; [lia|].
  destruct (node_value_of n); try case_decide; lia.
Qed.

Lemma node_refs_null n : node_refs n NULL = 0.
Proof. unfold node_refs. by rewrite decide_True. Qed.

Lemma holders_empty p : holders ∅ p = 0.
Proof. apply map_fold_empty. Qed.

Lemma holders_insert_fresh ns q n p :
  ns !! q = None → holders (<[q := n]> ns) p = node_refs n p + holders ns p.
Proof.
  intros Hq. unfold holders.
  rewrite map_fold_insert_L; [done | intros; lia | done].
Qed.

Lemma holders_delete ns q n p :
  ns !! q = Some n → holders ns p = node_refs n p + holders (delete q ns) p.
Proof.
  intros Hq. rewrite <- (insert_delete_id ns q n Hq) at 1.
  apply holders_insert_fresh, lookup_delete_eq.
Qed.

Lemma holders_insert ns q n0 n p :
  ns !! q = Some n0 →
  holders (<[q := n]> ns) p = holders ns p - node_refs n0 p + node_refs n p.
Proof.
  intros Hq. rewrite (holders_delete ns q n0 p Hq).
  rewrite <- insert_delete_eq.
  rewrite holders_insert_fresh by apply lookup_delete_eq. lia.
Qed.

Lemma holders_nonneg ns p : 0 ≤ holders ns p.
Proof.
  unfold holders. apply (map_fold_weak_ind (λ r _, 0 ≤ r)); [done|].
  intros i n m r _ Hr. pose proof (node_refs_range n p). lia.
Qed.

Lemma holders_with_usage ns q n u p :
  ns !! q = Some n → holders (<[q := with_usage n u]> ns) p = holders ns p.
Proof. intros Hq. rewrite (holders_insert _ _ n) by done. unfold node_refs. simpl. lia. Qed.

End holders_lemmas.

(** ** The equivalence of worlds *)

Section world_equiv_lemmas.
Context {T : Type} `{HashTable T}.

#[global] Instance slot_equiv_equivalence : Equivalence slot_equiv.
Proof.
  split.
  - by intros [].
  - intros [] []; simpl; try done; by symmetry.
  - intros [] [] []; simpl; try done; by etrans.
Qed.

#[global] Instance world_equiv_equivalence : Equivalence (≡@{librdf_world T}).
Proof.
  split.
  - by split.
  - intros w1 w2 []. split; try done; intros i; by symmetry.
  - intros w1 w2 w3 [? ? E1 ? ?] [? ? E2 ? ?]. split; try congruence.
    intros i. by transitivity (nodes_hash w2 i).
Qed.

Lemma slot_equiv_live (a : hash_slot T) h :
  slot_equiv (slot_live h) a → ∃ h', a = slot_live h' ∧ h ≡ h'.
Proof. destruct a; simpl; [done | eauto | done]. Qed.

Lemma world_wf_equiv ext (w w' : librdf_world T) :
  w ≡ w' → world_wf ext w → world_wf ext w'.
Proof.
  intros [Eu En Et Eo Ex] [Hut Hop Htb Hnl Hus Hhi Hih Hrf Hex].
  split; rewrite <- ?Eu, <- ?En, <- ?Eo; try done.
  - intros i. destruct (Htb i) as [h Hh]. specialize (Et i).
    rewrite Hh in Et. apply slot_equiv_live in Et as (h' & -> & _). eauto.
  - intros p n Hp.
    destruct (Hhi p n Hp) as (i & k & h & Hk & Hh & Hg).
    specialize (Et i). rewrite Hh in Et.
    apply slot_equiv_live in Et as (h' & E' & Eh).
    exists i, k, h'. split_and!; [done..|]. rewrite <- Hg. symmetry. apply Eh.
  - intros i h' k v Hh' Hg. specialize (Et i). rewrite Hh' in Et.
    symmetry in Et. apply slot_equiv_live in Et as (h & E' & Eh).
    apply (Hih i h k v); [done|]. rewrite <- Hg. symmetry.
    apply Eh.
Qed.

#[global] Instance world_wf_proper ext :
  Proper ((≡) ==> iff) (world_wf (T:=T) ext).
Proof.
  intros w w' E. split; apply world_wf_equiv; [done | by symmetry].
Qed.

(** The allocation list, the log and the generator are not observed. *)
Lemma alloc_rest_equiv (w : librdf_world T) : alloc_rest w ≡ w.
Proof. by split. Qed.

Lemma set_allocs_equiv (w : librdf_world T) a : set_allocs a w ≡ w.
Proof. by split. Qed.

Lemma set_log_equiv (w : librdf_world T) l : set_log l w ≡ w.
Proof. by split. Qed.

Lemma set_genid_counter_equiv (w : librdf_world T) c :
  set_genid_counter c w ≡ w.
Proof. by split. Qed.

Lemma set_mutex_equiv (w : librdf_world T) b : set_mutex b w ≡ w.
Proof. by split. Qed.

#[global] Instance nodes_room_proper :
  Proper ((≡) ==> iff) (nodes_room (T:=T)).
Proof. intros w w' [Eu En _ _ _]. unfold nodes_room. by rewrite En. Qed.

#[global] Instance world_room_proper :
  Proper ((≡) ==> iff) (world_room (T:=T)).
Proof.
  intros w w' E. unfold world_room. rewrite E.
  by rewrite (eqv_uris _ _ E).
Qed.

Lemma nodes_room_set_uris (w : librdf_world T) ut :
  nodes_room (set_uris ut w) ↔ nodes_room w.
Proof. done. Qed.

#[global] Instance set_nodes_proper ns :
  Proper ((≡) ==> (≡)) (set_nodes (T:=T) ns).
Proof.
  intros w w' [Eu En Et Eo Ex]. split; simpl; try done.
Qed.

#[global] Instance set_uris_proper ut :
  Proper ((≡) ==> (≡)) (set_uris (T:=T) ut).
Proof.
  intros w w' [Eu En Et Eo Ex]. split; simpl; try done.
Qed.

#[global] Instance world_bump_proper p :
  Proper ((≡) ==> (≡)) (world_bump (T:=T) p).
Proof.
  intros w w' E. unfold world_bump. rewrite <- (eqv_nodes _ _ E).
  destruct (world_nodes w !! p); [by apply set_nodes_proper | done].
Qed.

End world_equiv_lemmas.

(** ** Consequences of the invariant *)

Section wf_lemmas.
Context {T : Type} `{HashTable T}.
Implicit Types (w : librdf_world T) (p q : ptr) (n : librdf_node).
Implicit Types (ext : ptr → Z).

(** Hash-consing: two live nodes with the same key are one object. *)
Lemma wf_canonical ext w p1 p2 n1 n2 :
  world_wf ext w →
  world_nodes w !! p1 = Some n1 → world_nodes w !! p2 = Some n2 →
  node_key n1 = node_key n2 → p1 = p2.
Proof.
  intros Hwf H1 H2 Hk.
  destruct (wf_heap_index _ _ Hwf _ _ H1) as (i & k & h & Hk1 & Hh & Hg).
  destruct (wf_heap_index _ _ Hwf _ _ H2) as (i' & k' & h' & Hk2 & Hh' & Hg').
  rewrite Hk1 in Hk. rewrite Hk2 in Hk. simplify_eq. congruence.
Qed.

Lemma wf_interned ext w i k p :
  world_wf ext w → interned w i k = Some p ↔
  ∃ n, world_nodes w !! p = Some n ∧ node_key n = Some (i, k).
Proof.
  intros Hwf. unfold interned. destruct (wf_tables _ _ Hwf i) as [h Hh].
  rewrite Hh. split.
  - destruct (hash_get_one h k) as [v|] eqn:Hg; [|done].
    destruct (wf_index_heap _ _ Hwf _ _ _ _ Hh Hg) as (p' & n & -> & Hp & Hk).
    intros [= <-]. eauto.
  - intros (n & Hp & Hk).
    destruct (wf_heap_index _ _ Hwf _ _ Hp) as (i' & k' & h' & Hk' & Hh' & Hg).
    simplify_eq. assert (h' = h) as -> by congruence. by rewrite Hg.
Qed.

Lemma wf_ext_proper ext ext' w :
  (∀ p, ext p = ext' p) → world_wf ext w → world_wf ext' w.
Proof.
  intros E [Hut Hop Htb Hnl Hus Hhi Hih Hrf Hex]. split; try done.
  - intros p. rewrite <- E. auto.
  - intros p. rewrite <- E. auto.
Qed.
End wf_lemmas.

(** ** The steps that keep the invariant *)

Section wf_steps.
Context {T : Type} `{HashTable T}.
Implicit Types (w : librdf_world T) (p q : ptr) (n : librdf_node).
Implicit Types (ext : ptr → Z).


Lemma wf_bump ext w p n u :
  world_wf ext w → world_nodes w !! p = Some n → 1 ≤ u ≤ INT_MAX →
  world_wf ext (set_nodes (<[p := with_usage n u]> (world_nodes w)) w).
Proof.
  intros Hwf Hp Hu. destruct Hwf as [Hut Hop Htb Hnl Hus Hhi Hih Hrf Hex]. split; wsimpl; try done.
  - rewrite lookup_insert_ne; [done | intros ->; congruence].
  - intros p' n'. rewrite lookup_insert. case_decide; [|by eauto].
    intros [= <-]. simpl. lia.
  - intros p' n'. rewrite lookup_insert. case_decide; [|by eauto].
    intros [= <-]. subst. by apply (Hhi p' n).
  - intros i h k v Hh Hg.
    destruct (Hih i h k v Hh Hg) as (p' & n' & -> & Hp' & Hk).
    destruct (decide (p = p')) as [<-|].
    + exists p, (with_usage n u). rewrite lookup_insert_eq.
      split_and!; [done..|]. by simplify_eq.
    + exists p', n'. by rewrite lookup_insert_ne.
  - intros q. rewrite holders_with_usage by done. auto.
Qed.

Lemma wf_add ext ext' w p n i h k :
  world_wf ext w → world_nodes w !! p = None → p ≠ NULL →
  nodes_hash w i = slot_live h → hash_get_one h k = None →
  node_key n = Some (i, k) → 1 ≤ node_usage n ≤ INT_MAX →
  (∀ q, 0 ≤ ext' q ∧ ext' q + node_refs n q = ext q) →
  world_wf ext' (set_hash i (slot_live (hash_put h k (datum_ptr p)))
                   (set_nodes (<[p := n]> (world_nodes w)) w)).
Proof.
  intros Hwf Hp Hnn Hh Hg Hk Hu Hext. destruct Hwf as [Hut Hop Htb Hnl Hus Hhi Hih Hrf Hex].
  split; wsimpl; try done.
  - intros j. rewrite nodes_hash_set_hash. case_decide; eauto.
  - by rewrite lookup_insert_ne.
  - intros p' n'. rewrite lookup_insert. case_decide; [|by eauto].
    by intros [= <-].
  - intros p' n'. rewrite lookup_insert. case_decide as E.
    + intros [= <-]. subst p'. exists i, k, (hash_put h k (datum_ptr p)).
      rewrite nodes_hash_set_hash, decide_True by done.
      by rewrite hash_get_put_eq.
    + intros Hp'. destruct (Hhi p' n' Hp') as (i' & k' & h' & ? & Hh' & ?).
      exists i', k'. rewrite nodes_hash_set_hash. case_decide; subst; eauto.
      assert (h' = h) as -> by congruence.
      exists (hash_put h k (datum_ptr p)). split_and!; [done..|].
      rewrite hash_get_put by done. case_decide; [congruence | done].
  - intros j h' k' v. rewrite nodes_hash_set_hash. case_decide as E.
    + intros [= <-]. subst j. rewrite hash_get_put by done. case_decide.
      * intros [= <-]. subst k'. exists p, n. by rewrite lookup_insert_eq.
      * intros Hg'. destruct (Hih i h k' v Hh Hg') as (p' & n' & -> & Hp' & Hk').
        exists p', n'. rewrite lookup_insert_ne; [done | congruence].
    + intros Hh' Hg'.
      destruct (Hih j h' k' v Hh' Hg') as (p' & n' & -> & Hp' & Hk').
      exists p', n'. rewrite lookup_insert_ne; [done | congruence].
  - intros q Hq. rewrite holders_insert_fresh by done.
    destruct (Hext q) as [? E]. intros Hpos.
    destruct (Hrf q Hq) as (u & ? & ?); [lia|]. exists u. split; [done|lia].
  - intros q. apply Hext.
Qed.

Lemma wf_remove ext w p n i h k :
  world_wf ext w → world_nodes w !! p = Some n →
  node_key n = Some (i, k) → nodes_hash w i = slot_live h →
  world_wf (λ q, ext q + node_refs n q)
    (set_hash i (slot_live (hash_delete_all h k))
       (set_nodes (delete p (world_nodes w)) w)).
Proof.
  intros Hwf Hp Hk Hh. pose proof (wf_canonical ext w p) as Hcan.
  specialize (λ p2 n2, Hcan p2 n n2 Hwf Hp).
  destruct Hwf as [Hut Hop Htb Hnl Hus Hhi Hih Hrf Hex]. split; wsimpl; try done.
  - intros j. wsimpl. case_decide; eauto.
  - rewrite lookup_delete_ne; [done | intros ->; congruence].
  - intros p' n'. rewrite lookup_delete. case_decide; [done | eauto].
  - intros p' n'. rewrite lookup_delete. case_decide as E; [done|].
    intros Hp'. destruct (Hhi p' n' Hp') as (i' & k' & h' & Hk' & Hh' & Hg).
    exists i', k'. wsimpl. case_decide; subst; eauto.
    assert (h' = h) as -> by congruence.
    exists (hash_delete_all h k). split_and!; [done..|].
    rewrite hash_get_delete. case_decide; [|done]. subst.
    destruct E. eapply Hcan; [done | congruence].
  - intros j h' k' v. wsimpl. case_decide as E.
    + intros [= <-]. subst j. rewrite hash_get_delete. case_decide; [done|].
      intros Hg. destruct (Hih i h k' v Hh Hg) as (p' & n' & -> & Hp' & Hk').
      exists p', n'. rewrite lookup_delete_ne; [done|]. congruence.
    + intros Hh' Hg. destruct (Hih j h' k' v Hh' Hg) as (p' & n' & -> & Hp' & Hk').
      exists p', n'. rewrite lookup_delete_ne; [done|]. congruence.
  - intros q Hq Hpos. pose proof (holders_delete _ _ _ q Hp) as E.
    destruct (Hrf q Hq) as (u & ? & ?); [lia|].
    exists u. split; [done|lia].
  - intros q. pose proof (node_refs_range n q). specialize (Hex q). lia.
Qed.

Lemma wf_set_uris ext ext' w ut :
  world_wf ext w → uri_table_wf ut →
  (∀ q, q ≠ NULL → 0 < holders (world_nodes w) q + ext' q →
        ∃ u, uris ut !! q = Some u
             ∧ holders (world_nodes w) q + ext' q ≤ uri_usage u) →
  (∀ q, 0 ≤ ext' q) →
  world_wf ext' (set_uris ut w).
Proof. intros [Hut Hop Htb Hnl Hus Hhi Hih Hrf Hex] Hut' Hr He. split; wsimpl; done. Qed.

Lemma wf_uri_live ext w p :
  world_wf ext w → p ≠ NULL → 0 < ext p →
  ∃ u, uris (world_uris w) !! p = Some u
       ∧ holders (world_nodes w) p + ext p ≤ uri_usage u.
Proof.
  intros Hwf Hp He. apply (wf_refs _ _ Hwf); [done|].
  pose proof (holders_nonneg (world_nodes w) p). lia.
Qed.
End wf_steps.

Section wf_uris.
Context {T : Type} `{HashTable T}.
Implicit Types (w : librdf_world T) (p q : ptr) (n : librdf_node).
Implicit Types (ext : ptr → Z).

Lemma ext_add_nonneg ext p k :
  (∀ q, 0 ≤ ext q) → 0 ≤ ext p + k → ∀ q, 0 ≤ ext_add ext p k q.
Proof. intros He Hk q. unfold ext_add. case_decide; subst; auto. Qed.

Lemma wf_uri_ref ext w p ut :
  world_wf ext w → uri_ref (world_uris w) p = Val ut →
  (∀ u, uris (world_uris w) !! p = Some u → uri_usage u < INT_MAX) →
  world_wf (ext_add ext p 1) (set_uris ut w).
Proof.
  intros Hwf Hr Hroom. pose proof (uri_ref_wf _ _ _ (wf_uris _ _ Hwf) Hr Hroom).
  unfold uri_ref in Hr.
  destruct (uris (world_uris w) !! p) as [u|] eqn:Hu; simpl in Hr; [|done].
  injection Hr as <-. pose proof (uri_wf_usage _ (wf_uris _ _ Hwf) _ _ Hu).
  specialize (Hroom u eq_refl).
  rewrite int32_small in * by (unfold INT_MIN, INT_MAX in *; lia).
  apply (wf_set_uris ext); [done..| |].
  - intros q Hq. unfold ext_add. simpl. rewrite lookup_insert.
    case_decide; subst.
    + rewrite decide_True by done. intros _. eexists. split; [done|]. simpl.
      destruct (decide (0 < holders (world_nodes w) p + ext p)) as [Hpos|]; [|lia].
      destruct (wf_refs _ _ Hwf p Hq Hpos) as (u' & ? & ?).
      assert (u' = u) as -> by congruence. lia.
    + rewrite decide_False by done. by apply (wf_refs _ _ Hwf).
  - apply ext_add_nonneg; [apply Hwf|]. pose proof (wf_ext _ _ Hwf p). lia.
Qed.

Lemma wf_uri_release ext w p ut :
  world_wf ext w → uri_release (world_uris w) p = Val ut → 1 ≤ ext p →
  world_wf (ext_add ext p (-1)) (set_uris ut w).
Proof.
  intros Hwf Hr He. pose proof (uri_release_wf _ _ _ (wf_uris _ _ Hwf) Hr).
  unfold uri_release in Hr.
  destruct (uris (world_uris w) !! p) as [u|] eqn:Hu; simpl in Hr; [|done].
  pose proof (uri_wf_usage _ (wf_uris _ _ Hwf) _ _ Hu).
  assert (p ≠ NULL) as Hp.
  { intros ->. pose proof (uri_wf_null _ (wf_uris _ _ Hwf)). congruence. }
  pose proof (holders_nonneg (world_nodes w) p).
  destruct (wf_refs _ _ Hwf p Hp) as (u' & ? & ?); [lia|].
  assert (u' = u) as -> by congruence.
  rewrite int32_small in * by (unfold INT_MIN, INT_MAX in *; lia).
  apply (wf_set_uris ext); [done..| |].
  - intros q Hq. unfold ext_add. case_decide as Hz; injection Hr as <-; simpl.
    + rewrite lookup_delete. case_decide; subst.
      * rewrite decide_True by done. lia.
      * rewrite decide_False by done. by apply (wf_refs _ _ Hwf).
    + rewrite lookup_insert. case_decide; subst.
      * rewrite decide_True by done. intros _. eexists. split; [done|]. simpl. lia.
      * rewrite decide_False by done. by apply (wf_refs _ _ Hwf).
  - apply ext_add_nonneg; [apply Hwf|]. lia.
Qed.

Lemma wf_uri_insert ext w s :
  world_wf ext w → uri_find (world_uris w) s = None → 0 ∉ s →
  world_wf (ext_add ext (uri_insert (world_uris w) s).1 1)
    (set_uris (uri_insert (world_uris w) s).2 w).
Proof.
  intros Hwf Hf Hs. pose proof (uri_insert_wf _ _ (wf_uris _ _ Hwf) Hf Hs).
  pose proof (fresh_ptr_fresh (uris (world_uris w))) as Hfr.
  apply (wf_set_uris ext); [done..| |].
  - intros q Hq. unfold ext_add. simpl. rewrite lookup_insert.
    case_decide; subst.
    + rewrite decide_True by done. intros _. eexists. split; [done|]. simpl.
      destruct (decide (0 < holders (world_nodes w) (fresh_ptr (uris (world_uris w)))
                            + ext (fresh_ptr (uris (world_uris w))))) as [Hpos|]; [|lia].
      destruct (wf_refs _ _ Hwf _ Hq Hpos) as (u' & ? & ?). congruence.
    + rewrite decide_False by done. by apply (wf_refs _ _ Hwf).
  - apply ext_add_nonneg; [apply Hwf|]. simpl.
    pose proof (wf_ext _ _ Hwf (fresh_ptr (uris (world_uris w)))). lia.
Qed.

End wf_uris.
