(* ===== verification/Lifecycle.v ===== *)
(** * The lifecycle of nodes: what each function does to the world

    For every constructor, for the copy and for the release: the result and
    the world the function leaves, on every path, and that the invariant
    [world_wf] holds again.  A construct-or-find has one of three outcomes
    ([intern_outcome]): NULL with the world as it was, the node already
    interned under the key with one more use, or a new node entered under
    the key.

    The proofs follow the functions step by step with the equations of
    [World] ("running" a service), and conclude with the lemmas of
    [Invariant] on the three changes a call can make to a consistent
    world. *)

From S2P Require Import Prelude CString Hash Uri Node Encode World Intern.
From S2P Require Import Invariant.

#[local] Open Scope Z_scope.

(** The node object of a blank node with the identifier block [id]. *)
Definition blank_node (id : list Z) (len : Z) : librdf_node :=
  {| node_usage := 1;
     node_value_of := value_blank {| blank_identifier := Some id;
                                     blank_identifier_len := len |} |}.

Section lifecycle.
Context {T : Type} `{HashTable T} `{BuildConfig} `{UriNormalise}.
Implicit Types (w : librdf_world T) (p q : ptr) (n : librdf_node).
Implicit Types (ext : ptr → Z).

(** What a construct-or-find does to the world: nothing when it returns
    NULL, one more use of the node found, or the new node entered. *)
Definition intern_outcome (w : librdf_world T) (i : node_hash_index)
    (k : librdf_hash_datum) (n : librdf_node) (p : ptr) (w' : librdf_world T)
  : Prop :=
  (p = NULL ∧ w' ≡ w)
  ∨ match interned w i k with
    | Some q => p = q ∧ w' ≡ world_bump q w
    | None => p = fresh_ptr (world_nodes w) ∧ w' ≡ world_add p n i k w
    end.

(** A node object allocated, filled and entered under its key; freed again
    when the table cannot grow. *)
Definition enter_node (i : node_hash_index) (k : librdf_hash_datum)
    (n : librdf_node) (undo : st (librdf_world T) unit)
  : st (librdf_world T) ptr :=
  new_node ← LIBRDF_CALLOC_node;
  if is_null new_node then _ ← undo; mret NULL
  else
    _ ← node_store new_node n;
    rc ← librdf_hash_put i k (datum_ptr new_node);
    if decide (rc ≠ 0) then
      _ ← LIBRDF_FREE_node new_node; _ ← undo; mret NULL
    else mret new_node.

(** The world with the mutex taken and released. *)
Definition lock_world w : librdf_world T :=
  if WITH_THREADS then set_mutex true w else w.
Definition unlock_world w : librdf_world T :=
  if WITH_THREADS then set_mutex false w else w.

(** ** Helpers *)

Lemma malloc_fill junk copied len :
  blen copied = len → 0 ≤ len →
  (b ← poke (malloc_bytes junk (len + 1)) 0 copied; store b len 0)
  = Val (copied ++ [0]).
Proof.
  intros Hc Hl.
  assert (length (malloc_bytes junk (len + 1)) = S (length copied)) as Hm.
  { pose proof (malloc_bytes_length junk (len + 1)). unfold blen in *. lia. }
  rewrite poke_0 by lia. simpl.
  destruct (drop (length copied) (malloc_bytes junk (len + 1))) as [|x [|]] eqn:E.
  - apply (f_equal length) in E. rewrite length_drop in E. simpl in E. lia.
  - rewrite store_app_r by done. done.
  - apply (f_equal length) in E. rewrite length_drop in E. simpl in E. lia.
Qed.

Lemma copy_counted_run w src len copied :
  0 ≤ len < SIZE_MAX → strncpy_bytes src len = Val copied →
  copy_counted src len w
  = Val (match alloc_head w with
         | alloc_fail => None
         | alloc_ok _ => Some (copied ++ [0])
         end, alloc_rest w).
Proof.
  intros Hl Hc. unfold copy_counted.
  rewrite (st_bind_val _ _ _ _ _ (LIBRDF_MALLOC_run w _)).
  destruct (alloc_head w) as [|junk]; [done|].
  rewrite size_t_small by lia.
  rewrite (st_bind_val _ _ _ _ _ (st_lift_val _ _ _ Hc)).
  pose proof (malloc_fill junk copied len (strncpy_bytes_length _ _ _ Hc)
                ltac:(lia)) as E.
  destruct (poke (malloc_bytes junk (len + 1)) 0 copied) as [b|] eqn:Eb;
    [|done]. simpl in E.
  rewrite (st_bind_val _ _ _ _ _ (st_lift_val _ _ _ eq_refl)).
  by rewrite (st_bind_val _ _ _ _ _ (st_lift_val _ _ _ E)).
Qed.
Lemma interned_get w i h k :
  nodes_hash w i = slot_live h →
  interned w i k = (d ← hash_get_one h k; match d with datum_ptr p => Some p | _ => None end).
Proof. intros E. unfold interned. rewrite E. by destruct (hash_get_one h k) as [[]|]. Qed.

(** The part of every constructor after the key is known, on a hit. *)
Lemma intern_hit_run ext w i h k d :
  world_wf ext w → nodes_room w →
  nodes_hash w i = slot_live h → hash_get_one h k = Some d →
  ∃ q n, d = datum_ptr q ∧ world_nodes w !! q = Some n
         ∧ interned w i k = Some q
         ∧ node_usage_incr q w = Val (tt, world_bump q w).
Proof.
  intros Hwf Hroom Hh Hg.
  destruct (wf_index_heap _ _ Hwf _ _ _ _ Hh Hg) as (q & n & -> & Hq & Hk).
  exists q, n. split_and!; [done..| |].
  - by rewrite (interned_get _ _ _ _ Hh), Hg.
  - unfold world_bump. rewrite Hq. apply node_usage_incr_run; eauto.
Qed.
Lemma enter_node_run w wu i h k n undo :
  world_nodes w !! NULL = None →
  nodes_hash w i = slot_live h →
  (∀ w1, w1 ≡ w → ∃ w2, undo w1 = Val (tt, w2) ∧ w2 ≡ wu
                         ∧ nodes_mutex w2 = nodes_mutex w1) →
  ∃ p w', enter_node i k n undo w = Val (p, w')
          ∧ nodes_mutex w' = nodes_mutex w
          ∧ ((p = NULL ∧ w' ≡ wu)
             ∨ (p = fresh_ptr (world_nodes w) ∧ w' ≡ world_add p n i k w))
          ∧ (alloc_fail ∉ world_allocs w → p ≠ NULL).
Proof.
  intros Hnull Hh Hundo. unfold enter_node.
  pose proof (fresh_ptr_fresh (world_nodes w)) as Hfr.
  pose proof (fresh_ptr_not_null (world_nodes w)) as Hnn.
  destruct (alloc_head w) as [|junk] eqn:Ea.
  - run (LIBRDF_CALLOC_node_fail w Ea). simpl.
    destruct (Hundo (alloc_rest w) (alloc_rest_equiv w)) as (w2 & E2 & ? & ?).
    run E2. exists NULL, w2. split_and!; [done..|by left|].
    intros Hno. destruct Hno. unfold alloc_head in Ea.
    destruct (world_allocs w) as [|[]]; simplify_eq/=. set_solver.
  - run (LIBRDF_CALLOC_node_ok w junk Ea).
    unfold is_null. rewrite bool_decide_eq_false_2 by done.
    set (p := fresh_ptr (world_nodes w)) in *.
    set (w1 := set_nodes _ (alloc_rest w)).
    assert (world_nodes w1 !! p = Some {| node_usage := 0; node_value_of := value_unknown |}) as Hp
      by (subst w1; simpl; apply lookup_insert_eq).
    run (node_store_run w1 p _ n Hp).
    set (w2 := set_nodes _ w1).
    assert (nodes_hash w2 i = slot_live h) as Hh2 by (subst w2 w1; by autorewrite with world).
    run (librdf_hash_put_run w2 i h k (datum_ptr p) Hh2).
    destruct (alloc_head w2) as [|junk2] eqn:Ea2; simpl.
    + run (eq_refl : LIBRDF_FREE_node p (alloc_rest w2) = Val (tt, _)).
      match goal with |- context [(undo ≫= _) ?x] => destruct (Hundo x) as (w3 & E3 & ? & ?) end.
      { subst w2 w1. split; simpl; try done.
        rewrite !insert_insert_eq, delete_insert_id; done. }
      run E3. exists NULL, w3. split_and!; [done..| by left |].
      intros Hno. destruct Hno. unfold alloc_head in Ea, Ea2. subst w2 w1. simpl in Ea2.
      destruct (world_allocs w) as [|[] [|[]]]; simplify_eq/=; set_solver.
    + eexists p, _. split_and!; [done..| |done].
      right. split; [done|]. unfold world_add. rewrite Hh. subst w2 w1.
      split; simpl; rewrite ?insert_insert_eq; done.
Qed.

Lemma undo_nothing w :
  ∀ w1, w1 ≡ w → ∃ w2, (mret tt : st (librdf_world T) unit) w1 = Val (tt, w2)
                        ∧ w2 ≡ w ∧ nodes_mutex w2 = nodes_mutex w1.
Proof. intros w1 E. by exists w1. Qed.

Lemma world_add_equiv w1 w2 p n i h k :
  w1 ≡ w2 → nodes_hash w1 i = slot_live h → hash_get_one h k = None →
  world_add p n i k w1 ≡ world_add p n i k w2.
Proof.
  intros [Eu En Et Eo Ex] Hh Hg. unfold world_add.
  pose proof (Et i) as Ei. rewrite Hh in Ei |- *.
  apply slot_equiv_live in Ei as (h2 & -> & Eh).
  split; simpl; try done; [by rewrite En|].
  intros j. autorewrite with world. case_decide; [|apply Et].
  by apply hash_put_proper.
Qed.

Lemma alloc_ok_no_failure w :
  alloc_head w = alloc_fail → alloc_fail ∈ world_allocs w.
Proof.
  unfold alloc_head. destruct (world_allocs w) as [|[]]; simpl; try done.
  intros _. set_solver.
Qed.

Lemma alloc_rest_no_failure w :
  alloc_fail ∉ world_allocs w → alloc_fail ∉ world_allocs (alloc_rest w).
Proof. simpl. destruct (world_allocs w); set_solver. Qed.

Lemma new_blank_identifier_run w id len :
  0 ≤ len < SIZE_MAX → len + 1 ≤ blen id →
  new_blank_identifier (Some id) len w
  = Val (match alloc_head w with
         | alloc_fail => None
         | alloc_ok _ => Some (take (Z.to_nat (len + 1)) id, len)
         end, alloc_rest w).
Proof.
  intros Hlen Hid. unfold new_blank_identifier.
  run (LIBRDF_MALLOC_run w (size_t (len + 1))).
  destruct (alloc_head w) as [|junk]; [done|].
  rewrite size_t_small by lia.
  assert (memcpy_bytes id (len + 1) = Val (take (Z.to_nat (len + 1)) id)) as Em
    by (unfold memcpy_bytes; by rewrite decide_True by lia).
  run_lift Em.
  assert (poke (malloc_bytes junk (len + 1)) 0 (take (Z.to_nat (len + 1)) id)
          = Val (take (Z.to_nat (len + 1)) id)) as Ep.
  { apply poke_all. pose proof (malloc_bytes_length junk (len + 1)).
    unfold blen in *. rewrite length_take. lia. }
  by run_lift Ep.
Qed.

Lemma new_blank_locked_spec ext w id len :
  world_wf ext w → nodes_room w →
  0 ≤ len < SIZE_MAX → len + 1 ≤ blen id →
  let block := take (Z.to_nat (len + 1)) id in
  let key := datum_bytes (take (Z.to_nat len) id) in
  ∃ p w', new_blank_locked (Some id) len w = Val (p, w')
          ∧ nodes_mutex w' = nodes_mutex w
          ∧ intern_outcome w H_BLANK key (blank_node block len) p w'
          ∧ (alloc_fail ∉ world_allocs w → p ≠ NULL).
Proof.
  intros Hwf Hroom Hlen Hid block key. unfold new_blank_locked.
  run (new_blank_identifier_run w id len Hlen Hid).
  set (w1 := alloc_rest w).
  assert (w1 ≡ w) as E1 by apply alloc_rest_equiv.
  destruct (alloc_head w) as [|junk] eqn:Ea.
  { exists NULL, w1. split_and!; [done..|by left|].
    intros Hno. by apply alloc_ok_no_failure in Ea. }
  fold block.
  assert (take (Z.to_nat len) block = take (Z.to_nat len) id) as ->
    by (unfold block; rewrite take_take; f_equal; lia).
  fold key. destruct (wf_tables _ _ Hwf H_BLANK) as [h Hh].
  assert (nodes_hash w1 H_BLANK = slot_live h) as Hh1
    by (subst w1; by autorewrite with world).
  run (librdf_hash_get_one_run w1 H_BLANK h key Hh1).
  unfold intern_outcome. rewrite (interned_get w _ _ key Hh).
  destruct (hash_get_one h key) as [d|] eqn:Hg; simpl.
  - rewrite <- E1 in Hwf, Hroom.
    destruct (intern_hit_run _ _ _ _ _ _ Hwf Hroom Hh1 Hg)
      as (q & n & -> & Hq & _ & Hrun).
    run_lift (eq_refl : datum_as_ptr (datum_ptr q) = Val q). run Hrun.
    exists q, (world_bump q w1). split_and!; [done| |by right; rewrite E1|].
    + unfold world_bump. by rewrite Hq.
    + intros _ ->. pose proof (wf_null _ _ Hwf). congruence.
  - destruct (enter_node_run w1 w1 H_BLANK h key (blank_node block len)
                (mret tt : st (librdf_world T) unit))
      as (p & w' & Hrun & Hm & Hcase & Hok); [..|exact (undo_nothing w1)|].
    { rewrite (eqv_nodes _ _ E1). apply Hwf. }
    { done. }
    exists p, w'. split_and!; [exact Hrun | done | |].
    + destruct Hcase as [[-> E]|[-> E]]; [left | right].
      * split; [done | by rewrite E].
      * split; [done|]. rewrite E.
        by apply (world_add_equiv _ _ _ _ _ h).
    + intros Hno. by apply Hok, alloc_rest_no_failure.
Qed.
Lemma lock_world_equiv w : lock_world w ≡ w.
Proof. unfold lock_world. destruct WITH_THREADS; [apply set_mutex_equiv | done]. Qed.

Lemma unlock_world_equiv w : unlock_world w ≡ w.
Proof. unfold unlock_world. destruct WITH_THREADS; [apply set_mutex_equiv | done]. Qed.

Lemma lock_world_mutex w :
  nodes_mutex w = false → nodes_mutex (lock_world w) = WITH_THREADS.
Proof. unfold lock_world. by destruct WITH_THREADS. Qed.

Lemma unlock_world_mutex w :
  nodes_mutex w = WITH_THREADS → nodes_mutex (unlock_world w) = false.
Proof. unfold unlock_world. by destruct WITH_THREADS. Qed.

Lemma lock_world_allocs w : world_allocs (lock_world w) = world_allocs w.
Proof. unfold lock_world. by destruct WITH_THREADS. Qed.

(** A call between [pthread_mutex_lock] and the label [unlock]. *)
Lemma locked_call_run {A} (body : st (librdf_world T) A) w a w2 :
  nodes_mutex w = false →
  body (lock_world w) = Val (a, w2) →
  nodes_mutex w2 = nodes_mutex (lock_world w) →
  (_ ← pthread_mutex_lock; a ← body; _ ← pthread_mutex_unlock; mret a) w
  = Val (a, unlock_world w2).
Proof.
  intros Hm Hb Hm2. run (pthread_mutex_lock_run w Hm). fold (lock_world w).
  run Hb. rewrite (lock_world_mutex _ Hm) in Hm2.
  by run (pthread_mutex_unlock_run w2 Hm2).
Qed.

(** The three outcomes keep the invariant, for a node that holds no
    reference of its own. *)
Lemma intern_outcome_wf ext w i k n p w' :
  world_wf ext w → nodes_room w → intern_outcome w i k n p w' →
  node_key n = Some (i, k) → node_usage n = 1 →
  (∀ q, node_refs n q = 0) →
  world_wf ext w'.
Proof.
  intros Hwf Hroom [[-> E]|Hcase] Hk Hu Hrefs; [by rewrite E|].
  destruct (interned w i k) as [q|] eqn:Hi.
  - destruct Hcase as [-> ->].
    apply (wf_interned _ _ _ _ _ Hwf) in Hi as (n' & Hq & _).
    unfold world_bump. rewrite Hq. apply wf_bump; [done..|].
    pose proof (wf_usage _ _ Hwf _ _ Hq). specialize (Hroom _ _ Hq). lia.
  - destruct Hcase as [-> ->]. unfold world_add, interned in *.
    destruct (wf_tables _ _ Hwf i) as [h Hh]. rewrite Hh in *.
    apply (wf_add ext); try done.
    + apply fresh_ptr_fresh.
    + apply fresh_ptr_not_null.
    + destruct (hash_get_one h k) as [v|] eqn:Hg; [|done].
      destruct (wf_index_heap _ _ Hwf _ _ _ _ Hh Hg) as (? & ? & -> & _). done.
    + rewrite Hu. unfold INT_MAX. lia.
    + intros q. rewrite Hrefs. pose proof (wf_ext _ _ Hwf q). lia.
Qed.

Lemma interned_equiv w1 w2 i k :
  w1 ≡ w2 → interned w1 i k = interned w2 i k.
Proof.
  intros E. unfold interned. pose proof (eqv_tables _ _ E i) as Ei.
  destruct (nodes_hash w1 i) as [|h1|], (nodes_hash w2 i) as [|h2|];
    simpl in Ei; try done.
  by rewrite (Ei k).
Qed.

Lemma interned_None w i h k :
  nodes_hash w i = slot_live h → interned w i k = None →
  (∀ p, hash_get_one h k ≠ Some (datum_ptr p)).
Proof. unfold interned. intros -> Hi p Hg. by rewrite Hg in Hi. Qed.

Lemma intern_outcome_equiv ext w1 w i k n p w1' w' :
  world_wf ext w →
  w1 ≡ w → w1' ≡ w' → intern_outcome w1 i k n p w1' →
  intern_outcome w i k n p w'.
Proof.
  intros Hwf E E'. unfold intern_outcome.
  rewrite (interned_equiv _ _ _ _ E), (eqv_nodes _ _ E).
  intros [[-> Ew]|Hcase]; [left; by rewrite <- E', Ew|right].
  destruct (interned w i k) as [q|] eqn:Hi.
  - destruct Hcase as [-> Ew]. by rewrite <- E', Ew, E.
  - destruct Hcase as [-> Ew]. split; [done|]. rewrite <- E', Ew.
    destruct (wf_tables _ _ Hwf i) as [h Hh].
    symmetry in E. symmetry. apply (world_add_equiv _ _ _ _ _ h); [done..|].
    destruct (hash_get_one h k) as [v|] eqn:Hg; [|done].
    destruct (wf_index_heap _ _ Hwf _ _ _ _ Hh Hg) as (? & ? & -> & _).
    by apply (interned_None _ _ _ _ Hh) in Hg.
Qed.

End lifecycle.
