(* ===== verification/Open.v ===== *)
(** * Opening and closing the node module

    [librdf_world_open] runs [librdf_init_node] once: it makes and opens
    the three intern tables, and any failure there is fatal.
    [librdf_finish_node] frees the tables.  The theorems show that a new
    world that has been opened satisfies the invariant of [Invariant],
    which is where every other theorem of the lifecycle starts. *)

From S2P Require Import Prelude CString Hash Uri Node Encode World Intern.
From S2P Require Import Invariant Lifecycle.

#[local] Open Scope Z_scope.

Section open.
Context {T : Type} `{HashTable T} `{BuildConfig} `{UriNormalise}.
Implicit Types (w : librdf_world T) (p q : ptr) (n : librdf_node).
Implicit Types (ext : ptr → Z).

Lemma librdf_new_hash_run w :
  librdf_new_hash w
  = Val (match alloc_head w with
         | alloc_fail => slot_null
         | alloc_ok _ => slot_live hash_empty
         end, alloc_rest w).
Proof. unfold librdf_new_hash. run (next_alloc_run w). by destruct (alloc_head w). Qed.

Lemma librdf_hash_open_run w :
  librdf_hash_open w
  = Val (match alloc_head w with alloc_fail => 1 | alloc_ok _ => 0 end,
         alloc_rest w).
Proof. unfold librdf_hash_open. run (next_alloc_run w). by destruct (alloc_head w). Qed.

Lemma init_node_step_run w i :
  alloc_head w ≠ alloc_fail → alloc_head (alloc_rest w) ≠ alloc_fail →
  init_node_step i w
  = Val (tt, alloc_rest (set_hash i (slot_live hash_empty) (alloc_rest w))).
Proof.
  intros E1 E2. unfold init_node_step. run (librdf_new_hash_run w).
  destruct (alloc_head w) as [|junk] eqn:Ea; [done|].
  unfold st_modify at 1. unfold mbind at 1, st_bind. simpl.
  run (librdf_hash_open_run (set_hash i (slot_live hash_empty) (alloc_rest w))).
  change (alloc_head (set_hash i (slot_live hash_empty) (alloc_rest w)))
    with (alloc_head (alloc_rest w)).
  by destruct (alloc_head (alloc_rest w)).
Qed.

(** A failed allocation while the tables are made is fatal. *)
Lemma init_node_step_fatal w i :
  alloc_head w = alloc_fail ∨ alloc_head (alloc_rest w) = alloc_fail →
  init_node_step i w = Stuck Abort.
Proof.
  intros E. unfold init_node_step. run (librdf_new_hash_run w).
  destruct (alloc_head w) as [|junk] eqn:Ea; [done|].
  destruct E as [|E]; [done|].
  unfold st_modify at 1. unfold mbind at 1, st_bind. simpl.
  run (librdf_hash_open_run (set_hash i (slot_live hash_empty) (alloc_rest w))).
  change (alloc_head (set_hash i (slot_live hash_empty) (alloc_rest w)))
    with (alloc_head (alloc_rest w)).
  by rewrite E.
Qed.

Lemma set_hash_alloc_rest w i x :
  set_hash i x (alloc_rest w) = alloc_rest (set_hash i x w).
Proof. done. Qed.

Lemma no_failure_head w :
  alloc_fail ∉ world_allocs w → alloc_head w ≠ alloc_fail.
Proof.
  unfold alloc_head. destruct (world_allocs w) as [|e l]; [done|].
  simpl. intros Hn ->. apply Hn. left.
Qed.

Lemma world_open_first w :
  world_opened w = false → alloc_fail ∉ world_allocs w →
  ∃ w', librdf_world_open w = Val (tt, w') ∧ w' ≡ opened_world w
        ∧ nodes_mutex w' = nodes_mutex w
        ∧ alloc_fail ∉ world_allocs w'.
Proof.
  intros Ho Hno. unfold librdf_world_open. rewrite Ho.
  unfold librdf_init_node. simpl.
  set (w0 := set_opened true w).
  assert (alloc_fail ∉ world_allocs w0) as A0 by done.
  pose proof (alloc_rest_no_failure _ A0) as A1.
  pose proof (alloc_rest_no_failure _ A1) as A2.
  pose proof (alloc_rest_no_failure _ A2) as A3.
  pose proof (alloc_rest_no_failure _ A3) as A4.
  pose proof (alloc_rest_no_failure _ A4) as A5.
  pose proof (alloc_rest_no_failure _ A5) as A6.
  run (init_node_step_run w0 H_RESOURCE (no_failure_head _ A0) (no_failure_head _ A1)).
  rewrite set_hash_alloc_rest.
  erewrite st_bind_val; last (apply init_node_step_run; apply no_failure_head; [apply A2|apply A3]).
  rewrite !set_hash_alloc_rest.
  erewrite st_bind_val; last (apply init_node_step_run; apply no_failure_head; [apply A4|apply A5]).
  rewrite !set_hash_alloc_rest. eexists. split; [done|].
  split_and!; [|done|done].
  by rewrite !alloc_rest_equiv.
Qed.

Lemma opened_world_wf w :
  world_nodes w = ∅ → uri_table_wf (world_uris w) →
  world_wf (λ _, 0) (opened_world w).
Proof.
  intros Hn Hu. split; try done.
  - intros i. exists hash_empty. by destruct i.
  - simpl. by rewrite Hn.
  - simpl. intros p n. by rewrite Hn.
  - simpl. intros p n. by rewrite Hn.
  - intros i h k v Hh Hg. assert (h = hash_empty) as -> by (destruct i; by injection Hh).
    by rewrite hash_get_empty in Hg.
  - simpl. intros p _. rewrite Hn, holders_empty. lia.
Qed.

Lemma opened_world_room w :
  world_nodes w = ∅ → uris (world_uris w) = ∅ → world_room (opened_world w).
Proof.
  intros Hn Hu. split.
  - intros p n. simpl. by rewrite Hn.
  - intros p u. simpl. by rewrite Hu.
Qed.

(** C9: On a new world whose allocations succeed, the first
    [librdf_world_open] makes the three intern tables and leaves a world
    that satisfies the invariant, with room in every count, no node and the
    mutex free. *)
Theorem world_open_establishes pid allocs :
  alloc_fail ∉ allocs →
  ∃ w', librdf_world_open (librdf_new_world (T:=T) pid allocs) = Val (tt, w')
        ∧ world_wf (λ _, 0) w' ∧ world_room w' ∧ nodes_mutex w' = false
        ∧ world_nodes w' = ∅ ∧ alloc_fail ∉ world_allocs w'.
Proof.
  intros Hno.
  destruct (world_open_first (librdf_new_world pid allocs) eq_refl Hno)
    as (w' & Hrun & E & Hm & Ha).
  exists w'. split_and!; [done| | |done| |done].
  - rewrite E. apply opened_world_wf; [done|apply uri_table_empty_wf].
  - rewrite E. by apply opened_world_room.
  - by rewrite (eqv_nodes _ _ E).
Qed.

Lemma finish_node_step_live w i h :
  nodes_hash w i = slot_live h →
  finish_node_step i w = Val (tt, set_hash i slot_freed w).
Proof. intros E. unfold finish_node_step. by rewrite E. Qed.

Lemma finish_node_step_freed w i :
  nodes_hash w i = slot_freed → finish_node_step i w = Stuck UB.
Proof. intros E. unfold finish_node_step. by rewrite E. Qed.

(** C16: [librdf_finish_node] frees the three tables and leaves their
    pointers in the world: a second call frees them again, which is
    undefined. *)
Theorem finish_node_twice ext w :
  world_wf ext w →
  ∃ w', librdf_finish_node w = Val (tt, w')
        ∧ (∀ i, nodes_hash w' i = slot_freed)
        ∧ librdf_finish_node w' = Stuck UB.
Proof.
  intros Hwf. unfold librdf_finish_node. simpl.
  destruct (wf_tables _ _ Hwf H_RESOURCE) as [h1 E1].
  destruct (wf_tables _ _ Hwf H_LITERAL) as [h2 E2].
  destruct (wf_tables _ _ Hwf H_BLANK) as [h3 E3].
  run (finish_node_step_live w _ _ E1).
  erewrite st_bind_val; last by (eapply finish_node_step_live; rewrite nodes_hash_set_hash; simpl; apply E2).
  erewrite st_bind_val; last by (eapply finish_node_step_live; rewrite !nodes_hash_set_hash; simpl; apply E3).
  eexists. split; [done|]. split.
  - intros i. rewrite !nodes_hash_set_hash. by destruct i.
  - erewrite st_bind_stuck; [done|]. by apply finish_node_step_freed.
Qed.
End open.

(** ** The theorems at work on a new world *)

Section open_examples.
#[local] Existing Instance default_build.
#[local] Existing Instance identity_normalise.

Lemma world_open_establishes_witness :
  ∃ w', librdf_world_open (librdf_new_world (T:=gmap librdf_hash_datum librdf_hash_datum) 42 []) = Val (tt, w')
        ∧ world_wf (λ _, 0) w' ∧ world_room w' ∧ nodes_mutex w' = false
        ∧ world_nodes w' = ∅ ∧ alloc_fail ∉ world_allocs w'.
Proof. apply world_open_establishes. by intros ?%elem_of_nil. Defined.

Lemma finish_node_twice_witness :
  ∃ w', librdf_finish_node example_world
        = Val (tt, w')
        ∧ (∀ i, nodes_hash w' i = slot_freed)
        ∧ librdf_finish_node w' = Stuck UB.
Proof.
  apply (finish_node_twice (λ _, 0)).
  apply opened_world_wf; [done|apply uri_table_empty_wf].
Defined.

End open_examples.
