(* ===== verification/Blank.v ===== *)
(** * The blank node constructor

    [librdf_new_node_from_counted_blank_identifier] (src/rdf_node.c) takes
    the mutex, copies the identifier or generates one, looks it up in the
    table of blank nodes and returns the node found there, with one more
    reference, or a new node entered in the table. *)

From S2P Require Import Prelude CString Hash Uri Node Encode World Intern.
From S2P Require Import Invariant Lifecycle Open.

#[local] Open Scope Z_scope.

Section blank.
Context {T : Type} `{HashTable T} `{BuildConfig} `{UriNormalise}.
Implicit Types (w : librdf_world T) (p q : ptr) (n : librdf_node).
Implicit Types (ext : ptr → Z).

(** The blank constructor, on every path. *)
Lemma new_blank_node_run ext w id len :
  world_wf ext w → world_room w → nodes_mutex w = false →
  0 ≤ len < SIZE_MAX → len + 1 ≤ blen id →
  ∃ p w', librdf_new_node_from_counted_blank_identifier (Some id) len w
          = Val (p, w')
          ∧ nodes_mutex w' = false ∧ world_wf ext w'
          ∧ intern_outcome w H_BLANK (datum_bytes (take (Z.to_nat len) id))
              (blank_node (take (Z.to_nat (len + 1)) id) len) p w'
          ∧ (alloc_fail ∉ world_allocs w → p ≠ NULL).
Proof.
  intros Hwf Hroom Hm Hlen Hid.
  unfold librdf_new_node_from_counted_blank_identifier.
  run (librdf_world_open_run w (wf_opened _ _ Hwf)).
  pose proof (lock_world_equiv w) as El.
  destruct (new_blank_locked_spec ext (lock_world w) id len)
    as (p & w2 & Hrun & Hm2 & Hout & Hok);
    [by rewrite El | rewrite El; apply Hroom | done | done |].
  rewrite (locked_call_run _ _ _ _ Hm Hrun Hm2).
  assert (intern_outcome w H_BLANK (datum_bytes (take (Z.to_nat len) id))
            (blank_node (take (Z.to_nat (len + 1)) id) len) p
            (unlock_world w2)) as Hout'.
  { apply (intern_outcome_equiv ext (lock_world w) w _ _ _ _ w2);
      [done | done | symmetry; apply unlock_world_equiv | done]. }
  exists p, (unlock_world w2). split_and!; [done| | |done|].
  - apply unlock_world_mutex. by rewrite Hm2, lock_world_mutex.
  - eapply intern_outcome_wf; [done|apply Hroom|done| |done|].
    + unfold node_key. simpl. rewrite take_take. do 4 f_equal. lia.
    + intros q. unfold node_refs. simpl. by case_decide.
  - by rewrite lock_world_allocs in Hok.
Qed.

(** C3: On a well-formed world with the mutex free,
    [librdf_new_node_from_counted_blank_identifier] with an identifier of
    [len] bytes returns with the mutex free; it returns NULL and leaves the
    world as it was, or the node already interned for these bytes with one
    more reference, or a new node at a fresh address entered in the table;
    it does not return NULL when no allocation fails. *)
Theorem new_blank_node_spec ext w id len :
  world_wf ext w → world_room w → nodes_mutex w = false →
  0 ≤ len < SIZE_MAX → len + 1 ≤ blen id →
  ∃ p w', librdf_new_node_from_counted_blank_identifier (Some id) len w
          = Val (p, w')
          ∧ nodes_mutex w' = false ∧ world_wf ext w'
          ∧ intern_outcome w H_BLANK (datum_bytes (take (Z.to_nat len) id))
              (blank_node (take (Z.to_nat (len + 1)) id) len) p w'
          ∧ (alloc_fail ∉ world_allocs w → p ≠ NULL).
Proof. apply new_blank_node_run. Qed.

End blank.

(** ** The theorem at work on a new world *)

Section blank_examples.
#[local] Existing Instance default_build.
#[local] Existing Instance identity_normalise.

Lemma new_blank_node_spec_witness :
  ∃ p w', librdf_new_node_from_counted_blank_identifier
            (Some (ascii "genid42" ++ [0])) 7 example_world = Val (p, w')
          ∧ nodes_mutex w' = false ∧ world_wf (λ _, 0) w'
          ∧ intern_outcome example_world H_BLANK (datum_bytes (ascii "genid42"))
              (blank_node (ascii "genid42" ++ [0]) 7) p w'
          ∧ (alloc_fail ∉ world_allocs example_world → p ≠ NULL).
Proof.
  apply (new_blank_node_spec (λ _, 0) example_world (ascii "genid42" ++ [0]) 7).
  - apply opened_world_wf; [done|apply uri_table_empty_wf].
  - by apply opened_world_room.
  - done.
  - done.
  - done.
Defined.

End blank_examples.
