(* ===== verification/Resource.v ===== *)
(** * The resource constructor

    [librdf_new_node_from_uri_string_or_uri] (src/rdf_node.c) makes the URI
    object of its string, takes the mutex, looks the URI up in the table of
    resource nodes and returns the node found there, with one more
    reference, or a new node entered in the table.  The reference to the
    URI taken at the start is given back on the paths that do not keep it:
    when the node was found and when an allocation failed.

    The theorems give the final world of every path up to [≡], and show
    that [world_wf] is kept and the mutex released. *)

From S2P Require Import Prelude CString Hash Uri Node Encode World Intern.
From S2P Require Import Invariant Lifecycle Open.

#[local] Open Scope Z_scope.

(** The node [librdf_new_node_from_uri_string_or_uri] fills in. *)
Definition resource_node (uri : ptr) : librdf_node :=
  {| node_usage := 1; node_value_of := value_resource uri |}.

Section resource.
Context {T : Type} `{HashTable T} `{BuildConfig} `{UriNormalise}.
Implicit Types (w : librdf_world T) (p q : ptr) (n : librdf_node).
Implicit Types (ext : ptr → Z).

(** The outcomes of the construct-or-find of a resource by its string. *)
Definition resource_outcome w (s : list Z) (p : ptr) (w' : librdf_world T)
  : Prop :=
  (p = NULL ∧ w' ≡ w)
  ∨ (∃ uri, uri_find (world_uris w) s = Some uri
            ∧ interned w H_RESOURCE (datum_ptr uri) = Some p
            ∧ w' ≡ world_bump p w)
  ∨ (∃ uri ut, uri_new (world_uris w) s = Val (uri, ut)
               ∧ interned w H_RESOURCE (datum_ptr uri) = None
               ∧ p = fresh_ptr (world_nodes w)
               ∧ w' ≡ world_add p (resource_node uri) H_RESOURCE
                        (datum_ptr uri) (set_uris ut w)).

Lemma wf_uri_new ext w s p ut :
  world_wf ext w → world_room w → 0 ∉ s →
  uri_new (world_uris w) s = Val (p, ut) →
  world_wf (ext_add ext p 1) (set_uris ut w).
Proof.
  intros Hwf [_ Hroom] Hs. unfold uri_new.
  destruct (uri_find (world_uris w) s) as [p'|] eqn:Hf.
  - destruct (uri_ref (world_uris w) p') as [ut'|] eqn:Hr; [|done].
    intros [= <- <-]. apply wf_uri_ref; eauto.
  - intros [= <- <-]. by apply wf_uri_insert.
Qed.

Lemma librdf_new_uri_run w s rest :
  0 ∉ s →
  librdf_new_uri (s ++ 0 :: rest) w
  = match alloc_head w with
    | alloc_fail => Val (NULL, alloc_rest w)
    | alloc_ok _ => uri_intern s (alloc_rest w)
    end.
Proof.
  intros Hs. unfold librdf_new_uri. run_lift (c_str_cstr s rest Hs).
  run (next_alloc_run w). by destruct (alloc_head w).
Qed.

(** A node that refers to a URI keeps it alive. *)
Lemma wf_resource_uri_live ext w p n uri :
  world_wf ext w → world_nodes w !! p = Some n →
  node_value_of n = value_resource uri → uri ≠ NULL →
  is_Some (uris (world_uris w) !! uri).
Proof.
  intros Hwf Hp Hv Hn.
  destruct (wf_refs _ _ Hwf uri Hn) as (u & Hu & _); [|by eexists].
  rewrite (holders_delete _ _ _ uri Hp).
  pose proof (holders_nonneg (delete p (world_nodes w)) uri).
  pose proof (wf_ext _ _ Hwf uri).
  unfold node_refs. rewrite Hv, decide_False, decide_True by done. lia.
Qed.

(** The reference the caller of [new_resource_locked] holds can be given
    back. *)
Lemma held_uri_release ext w uri :
  world_wf (ext_add ext uri 1) w → uri ≠ NULL → (∀ q, 0 ≤ ext q) →
  ∃ ut, uri_release (world_uris w) uri = Val ut
        ∧ world_wf ext (set_uris ut w).
Proof.
  intros Hwf Hn Hext.
  destruct (wf_uri_live _ _ uri Hwf Hn) as (u & Hu & _).
  { unfold ext_add. rewrite decide_True by done. specialize (Hext uri). lia. }
  destruct (uri_release (world_uris w) uri) as [ut|] eqn:Hr.
  2:{ unfold uri_release in Hr. rewrite Hu in Hr. simpl in Hr. by case_decide. }
  exists ut. split; [done|].
  eapply wf_ext_proper; [|apply (wf_uri_release _ _ _ _ Hwf Hr)].
  - intros q. unfold ext_add. case_decide; lia.
  - unfold ext_add. rewrite decide_True by done. specialize (Hext uri). lia.
Qed.

Lemma new_resource_locked_spec ext w new_uri :
  world_wf (ext_add ext new_uri 1) w → nodes_room w → new_uri ≠ NULL →
  (∀ q, 0 ≤ ext q) →
  ∃ p w' ut,
    new_resource_locked new_uri w = Val (p, w')
    ∧ nodes_mutex w' = nodes_mutex w
    ∧ uri_release (world_uris w) new_uri = Val ut
    ∧ ((p = NULL ∧ w' ≡ set_uris ut w)
       ∨ match interned w H_RESOURCE (datum_ptr new_uri) with
         | Some q => p = q ∧ w' ≡ world_bump q (set_uris ut w)
         | None => p = fresh_ptr (world_nodes w)
                   ∧ w' ≡ world_add p (resource_node new_uri) H_RESOURCE
                            (datum_ptr new_uri) w
         end)
    ∧ world_wf ext w'
    ∧ (alloc_fail ∉ world_allocs w → p ≠ NULL).
Proof.
  intros Hwf Hroom Hn Hext. unfold new_resource_locked.
  destruct (held_uri_release _ _ _ Hwf Hn Hext) as (ut & Hrel & Hwf').
  destruct (wf_tables _ _ Hwf H_RESOURCE) as [h Hh].
  run (librdf_hash_get_one_run w H_RESOURCE h (datum_ptr new_uri) Hh).
  rewrite (interned_get w _ _ _ Hh).
  destruct (hash_get_one h (datum_ptr new_uri)) as [d|] eqn:Hg; simpl.
  - destruct (intern_hit_run _ _ _ _ _ _ Hwf Hroom Hh Hg)
      as (q & n & -> & Hq & _ & _).
    run_lift (eq_refl : datum_as_ptr (datum_ptr q) = Val q).
    run (librdf_free_uri_run w new_uri ut Hrel).
    assert (world_nodes (set_uris ut w) !! q = Some n) as Hq' by done.
    run (node_usage_incr_run _ q n Hq' (Hroom _ _ Hq)).
    eexists q, _, ut. split_and!; [done..| | |].
    + right. split; [done|]. unfold world_bump. by rewrite Hq'.
    + apply wf_bump; [done..|]. pose proof (wf_usage _ _ Hwf _ _ Hq).
      pose proof (Hroom _ _ Hq). lia.
    + intros _ ->. pose proof (wf_null _ _ Hwf). congruence.
  - destruct (enter_node_run w (set_uris ut w) H_RESOURCE h (datum_ptr new_uri)
                (resource_node new_uri) (librdf_free_uri new_uri))
      as (p & w' & Hrun & Hm & Hcase & Hok); [apply Hwf | done | |].
    { intros w1 E1. exists (set_uris ut w1). split_and!; [|by rewrite E1|done].
      apply librdf_free_uri_run. by rewrite (eqv_uris _ _ E1). }
    exists p, w', ut. split_and!; [exact Hrun | done..| | |done].
    + destruct Hcase as [[-> E]|[-> E]]; [left | right]; done.
    + destruct Hcase as [[-> E]|[-> E]]; rewrite E; [done|].
      unfold world_add. rewrite Hh.
      apply (wf_add (ext_add ext new_uri 1)); try done.
      * apply fresh_ptr_fresh.
      * apply fresh_ptr_not_null.
      * intros q. split; [done|]. unfold node_refs, ext_add, resource_node. simpl.
        repeat case_decide; subst; try congruence; lia.
Qed.

Lemma set_uris_id w : set_uris (world_uris w) w ≡ w.
Proof. by split. Qed.

Lemma set_uris_set_uris w ut ut' : set_uris ut (set_uris ut' w) ≡ set_uris ut w.
Proof. by split. Qed.

Lemma world_add_equiv_wf ext w1 w p n i k :
  world_wf ext w → w1 ≡ w → interned w i k = None →
  world_add p n i k w1 ≡ world_add p n i k w.
Proof.
  intros Hwf E Hi. destruct (wf_tables _ _ Hwf i) as [h Hh].
  symmetry in E. symmetry. apply (world_add_equiv _ _ _ _ _ h); [done..|].
  destruct (hash_get_one h k) as [v|] eqn:Hg; [|done].
  destruct (wf_index_heap _ _ Hwf _ _ _ _ Hh Hg) as (? & ? & -> & _).
  by apply (interned_None _ _ _ _ Hh) in Hg.
Qed.

(** A URI that a node of the table refers to is in the URI table: the
    string that names it is found, not inserted. *)
Lemma interned_resource_found ext w s uri ut q :
  world_wf ext w → uri ≠ NULL →
  uri_new (world_uris w) s = Val (uri, ut) →
  interned w H_RESOURCE (datum_ptr uri) = Some q →
  uri_find (world_uris w) s = Some uri.
Proof.
  intros Hwf Hnn Hnew Hi. unfold uri_new in Hnew.
  destruct (uri_find (world_uris w) s) as [p'|] eqn:Hf.
  - destruct (uri_ref (world_uris w) p') as [ut'|] eqn:Hr; [|done].
    by injection Hnew as -> _.
  - injection Hnew as <- _. exfalso.
    apply (wf_interned _ _ _ _ _ Hwf) in Hi as (n & Hq & Hk).
    destruct n as [u v]. assert (v = value_resource (fresh_ptr (uris (world_uris w)))) as ->.
    { unfold node_key in Hk. destruct v as [|r|l|b]; simpl in Hk;
        [done|congruence| |].
      - by destruct (literal_key l).
      - by destruct (blank_identifier b). }
    destruct (wf_resource_uri_live _ _ _ _ _ Hwf Hq eq_refl Hnn) as [x Hx].
    unfold uri_insert in Hx. simpl in Hx.
    by rewrite fresh_ptr_fresh in Hx.
Qed.

(** The resource constructor on a URI string, on every path. *)
Lemma new_node_from_uri_string_or_uri_run ext w s rest len :
  world_wf ext w → world_room w → nodes_mutex w = false → 0 ∉ s →
  ∃ p w', librdf_new_node_from_uri_string_or_uri (Some (s ++ 0 :: rest)) len
            NULL w = Val (p, w')
          ∧ nodes_mutex w' = false
          ∧ world_wf ext w'
          ∧ resource_outcome w s p w'
          ∧ (alloc_fail ∉ world_allocs w → p ≠ NULL).
Proof.
  intros Hwf Hroom Hm Hs. unfold librdf_new_node_from_uri_string_or_uri.
  run (librdf_world_open_run w (wf_opened _ _ Hwf)).
  unfold ASSERT_RETURN. simpl.
  pose proof (librdf_new_uri_run w s rest Hs) as Enew.
  destruct (alloc_head w) as [|junk] eqn:Ea.
  { run Enew. simpl. exists NULL, (alloc_rest w).
    split_and!; [done..| |left; split; [done|apply alloc_rest_equiv]|].
    - by rewrite alloc_rest_equiv.
    - intros Hno. by apply alloc_ok_no_failure in Ea. }
  destruct (uri_new_spec (world_uris w) s (wf_uris _ _ Hwf) Hs (proj2 Hroom))
    as (uri & ut1 & Hnew & Hnn & Hut1 & Hrel & (u1 & Hu1 & Hs1) & Hfresh).
  assert (uri_intern s (alloc_rest w) = Val (uri, set_uris ut1 (alloc_rest w))) as Eint
    by (unfold uri_intern; simpl; by rewrite Hnew).
  rewrite Eint in Enew. run Enew.
  unfold is_null. rewrite bool_decide_eq_false_2 by done.
  set (w1 := set_uris ut1 (alloc_rest w)).
  assert (w1 ≡ set_uris ut1 w) as E1 by (subst w1; by rewrite alloc_rest_equiv).
  assert (lock_world w1 ≡ set_uris ut1 w) as El by (by rewrite lock_world_equiv).
  assert (world_wf (ext_add ext uri 1) (set_uris ut1 w)) as Hwf1 by (by apply (wf_uri_new _ _ s)).
  destruct (new_resource_locked_spec ext (lock_world w1) uri)
    as (p & w2 & ut & Hrun & Hm2 & Hrel2 & Hcase & Hwf2 & Hok);
    [by rewrite El | rewrite El; apply Hroom | done | apply Hwf |].
  assert (nodes_mutex w1 = false) as Hm1 by done.
  rewrite (locked_call_run _ _ _ _ Hm1 Hrun Hm2).
  assert (ut = world_uris w) as ->.
  { rewrite (eqv_uris _ _ El) in Hrel2. simpl in Hrel2. congruence. }
  assert (set_uris (world_uris w) (lock_world w1) ≡ w) as Eback.
  { by rewrite El, set_uris_set_uris, set_uris_id. }
  rewrite (interned_equiv _ _ _ _ El) in Hcase.
  rewrite (eqv_nodes _ _ El) in Hcase. simpl in Hcase.
  change (interned (set_uris ut1 w)) with (interned w) in Hcase.
  exists p, (unlock_world w2). split_and!; [done| | | |].
  - apply unlock_world_mutex. by rewrite Hm2, lock_world_mutex.
  - by rewrite unlock_world_equiv.
  - pose proof (unlock_world_equiv w2) as Eu. unfold resource_outcome.
    destruct Hcase as [[-> E]|Hcase]; [left; by rewrite Eu, E|right].
    destruct (interned w H_RESOURCE (datum_ptr uri)) as [q|] eqn:Hi.
    + destruct Hcase as [-> E]. left. exists uri.
      split_and!; [by eapply interned_resource_found|done|by rewrite Eu, E, Eback].
    + destruct Hcase as [-> E]. right. exists uri, ut1.
      split_and!; [done..|]. rewrite Eu, E.
      by apply (world_add_equiv_wf (ext_add ext uri 1)).
  - intros Hno. apply Hok. rewrite lock_world_allocs. subst w1. simpl.
    by apply alloc_rest_no_failure.
Qed.

(** C2: On a well-formed world with the mutex free,
    [librdf_new_node_from_uri_string_or_uri] with a URI string returns with
    the mutex free and the invariant kept; it returns NULL and leaves the
    world as it was, or the node already interned for the URI of the string
    with one more reference, or a new node at a fresh address that holds the
    reference to the URI; it does not return NULL when no allocation
    fails. *)
Theorem new_node_from_uri_string_or_uri_spec ext w s rest len :
  world_wf ext w → world_room w → nodes_mutex w = false → 0 ∉ s →
  ∃ p w', librdf_new_node_from_uri_string_or_uri (Some (s ++ 0 :: rest)) len
            NULL w = Val (p, w')
          ∧ nodes_mutex w' = false
          ∧ world_wf ext w'
          ∧ resource_outcome w s p w'
          ∧ (alloc_fail ∉ world_allocs w → p ≠ NULL).
Proof. apply new_node_from_uri_string_or_uri_run. Qed.
End resource.

(** ** The theorem at work on a new world *)

Section resource_examples.
#[local] Existing Instance default_build.
#[local] Existing Instance identity_normalise.

Lemma new_node_from_uri_string_or_uri_spec_witness :
  ∃ p w', librdf_new_node_from_uri_string_or_uri (Some (ascii "http://purl.org/net/dajobe/" ++ 0 :: [])) 27
            NULL example_world = Val (p, w')
          ∧ nodes_mutex w' = false
          ∧ world_wf (λ _, 0) w'
          ∧ resource_outcome example_world
              (ascii "http://purl.org/net/dajobe/") p w'
          ∧ (alloc_fail ∉ world_allocs example_world → p ≠ NULL).
Proof.
  apply (new_node_from_uri_string_or_uri_spec (λ _, 0) example_world
           (ascii "http://purl.org/net/dajobe/") [] 27).
  - apply opened_world_wf; [done|apply uri_table_empty_wf].
  - by apply opened_world_room.
  - done.
  - compute_done.
Defined.

End resource_examples.
