(* ===== verification/Literal.v ===== *)
(** * The literal constructor

    [librdf_new_node_from_typed_counted_literal] (src/rdf_node.c) takes
    the mutex, allocates the node, copies the string and the language,
    takes a reference to the datatype URI, and encodes the node: the
    encoding is the key under which the literal is interned.  A node found
    under the key is returned with one more reference and everything built
    so far is released; otherwise the new node is entered.

    The file follows the function stage by stage.  While the node is being
    built the world holds an object that is in no table ([staged]); every
    path ends in a world that is, up to [≡], the world the function was
    called on, that world with one more use of a node, or with the new node
    added.  When the key cannot be built the function returns without the
    unlock ([literal_overflow_keeps_lock]). *)

From S2P Require Import Prelude CString Hash Uri Node Encode World Intern.
From S2P Require Import Invariant Lifecycle Open Resource.

#[local] Open Scope Z_scope.

Definition zero_node : librdf_node :=
  {| node_usage := 0; node_value_of := value_unknown |}.

Definition literal_of (s : list Z) (lang : option (list Z)) (dt : ptr)
    (key : option (list Z)) (size : Z) : literal_value :=
  {| literal_string := Some (s ++ [0]);
     literal_string_len := blen s;
     literal_datatype_uri := dt;
     literal_xml_language := (λ g, g ++ [0]) <$> lang;
     literal_xml_language_len := opt_len lang;
     literal_key := key;
     literal_size := size |}.

Definition literal_node (s : list Z) (lang : option (list Z)) (dt : ptr)
    (key : list Z) : librdf_node :=
  {| node_usage := 1;
     node_value_of := value_literal (literal_of s lang dt (Some key) (blen key)) |}.

Section literal.
Context {T : Type} `{HashTable T} `{BuildConfig} `{UriNormalise}.
Implicit Types (w : librdf_world T) (p q : ptr) (n : librdf_node).
Implicit Types (ext : ptr → Z) (ut : uri_table).

Record staged w p ut (w' : librdf_world T) : Prop := {
  staged_nodes : ∃ n0, world_nodes w' = <[p := n0]> (world_nodes w);
  staged_uris : world_uris w' = ut;
  staged_tables i : nodes_hash w' i = nodes_hash w i;
  staged_opened : world_opened w' = world_opened w;
  staged_xml : XMLLiteral_URI w' = XMLLiteral_URI w;
  staged_mutex : nodes_mutex w' = nodes_mutex w;
}.

Definition dt_released (ut1 : uri_table) (dt : ptr) (ut0 : uri_table) : Prop :=
  (dt = NULL ∧ ut0 = ut1) ∨ (dt ≠ NULL ∧ uri_release ut1 dt = Val ut0).

Definition literal_outcome w (k : list Z) (n : librdf_node) (ut1 : uri_table)
    (p : ptr) (w' : librdf_world T) : Prop :=
  (p = NULL ∧ w' ≡ w)
  ∨ match interned w H_LITERAL (datum_bytes k) with
    | Some q => p = q ∧ w' ≡ world_bump q w
    | None => p = fresh_ptr (world_nodes w)
              ∧ w' ≡ world_add p n H_LITERAL (datum_bytes k) (set_uris ut1 w)
    end.

Definition key_literal_outcome w (t : term) (n : librdf_node)
    (ut1 : uri_table) (allocs : list alloc_event) (e : locked_exit)
    (w' : librdf_world T) : Prop :=
  match term_overflow t with
  | Some err => e = return_now NULL ∧ w' ≡ w
  | None =>
      (e = return_now NULL ∧ w' ≡ w ∧ alloc_fail ∈ allocs)
      ∨ ∃ r, e = goto_unlock r
             ∧ literal_outcome w (wire_format t) n ut1 r w'
             ∧ (alloc_fail ∉ allocs → r ≠ NULL)
  end.

Definition language_arg (xml_language : option (list Z))
    (xml_language_len : Z) (lang : option (list Z)) : Prop :=
  match lang with
  | None => xml_language = None
  | Some g => ∃ rest, xml_language = Some (g ++ 0 :: rest)
                      ∧ g ≠ [] ∧ (0 ∉ g) ∧ xml_language_len = blen g
                      ∧ blen g < SIZE_MAX
  end.

Definition datatype_arg ext w (dt : ptr) (dts : option (list Z)) : Prop :=
  match dts with
  | None => dt = NULL
  | Some d => dt ≠ NULL ∧ 1 ≤ ext dt
              ∧ ∃ u, uris (world_uris w) !! dt = Some u ∧ uri_string u = d
  end.

Definition datatype_taken (ut : uri_table) (dt : ptr) : uri_table :=
  if is_null dt then ut
  else match uris ut !! dt with
       | Some u => uri_set_usage ut dt u (uri_usage u + 1)
       | None => ut
       end.

Definition ext_taken ext (dt : ptr) (dts : option (list Z)) : ptr → Z :=
  match dts with Some _ => ext_add ext dt 1 | None => ext end.

Lemma staged_alloc_rest w p ut w' :
  staged w p ut w' → staged w p ut (alloc_rest w').
Proof. intros [? ? ? ? ? ?]. split; try done; intros i; by rewrite nodes_hash_alloc_rest. Qed.

Lemma staged_set_log w p ut w' l :
  staged w p ut w' → staged w p ut (set_log l w').
Proof. intros [? ? ? ? ? ?]. split; try done; intros i; by rewrite nodes_hash_set_log. Qed.

Lemma staged_set_uris w p ut ut' w' :
  staged w p ut w' → staged w p ut' (set_uris ut' w').
Proof. intros [? ? ? ? ? ?]. split; try done; intros i; by rewrite nodes_hash_set_uris. Qed.

Lemma staged_start w :
  staged w (fresh_ptr (world_nodes w)) (world_uris w)
    (set_nodes (<[fresh_ptr (world_nodes w) := zero_node]> (world_nodes w))
       (alloc_rest w)).
Proof.
  split; try done; first by eexists.
Qed.

Lemma staged_free w p ut w' :
  staged w p ut w' → world_nodes w !! p = None →
  LIBRDF_FREE_node p w' = Val (tt, set_nodes (delete p (world_nodes w')) w')
  ∧ set_nodes (delete p (world_nodes w')) w' ≡ set_uris ut w
  ∧ nodes_mutex (set_nodes (delete p (world_nodes w')) w') = nodes_mutex w
  ∧ world_nodes (set_nodes (delete p (world_nodes w')) w') = world_nodes w
  ∧ (∀ i, nodes_hash (set_nodes (delete p (world_nodes w')) w') i
          = nodes_hash w i).
Proof.
  intros [[n0 Hn] Hu Ht Ho Hx Hm] Hp.
  assert (delete p (world_nodes w') = world_nodes w) as Hd
    by (by rewrite Hn, delete_insert_eq, delete_id).
  split; [done|]. split_and!; [|done|done|].
  - split; simpl; try done.
    intros i. rewrite nodes_hash_set_nodes, nodes_hash_set_uris, Ht.
    by destruct (nodes_hash w i).
  - intros i. by rewrite nodes_hash_set_nodes.
Qed.

Lemma staged_lookup w p ut w' :
  staged w p ut w' → is_Some (world_nodes w' !! p).
Proof. intros [[n0 Hn] _ _ _ _ _]. rewrite Hn, lookup_insert_eq. by eexists. Qed.

Lemma staged_store w p ut w' n :
  staged w p ut w' →
  staged w p ut (set_nodes (<[p := n]> (world_nodes w')) w').
Proof.
  intros [[n0 Hn] ? ? ? ? ?]. split; try done.
  exists n. simpl. by rewrite Hn, insert_insert_eq.
Qed.

Lemma set_uris_same w : set_uris (world_uris w) w = w.
Proof. by destruct w. Qed.

Lemma free_datatype_uri_run w dt ut0 :
  dt_released (world_uris w) dt ut0 →
  free_datatype_uri dt w = Val (tt, set_uris ut0 w).
Proof.
  unfold free_datatype_uri, is_null. intros [[-> ->]|[Hn Hr]].
  - rewrite bool_decide_eq_true_2 by done. by rewrite set_uris_same.
  - rewrite bool_decide_eq_false_2 by done. by apply librdf_free_uri_run.
Qed.

Lemma node_encode_run w n t buffer length r :
  node_denotes (world_uris w) n t → encode_spec t buffer length = Val r →
  node_encode n buffer length w
  = Val ((encode_size r, encode_buffer r),
         match encode_logged r with
         | Some e => set_log (world_log w ++ [log_encode e]) w
         | None => w
         end).
Proof.
  intros Hd Hr. unfold node_encode.
  unfold st_get at 1. unfold mbind at 1, st_bind. simpl.
  rewrite (encode_denotes _ _ _ _ _ Hd), Hr.
  unfold st_lift at 1. unfold mbind at 1, st_bind. simpl.
  by destruct (encode_logged r).
Qed.

Lemma staged_undo w p ut1 ut0 dt w3 :
  staged w p ut1 w3 → world_nodes w !! p = None → dt_released ut1 dt ut0 →
  ∃ wa w', free_datatype_uri dt w3 = Val (tt, wa)
           ∧ LIBRDF_FREE_node p wa = Val (tt, w')
           ∧ w' ≡ set_uris ut0 w ∧ nodes_mutex w' = nodes_mutex w
           ∧ world_allocs w' = world_allocs w3
           ∧ world_nodes w' = world_nodes w
           ∧ (∀ i, nodes_hash w' i = nodes_hash w i).
Proof.
  intros Hst Hp Hrel.
  rewrite <- (staged_uris _ _ _ _ Hst) in Hrel.
  destruct (staged_free w p ut0 (set_uris ut0 w3)) as (E & Eq & Hm & Hn & Ht);
    [by apply (staged_set_uris _ _ ut1)|done|].
  eexists _, _. split; [by apply free_datatype_uri_run|]. split; [exact E|]. done.
Qed.

Lemma intern_literal_run ext w ut1 dt s lang t buffer w3 :
  let p := fresh_ptr (world_nodes w) in
  let l := literal_of s lang dt None 0 in
  world_wf ext w → nodes_room w → staged w p ut1 w3 →
  dt_released ut1 dt (world_uris w) →
  node_denotes ut1 {| node_usage := 0; node_value_of := value_literal l |} t →
  term_overflow t = None → length buffer = length (wire_format t) →
  ∃ r w', intern_literal p l (blen (wire_format t)) buffer w3
          = Val (goto_unlock r, w')
          ∧ nodes_mutex w' = nodes_mutex w
          ∧ literal_outcome w (wire_format t)
              (literal_node s lang dt (wire_format t)) ut1 r w'
          ∧ (alloc_fail ∉ world_allocs w3 → r ≠ NULL).
Proof.
  intros p l Hwf Hroom Hst Hrel Hden Hfit Hlen.
  pose proof (fresh_ptr_fresh (world_nodes w)) as Hfr. fold p in Hfr.
  pose proof (fresh_ptr_not_null (world_nodes w)) as Hnn. fold p in Hnn.
  unfold intern_literal. set (key := wire_format t) in *.
  assert (encode_spec t (Some buffer) (blen key) = Val (blen key, Some key, None)) as Espec.
  { rewrite encode_spec_ok by (done || (subst key; lia)). fold key.
    by rewrite (poke_all _ _ Hlen). }
  rewrite <- (staged_uris _ _ _ _ Hst) in Hden.
  run (node_encode_run w3 _ t (Some buffer) (blen key) _ Hden Espec). simpl.
  run_lift (eq_refl : of_option (Some key) = Val key).
  assert (take (Z.to_nat (blen key)) key = key) as ->.
  { apply take_ge. unfold blen. lia. }
  destruct (wf_tables _ _ Hwf H_LITERAL) as [h Hh].
  assert (nodes_hash w3 H_LITERAL = slot_live h) as Hh3
    by (by rewrite (staged_tables _ _ _ _ Hst)).
  run (librdf_hash_get_one_run w3 H_LITERAL h (datum_bytes key) Hh3).
  unfold literal_outcome. rewrite (interned_get w _ _ _ Hh).
  destruct (staged_undo w p ut1 _ dt w3 Hst Hfr Hrel)
      as (wa & w5 & Ea & Ef & E5 & Hm5 & Ha5 & Hn5 & Ht5).
  rewrite set_uris_same in E5.
  destruct (hash_get_one h (datum_bytes key)) as [d|] eqn:Hg; simpl.
  - run Ea. run Ef.
    destruct (wf_index_heap _ _ Hwf _ _ _ _ Hh Hg) as (q & n & -> & Hq & Hk).
    run_lift (eq_refl : datum_as_ptr (datum_ptr q) = Val q).
    assert (world_nodes w5 !! q = Some n) as Hq5 by (by rewrite Hn5).
    run (node_usage_incr_run w5 q n Hq5 (Hroom _ _ Hq)).
    eexists q, _. split_and!; [done|done| |].
    + right. split; [done|]. unfold world_bump. rewrite Hq, Hn5.
      by rewrite E5.
    + intros _ ->. pose proof (wf_null _ _ Hwf). congruence.
  - destruct (staged_lookup _ _ _ _ Hst) as [n0 Hp3].
    set (nf := {| node_usage := 1; node_value_of := _ |}).
    run (node_store_run w3 p n0 nf Hp3).
    set (ws := set_nodes (<[p := nf]> (world_nodes w3)) w3).
    assert (staged w p ut1 ws) as Hsts by (by apply staged_store).
    assert (nodes_hash ws H_LITERAL = slot_live h) as Hhs
      by (by rewrite (staged_tables _ _ _ _ Hsts)).
    run (librdf_hash_put_run ws H_LITERAL h (datum_bytes key) (datum_ptr p) Hhs).
    destruct (alloc_head ws) as [|junk] eqn:Eh.
    + rewrite decide_True by done.
      destruct (staged_undo w p ut1 _ dt (alloc_rest ws)
                  (staged_alloc_rest _ _ _ _ Hsts) Hfr Hrel)
        as (wb & w6 & Eb & Ef6 & E6 & Hm6 & _).
      run Eb. run Ef6. rewrite set_uris_same in E6.
      exists NULL, w6. split_and!; [done|done|by left|].
      intros Hno. exfalso. by apply (alloc_ok_no_failure w3) in Eh.
    + rewrite decide_False by lia.
      eexists p, _. split_and!; [done|apply (staged_mutex _ _ _ _ Hsts)| |done].
      right. split; [done|]. unfold world_add.
      rewrite nodes_hash_set_uris, Hh.
      destruct Hsts as [[n1 Hn1] Hu1 Ht1 Ho1 Hx1 Hm1].
      assert (n1 = nf) as ->.
      { apply (f_equal (λ m, m !! p)) in Hn1. simpl in Hn1.
        rewrite !lookup_insert_eq in Hn1. congruence. }
      split; simpl; try done.
      intros i. rewrite !nodes_hash_set_hash. case_decide; [done|].
      rewrite nodes_hash_alloc_rest, Ht1, nodes_hash_set_nodes, nodes_hash_set_uris.
      by destruct (nodes_hash w i).
Qed.

Lemma wire_format_nonempty t : 0 < blen (wire_format t).
Proof.
  unfold blen. destruct t; simpl; [lia| |lia].
  case_decide; simpl; lia.
Qed.

Lemma key_literal_run ext w ut1 dt s lang t w3 :
  let p := fresh_ptr (world_nodes w) in
  let l := literal_of s lang dt None 0 in
  world_wf ext w → nodes_room w → staged w p ut1 w3 →
  dt_released ut1 dt (world_uris w) →
  node_denotes ut1 {| node_usage := 0; node_value_of := value_literal l |} t →
  ∃ e w', key_literal p l w3 = Val (e, w')
          ∧ nodes_mutex w' = nodes_mutex w
          ∧ key_literal_outcome w t (literal_node s lang dt (wire_format t))
              ut1 (world_allocs w3) e w'.
Proof.
  intros p l Hwf Hroom Hst Hrel Hden.
  pose proof (fresh_ptr_fresh (world_nodes w)) as Hfr. fold p in Hfr.
  unfold key_literal, key_literal_outcome.
  pose proof Hden as Hden3. rewrite <- (staged_uris _ _ _ _ Hst) in Hden3.
  destruct (term_overflow t) as [err|] eqn:Hov.
  - assert (encode_spec t None 0 = Val (0, None, Some err)) as Espec.
    { unfold encode_spec. rewrite decide_False by lia. by rewrite Hov. }
    run (node_encode_run w3 _ t None 0 _ Hden3 Espec). simpl.
    destruct (staged_undo w p ut1 _ dt _
                (staged_set_log _ _ _ _ (world_log w3 ++ [log_encode err]) Hst) Hfr Hrel)
      as (wa & w5 & Ea & Ef & E5 & Hm5 & _).
    erewrite st_bind_val; last reflexivity. cbv beta iota.
    run Ea. run Ef. rewrite set_uris_same in E5. by eexists _, _.
  - assert (encode_spec t None 0 = Val (blen (wire_format t), None, None)) as Espec.
    { unfold encode_spec. rewrite decide_False by lia. by rewrite Hov. }
    run (node_encode_run w3 _ t None 0 _ Hden3 Espec).
    unfold encode_size, encode_buffer, encode_logged. cbn [fst snd].
    pose proof (wire_format_nonempty t) as Hne.
    rewrite decide_True by lia.
    run (LIBRDF_MALLOC_run w3 (blen (wire_format t))).
    destruct (alloc_head w3) as [|junk] eqn:Eh.
    + destruct (staged_undo w p ut1 _ dt _ (staged_alloc_rest _ _ _ _ Hst) Hfr Hrel)
        as (wa & w5 & Ea & Ef & E5 & Hm5 & _).
      run Ea. run Ef. rewrite set_uris_same in E5.
      eexists _, _. split_and!; [done..|]. left. split_and!; [done..|].
      unfold alloc_head in Eh. destruct (world_allocs w3) as [|[] ?]; simplify_eq/=.
      left.
    + destruct (intern_literal_run ext w ut1 dt s lang t
                  (malloc_bytes junk (blen (wire_format t))) (alloc_rest w3))
        as (r & w' & Erun & Hm & Hout & Hok);
        [done|done|by apply staged_alloc_rest|done|done|done| |].
      { pose proof (malloc_bytes_length junk (blen (wire_format t))).
        unfold blen in *. lia. }
      eexists _, _. split_and!; [exact Erun|done|]. right. exists r.
      split_and!; [done..|]. intros Hno. apply Hok.
      by apply alloc_rest_no_failure.
Qed.

Lemma copy_language_run w xml_language xml_language_len lang :
  language_arg xml_language xml_language_len lang →
  copy_language xml_language xml_language_len w
  = Val (match lang with
         | None => Some None
         | Some g => match alloc_head w with
                     | alloc_fail => None
                     | alloc_ok _ => Some (Some (g ++ [0]))
                     end
         end,
         match lang with None => w | Some _ => alloc_rest w end).
Proof.
  unfold copy_language. destruct lang as [g|]; simpl.
  - intros (rest & -> & Hne & Hz & -> & Hlt).
    destruct g as [|c g']; [done|].
    run_lift (eq_refl : load ((c :: g') ++ 0 :: rest) 0 = Val c).
    rewrite decide_False by (intros ->; apply Hz; left).
    run (copy_counted_run w ((c :: g') ++ 0 :: rest) (blen (c :: g')) (c :: g')
           ltac:(pose proof (blen_nonneg (c :: g')); lia)
           (strncpy_bytes_prefix _ _ Hz)).
    by destruct (alloc_head w).
  - by intros ->.
Qed.

Lemma take_datatype_run ext w w3 dt dts :
  world_wf ext w → world_room w → datatype_arg ext w dt dts →
  world_uris w3 = world_uris w →
  (if is_null dt then mret NULL else librdf_new_uri_from_uri dt) w3
  = Val (dt, set_uris (datatype_taken (world_uris w) dt) w3)
  ∧ dt_released (datatype_taken (world_uris w) dt) dt (world_uris w).
Proof.
  intros Hwf [_ Hroom] Hdt Hu. unfold datatype_taken, dt_released.
  destruct dts as [d|]; simpl in Hdt.
  - destruct Hdt as (Hn & He & u & Hlook & Hs).
    unfold is_null. rewrite bool_decide_eq_false_2 by done. rewrite Hlook.
    pose proof (uri_wf_usage _ (wf_uris _ _ Hwf) _ _ Hlook).
    split.
    + apply librdf_new_uri_from_uri_run. rewrite Hu.
      apply uri_ref_val; [done|by eapply Hroom|lia].
    + right. split; [done|]. apply uri_ref_release; [apply Hwf|done|by eapply Hroom].
  - subst dt. unfold is_null. rewrite bool_decide_eq_true_2 by done.
    rewrite <- Hu. split; [by rewrite set_uris_same|]. by left.
Qed.

Lemma literal_denotes ext w s lang dt dts :
  world_wf ext w → 0 ∉ s →
  (∀ g, lang = Some g → 0 ∉ g) → datatype_arg ext w dt dts →
  node_denotes (datatype_taken (world_uris w) dt)
    {| node_usage := 0;
       node_value_of := value_literal (literal_of s lang dt None 0) |}
    (term_literal s dts lang).
Proof.
  intros Hwf Hs Hg Hdt. apply denotes_literal.
  - done.
  - unfold datatype_taken. destruct dts as [d|]; simpl in *; [|done].
    destruct Hdt as (Hn & He & u & Hlook & Hd).
    unfold is_null. rewrite bool_decide_eq_false_2 by done. rewrite Hlook.
    eexists. split; [done|]. split; [apply lookup_insert_eq|]. simpl.
    split; [done|]. subst d. by apply (uri_wf_string _ (wf_uris _ _ Hwf) dt).
  - destruct lang as [g|]; simpl; [|done]. split_and!; [done| |done]. by apply Hg.
Qed.

Lemma key_literal_outcome_mono w t n ut1 (a a' : list alloc_event) e w' :
  (alloc_fail ∈ a → alloc_fail ∈ a') →
  key_literal_outcome w t n ut1 a e w' → key_literal_outcome w t n ut1 a' e w'.
Proof.
  intros Ha. unfold key_literal_outcome. destruct (term_overflow t); [done|].
  intros [(? & ? & ?)|(r & ? & ? & Hok)]; [left; auto|right].
  exists r. split_and!; [done..|]. intros Hno. apply Hok. auto.
Qed.

Lemma alloc_rest_failure w :
  alloc_fail ∈ world_allocs (alloc_rest w) → alloc_fail ∈ world_allocs w.
Proof. simpl. destruct (world_allocs w); set_solver. Qed.

Lemma literal_tail_run ext w wx s lang dt dts :
  let p := fresh_ptr (world_nodes w) in
  let t := term_literal s dts lang in
  let ut1 := datatype_taken (world_uris w) dt in
  world_wf ext w → world_room w → 0 ∉ s →
  (∀ g, lang = Some g → 0 ∉ g) → datatype_arg ext w dt dts →
  staged w p (world_uris w) wx →
  ∃ e w', (datatype_uri ← (if is_null dt then mret NULL
                           else librdf_new_uri_from_uri dt);
           key_literal p (literal_of s lang datatype_uri None 0)) wx
          = Val (e, w')
          ∧ nodes_mutex w' = nodes_mutex w
          ∧ key_literal_outcome w t (literal_node s lang dt (wire_format t))
              ut1 (world_allocs wx) e w'.
Proof.
  intros p t ut1 Hwf Hroom Hs Hg Hdt Hst.
  destruct (take_datatype_run ext w wx dt dts Hwf Hroom Hdt
              (staged_uris _ _ _ _ Hst)) as [Et Hrel].
  run Et. fold ut1 in Hrel |- *.
  apply (key_literal_run ext w ut1 dt s lang t (set_uris ut1 wx));
    [done|apply Hroom| |done|].
  - by apply (staged_set_uris _ _ (world_uris w)).
  - by apply (literal_denotes ext).
Qed.

Lemma new_literal_locked_run ext w s rest xml_language xml_language_len lang
    dt dts :
  let t := term_literal s dts lang in
  let ut1 := datatype_taken (world_uris w) dt in
  world_wf ext w → world_room w → 0 ∉ s → blen s < SIZE_MAX →
  language_arg xml_language xml_language_len lang →
  datatype_arg ext w dt dts →
  ∃ e w', new_literal_locked (s ++ rest) (blen s) xml_language
            xml_language_len dt w = Val (e, w')
          ∧ nodes_mutex w' = nodes_mutex w
          ∧ ((e = goto_unlock NULL ∧ w' ≡ w ∧ alloc_fail ∈ world_allocs w)
             ∨ key_literal_outcome w t (literal_node s lang dt (wire_format t))
                 ut1 (world_allocs w) e w').
Proof.
  intros t ut1 Hwf Hroom Hs Hlen Hlang Hdt. unfold new_literal_locked.
  pose proof (fresh_ptr_fresh (world_nodes w)) as Hfr.
  pose proof (fresh_ptr_not_null (world_nodes w)) as Hnn.
  set (p := fresh_ptr (world_nodes w)) in *.
  destruct (alloc_head w) as [|junk] eqn:Ea.
  { run (LIBRDF_CALLOC_node_fail w Ea). simpl.
    eexists _, _. split_and!; [done..|]. left.
    split_and!; [done|apply alloc_rest_equiv|by apply alloc_ok_no_failure]. }
  run (LIBRDF_CALLOC_node_ok w junk Ea). fold p.
  unfold is_null at 1. rewrite bool_decide_eq_false_2 by done.
  pose proof (staged_start w) as Hst. fold p in Hst.
  set (w1 := set_nodes _ (alloc_rest w)) in *.
  run (copy_counted_run w1 (s ++ rest) (blen s) s
         ltac:(pose proof (blen_nonneg s); lia) (strncpy_bytes_prefix _ _ Hs)).
  destruct (alloc_head w1) as [|junk1] eqn:Ea1.
  { destruct (staged_free w p _ _ (staged_alloc_rest _ _ _ _ Hst) Hfr)
      as (Ef & E & Hm & _).
    run Ef. rewrite set_uris_same in E.
    eexists _, _. split_and!; [done..|]. left. split_and!; [done..|].
    apply alloc_ok_no_failure in Ea1. simpl in Ea1.
    destruct (world_allocs w); [done|]. set_solver. }
  set (w2 := alloc_rest w1) in *.
  assert (staged w p (world_uris w) w2) as Hst2 by (by apply staged_alloc_rest).
  assert (alloc_fail ∈ world_allocs w2 → alloc_fail ∈ world_allocs w) as Hsub2.
  { intros Hin. by apply alloc_rest_failure, (alloc_rest_failure w1). }
  assert (∀ g, lang = Some g → 0 ∉ g) as Hg.
  { intros g ->. by destruct Hlang as (? & _ & _ & ? & _). }
  run (copy_language_run w2 _ _ _ Hlang).
  destruct lang as [g|].
  - destruct Hlang as (grest & -> & Hne & Hz & -> & Hlt).
    destruct (alloc_head w2) as [|junk2] eqn:Ea2.
    { destruct (staged_free w p _ _ (staged_alloc_rest _ _ _ _ Hst2) Hfr)
        as (Ef & E & Hm & _).
      run Ef. rewrite set_uris_same in E.
      eexists _, _. split_and!; [done..|]. left. split_and!; [done..|].
      by apply Hsub2, alloc_ok_no_failure. }
    destruct (literal_tail_run ext w (alloc_rest w2) s (Some g) dt dts)
      as (e & w' & Erun & Hm & Hout); [done..|by apply staged_alloc_rest|].
    exists e, w'. split_and!; [exact Erun|done|]. right.
    eapply key_literal_outcome_mono; [|exact Hout].
    intros Hin. by apply Hsub2, alloc_rest_failure.
  - destruct (literal_tail_run ext w w2 s None dt dts)
      as (e & w' & Erun & Hm & Hout); [done..|].
    exists e, w'. split_and!; [exact Erun|done|]. right.
    by eapply key_literal_outcome_mono.
Qed.

Lemma datatype_taken_wf ext w dt dts :
  world_wf ext w → world_room w → datatype_arg ext w dt dts →
  world_wf (ext_taken ext dt dts)
    (set_uris (datatype_taken (world_uris w) dt) w).
Proof.
  intros Hwf [_ Hroom] Hdt. unfold ext_taken, datatype_taken, is_null.
  destruct dts as [d|]; simpl in Hdt.
  - destruct Hdt as (Hn & He & u & Hlook & Hd).
    rewrite bool_decide_eq_false_2 by done. rewrite Hlook.
    pose proof (uri_wf_usage _ (wf_uris _ _ Hwf) _ _ Hlook).
    apply wf_uri_ref; [done| |].
    + apply uri_ref_val; [done|by eapply Hroom|lia].
    + intros u' Hu'. by eapply Hroom.
  - subst dt. rewrite bool_decide_eq_true_2 by done. by rewrite set_uris_same.
Qed.

Lemma literal_node_refs ext w s lang dt dts key q :
  world_wf ext w → datatype_arg ext w dt dts →
  0 ≤ ext q
  ∧ ext q + node_refs (literal_node s lang dt key) q = ext_taken ext dt dts q.
Proof.
  intros Hwf Hdt. split; [apply Hwf|].
  unfold node_refs, ext_taken, ext_add. simpl.
  destruct dts as [d|]; simpl in Hdt.
  - destruct Hdt as (Hn & _). repeat case_decide; subst; try done; lia.
  - subst dt. repeat case_decide; subst; try done; lia.
Qed.

Lemma literal_outcome_wf ext w s lang dt dts key p w' :
  world_wf ext w → world_room w → datatype_arg ext w dt dts →
  literal_outcome w key (literal_node s lang dt key)
    (datatype_taken (world_uris w) dt) p w' →
  world_wf ext w'.
Proof.
  intros Hwf Hroom Hdt [[-> E]|Hcase]; [by rewrite E|].
  destruct (interned w H_LITERAL (datum_bytes key)) as [q|] eqn:Hi.
  - destruct Hcase as [-> ->].
    apply (wf_interned _ _ _ _ _ Hwf) in Hi as (n' & Hq & _).
    unfold world_bump. rewrite Hq. apply wf_bump; [done..|].
    pose proof (wf_usage _ _ Hwf _ _ Hq). pose proof (proj1 Hroom _ _ Hq). lia.
  - destruct Hcase as [-> ->]. unfold world_add, interned in *.
    rewrite nodes_hash_set_uris.
    destruct (wf_tables _ _ Hwf H_LITERAL) as [h Hh]. rewrite Hh in *.
    apply (wf_add (ext_taken ext dt dts)); try done.
    + by apply datatype_taken_wf.
    + apply fresh_ptr_fresh.
    + apply fresh_ptr_not_null.
    + destruct (hash_get_one h (datum_bytes key)) as [v|] eqn:Hg; [|done].
      destruct (wf_index_heap _ _ Hwf _ _ _ _ Hh Hg) as (? & ? & -> & _). done.
    + unfold node_key. simpl. do 3 f_equal. apply take_ge. unfold blen. lia.
    + intros q. by apply (literal_node_refs ext w).
Qed.

Lemma literal_outcome_equiv ext w1 w k n ut1 p w1' w' :
  world_wf ext w →
  w1 ≡ w → w1' ≡ w' → literal_outcome w1 k n ut1 p w1' →
  literal_outcome w k n ut1 p w'.
Proof.
  intros Hwf E E'. unfold literal_outcome.
  rewrite (interned_equiv _ _ _ _ E), (eqv_nodes _ _ E).
  intros [[-> Ew]|Hcase]; [left; by rewrite <- E', Ew|right].
  destruct (interned w H_LITERAL (datum_bytes k)) as [q|] eqn:Hi.
  - destruct Hcase as [-> Ew]. by rewrite <- E', Ew, E.
  - destruct Hcase as [-> Ew]. split; [done|]. rewrite <- E', Ew.
    destruct (wf_tables _ _ Hwf H_LITERAL) as [h Hh].
    symmetry. apply (world_add_equiv _ _ _ _ _ h); [by rewrite E| |].
    + by rewrite nodes_hash_set_uris.
    + destruct (hash_get_one h (datum_bytes k)) as [v|] eqn:Hg; [|done].
      destruct (wf_index_heap _ _ Hwf _ _ _ _ Hh Hg) as (? & ? & -> & _).
      by apply (interned_None _ _ _ _ Hh) in Hg.
Qed.

Lemma normalise_language_arg xml_language xml_language_len lang :
  language_arg xml_language xml_language_len lang →
  normalise_language xml_language = Val xml_language
  ∧ (is_Some xml_language ↔ is_Some lang).
Proof.
  unfold language_arg, normalise_language. destruct lang as [g|].
  - intros (rest & -> & Hne & Hz & _). destruct g as [|c g']; [done|].
    simpl. rewrite decide_False by (intros ->; apply Hz; left).
    split; [done|]. split; by eexists.
  - intros ->. split; [done|]. split; by intros [? ?].
Qed.

Lemma datatype_arg_equiv ext w w' dt dts :
  w' ≡ w → datatype_arg ext w dt dts → datatype_arg ext w' dt dts.
Proof. intros E. unfold datatype_arg. by rewrite (eqv_uris _ _ E). Qed.

Lemma key_literal_outcome_equiv ext w1 w t n ut1 a e w' :
  world_wf ext w → w1 ≡ w →
  key_literal_outcome w1 t n ut1 a e w' → key_literal_outcome w t n ut1 a e w'.
Proof.
  intros Hwf E. unfold key_literal_outcome.
  destruct (term_overflow t).
  - intros [-> Ew]. by rewrite Ew.
  - intros [(-> & Ew & ?)|(r & -> & Hout & Hok)]; [left; by rewrite Ew|right].
    exists r. split_and!; [done| |done].
    by apply (literal_outcome_equiv ext w1 w _ _ _ _ w').
Qed.

Lemma new_literal_run ext w s rest xml_language xml_language_len lang dt dts :
  let t := term_literal s dts lang in
  let ut1 := datatype_taken (world_uris w) dt in
  world_wf ext w → world_room w → nodes_mutex w = false →
  0 ∉ s → blen s < SIZE_MAX →
  language_arg xml_language xml_language_len lang →
  datatype_arg ext w dt dts → lang = None ∨ dts = None →
  ∃ p w', librdf_new_node_from_typed_counted_literal (Some (s ++ rest))
            (blen s) xml_language xml_language_len dt w = Val (p, w')
    ∧ ((p = NULL ∧ w' ≡ w ∧ nodes_mutex w' = false
        ∧ alloc_fail ∈ world_allocs w)
       ∨ ∃ e w2, key_literal_outcome w t
                   (literal_node s lang dt (wire_format t)) ut1
                   (world_allocs w) e w2
                 ∧ match e with
                   | return_now r =>
                       p = r ∧ w' = w2 ∧ nodes_mutex w' = WITH_THREADS
                   | goto_unlock r =>
                       p = r ∧ w' ≡ w2 ∧ nodes_mutex w' = false
                   end).
Proof.
  intros t ut1 Hwf Hroom Hm Hs Hlen Hlang Hdt Hnot.
  unfold librdf_new_node_from_typed_counted_literal.
  run (librdf_world_open_run w (wf_opened _ _ Hwf)).
  unfold ASSERT_OBJECT_POINTER_RETURN_VALUE. rewrite assert_pointer_some.
  run_lift (eq_refl : of_option (Some (s ++ rest)) = Val (s ++ rest)).
  destruct (normalise_language_arg _ _ _ Hlang) as [En Hsome].
  run_lift En.
  assert (bool_decide (is_Some xml_language) && negb (is_null dt) = false) as ->.
  { destruct Hnot as [->| ->].
    - rewrite bool_decide_eq_false_2; [done|]. rewrite Hsome. by intros [? ?].
    - simpl in Hdt. subst dt. apply andb_false_r. }
  run (pthread_mutex_lock_run w Hm). fold (lock_world w).
  pose proof (lock_world_equiv w) as El.
  destruct (new_literal_locked_run ext (lock_world w) s rest xml_language
              xml_language_len lang dt dts)
    as (e & w2 & Erun & Hm2 & Hout);
    [by rewrite El|by rewrite El|done|done|done|by apply (datatype_arg_equiv ext w)|].
  run Erun. rewrite (lock_world_mutex _ Hm) in Hm2.
  rewrite lock_world_allocs, (eqv_uris _ _ El) in Hout.
  destruct Hout as [(-> & E2 & Hin)|Hout].
  - run (pthread_mutex_unlock_run w2 Hm2). fold (unlock_world w2).
    eexists _, _. split; [done|]. left. split_and!; [done| | |done].
    + by rewrite unlock_world_equiv, E2.
    + by apply unlock_world_mutex.
  - apply (key_literal_outcome_equiv ext _ w) in Hout; [|done..].
    destruct e as [r|r].
    + run (pthread_mutex_unlock_run w2 Hm2). fold (unlock_world w2).
      eexists _, _. split; [done|]. right. exists (goto_unlock r), w2.
      split; [done|]. split_and!; [done|apply unlock_world_equiv|].
      by apply unlock_world_mutex.
    + eexists _, _. split; [done|]. right. exists (return_now r), w2. done.
Qed.

(** The literal constructor when every field fits its width. *)
Lemma new_literal_fits_run ext w s rest xml_language xml_language_len lang dt
    dts :
  let t := term_literal s dts lang in
  world_wf ext w → world_room w → nodes_mutex w = false →
  0 ∉ s → blen s < SIZE_MAX →
  language_arg xml_language xml_language_len lang →
  datatype_arg ext w dt dts → lang = None ∨ dts = None →
  term_overflow t = None →
  ∃ p w', librdf_new_node_from_typed_counted_literal (Some (s ++ rest))
            (blen s) xml_language xml_language_len dt w = Val (p, w')
          ∧ world_wf ext w'
          ∧ literal_outcome w (wire_format t)
              (literal_node s lang dt (wire_format t))
              (datatype_taken (world_uris w) dt) p w'
          ∧ (alloc_fail ∉ world_allocs w → p ≠ NULL ∧ nodes_mutex w' = false).
Proof.
  intros t Hwf Hroom Hm Hs Hlen Hlang Hdt Hnot Hfit.
  destruct (new_literal_run ext w s rest _ _ _ _ _ Hwf Hroom Hm Hs Hlen Hlang
              Hdt Hnot) as (p & w' & Erun & Hcase).
  exists p, w'. split; [done|].
  assert (literal_outcome w (wire_format t)
            (literal_node s lang dt (wire_format t))
            (datatype_taken (world_uris w) dt) p w'
          ∧ (alloc_fail ∉ world_allocs w → p ≠ NULL ∧ nodes_mutex w' = false))
    as [Hout Hok].
  { destruct Hcase as [(-> & E & ? & Hin)|(e & w2 & Hk & He)].
    - split; [by left|done].
    - unfold key_literal_outcome in Hk. fold t in Hk. rewrite Hfit in Hk.
      destruct Hk as [(-> & E & Hin)|(r & -> & Hout & Hok)].
      + destruct He as (-> & -> & ?). split; [by left|done].
      + destruct He as (-> & E & ?). split; [|by auto].
        by apply (literal_outcome_equiv ext w w _ _ _ _ w2). }
  split_and!; [|done|done].
  by apply (literal_outcome_wf ext w s lang dt dts (wire_format t) p).
Qed.

(** C1: [librdf_new_node_from_typed_counted_literal] on a well-formed
    world with the mutex free, for a string without NUL, a language or a
    datatype (not both) and fields that fit the header of the key: the call
    returns and keeps the invariant; the key it looks up is the wire format
    of the literal; the result is NULL with the world as it was, the node
    interned under that key with one more use (the datatype reference of
    the caller untouched), or a new node at a fresh address that holds its
    own reference to the datatype.  When no allocation fails the result is
    not NULL and the mutex is free again. *)
Theorem new_literal_spec ext w s rest xml_language xml_language_len lang dt
    dts :
  let t := term_literal s dts lang in
  world_wf ext w → world_room w → nodes_mutex w = false →
  0 ∉ s → blen s < SIZE_MAX →
  language_arg xml_language xml_language_len lang →
  datatype_arg ext w dt dts → lang = None ∨ dts = None →
  term_overflow t = None →
  ∃ p w', librdf_new_node_from_typed_counted_literal (Some (s ++ rest))
            (blen s) xml_language xml_language_len dt w = Val (p, w')
          ∧ world_wf ext w'
          ∧ literal_outcome w (wire_format t)
              (literal_node s lang dt (wire_format t))
              (datatype_taken (world_uris w) dt) p w'
          ∧ (alloc_fail ∉ world_allocs w → p ≠ NULL ∧ nodes_mutex w' = false).
Proof. apply new_literal_fits_run. Qed.

(** C7: when the language is longer than 255 bytes or the datatype URI
    longer than 65535, [librdf_new_node_from_typed_counted_literal] leaves
    through [return NULL] without reaching [unlock]: the world is as
    before except that, in a build with threads, the mutex of the nodes is
    still taken, and the next constructor that locks it never returns. *)
Theorem literal_overflow_keeps_lock ext w s rest xml_language
    xml_language_len lang dt dts err id len :
  world_wf ext w → world_room w → nodes_mutex w = false →
  0 ∉ s → blen s < SIZE_MAX →
  language_arg xml_language xml_language_len lang →
  datatype_arg ext w dt dts → lang = None ∨ dts = None →
  term_overflow (term_literal s dts lang) = Some err →
  alloc_fail ∉ world_allocs w →
  ∃ w', librdf_new_node_from_typed_counted_literal (Some (s ++ rest))
          (blen s) xml_language xml_language_len dt w = Val (NULL, w')
        ∧ w' ≡ w ∧ nodes_mutex w' = WITH_THREADS
        ∧ (WITH_THREADS = true →
           librdf_new_node_from_counted_blank_identifier id len w'
           = Stuck Deadlock).
Proof.
  intros Hwf Hroom Hm Hs Hlen Hlang Hdt Hnot Hov Hno.
  destruct (new_literal_run ext w s rest _ _ _ _ _ Hwf Hroom Hm Hs Hlen Hlang
              Hdt Hnot) as (p & w' & Erun & Hcase).
  destruct Hcase as [(-> & E & ? & Hin)|(e & w2 & Hk & He)].
  - done.
  - unfold key_literal_outcome in Hk. rewrite Hov in Hk.
    destruct Hk as [-> E]. destruct He as (-> & -> & Hm').
    exists w2. split_and!; [done..|].
    intros Ht. unfold librdf_new_node_from_counted_blank_identifier.
    rewrite <- E in Hwf.
    run (librdf_world_open_run w2 (wf_opened _ _ Hwf)).
    rewrite (st_bind_stuck _ _ _ Deadlock); [done|].
    apply pthread_mutex_lock_deadlock; [done|]. by rewrite Hm', Ht.
Qed.

End literal.

(** ** The theorems at work on a new world *)

Section literal_examples.
#[local] Existing Instance default_build.
#[local] Existing Instance identity_normalise.

Lemma opened_world_ready :
  world_wf (λ _, 0) example_world ∧ world_room example_world ∧ nodes_mutex example_world = false
  ∧ alloc_fail ∉ world_allocs example_world.
Proof.
  split_and!; [|by apply opened_world_room|done|by intros ?%elem_of_nil].
  apply opened_world_wf; [done|apply uri_table_empty_wf].
Qed.

Lemma new_literal_spec_witness :
  ∃ p w', librdf_new_node_from_typed_counted_literal
            (Some (ascii "Dave" ++ [0])) 4 (Some (ascii "en" ++ 0 :: [])) 2
            NULL example_world = Val (p, w')
          ∧ world_wf (λ _, 0) w'
          ∧ literal_outcome example_world
              (wire_format (term_literal (ascii "Dave") None (Some (ascii "en"))))
              (literal_node (ascii "Dave") (Some (ascii "en")) NULL
                 (wire_format
                    (term_literal (ascii "Dave") None (Some (ascii "en")))))
              (datatype_taken (world_uris example_world) NULL) p w'
          ∧ (alloc_fail ∉ world_allocs example_world → p ≠ NULL ∧ nodes_mutex w' = false).
Proof.
  destruct opened_world_ready as (Hwf & Hroom & Hm & _).
  apply (new_literal_spec (λ _, 0) example_world (ascii "Dave") [0]
           (Some (ascii "en" ++ 0 :: [])) 2 (Some (ascii "en")) NULL None);
    try done.
  - compute_done.
  - exists []. split_and!; try done. compute_done.
  - by right.
Defined.

Lemma literal_overflow_keeps_lock_witness :
  ∃ w', librdf_new_node_from_typed_counted_literal
          (Some (ascii "Dave" ++ [0])) 4 (Some (replicate 256 97 ++ 0 :: []))
          256 NULL example_world = Val (NULL, w')
        ∧ w' ≡ example_world ∧ nodes_mutex w' = WITH_THREADS
        ∧ (WITH_THREADS = true →
           librdf_new_node_from_counted_blank_identifier None 0 w'
           = Stuck Deadlock).
Proof.
  destruct opened_world_ready as (Hwf & Hroom & Hm & Hno).
  apply (literal_overflow_keeps_lock (λ _, 0) example_world (ascii "Dave") [0]
           (Some (replicate 256 97 ++ 0 :: [])) 256 (Some (replicate 256 97))
           NULL None (language_too_long 256)); try done.
  - compute_done.
  - exists []. split_and!; try done. compute_done.
  - by right.
Defined.

End literal_examples.
