(* ===== verification/Release.v ===== *)
(** * Copy and release

    [librdf_new_node_from_node] adds a use to a node and
    [librdf_free_node] takes one away; the last use takes the node out of
    the heap and out of its intern table and gives back the reference the
    node holds to a URI (src/rdf_node.c).

    [world_drop] and [world_release] are the two effects of a release;
    the theorems give the world after the call up to [≡], show that the
    invariant is kept, and that a release undoes a copy or a
    construction. *)

From S2P Require Import Prelude CString Hash Uri Node Encode World Intern.
From S2P Require Import Invariant Lifecycle Open Blank Resource Literal.

#[local] Open Scope Z_scope.

Definition node_uri (n : librdf_node) : ptr :=
  match node_value_of n with
  | value_resource uri => uri
  | value_literal l => literal_datatype_uri l
  | _ => NULL
  end.

Definition node_ok (n : librdf_node) : Prop :=
  match node_value_of n with
  | value_resource uri => uri ≠ NULL
  | _ => True
  end.

Definition uris_released (ut : uri_table) (uri : ptr) : uri_table :=
  if is_null uri then ut
  else match uri_release ut uri with
       | Val ut' => ut'
       | Stuck _ => ut
       end.

(** The world after [librdf_new_node_from_blank_identifier("genid42")] on
    the world of the examples, and the node it has made. *)
Definition one_blank_world
  : librdf_world (gmap librdf_hash_datum librdf_hash_datum) :=
  match librdf_new_node_from_counted_blank_identifier (H0:=default_build)
          (Some (ascii "genid42" ++ [0])) 7 example_world with
  | Val (_, w) => w
  | Stuck _ => example_world
  end.

Definition one_blank_node : librdf_node :=
  blank_node (ascii "genid42" ++ [0]) 7.

Section release.
Context {T : Type} `{HashTable T} `{BuildConfig} `{UriNormalise}.
Implicit Types (w : librdf_world T) (p q : ptr) (n : librdf_node).
Implicit Types (ext : ptr → Z) (ut : uri_table).

Definition world_drop p w : librdf_world T :=
  match world_nodes w !! p with
  | Some n =>
      set_nodes (<[p := with_usage n (node_usage n - 1)]> (world_nodes w)) w
  | None => w
  end.

Definition world_release p w : librdf_world T :=
  match world_nodes w !! p with
  | Some n => set_uris (uris_released (world_uris w) (node_uri n))
                (world_remove p w)
  | None => w
  end.

Lemma node_usage_decr_run w p n :
  world_nodes w !! p = Some n → 1 ≤ node_usage n →
  node_usage_decr p w
  = Val (node_usage n - 1,
         set_nodes (<[p := with_usage n (node_usage n - 1)]> (world_nodes w)) w).
Proof.
  intros Hp Hu. unfold node_usage_decr. run (node_load_run w p n Hp).
  rewrite decide_False by (unfold INT_MIN; lia).
  by run (node_store_run w p n (with_usage n (node_usage n - 1)) Hp).
Qed.

Lemma node_uri_release ext w p n :
  world_wf ext w → world_nodes w !! p = Some n → node_uri n ≠ NULL →
  ∃ ut, uri_release (world_uris w) (node_uri n) = Val ut.
Proof.
  intros Hwf Hp Hn.
  destruct (wf_refs _ _ Hwf (node_uri n) Hn) as (u & Hu & Hle).
  { rewrite (holders_delete _ _ _ (node_uri n) Hp).
    pose proof (holders_nonneg (delete p (world_nodes w)) (node_uri n)).
    pose proof (wf_ext _ _ Hwf (node_uri n)).
    unfold node_refs, node_uri in *. rewrite decide_False by done.
    destruct (node_value_of n); try done; rewrite decide_True by done; lia. }
  unfold uri_release. rewrite Hu. simpl.
  pose proof (uri_wf_usage _ (wf_uris _ _ Hwf) _ _ Hu).
  case_decide; by eexists.
Qed.

Lemma free_node_value_run ext w w1 p n i k h :
  world_wf ext w → world_nodes w !! p = Some n → node_ok n →
  node_key n = Some (i, k) → nodes_hash w1 i = slot_live h →
  world_uris w1 = world_uris w →
  free_node_value (node_value_of n) w1
  = Val (tt, set_uris (uris_released (world_uris w) (node_uri n))
               (set_hash i (slot_live (hash_delete_all h k)) w1)).
Proof.
  intros Hwf Hp Hok Hk Hh Hu. unfold free_node_value, node_key, node_uri, node_ok in *.
  destruct (node_value_of n) as [|uri|l|b] eqn:Hv; [done| | |].
  - injection Hk as <- <-.
    run (librdf_hash_delete_all_run w1 H_RESOURCE h (datum_ptr uri) Hh).
    destruct (node_uri_release ext w p n Hwf Hp) as [ut Hr];
      [by unfold node_uri; rewrite Hv|].
    unfold node_uri in Hr. rewrite Hv in Hr.
    unfold uris_released, is_null. rewrite bool_decide_eq_false_2 by done.
    rewrite Hr. apply librdf_free_uri_run. simpl. by rewrite Hu.
  - destruct (literal_key l) as [key|] eqn:Hkey; [|done]. injection Hk as <- <-.
    erewrite st_bind_val; last by apply librdf_hash_delete_all_run.
    apply free_datatype_uri_run. unfold dt_released, uris_released, is_null. simpl.
    destruct (decide (literal_datatype_uri l = NULL)) as [E|E].
    + rewrite bool_decide_eq_true_2 by done. left. by rewrite Hu.
    + rewrite bool_decide_eq_false_2 by done. right. split; [done|].
      destruct (node_uri_release ext w p n Hwf Hp) as [ut Hr];
        [by unfold node_uri; rewrite Hv|].
      unfold node_uri in Hr. rewrite Hv in Hr. by rewrite Hu, Hr.
  - destruct (blank_identifier b) as [id|] eqn:Hid; [|done]. injection Hk as <- <-.
    unfold uris_released, is_null. rewrite bool_decide_eq_true_2 by done.
    erewrite librdf_hash_delete_all_run by done.
    rewrite <- Hu. by rewrite (set_uris_same (set_hash _ _ w1)).
Qed.

Lemma lock_world_nodes w : world_nodes (lock_world w) = world_nodes w.
Proof. unfold lock_world. by destruct WITH_THREADS. Qed.

Lemma lock_world_uris w : world_uris (lock_world w) = world_uris w.
Proof. unfold lock_world. by destruct WITH_THREADS. Qed.

Lemma lock_world_hash w i : nodes_hash (lock_world w) i = nodes_hash w i.
Proof. unfold lock_world. destruct WITH_THREADS; [|done]. by rewrite nodes_hash_set_mutex. Qed.

Lemma unlock_world_run w :
  nodes_mutex w = WITH_THREADS →
  pthread_mutex_unlock w = Val (tt, unlock_world w).
Proof. apply pthread_mutex_unlock_run. Qed.

Lemma lock_world_run w :
  nodes_mutex w = false → pthread_mutex_lock w = Val (tt, lock_world w).
Proof. apply pthread_mutex_lock_run. Qed.

Lemma free_node_drop_run ext w p n :
  world_wf ext w → nodes_mutex w = false →
  world_nodes w !! p = Some n → node_usage n ≠ 1 →
  ∃ w', librdf_free_node p w = Val (tt, w') ∧ nodes_mutex w' = false
        ∧ w' ≡ world_drop p w.
Proof.
  intros Hwf Hm Hp Hu. pose proof (wf_usage _ _ Hwf _ _ Hp) as Hus.
  assert (p ≠ NULL) as Hnn by (intros ->; rewrite (wf_null _ _ Hwf) in Hp; done).
  unfold librdf_free_node, is_null. rewrite bool_decide_eq_false_2 by done.
  run (lock_world_run w Hm).
  assert (world_nodes (lock_world w) !! p = Some n) as Hpl
    by (by rewrite lock_world_nodes).
  run (node_usage_decr_run (lock_world w) p n Hpl ltac:(lia)).
  rewrite decide_True by lia. rewrite lock_world_nodes.
  set (ws := set_nodes _ (lock_world w)).
  assert (nodes_mutex ws = WITH_THREADS) as Hms by (by apply lock_world_mutex).
  rewrite (unlock_world_run ws Hms).
  eexists. split_and!; [done|by apply unlock_world_mutex|].
  rewrite unlock_world_equiv. subst ws. unfold world_drop. rewrite Hp.
  by rewrite lock_world_equiv.
Qed.

Lemma free_node_last_run ext w p n :
  world_wf ext w → nodes_mutex w = false →
  world_nodes w !! p = Some n → node_ok n → node_usage n = 1 →
  ∃ w', librdf_free_node p w = Val (tt, w') ∧ nodes_mutex w' = false
        ∧ w' ≡ world_release p w.
Proof.
  intros Hwf Hm Hp Hok Hu.
  assert (p ≠ NULL) as Hnn by (intros ->; rewrite (wf_null _ _ Hwf) in Hp; done).
  destruct (wf_heap_index _ _ Hwf _ _ Hp) as (i & k & h & Hk & Hh & Hg).
  unfold librdf_free_node, is_null. rewrite bool_decide_eq_false_2 by done.
  run (lock_world_run w Hm).
  assert (world_nodes (lock_world w) !! p = Some n) as Hpl
    by (by rewrite lock_world_nodes).
  run (node_usage_decr_run (lock_world w) p n Hpl ltac:(lia)).
  rewrite decide_False by lia. rewrite lock_world_nodes.
  set (n0 := with_usage n (node_usage n - 1)).
  set (ws := set_nodes _ (lock_world w)).
  assert (world_nodes ws !! p = Some n0) as Hps by apply lookup_insert_eq.
  run (node_load_run ws p n0 Hps).
  assert (nodes_hash ws i = slot_live h) as Hhs
    by (subst ws; by rewrite nodes_hash_set_nodes, lock_world_hash).
  assert (world_uris ws = world_uris w) as Hus by apply lock_world_uris.
  run (free_node_value_run ext w ws p n i k h Hwf Hp Hok Hk Hhs Hus).
  set (wv := set_uris _ _).
  assert (nodes_mutex wv = WITH_THREADS) as Hmv by (by apply lock_world_mutex).
  run (unlock_world_run wv Hmv).
  eexists. split_and!; [done|by apply unlock_world_mutex|].
  unfold world_release, world_remove. rewrite Hp. simpl. rewrite Hk, Hh.
  pose proof (unlock_world_equiv wv) as [Eu En Et Eo Ex].
  split; simpl.
  - by rewrite Eu.
  - rewrite En. subst wv ws. simpl. by rewrite delete_insert_eq.
  - intros j. rewrite nodes_hash_set_nodes, nodes_hash_set_uris.
    etrans; [apply Et|]. subst wv ws.
    rewrite nodes_hash_set_uris, !nodes_hash_set_hash.
    case_decide; [done|].
    rewrite !nodes_hash_set_nodes, lock_world_hash.
    by destruct (nodes_hash w j).
  - rewrite Eo. subst wv ws. simpl. unfold lock_world. by destruct WITH_THREADS.
  - rewrite Ex. subst wv ws. simpl. unfold lock_world. by destruct WITH_THREADS.
Qed.

Lemma world_drop_wf ext w p n :
  world_wf ext w → world_nodes w !! p = Some n → node_usage n ≠ 1 →
  world_wf ext (world_drop p w).
Proof.
  intros Hwf Hp Hu. pose proof (wf_usage _ _ Hwf _ _ Hp).
  unfold world_drop. rewrite Hp. apply wf_bump; [done..|lia].
Qed.

Lemma node_refs_uri n q :
  node_ok n →
  node_refs n q = if decide (q = node_uri n ∧ q ≠ NULL) then 1 else 0.
Proof.
  unfold node_ok, node_refs, node_uri.
  destruct (node_value_of n); intros Hok; repeat case_decide;
    try done; try lia; naive_solver.
Qed.

Lemma world_release_wf ext w p n :
  world_wf ext w → world_nodes w !! p = Some n → node_ok n →
  world_wf ext (world_release p w).
Proof.
  intros Hwf Hp Hok.
  destruct (wf_heap_index _ _ Hwf _ _ Hp) as (i & k & h & Hk & Hh & Hg).
  pose proof (wf_remove ext w p n i h k Hwf Hp Hk Hh) as Hrm.
  unfold world_release, world_remove. rewrite Hp. simpl. rewrite Hk, Hh.
  unfold uris_released, is_null.
  destruct (decide (node_uri n = NULL)) as [E|E].
  - rewrite bool_decide_eq_true_2 by done.
    change (world_uris w) with
      (world_uris (set_hash i (slot_live (hash_delete_all h k))
                     (set_nodes (delete p (world_nodes w)) w))).
    rewrite set_uris_same. eapply wf_ext_proper; [|exact Hrm].
    intros q. simpl. rewrite (node_refs_uri n q Hok).
    rewrite decide_False; [lia|]. intros [-> ?]. done.
  - rewrite bool_decide_eq_false_2 by done.
    destruct (node_uri_release ext w p n Hwf Hp E) as [ut Hr]. rewrite Hr.
    eapply wf_ext_proper; [|apply (wf_uri_release _ _ (node_uri n) ut Hrm)].
    + intros q. unfold ext_add. rewrite (node_refs_uri n q Hok).
      repeat case_decide; try lia; naive_solver.
    + done.
    + rewrite (node_refs_uri n _ Hok). rewrite decide_True by done.
      pose proof (wf_ext _ _ Hwf (node_uri n)). lia.
Qed.

(** C4: [librdf_free_node] on a live node of a well-formed world
    returns with the mutex free and the invariant kept.  A node with other
    uses loses one ([world_drop]); the last use removes the node from the
    heap and from the table of its kind and gives back the reference to
    its URI or datatype ([world_release]). *)
Theorem free_node_spec ext w p n :
  world_wf ext w → nodes_mutex w = false →
  world_nodes w !! p = Some n → node_ok n →
  ∃ w', librdf_free_node p w = Val (tt, w')
        ∧ world_wf ext w' ∧ nodes_mutex w' = false
        ∧ w' ≡ (if decide (node_usage n = 1) then world_release p w
                else world_drop p w).
Proof.
  intros Hwf Hm Hp Hok. case_decide as Hu.
  - destruct (free_node_last_run ext w p n Hwf Hm Hp Hok Hu) as (w' & ? & ? & E).
    exists w'. split_and!; [done| |done|done].
    rewrite E. by apply (world_release_wf ext w p n).
  - destruct (free_node_drop_run ext w p n Hwf Hm Hp Hu) as (w' & ? & ? & E).
    exists w'. split_and!; [done| |done|done].
    rewrite E. by apply (world_drop_wf ext w p n).
Qed.

Lemma new_node_from_node_run w p n :
  p ≠ NULL → world_nodes w !! p = Some n → node_usage n < INT_MAX →
  librdf_new_node_from_node p w = Val (p, world_bump p w).
Proof.
  intros Hnn Hp Hu. unfold librdf_new_node_from_node.
  unfold ASSERT_OBJECT_POINTER_RETURN_VALUE, as_pointer, is_null.
  rewrite bool_decide_eq_false_2 by done. rewrite assert_pointer_some.
  run (node_usage_incr_run w p n Hp Hu). unfold world_bump. by rewrite Hp.
Qed.

Lemma world_drop_bump w p n :
  world_nodes w !! p = Some n → world_drop p (world_bump p w) = w.
Proof.
  intros Hp. unfold world_bump. rewrite Hp. unfold world_drop. simpl.
  rewrite lookup_insert_eq. simpl. rewrite insert_insert_eq.
  replace (with_usage _ _) with n.
  - rewrite insert_id by done. by destruct w.
  - destruct n. unfold with_usage. simpl. f_equal. lia.
Qed.

(** C11: [librdf_new_node_from_node] returns its argument with one
    more use, keeps the invariant and does not touch the mutex (the
    increment is made without the lock); [librdf_free_node] on the copy
    gives the world of before. *)
Theorem new_node_from_node_spec ext w p n :
  world_wf ext w → world_nodes w !! p = Some n → node_usage n < INT_MAX →
  node_ok n →
  librdf_new_node_from_node p w = Val (p, world_bump p w)
  ∧ world_wf ext (world_bump p w)
  ∧ nodes_mutex (world_bump p w) = nodes_mutex w
  ∧ (nodes_mutex w = false →
     ∃ w', librdf_free_node p (world_bump p w) = Val (tt, w') ∧ w' ≡ w).
Proof.
  intros Hwf Hp Hu Hok. pose proof (wf_usage _ _ Hwf _ _ Hp) as Hus.
  assert (p ≠ NULL) as Hnn by (intros ->; rewrite (wf_null _ _ Hwf) in Hp; done).
  assert (world_wf ext (world_bump p w)) as Hwf'.
  { unfold world_bump. rewrite Hp. apply wf_bump; [done..|lia]. }
  split_and!; [by apply (new_node_from_node_run w p n)|done| |].
  - unfold world_bump. by rewrite Hp.
  - intros Hm.
    assert (world_nodes (world_bump p w) !! p
            = Some (with_usage n (node_usage n + 1))) as Hp'.
    { unfold world_bump. rewrite Hp. apply lookup_insert_eq. }
    destruct (free_node_drop_run ext (world_bump p w) p
                (with_usage n (node_usage n + 1)) Hwf') as (w' & ? & ? & E);
      [by unfold world_bump; rewrite Hp|exact Hp'|simpl; lia|].
    exists w'. split; [done|]. by rewrite E, (world_drop_bump w p n).
Qed.

Lemma world_drop_equiv w1 w2 p : w1 ≡ w2 → world_drop p w1 ≡ world_drop p w2.
Proof.
  intros E. unfold world_drop. rewrite (eqv_nodes _ _ E).
  destruct (world_nodes w2 !! p); [by rewrite E|done].
Qed.

Lemma world_release_equiv ext w1 w2 p :
  world_wf ext w2 → w1 ≡ w2 → world_release p w1 ≡ world_release p w2.
Proof.
  intros Hwf E. unfold world_release, world_remove.
  rewrite (eqv_nodes _ _ E), (eqv_uris _ _ E).
  destruct (world_nodes w2 !! p) as [n|] eqn:Hp; [|done]. simpl.
  destruct (node_key n) as [[i k]|] eqn:Hk; [|by rewrite E].
  pose proof (eqv_tables _ _ E i) as Ei.
  destruct (wf_tables _ _ Hwf i) as [h2 Hh2]. rewrite Hh2 in Ei |- *.
  destruct (nodes_hash w1 i) as [|h1|] eqn:Hh1; try done. simpl in Ei.
  split; simpl; [done|done| |apply E|apply E].
  intros j. rewrite !nodes_hash_set_uris, !nodes_hash_set_hash.
  case_decide; [simpl; by rewrite Ei|].
  rewrite !nodes_hash_set_nodes. apply E.
Qed.

Lemma world_release_add w p n i k h :
  world_nodes w !! p = None → nodes_hash w i = slot_live h →
  hash_get_one h k = None → node_key n = Some (i, k) → node_uri n = NULL →
  world_release p (world_add p n i k w) ≡ w.
Proof.
  intros Hp Hh Hg Hk Hu. unfold world_add. rewrite Hh.
  unfold world_release, world_remove. simpl. rewrite lookup_insert_eq. simpl.
  rewrite Hk, nodes_hash_set_hash, decide_True by done.
  rewrite Hu. unfold uris_released, is_null. rewrite bool_decide_eq_true_2 by done.
  split; simpl; try done.
  - by rewrite delete_insert_eq, delete_id.
  - intros j. rewrite nodes_hash_set_uris, !nodes_hash_set_hash.
    case_decide as Hj.
    + subst j. rewrite Hh. simpl. by apply hash_delete_put.
    + rewrite !nodes_hash_set_nodes, nodes_hash_set_hash, decide_False by done.
      rewrite nodes_hash_set_nodes. by destruct (nodes_hash w j).
Qed.

Lemma intern_outcome_free ext w i k n p w' :
  world_wf ext w → nodes_room w → intern_outcome w i k n p w' →
  world_wf ext w' → nodes_mutex w' = false → p ≠ NULL →
  node_key n = Some (i, k) → node_usage n = 1 → node_uri n = NULL →
  node_ok n →
  ∃ w'', librdf_free_node p w' = Val (tt, w'') ∧ w'' ≡ w
         ∧ nodes_mutex w'' = false.
Proof.
  intros Hwf Hroom [[-> _]|Hcase] Hwf' Hm Hnn Hk Hu Hnu Hok; [done|].
  destruct (interned w i k) as [q|] eqn:Hi.
  - destruct Hcase as [-> E].
    apply (wf_interned _ _ _ _ _ Hwf) in Hi as (n0 & Hq & _).
    pose proof (wf_usage _ _ Hwf _ _ Hq).
    assert (world_nodes w' !! q = Some (with_usage n0 (node_usage n0 + 1))) as Hq'.
    { rewrite (eqv_nodes _ _ E). unfold world_bump. rewrite Hq. apply lookup_insert_eq. }
    destruct (free_node_drop_run ext w' q _ Hwf' Hm Hq') as (w'' & ? & ? & E'');
      [simpl; lia|].
    exists w''. split_and!; [done| |done].
    by rewrite E'', (world_drop_equiv _ _ _ E), (world_drop_bump w q n0).
  - destruct Hcase as [-> E]. set (p := fresh_ptr (world_nodes w)) in *.
    destruct (wf_tables _ _ Hwf i) as [h Hh].
    assert (world_nodes w' !! p = Some n) as Hp'.
    { rewrite (eqv_nodes _ _ E). unfold world_add. rewrite Hh. apply lookup_insert_eq. }
    destruct (free_node_last_run ext w' p n Hwf' Hm Hp' Hok Hu) as (w'' & ? & ? & E'').
    exists w''. split_and!; [done| |done].
    assert (world_wf ext (world_add p n i k w)) as Hwfa by (by rewrite <- E).
    rewrite E'', (world_release_equiv ext _ _ _ Hwfa E).
    apply (world_release_add w p n i k h); [apply fresh_ptr_fresh|done| |done|done].
    destruct (hash_get_one h k) as [v|] eqn:Hg; [|done].
    destruct (wf_index_heap _ _ Hwf _ _ _ _ Hh Hg) as (? & ? & -> & _).
    by apply (interned_None _ _ _ _ Hh) in Hg.
Qed.

(** C10: a blank node made by
    [librdf_new_node_from_counted_blank_identifier] and freed at once by
    [librdf_free_node] leaves the world as it was, whether the constructor
    made a node or found the interned one. *)
Theorem blank_new_then_free ext w id len :
  world_wf ext w → world_room w → nodes_mutex w = false →
  0 ≤ len < SIZE_MAX → len + 1 ≤ blen id →
  alloc_fail ∉ world_allocs w →
  ∃ p w' w'', librdf_new_node_from_counted_blank_identifier (Some id) len w
              = Val (p, w')
              ∧ p ≠ NULL
              ∧ librdf_free_node p w' = Val (tt, w'')
              ∧ w'' ≡ w ∧ nodes_mutex w'' = false.
Proof.
  intros Hwf Hroom Hm Hlen Hid Hno.
  destruct (new_blank_node_run ext w id len Hwf Hroom Hm Hlen Hid)
    as (p & w' & Erun & Hm' & Hwf' & Hout & Hok).
  destruct (intern_outcome_free ext w _ _ _ p w' Hwf (proj1 Hroom) Hout Hwf' Hm')
    as (w'' & Ef & E & Hm''); [by apply Hok| |done..|].
  { unfold node_key. simpl. rewrite take_take. do 4 f_equal. lia. }
  exists p, w', w''. split_and!; [done|by apply Hok|done..].
Qed.

End release.

(** ** The theorems at work on a world with one node *)

Section release_examples.
#[local] Existing Instance default_build.
#[local] Existing Instance identity_normalise.

Lemma one_blank_world_wf : world_wf (λ _, 0) one_blank_world.
Proof.
  unfold one_blank_world.
  destruct (new_blank_node_run (λ _, 0) example_world
              (ascii "genid42" ++ [0]) 7)
    as (p & w' & -> & _ & Hwf & _);
    [apply opened_world_wf; [done|apply uri_table_empty_wf]
    |by apply opened_world_room|done..].
Qed.

Lemma one_blank_world_node :
  world_nodes one_blank_world !! 1%N = Some one_blank_node.
Proof. vm_compute. reflexivity. Qed.

Lemma free_node_spec_witness :
  ∃ w', librdf_free_node 1%N one_blank_world = Val (tt, w')
        ∧ world_wf (λ _, 0) w' ∧ nodes_mutex w' = false
        ∧ w' ≡ (if decide (node_usage one_blank_node = 1)
                then world_release 1%N one_blank_world
                else world_drop 1%N one_blank_world).
Proof.
  apply (free_node_spec (λ _, 0) one_blank_world 1%N one_blank_node);
    [apply one_blank_world_wf|vm_compute; reflexivity
    |apply one_blank_world_node|done].
Defined.

Lemma new_node_from_node_spec_witness :
  librdf_new_node_from_node 1%N one_blank_world
  = Val (1%N, world_bump 1%N one_blank_world)
  ∧ world_wf (λ _, 0) (world_bump 1%N one_blank_world)
  ∧ nodes_mutex (world_bump 1%N one_blank_world) = nodes_mutex one_blank_world
  ∧ (nodes_mutex one_blank_world = false →
     ∃ w', librdf_free_node 1%N (world_bump 1%N one_blank_world) = Val (tt, w')
           ∧ w' ≡ one_blank_world).
Proof.
  apply (new_node_from_node_spec (λ _, 0) one_blank_world 1%N one_blank_node);
    [apply one_blank_world_wf|apply one_blank_world_node
    |vm_compute; reflexivity|done].
Defined.

Lemma blank_new_then_free_witness :
  ∃ p w' w'', librdf_new_node_from_counted_blank_identifier
                (Some (ascii "genid42" ++ [0])) 7 example_world = Val (p, w')
              ∧ p ≠ NULL
              ∧ librdf_free_node p w' = Val (tt, w'')
              ∧ w'' ≡ example_world ∧ nodes_mutex w'' = false.
Proof.
  apply (blank_new_then_free (λ _, 0) example_world (ascii "genid42" ++ [0]) 7);
    [apply opened_world_wf; [done|apply uri_table_empty_wf]
    |by apply opened_world_room|done|done|done|by intros ?%elem_of_nil].
Defined.

End release_examples.
