(* ===== verification/Interning.v ===== *)
(** * Interning: equal content, same node

    The three constructors of src/rdf_node.c look the content up before
    they make a node.  This file shows what that gives the caller: when a
    live node has the content asked for, the constructor returns that node
    with one more use and makes nothing new.

    - [node_canonical]: the key stored in a literal node is the wire format
      of its content (the constructor computes it with
      [librdf_node_encode]);
    - [construct]: the constructor call that asks for a term;
    - [construct_again_same_node]: the interning theorem, for resources,
      blank nodes and literals;
    - [resource_again], [blank_again], [literal_again]: the same per kind,
      shared with the round trip of [Roundtrip]. *)

From S2P Require Import Prelude CString Hash Uri Node Encode World Intern.
From S2P Require Import Invariant Lifecycle Open Blank Resource Literal Release.

#[local] Open Scope Z_scope.

(** An optional field that is not the empty string. *)
Definition opt_normal (o : option (list Z)) : Prop := o ≠ Some [].

(** The key of a literal value is the wire format of [t]. *)
Definition literal_canonical (l : literal_value) (t : term) : Prop :=
  ∃ key, literal_key l = Some key
         ∧ take (Z.to_nat (literal_size l)) key = wire_format t.

(** The key stored in a literal node is the wire format of its term. *)
Definition node_canonical (n : librdf_node) (t : term) : Prop :=
  match node_value_of n with
  | value_literal l => literal_canonical l t
  | _ => True
  end.

(** Room for two more uses of every node and URI. *)
Definition decode_room {T} (w : librdf_world T) : Prop :=
  nodes_room w
  ∧ (∀ p u, uris (world_uris w) !! p = Some u → uri_usage u < INT_MAX - 1).

Definition one_literal_term : term :=
  term_literal (ascii "Dave") None (Some (ascii "en")).

Definition one_literal_node : librdf_node :=
  literal_node (ascii "Dave") (Some (ascii "en")) NULL
    (wire_format one_literal_term).

Definition one_literal_world
  : librdf_world (gmap librdf_hash_datum librdf_hash_datum) :=
  match librdf_new_node_from_typed_counted_literal (H0:=default_build)
          (Some (ascii "Dave" ++ [0])) 4 (Some (ascii "en" ++ [0])) 2 NULL
          example_world with
  | Val (_, w) => w
  | Stuck _ => example_world
  end.

Section interning.
Context {T : Type} `{HashTable T} `{BuildConfig} `{UriNormalise}.
Implicit Types (w : librdf_world T) (p q : ptr) (n : librdf_node).
Implicit Types (ext : ptr → Z) (ut : uri_table).

(** The constructor call that asks for the term [t]: the string followed
    by arbitrary bytes [rest], and for a literal the datatype URI object
    [dt] of the caller. *)
Definition construct (t : term) (rest : list Z) (dt : ptr)
  : st (librdf_world T) ptr :=
  match t with
  | term_resource s => librdf_new_node_from_uri_string (Some (s ++ 0 :: rest))
  | term_blank id =>
      librdf_new_node_from_blank_identifier (Some (id ++ 0 :: rest))
  | term_literal s dts lang =>
      librdf_new_node_from_typed_counted_literal (Some (s ++ rest)) (blen s)
        ((λ g, g ++ [0]) <$> lang) (opt_len lang) dt
  end.

(** What the caller of [construct] owes: the fields fit, a literal has a
    language or a datatype, not both and none of them empty, and the
    caller holds a reference to the datatype URI it passes. *)
Definition construct_args ext w (t : term) (dt : ptr) : Prop :=
  term_overflow t = None
  ∧ match t with
    | term_literal s dts lang =>
        opt_normal lang ∧ (lang = None ∨ dts = None) ∧ blen s < SIZE_MAX
        ∧ datatype_arg ext w dt dts
    | _ => True
    end.

Lemma decode_room_room w : decode_room w → world_room w.
Proof. intros [? Hu]. split; [done|]. intros p u Hp. specialize (Hu p u Hp). lia. Qed.

Lemma intern_outcome_hit w i k n p q w' :
  intern_outcome w i k n q w' → interned w i k = Some p → q ≠ NULL →
  q = p ∧ w' ≡ world_bump p w.
Proof.
  intros [[-> _]|Hout] Hi Hq; [done|]. by rewrite Hi in Hout.
Qed.

Lemma new_node_from_blank_identifier_run w id rest :
  world_opened w = true → 0 ∉ id →
  librdf_new_node_from_blank_identifier (Some (id ++ 0 :: rest)) w
  = librdf_new_node_from_counted_blank_identifier (Some (id ++ 0 :: rest))
      (blen id) w.
Proof.
  intros Ho Hid. unfold librdf_new_node_from_blank_identifier.
  run (librdf_world_open_run w Ho). by run_lift (strlen_cstr id rest Hid).
Qed.

Lemma blank_key usage b id :
  cstring_block (blank_identifier b) (blank_identifier_len b) id →
  node_key {| node_usage := usage; node_value_of := value_blank b |}
  = Some (H_BLANK, datum_bytes id).
Proof.
  intros (Hb & _ & Hl). unfold node_key. simpl. rewrite Hb, Hl. simpl.
  unfold blen. by rewrite Nat2Z.id, take_app_length.
Qed.

Lemma blank_again ext w p usage b id rest :
  world_wf ext w → world_room w → nodes_mutex w = false →
  alloc_fail ∉ world_allocs w →
  world_nodes w !! p
  = Some {| node_usage := usage; node_value_of := value_blank b |} →
  cstring_block (blank_identifier b) (blank_identifier_len b) id →
  blen id < SIZE_MAX →
  ∃ w', librdf_new_node_from_blank_identifier (Some (id ++ 0 :: rest)) w
        = Val (p, w')
        ∧ w' ≡ world_bump p w ∧ world_wf ext w' ∧ nodes_mutex w' = false.
Proof.
  intros Hwf Hroom Hm Hno Hp Hb Hlen. pose proof Hb as (_ & Hid & _).
  rewrite (new_node_from_blank_identifier_run w id rest (wf_opened _ _ Hwf) Hid).
  pose proof (blen_nonneg id).
  destruct (new_blank_node_run ext w (id ++ 0 :: rest) (blen id) Hwf Hroom Hm)
    as (q & w' & Erun & Hm' & Hwf' & Hout & Hok); [lia| |].
  { rewrite blen_app, blen_cons. pose proof (blen_nonneg rest). lia. }
  assert (take (Z.to_nat (blen id)) (id ++ 0 :: rest) = id) as Et
    by (unfold blen; by rewrite Nat2Z.id, take_app_length).
  rewrite Et in Hout.
  assert (interned w H_BLANK (datum_bytes id) = Some p) as Hi.
  { apply (wf_interned ext); [done|]. eexists. split; [done|]. by apply blank_key. }
  destruct (intern_outcome_hit _ _ _ _ _ _ _ Hout Hi (Hok Hno)) as [-> E].
  by exists w'.
Qed.

Lemma new_node_from_uri_string_run w s rest :
  world_opened w = true → 0 ∉ s →
  librdf_new_node_from_uri_string (Some (s ++ 0 :: rest)) w
  = librdf_new_node_from_uri_string_or_uri (Some (s ++ 0 :: rest)) (blen s)
      NULL w.
Proof.
  intros Ho Hs. unfold librdf_new_node_from_uri_string.
  run (librdf_world_open_run w Ho).
  unfold ASSERT_OBJECT_POINTER_RETURN_VALUE. rewrite assert_pointer_some.
  simpl. rewrite (st_bind_val _ _ _ _ _ (st_lift_val _ _ w eq_refl)).
  by run_lift (strlen_cstr s rest Hs).
Qed.

Lemma resource_again ext w p usage uri u rest :
  world_wf ext w → world_room w → nodes_mutex w = false →
  alloc_fail ∉ world_allocs w →
  world_nodes w !! p
  = Some {| node_usage := usage; node_value_of := value_resource uri |} →
  uris (world_uris w) !! uri = Some u →
  ∃ w', librdf_new_node_from_uri_string (Some (uri_string u ++ 0 :: rest)) w
        = Val (p, w')
        ∧ w' ≡ world_bump p w ∧ world_wf ext w' ∧ nodes_mutex w' = false.
Proof.
  intros Hwf Hroom Hm Hno Hp Hu.
  pose proof (uri_wf_string _ (wf_uris _ _ Hwf) _ _ Hu) as Hs.
  rewrite (new_node_from_uri_string_run w _ rest (wf_opened _ _ Hwf) Hs).
  destruct (new_node_from_uri_string_or_uri_run ext w (uri_string u) rest
              (blen (uri_string u)) Hwf Hroom Hm Hs)
    as (q & w' & Erun & Hm' & Hwf' & Hout & Hok).
  assert (uri_find (world_uris w) (uri_string u) = Some uri) as Hf.
  { apply (uri_wf_index _ (wf_uris _ _ Hwf)). by exists u. }
  assert (interned w H_RESOURCE (datum_ptr uri) = Some p) as Hi.
  { apply (wf_interned ext); [done|]. by eexists. }
  exists w'. destruct Hout as [[-> _]|[(uri' & Hf' & Hi' & E)|(uri' & ut & Hn & Hi' & _)]].
  - by destruct (Hok Hno).
  - rewrite Hf in Hf'. injection Hf' as <-. rewrite Hi in Hi'.
    injection Hi' as <-. done.
  - unfold uri_new in Hn. rewrite Hf in Hn.
    destruct (uri_ref (world_uris w) uri); [|done].
    injection Hn as <- _. by rewrite Hi in Hi'.
Qed.

Lemma interned_set_uris ut w i k :
  interned (set_uris ut w) i k = interned w i k.
Proof. unfold interned. by rewrite nodes_hash_set_uris. Qed.

Lemma literal_interned ext w p usage l t :
  world_wf ext w →
  world_nodes w !! p
  = Some {| node_usage := usage; node_value_of := value_literal l |} →
  literal_canonical l t →
  interned w H_LITERAL (datum_bytes (wire_format t)) = Some p.
Proof.
  intros Hwf Hp (key & Hk & Ht). apply (wf_interned ext); [done|].
  eexists. split; [done|]. unfold node_key. simpl. rewrite Hk. simpl.
  by rewrite Ht.
Qed.

Lemma literal_outcome_hit w k n ut1 p q w' :
  literal_outcome w k n ut1 q w' → interned w H_LITERAL (datum_bytes k) = Some p →
  q ≠ NULL → q = p ∧ w' ≡ world_bump p w.
Proof. intros [[-> _]|Hout] Hi Hq; [done|]. by rewrite Hi in Hout. Qed.

Lemma language_arg_field lang post :
  opt_normal lang → opt_len lang ≤ 0xFF →
  match lang with Some g => 0 ∉ g | None => True end →
  language_arg ((λ x, x ++ 0 :: post) <$> lang) (opt_len lang) lang.
Proof.
  intros Hn Hl Hg. destruct lang as [g|]; simpl; [|done].
  exists post. split_and!; [done| |done|done|].
  - intros ->. by apply Hn.
  - unfold opt_len in Hl. simpl in Hl. unfold SIZE_MAX. lia.
Qed.

Lemma term_overflow_literal s dts lang :
  term_overflow (term_literal s dts lang) = None →
  opt_len dts ≤ 0xFFFF ∧ opt_len lang ≤ 0xFF.
Proof. simpl. repeat case_decide; try done; lia. Qed.

Lemma literal_again ext w p usage l s dts lang rest xml_language
    xml_language_len dt :
  let t := term_literal s dts lang in
  world_wf ext w → world_room w → nodes_mutex w = false →
  alloc_fail ∉ world_allocs w →
  world_nodes w !! p
  = Some {| node_usage := usage; node_value_of := value_literal l |} →
  literal_canonical l t →
  0 ∉ s → blen s < SIZE_MAX →
  language_arg xml_language xml_language_len lang →
  datatype_arg ext w dt dts → lang = None ∨ dts = None →
  term_overflow t = None →
  ∃ w', librdf_new_node_from_typed_counted_literal (Some (s ++ rest))
          (blen s) xml_language xml_language_len dt w = Val (p, w')
        ∧ w' ≡ world_bump p w ∧ world_wf ext w' ∧ nodes_mutex w' = false.
Proof.
  intros t Hwf Hroom Hm Hno Hp Hcan Hs Hlen Hlang Hdt Hnot Hfit.
  destruct (new_literal_fits_run ext w s rest xml_language xml_language_len
              lang dt dts Hwf Hroom Hm Hs Hlen Hlang Hdt Hnot Hfit)
    as (q & w' & Erun & Hwf' & Hout & Hok).
  specialize (Hok Hno) as [Hq Hm'].
  pose proof (literal_interned ext w p usage l t Hwf Hp Hcan) as Hi.
  destruct (literal_outcome_hit _ _ _ _ _ _ _ Hout Hi Hq) as [-> E].
  by exists w'.
Qed.

(** C17: interning.  When a live node of a well-formed world has the
    content [t], the constructor called with that content returns this very
    node (the same address), and the world afterwards is the world with one
    more use of the node: no second object for equal content is ever made.
    The invariant is kept and the mutex is free again. *)
Theorem construct_again_same_node ext w p n t rest dt :
  world_wf ext w → world_room w → nodes_mutex w = false →
  alloc_fail ∉ world_allocs w →
  world_nodes w !! p = Some n →
  node_denotes (world_uris w) n t → node_canonical n t →
  construct_args ext w t dt →
  ∃ w', construct t rest dt w = Val (p, w')
        ∧ w' ≡ world_bump p w ∧ world_wf ext w' ∧ nodes_mutex w' = false.
Proof.
  intros Hwf Hroom Hm Hno Hp Hden Hcan [Hfit Hargs].
  destruct Hden as [usage uri u Hu Hs|usage b id Hb
                   |usage l s dts lang (_ & Hs & _) Hdt Hlang].
  - by apply (resource_again ext w p usage uri u rest).
  - simpl in Hfit. case_decide; [done|].
    apply (blank_again ext w p usage b id rest); try done. unfold SIZE_MAX. lia.
  - destruct Hargs as (Hnl & Hnot & Hlen & Harg).
    destruct (term_overflow_literal _ _ _ Hfit) as [_ Hll].
    apply (literal_again ext w p usage l s dts lang rest); try done.
    apply language_arg_field; [done|done|].
    destruct lang as [g|]; [|done]. by destruct Hlang as (_ & ? & _).
Qed.

End interning.

(** ** Examples *)

Section interning_examples.
#[local] Existing Instance default_build.
#[local] Existing Instance identity_normalise.

Lemma one_literal_world_wf : world_wf (λ _, 0) one_literal_world.
Proof.
  destruct opened_world_ready as (Hwf & Hroom & Hm & _).
  assert (language_arg (Some (ascii "en" ++ [0])) 2 (Some (ascii "en"))) as Hl.
  { exists []. split_and!; try done. compute_done. }
  destruct (new_literal_fits_run (λ _, 0) example_world (ascii "Dave") [0]
              (Some (ascii "en" ++ [0])) 2 (Some (ascii "en")) NULL None
              Hwf Hroom Hm ltac:(compute_done) ltac:(done) Hl eq_refl
              (or_intror eq_refl) eq_refl)
    as (p & w' & Erun & Hwf' & _).
  unfold one_literal_world.
  change (blen (ascii "Dave")) with 4 in Erun. by rewrite Erun.
Qed.

Lemma one_literal_world_room : decode_room one_literal_world.
Proof.
  split.
  - apply (bool_decide_unpack (map_Forall (λ _ n, node_usage n < INT_MAX) _)).
    vm_compute. reflexivity.
  - apply (bool_decide_unpack
             (map_Forall (λ _ u, uri_usage u < INT_MAX - 1) _)).
    vm_compute. reflexivity.
Qed.

Lemma one_literal_world_node :
  world_nodes one_literal_world !! 1%N = Some one_literal_node
  ∧ node_denotes (world_uris one_literal_world) one_literal_node
      one_literal_term
  ∧ node_canonical one_literal_node one_literal_term.
Proof.
  split; [vm_compute; reflexivity|]. split; [|by eexists].
  apply denotes_literal; [|done|]; by (split_and!; [done|compute_done|done]).
Qed.

Lemma construct_again_same_node_witness :
  ∃ w', construct one_literal_term [] NULL one_literal_world = Val (1%N, w')
        ∧ w' ≡ world_bump 1%N one_literal_world
        ∧ world_wf (λ _, 0) w' ∧ nodes_mutex w' = false.
Proof.
  destruct one_literal_world_node as (Hp & Hden & Hcan).
  apply (construct_again_same_node (λ _, 0) one_literal_world 1%N
           one_literal_node one_literal_term [] NULL);
    [apply one_literal_world_wf
    |apply decode_room_room, one_literal_world_room
    |vm_compute; reflexivity|by intros ?%elem_of_nil|done|done|done|].
  split; [done|]. split_and!; [done|by right|compute_done|done].
Defined.

End interning_examples.
