(* ===== verification/Roundtrip.v ===== *)
(** * Round trip: decode after encode

    [librdf_node_decode] rebuilds a node by calling the constructors, so
    decoding the bytes [librdf_node_encode] wrote for a live node finds
    that node again.  This file follows the decoder through each tag:

    - the header is read back ([short_header], [decode_literal_M_run],
      [decode_literal_N_run]) and the optional fields are located
      ([decode_field_run]);
    - the datatype URI is interned again from its string and released after
      the literal is made ([decode_datatype_run],
      [decode_typed_literal_run]);
    - the constructor finds the node ([Interning]);
    - [decode_encode_roundtrip]: the filling call of the encoder followed
      by the decoder returns the address of the node and the number of
      bytes written, with one more use of the node recorded.

    The string length of tag N is read as a 32-bit [int]: the theorem asks
    for a length up to [INT_MAX] ([term_decodable]). *)

From S2P Require Import Prelude CString Hash Uri Node Encode World Intern.
From S2P Require Import Decode.
From S2P Require Import Invariant Lifecycle Open Blank Resource Literal Release.
From S2P Require Import Interning.

#[local] Open Scope Z_scope.

(** The datatype of a literal value is the URI object of [dts]. *)
Definition datatype_denotes (ut : uri_table) (dt : ptr)
    (dts : option (list Z)) : Prop :=
  match dts with
  | Some d => ∃ u, dt ≠ NULL ∧ uris ut !! dt = Some u ∧ uri_string u = d
  | None => dt = NULL
  end.

(** The terms the decoder reads back: a literal has a language or a
    datatype, not both and none of them empty, and a string length the
    32-bit field of tag N holds as a non-negative [int]. *)
Definition term_decodable (t : term) : Prop :=
  match t with
  | term_literal s dts lang =>
      opt_normal dts ∧ opt_normal lang ∧ (lang = None ∨ dts = None)
      ∧ blen s ≤ INT_MAX
  | _ => True
  end.

Section roundtrip.
Context {T : Type} `{HashTable T} `{BuildConfig} `{UriNormalise}.
Implicit Types (w : librdf_world T) (p q : ptr) (n : librdf_node).
Implicit Types (ext : ptr → Z) (ut : uri_table).

Lemma st_bind_congr {S A B} (m m' : st S A) (k : A → st S B) s :
  m s = m' s → (m ≫= k) s = (m' ≫= k) s.
Proof. unfold mbind, st_bind. by intros ->. Qed.

Lemma short_header tag s rest :
  blen s ≤ 0xFFFF →
  let buffer := [tag] ++ be 2 (blen s) ++ s ++ [0] ++ rest in
  ∃ b1 b2, load buffer 0 = Val tag ∧ load buffer 1 = Val b1
           ∧ load buffer 2 = Val b2 ∧ get16 b1 b2 = blen s
           ∧ ptr_add buffer 3 = Val (s ++ 0 :: rest).
Proof.
  intros Hs buffer. subst buffer. rewrite be2_put16. unfold put16.
  eexists _, _. split; [reflexivity|]. split; [reflexivity|].
  split; [reflexivity|]. split.
  - apply (get16_put16 (blen s)); [|done]. pose proof (blen_nonneg s). lia.
  - by apply (ptr_add_app [tag; _; _]).
Qed.

Lemma decode_short_run (new_node : option (list Z) → st (librdf_world T) ptr)
    tag s rest w p w' :
  blen s ≤ 0xFFFF →
  new_node (Some (s ++ 0 :: rest)) w = Val (p, w') →
  decode_short new_node ([tag] ++ be 2 (blen s) ++ s ++ [0] ++ rest) w
  = Val ((p, 3 + blen s + 1), w').
Proof.
  intros Hs Hrun.
  destruct (short_header tag s rest Hs) as (b1 & b2 & _ & E1 & E2 & Eg & Ep).
  unfold decode_short. run_lift E1. run_lift E2. run_lift Ep. run Hrun.
  by rewrite Eg.
Qed.

Lemma decode_field_run pre o post total :
  blen pre = total → opt_normal o →
  decode_field (pre ++ opt_payload o ++ post) total (opt_len o)
  = Val ((λ x, x ++ 0 :: post) <$> o, total + blen (opt_payload o)).
Proof.
  intros Hp Hn. unfold decode_field. destruct o as [x|]; simpl.
  - assert (blen x ≠ 0) as Hx.
    { intros Hx. apply Hn. f_equal. destruct x; [done|].
      rewrite blen_cons in Hx. pose proof (blen_nonneg x). lia. }
    rewrite decide_True by done. rewrite decide_False by done.
    rewrite (ptr_add_app pre) by done. simpl.
    rewrite <- app_assoc. simpl. rewrite blen_app. do 3 f_equal.
  - do 2 f_equal. unfold blen. simpl. lia.
Qed.

Lemma decode_datatype_run ext w dt dts post :
  world_wf ext w → decode_room w → alloc_fail ∉ world_allocs w →
  datatype_denotes (world_uris w) dt dts →
  ∃ w1, match (λ x, x ++ 0 :: post) <$> dts with
        | Some datatype_uri_string => librdf_new_uri datatype_uri_string
        | None => mret NULL
        end w = Val (dt, w1)
        ∧ w1 ≡ set_uris (datatype_taken (world_uris w) dt) w
        ∧ nodes_mutex w1 = nodes_mutex w
        ∧ alloc_fail ∉ world_allocs w1
        ∧ world_wf (ext_taken ext dt dts) w1
        ∧ world_room w1
        ∧ datatype_arg (ext_taken ext dt dts) w1 dt dts
        ∧ dt_released (world_uris w1) dt (world_uris w).
Proof.
  intros Hwf Hroom Hno Hdt. destruct dts as [d|]; simpl in *.
  - destruct Hdt as (u & Hnn & Hu & <-).
    pose proof (uri_wf_string _ (wf_uris _ _ Hwf) _ _ Hu) as Hd.
    pose proof (uri_wf_usage _ (wf_uris _ _ Hwf) _ _ Hu) as Hus.
    pose proof (proj2 Hroom _ _ Hu) as Hur.
    assert (uri_find (world_uris w) (uri_string u) = Some dt) as Hf
      by (apply (uri_wf_index _ (wf_uris _ _ Hwf)); by exists u).
    assert (uri_ref (world_uris w) dt
            = Val (uri_set_usage (world_uris w) dt u (uri_usage u + 1))) as Er
      by (apply uri_ref_val; [done|lia|lia]).
    assert (datatype_taken (world_uris w) dt
            = uri_set_usage (world_uris w) dt u (uri_usage u + 1)) as Et.
    { unfold datatype_taken, is_null. rewrite bool_decide_eq_false_2 by done.
      by rewrite Hu. }
    rewrite librdf_new_uri_run by done.
    destruct (alloc_head w) eqn:Ea; [by apply no_failure_head in Ea|].
    unfold uri_intern, uri_new. simpl. rewrite Hf, Er. simpl.
    eexists. split; [done|]. rewrite Et. split_and!.
    + by rewrite alloc_rest_equiv.
    + done.
    + by apply alloc_rest_no_failure.
    + rewrite alloc_rest_equiv. apply (wf_uri_ref ext w dt); [done|done|].
      intros u0 Hu0. rewrite Hu in Hu0. injection Hu0 as <-. lia.
    + rewrite alloc_rest_equiv. split; [apply Hroom|]. simpl. intros q u'.
      destruct (decide (q = dt)) as [->|Hq].
      * rewrite lookup_insert_eq. intros [= <-]. simpl. lia.
      * rewrite lookup_insert_ne by done. intros Hq'.
        pose proof (proj2 Hroom _ _ Hq'). lia.
    + done.
    + unfold ext_add. rewrite decide_True by done.
      pose proof (wf_ext _ _ Hwf dt). lia.
    + eexists. simpl. by rewrite lookup_insert_eq.
    + right. split; [done|]. simpl. apply uri_ref_release; [apply Hwf|done|lia].
  - subst dt. exists w. unfold datatype_taken. simpl.
    rewrite set_uris_same. split; [done|]. split; [reflexivity|].
    split; [done|]. split; [done|]. split; [exact Hwf|].
    split; [by apply decode_room_room|]. split; [reflexivity|]. by left.
Qed.

Lemma world_bump_set_uris p ut w :
  world_bump p (set_uris ut w) = set_uris ut (world_bump p w).
Proof. unfold world_bump. simpl. by destruct (world_nodes w !! p). Qed.

Lemma world_bump_uris p w : world_uris (world_bump p w) = world_uris w.
Proof. unfold world_bump. by destruct (world_nodes w !! p). Qed.

Lemma decode_typed_literal_run ext w p usage l s dts lang hdr rest :
  let t := term_literal s dts lang in
  let dt := literal_datatype_uri l in
  world_wf ext w → decode_room w → nodes_mutex w = false →
  alloc_fail ∉ world_allocs w →
  world_nodes w !! p
  = Some {| node_usage := usage; node_value_of := value_literal l |} →
  literal_canonical l t →
  0 ∉ s → blen s < SIZE_MAX →
  datatype_denotes (world_uris w) dt dts →
  match lang with Some g => 0 ∉ g | None => True end →
  opt_normal dts → opt_normal lang → lang = None ∨ dts = None →
  term_overflow t = None →
  ∃ w', decode_typed_literal
          (hdr ++ s ++ [0] ++ opt_payload dts ++ opt_payload lang ++ rest)
          (blen hdr) (blen s) (opt_len dts) (opt_len lang) w
        = Val ((p, blen hdr + blen s + 1 + blen (opt_payload dts)
                   + blen (opt_payload lang)), w')
        ∧ w' ≡ world_bump p w ∧ nodes_mutex w' = false.
Proof.
  intros t dt Hwf Hroom Hm Hno Hp Hcan Hs Hlen Hdt Hlang Hnd Hnl Hnot Hfit.
  destruct (term_overflow_literal _ _ _ Hfit) as [Hdl Hll].
  set (buffer := hdr ++ s ++ [0] ++ opt_payload dts ++ opt_payload lang ++ rest).
  set (total := blen hdr + blen s + 1).
  assert (decode_field buffer total (opt_len dts)
          = Val ((λ x, x ++ 0 :: opt_payload lang ++ rest) <$> dts,
                 total + blen (opt_payload dts))) as E1.
  { rewrite <- (decode_field_run (hdr ++ s ++ [0]) dts
                  (opt_payload lang ++ rest) total); [| |done].
    - f_equal. subst buffer. by rewrite <- !app_assoc.
    - rewrite !blen_app. unfold total, blen. simpl. lia. }
  assert (decode_field buffer (total + blen (opt_payload dts)) (opt_len lang)
          = Val ((λ x, x ++ 0 :: rest) <$> lang,
                 total + blen (opt_payload dts) + blen (opt_payload lang))) as E2.
  { rewrite <- (decode_field_run (hdr ++ s ++ [0] ++ opt_payload dts) lang rest
                  (total + blen (opt_payload dts))); [| |done].
    - f_equal. subst buffer. by rewrite <- !app_assoc.
    - rewrite !blen_app. unfold total, blen. simpl. lia. }
  assert (ptr_add buffer (blen hdr)
          = Val (s ++ [0] ++ opt_payload dts ++ opt_payload lang ++ rest)) as E3
    by (by apply ptr_add_app).
  destruct (decode_datatype_run ext w dt dts (opt_payload lang ++ rest)
              Hwf Hroom Hno Hdt)
    as (w1 & Edt & Ew1 & Hm1 & Hno1 & Hwf1 & Hroom1 & Harg1 & Hrel1).
  destruct (literal_again (ext_taken ext dt dts) w1 p usage l s dts lang
              ([0] ++ opt_payload dts ++ opt_payload lang ++ rest)
              ((λ x, x ++ 0 :: rest) <$> lang) (opt_len lang) dt
              Hwf1 Hroom1) as (w2 & Erun & E & _ & Hm2);
    [congruence|done|by rewrite (eqv_nodes _ _ Ew1)|done|done|done
    |by apply language_arg_field|done|done|done|].
  assert (dt_released (world_uris w2) dt (world_uris w)) as Hrel2.
  { by rewrite (eqv_uris _ _ E), world_bump_uris. }
  exists (set_uris (world_uris w) w2). split; [|split; [|done]].
  - unfold decode_typed_literal. fold buffer total.
    run_lift E1. run_lift E2. simpl. run Edt. run_lift E3. run Erun.
    by run (free_datatype_uri_run w2 dt _ Hrel2).
  - rewrite E, Ew1, world_bump_set_uris, set_uris_set_uris.
    by rewrite <- world_bump_set_uris, set_uris_id.
Qed.

Lemma be1_small (n : Z) : 0 ≤ n ≤ 0xFF → be 1 n = [n].
Proof. intros Hn. simpl. f_equal. dlia. Qed.

Lemma be2_get16 (n : Z) :
  0 ≤ n ≤ 0xFFFF → ∃ b1 b2, be 2 n = [b1; b2] ∧ get16 b1 b2 = n.
Proof.
  intros Hn. rewrite be2_put16. unfold put16. eexists _, _.
  split; [done|]. by apply (get16_put16 n).
Qed.

Lemma be4_get32 (n : Z) :
  0 ≤ n ≤ INT_MAX →
  ∃ b1 b2 b3 b4, be 4 n = [b1; b2; b3; b4] ∧ get32 b1 b2 b3 b4 = n.
Proof.
  intros Hn. rewrite be4_put32. unfold put32. eexists _, _, _, _.
  split; [done|]. by apply (get32_put32 n).
Qed.

Lemma decode_literal_M_run slen dlen llen tail w :
  0 ≤ slen ≤ 0xFFFF → 0 ≤ dlen ≤ 0xFFFF → 0 ≤ llen ≤ 0xFF →
  decode_literal_M (([77] ++ be 2 slen ++ be 2 dlen ++ be 1 llen) ++ tail) w
  = decode_typed_literal
      (([77] ++ be 2 slen ++ be 2 dlen ++ be 1 llen) ++ tail)
      (blen ([77] ++ be 2 slen ++ be 2 dlen ++ be 1 llen)) slen dlen llen w.
Proof.
  intros Hs Hd Hl.
  destruct (be2_get16 slen Hs) as (b1 & b2 & -> & Es).
  destruct (be2_get16 dlen Hd) as (b3 & b4 & -> & Ed).
  rewrite (be1_small llen Hl). unfold decode_literal_M.
  do 5 (erewrite st_bind_val; last by apply st_lift_val).
  by rewrite Es, Ed.
Qed.

Lemma decode_literal_N_run slen dlen llen tail w :
  0 ≤ slen ≤ INT_MAX → 0 ≤ dlen ≤ 0xFFFF → 0 ≤ llen ≤ 0xFF →
  decode_literal_N (([78] ++ be 4 slen ++ be 2 dlen ++ be 1 llen) ++ tail) w
  = decode_typed_literal
      (([78] ++ be 4 slen ++ be 2 dlen ++ be 1 llen) ++ tail)
      (blen ([78] ++ be 4 slen ++ be 2 dlen ++ be 1 llen)) slen dlen llen w.
Proof.
  intros Hs Hd Hl.
  destruct (be4_get32 slen Hs) as (b1 & b2 & b3 & b4 & -> & Es).
  destruct (be2_get16 dlen Hd) as (b5 & b6 & -> & Ed).
  rewrite (be1_small llen Hl). unfold decode_literal_N.
  do 7 (erewrite st_bind_val; last by apply st_lift_val).
  by rewrite Es, Ed.
Qed.

Lemma decode_finish_run (d : st (librdf_world T) decoded) w p total w' :
  d w = Val ((p, total), w') →
  decode_finish true d w = Val ((p, Some total), w').
Proof. intros E. unfold decode_finish. by run E. Qed.

Lemma world_bump_wf ext w p n :
  world_wf ext w → nodes_room w → world_nodes w !! p = Some n →
  world_wf ext (world_bump p w).
Proof.
  intros Hwf Hroom Hp. unfold world_bump. rewrite Hp.
  pose proof (wf_usage _ _ Hwf _ _ Hp). pose proof (Hroom _ _ Hp).
  apply wf_bump; [done|done|lia].
Qed.

Lemma node_decode_short_run tag (new_node : option (list Z) → st (librdf_world T) ptr)
    s rest len w p w' :
  world_opened w = true → blen s ≤ 0xFFFF → 3 ≤ len →
  (tag = 82 ∧ new_node = librdf_new_node_from_uri_string
   ∨ tag = 66 ∧ new_node = librdf_new_node_from_blank_identifier) →
  new_node (Some (s ++ 0 :: rest)) w = Val (p, w') →
  librdf_node_decode true (([tag] ++ be 2 (blen s) ++ s ++ [0]) ++ rest) len w
  = Val ((p, Some (blen ([tag] ++ be 2 (blen s) ++ s ++ [0]))), w').
Proof.
  intros Ho Hs Hl Htag Hrun. rewrite wire_format_short_length.
  unfold librdf_node_decode. run (librdf_world_open_run w Ho).
  rewrite decide_False by lia.
  erewrite st_bind_val; last by apply st_lift_val.
  destruct Htag as [[-> ->]|[-> ->]].
  - rewrite decide_True by done. rewrite decide_False by lia.
    apply decode_finish_run. rewrite <- !app_assoc.
    by apply decode_short_run.
  - do 4 (rewrite decide_False by done).
    rewrite decide_True by done. rewrite decide_False by lia.
    apply decode_finish_run. rewrite <- !app_assoc.
    by apply decode_short_run.
Qed.

Lemma opt_len_nonneg o : 0 ≤ opt_len o.
Proof. destruct o; simpl; [apply blen_nonneg|done]. Qed.

Lemma literal_wire_split s dts lang rest :
  wire_format (term_literal s dts lang) ++ rest
  = ((if decide (blen s ≤ 0xFFFF) then [77] ++ be 2 (blen s)
      else [78] ++ be 4 (blen s)) ++ be 2 (opt_len dts) ++ be 1 (opt_len lang))
    ++ s ++ [0] ++ opt_payload dts ++ opt_payload lang ++ rest.
Proof. unfold wire_format. by rewrite <- !app_assoc. Qed.

Lemma literal_wire_length s dts lang :
  blen (wire_format (term_literal s dts lang))
  = blen ((if decide (blen s ≤ 0xFFFF) then [77] ++ be 2 (blen s)
           else [78] ++ be 4 (blen s))
          ++ be 2 (opt_len dts) ++ be 1 (opt_len lang))
    + blen s + 1 + blen (opt_payload dts) + blen (opt_payload lang).
Proof.
  unfold wire_format. rewrite !blen_app. rewrite (blen_cons 0 []), blen_nil. lia.
Qed.

Lemma node_decode_literal_tag s dts lang tail len w r :
  world_opened w = true → 0 ≤ blen s ≤ INT_MAX →
  0 ≤ opt_len dts ≤ 0xFFFF → 0 ≤ opt_len lang ≤ 0xFF →
  (if decide (blen s ≤ 0xFFFF) then 6 else 8) ≤ len →
  let hdr := (if decide (blen s ≤ 0xFFFF) then [77] ++ be 2 (blen s)
              else [78] ++ be 4 (blen s))
             ++ be 2 (opt_len dts) ++ be 1 (opt_len lang) in
  decode_finish true
    (decode_typed_literal (hdr ++ tail) (blen hdr) (blen s) (opt_len dts)
       (opt_len lang)) w = r →
  librdf_node_decode true (hdr ++ tail) len w = r.
Proof.
  intros Ho Hs Hd Hl Hlen hdr Hr. subst r hdr.
  unfold librdf_node_decode. run (librdf_world_open_run w Ho).
  destruct (decide (blen s ≤ 0xFFFF)); simpl in Hlen;
    rewrite decide_False by lia.
  - rewrite <- (app_assoc [77]). erewrite st_bind_val; last by apply st_lift_val.
    do 2 (rewrite decide_False by done). rewrite decide_True by done.
    rewrite decide_False by lia. unfold decode_finish.
    apply st_bind_congr, decode_literal_M_run; lia.
  - rewrite <- (app_assoc [78]). erewrite st_bind_val; last by apply st_lift_val.
    do 3 (rewrite decide_False by done). rewrite decide_True by done.
    rewrite decide_False by lia. unfold decode_finish.
    apply st_bind_congr, decode_literal_N_run; lia.
Qed.

Lemma decode_literal_wire_run ext w p usage l s dts lang rest len :
  let t := term_literal s dts lang in
  world_wf ext w → decode_room w → nodes_mutex w = false →
  alloc_fail ∉ world_allocs w →
  world_nodes w !! p
  = Some {| node_usage := usage; node_value_of := value_literal l |} →
  node_denotes (world_uris w)
    {| node_usage := usage; node_value_of := value_literal l |} t →
  literal_canonical l t → term_decodable t → term_overflow t = None →
  blen (wire_format t) ≤ len →
  ∃ w', librdf_node_decode true (wire_format t ++ rest) len w
        = Val ((p, Some (blen (wire_format t))), w')
        ∧ w' ≡ world_bump p w ∧ nodes_mutex w' = false.
Proof.
  intros t Hwf Hroom Hm Hno Hp Hden Hcan (Hnd & Hnl & Hnot & Hmax) Hfit Hlen.
  destruct (term_overflow_literal _ _ _ Hfit) as [Hdl Hll].
  pose proof (blen_nonneg s). pose proof (opt_len_nonneg dts).
  pose proof (opt_len_nonneg lang).
  inversion Hden as [| |? ? ? ? ? (_ & Hs & _) Hdt Hlang]; subst.
  set (hdr := (if decide (blen s ≤ 0xFFFF) then [77] ++ be 2 (blen s)
               else [78] ++ be 4 (blen s))
              ++ be 2 (opt_len dts) ++ be 1 (opt_len lang)).
  assert (blen hdr = if decide (blen s ≤ 0xFFFF) then 6 else 8) as Hh.
  { subst hdr. rewrite !blen_app, !blen_be. by case_decide; rewrite blen_app, blen_be. }
  destruct (decode_typed_literal_run ext w p usage l s dts lang hdr rest)
    as (w' & Erun & E & Hm'); try done.
  { unfold SIZE_MAX. unfold INT_MAX in Hmax. lia. }
  { destruct dts as [d|]; [|done]. destruct Hdt as (u & ? & ? & ? & _). by exists u. }
  { destruct lang as [g|]; [|done]. by destruct Hlang as (_ & ? & _). }
  exists w'. split; [|done]. pose proof (blen_nonneg (opt_payload dts)).
  pose proof (blen_nonneg (opt_payload lang)).
  subst t. rewrite literal_wire_split, literal_wire_length. fold hdr.
  rewrite literal_wire_length in Hlen. fold hdr in Hlen.
  apply node_decode_literal_tag; [apply Hwf|lia|lia|lia| |].
  - destruct (decide (blen s ≤ 0xFFFF)); lia.
  - by apply decode_finish_run.
Qed.

Lemma decode_wire_format_run ext w p n t rest len :
  world_wf ext w → decode_room w → nodes_mutex w = false →
  alloc_fail ∉ world_allocs w →
  world_nodes w !! p = Some n →
  node_denotes (world_uris w) n t → node_canonical n t → term_decodable t →
  term_overflow t = None → blen (wire_format t) ≤ len →
  ∃ w', librdf_node_decode true (wire_format t ++ rest) len w
        = Val ((p, Some (blen (wire_format t))), w')
        ∧ w' ≡ world_bump p w ∧ nodes_mutex w' = false.
Proof.
  intros Hwf Hroom Hm Hno Hp Hden Hcan Hdec Hfit Hlen.
  pose proof (decode_room_room w Hroom) as Hroom'.
  destruct Hden as [usage uri u Hu Hs|usage b id Hb
                   |usage l s dts lang Hstr Hdt Hlang].
  - simpl in Hfit. case_decide; [done|].
    destruct (resource_again ext w p usage uri u rest) as (w' & Erun & E & _ & Hm');
      try done.
    exists w'. split; [|done]. cbn [wire_format] in *.
    rewrite wire_format_short_length in Hlen.
    pose proof (blen_nonneg (uri_string u)).
    apply (node_decode_short_run 82 librdf_new_node_from_uri_string);
      [apply Hwf|lia|lia|by left|done].
  - simpl in Hfit. case_decide; [done|].
    destruct (blank_again ext w p usage b id rest) as (w' & Erun & E & _ & Hm');
      try done; [unfold SIZE_MAX; lia|].
    exists w'. split; [|done]. cbn [wire_format] in *.
    rewrite wire_format_short_length in Hlen.
    pose proof (blen_nonneg id).
    apply (node_decode_short_run 66 librdf_new_node_from_blank_identifier);
      [apply Hwf|lia|lia|by right|done].
  - by apply (decode_literal_wire_run ext w p usage l s dts lang rest len
                Hwf Hroom Hm Hno Hp (denotes_literal _ _ _ _ _ _ Hstr Hdt Hlang)
                Hcan Hdec Hfit Hlen).
Qed.

(** C8: decode after encode gives the node back.  For a live node of a
    well-formed world whose content is a term the decoder can read, with
    the mutex free and no allocation failing: [librdf_node_encode] fills
    the buffer and returns the size, and [librdf_node_decode] on that buffer
    and size returns the same node object (the same address, not a copy)
    with the size as the bytes consumed; the world afterwards is the world
    with one more use of that node, the invariant holds and the mutex is
    free. *)
Theorem decode_encode_roundtrip ext w p n t buf :
  world_wf ext w → decode_room w → nodes_mutex w = false →
  alloc_fail ∉ world_allocs w →
  world_nodes w !! p = Some n →
  node_denotes (world_uris w) n t → node_canonical n t → term_decodable t →
  term_overflow t = None → blen (wire_format t) ≤ blen buf →
  ∃ size buf' w',
    librdf_node_encode (world_uris w) (Some n) (Some buf) (blen buf)
    = Val (size, Some buf', None)
    ∧ librdf_node_decode true buf' size w = Val ((p, Some size), w')
    ∧ w' ≡ world_bump p w ∧ world_wf ext w' ∧ nodes_mutex w' = false.
Proof.
  intros Hwf Hroom Hm Hno Hp Hden Hcan Hdec Hfit Hlen.
  destruct (decode_wire_format_run ext w p n t
              (drop (length (wire_format t)) buf) (blen (wire_format t)))
    as (w' & Erun & E & Hm'); [done..|lia|].
  exists (blen (wire_format t)),
    (wire_format t ++ drop (length (wire_format t)) buf), w'.
  split_and!; [|done|done| |done].
  - rewrite (encode_denotes _ _ _ _ _ Hden).
    rewrite encode_spec_ok by (done || lia).
    rewrite poke_0; [done|]. unfold blen in Hlen. lia.
  - rewrite E. by apply (world_bump_wf ext w p n); [|apply Hroom|].
Qed.

End roundtrip.

(** ** Examples *)

Section roundtrip_examples.
#[local] Existing Instance default_build.
#[local] Existing Instance identity_normalise.

Lemma decode_encode_roundtrip_witness :
  ∃ size buf' w',
    librdf_node_encode (world_uris one_literal_world) (Some one_literal_node)
      (Some (replicate 20 0)) (blen (replicate 20 0))
    = Val (size, Some buf', None)
    ∧ librdf_node_decode true buf' size one_literal_world
      = Val ((1%N, Some size), w')
    ∧ w' ≡ world_bump 1%N one_literal_world
    ∧ world_wf (λ _, 0) w' ∧ nodes_mutex w' = false.
Proof.
  apply (decode_encode_roundtrip (λ _, 0) one_literal_world 1%N
           one_literal_node one_literal_term (replicate 20 0));
    [apply one_literal_world_wf|apply one_literal_world_room
    |vm_compute; reflexivity|by intros ?%elem_of_nil
    |vm_compute; reflexivity| | | |reflexivity|compute_done].
  - apply denotes_literal; [|done|]; by (split_and!; [done|compute_done|done]).
  - by eexists.
  - split_and!; [done|done|by right|compute_done].
Defined.

End roundtrip_examples.
