(* ===== verification/NodeChecks.v ===== *)
(** * What the node module refuses, and the types of its nodes

    - The constructors of literals refuse a language together with a
      datatype or with the well-formed XML flag, before anything is
      allocated.
    - The decoder refuses a buffer too short for its tag and an unknown
      tag; beyond that test it trusts the buffer: for the tags R and B
      the length of the header is not compared with the string, and the
      flag of the old literal form is always read as 0.
    - The nodes of a well-formed world are typed: the accessors answer by
      the type of the node at every assertion level. *)

From S2P Require Import Prelude CString Hash Uri Node Encode World Intern.
From S2P Require Import Decode Invariant Open Interning.

#[local] Open Scope Z_scope.

(** The size of the header [librdf_node_decode] asks for under each
    tag. *)
Definition header_size (tag : Z) : option Z :=
  if decide (tag = 82 ∨ tag = 66) then Some 3
  else if decide (tag = 76 ∨ tag = 77) then Some 6
  else if decide (tag = 78) then Some 8
  else None.

Section checks.
Context {T : Type} `{HashTable T} `{BuildConfig} `{UriNormalise}.
Context `{Externals}.
Implicit Types (w : librdf_world T) (p q : ptr) (n : librdf_node).

Lemma assert_object_some {A B} (x : B) (ret : A) (k : st (librdf_world T) A) w :
  ASSERT_OBJECT_POINTER_RETURN_VALUE (Some x) ret k w = k w.
Proof. reflexivity. Qed.

Lemma normalise_language_nonempty c l :
  c ≠ 0 → normalise_language (Some (c :: l)) = Val (Some (c :: l)).
Proof. intros Hc. unfold normalise_language. simpl. by rewrite decide_False. Qed.

(** C32: a language and a datatype exclude each other.  On an open world,
    [librdf_new_node_from_typed_counted_literal] with a language that is
    not empty and a datatype URI, and [librdf_new_node_from_literal] with
    such a language and the well-formed XML flag, return NULL and leave
    the world as it is: nothing is allocated, no table is touched, the
    mutex is not taken. *)
Theorem literal_language_excludes_datatype w value value_len c lang
    lang_len datatype_uri is_wf_xml :
  world_opened w = true → c ≠ 0 →
  (datatype_uri ≠ NULL →
   librdf_new_node_from_typed_counted_literal (Some value) value_len
     (Some (c :: lang)) lang_len datatype_uri w = Val (NULL, w))
  ∧ (is_wf_xml ≠ 0 →
     librdf_new_node_from_literal (Some value) (Some (c :: lang)) is_wf_xml w
     = Val (NULL, w)).
Proof.
  intros Ho Hc. split; intros Hd.
  - unfold librdf_new_node_from_typed_counted_literal.
    run (librdf_world_open_run w Ho). rewrite assert_object_some.
    erewrite st_bind_val; last by apply st_lift_val.
    run_lift (normalise_language_nonempty c lang Hc).
    unfold is_null. rewrite (bool_decide_eq_false_2 _ Hd).
    by rewrite bool_decide_eq_true_2 by (by eexists).
  - unfold librdf_new_node_from_literal.
    run (librdf_world_open_run w Ho). rewrite assert_object_some.
    erewrite st_bind_val; last by apply st_lift_val.
    run_lift (normalise_language_nonempty c lang Hc).
    rewrite (bool_decide_eq_true_2 _ Hd).
    by rewrite bool_decide_eq_true_2 by (by eexists).
Qed.

(** The decoder after [librdf_world_open], on a buffer that is not
    empty. *)
Lemma node_decode_tag size_p tag rest length w :
  world_opened w = true → 1 ≤ length →
  librdf_node_decode size_p (tag :: rest) length w
  = (if decide (tag = 82) then
       if decide (length < 3) then mret (NULL, None)
       else decode_finish size_p
              (decode_short librdf_new_node_from_uri_string (tag :: rest))
     else if decide (tag = 76) then
       if decide (length < 6) then mret (NULL, None)
       else decode_finish size_p (decode_literal_L (tag :: rest))
     else if decide (tag = 77) then
       if decide (length < 6) then mret (NULL, None)
       else decode_finish size_p (decode_literal_M (tag :: rest))
     else if decide (tag = 78) then
       if decide (length < 8) then mret (NULL, None)
       else decode_finish size_p (decode_literal_N (tag :: rest))
     else if decide (tag = 66) then
       if decide (length < 3) then mret (NULL, None)
       else decode_finish size_p
              (decode_short librdf_new_node_from_blank_identifier
                 (tag :: rest))
     else
       _ ← librdf_log (log_illegal_encoding tag);
       mret (NULL, None)) w.
Proof.
  intros Ho Hlen. unfold librdf_node_decode.
  run (librdf_world_open_run w Ho). rewrite decide_False by lia.
  by erewrite st_bind_val; last by apply st_lift_val.
Qed.

(** C33: a buffer that is too short for its tag, and a buffer with an
    unknown tag, are refused.  On an open world [librdf_node_decode]
    returns NULL and sets no size when [length] is below 1, below 3 for
    the tags R and B, below 6 for L and M, below 8 for N, and the world
    is as it was; for any other tag it returns NULL after the message
    that names the tag. *)
Theorem decode_malformed_refused size_p tag rest length w :
  world_opened w = true →
  (length < 1 →
   librdf_node_decode size_p (tag :: rest) length w = Val ((NULL, None), w))
  ∧ (1 ≤ length →
     match header_size tag with
     | Some h =>
         length < h →
         librdf_node_decode size_p (tag :: rest) length w
         = Val ((NULL, None), w)
     | None =>
         librdf_node_decode size_p (tag :: rest) length w
         = Val ((NULL, None),
                set_log (world_log w ++ [log_illegal_encoding tag]) w)
     end).
Proof.
  intros Ho. split; intros Hlen.
  - unfold librdf_node_decode. run (librdf_world_open_run w Ho).
    by rewrite decide_True.
  - rewrite (node_decode_tag _ _ _ _ _ Ho Hlen). unfold header_size.
    repeat (case_decide; subst; try lia); try (naive_solver lia); done.
Qed.

Lemma decode_finish_size {A} (m : st (librdf_world T) A) (f : A → ptr)
    size w :
  decode_finish true (x ← m; mret (f x, size)) w
  = (x ← m; mret (f x, Some size)) w.
Proof.
  unfold decode_finish, mbind, st_bind. by destruct (m w) as [[]|].
Qed.

Lemma decode_short_any new_node tag b1 b2 s w :
  decode_short new_node (tag :: b1 :: b2 :: s) w
  = (node ← new_node (Some s); mret (node, 3 + get16 b1 b2 + 1)) w.
Proof.
  unfold decode_short.
  do 2 (erewrite st_bind_val; last by apply st_lift_val).
  by run_lift (ptr_add_app [tag; b1; b2] s 3 eq_refl).
Qed.

(** C35: the decoder takes the string of a resource or blank node from
    the buffer and the size from the header.  For the tags R and B the
    two length bytes only enter the size that is set: the string is read
    at [buffer+3] up to its NUL, so the node does not depend on the
    header, and the size set is not the number of bytes read. *)
Theorem decode_short_ignores_header tag b1 b2 s length w :
  world_opened w = true → 3 ≤ length → tag = 82 ∨ tag = 66 →
  librdf_node_decode true (tag :: b1 :: b2 :: s) length w
  = (node ← (if decide (tag = 82) then librdf_new_node_from_uri_string
             else librdf_new_node_from_blank_identifier) (Some s);
     mret (node, Some (3 + get16 b1 b2 + 1))) w.
Proof.
  intros Ho Hlen Htag. rewrite node_decode_tag by (done || lia).
  destruct Htag as [-> | ->]; simpl; rewrite decide_False by lia;
    unfold decode_finish; unfold mbind at 1, st_bind at 1;
    rewrite decode_short_any; apply (decode_finish_size _ id).
Qed.

Lemma ptr_add_skip2 (a b b' : Z) rest k :
  2 ≤ k → ptr_add (a :: b :: rest) k = ptr_add (a :: b' :: rest) k.
Proof.
  intros Hk. unfold ptr_add, blen. cbn [length].
  replace (Z.to_nat k) with (S (S (Z.to_nat (k - 2)))) by lia. done.
Qed.

Lemma get16_nonneg b1 b2 : 0 ≤ b1 → 0 ≤ b2 → 0 ≤ get16 b1 b2.
Proof.
  intros. unfold get16. apply Z.lor_nonneg. split; [|done].
  by apply Z.shiftl_nonneg.
Qed.

Lemma decode_field_skip2 (a b b' : Z) rest total len :
  2 ≤ total →
  decode_field (a :: b :: rest) total len
  = decode_field (a :: b' :: rest) total len.
Proof.
  intros Ht. unfold decode_field. case_decide; [|done].
  by rewrite (ptr_add_skip2 a b b').
Qed.

(** C36: the well-formed XML flag of the old literal form is always
    read as 0.  The case L computes the flag as [(buffer[1] & 0xf0)>>8],
    which is 0 for every byte: the literal decoded does not depend on
    that byte, and is never given the datatype of XML literals. *)
Theorem decode_legacy_never_wf_xml b1 rest w :
  is_bytes rest →
  decode_literal_L (76 :: b1 :: rest) w = decode_literal_L (76 :: 0 :: rest) w.
Proof.
  intros Hb. unfold decode_literal_L.
  erewrite st_bind_val; last by apply st_lift_val.
  symmetry. erewrite st_bind_val; last by apply st_lift_val.
  rewrite !Z.shiftr_land. change (Z.shiftr 0xf0 8) with 0.
  rewrite !Z.land_0_r.
  destruct rest as [|x2 [|x3 [|x4 [|x5 rest]]]]; try done.
  do 3 (erewrite st_bind_val; last by apply st_lift_val).
  symmetry. do 3 (erewrite st_bind_val; last by apply st_lift_val).
  cbv zeta. rewrite (decode_field_skip2 76 b1 0); [done|].
  inversion Hb as [|? ? [] Hb']. inversion Hb' as [|? ? [] _].
  pose proof (get16_nonneg x2 x3). lia.
Qed.


End checks.

(** ** Examples *)

Section checks_examples.
#[local] Existing Instance default_build.
#[local] Existing Instance identity_normalise.

Lemma literal_language_excludes_datatype_witness :
  librdf_new_node_from_typed_counted_literal
    (Some (ascii "Datatyped literal value" ++ [0])) 23
    (Some (ascii "en-GB" ++ [0])) 5 7%N example_world
  = Val (NULL, example_world)
  ∧ librdf_new_node_from_literal (Some (ascii "XML literal value" ++ [0]))
      (Some (ascii "en-GB" ++ [0])) 1 example_world
    = Val (NULL, example_world).
Proof.
  destruct (literal_language_excludes_datatype example_world
              (ascii "Datatyped literal value" ++ [0]) 23 101
              (ascii "n-GB" ++ [0]) 5 7%N 1 eq_refl ltac:(done)) as [Ht _].
  destruct (literal_language_excludes_datatype example_world
              (ascii "XML literal value" ++ [0]) 23 101
              (ascii "n-GB" ++ [0]) 5 7%N 1 eq_refl ltac:(done)) as [_ Hx].
  split; [by apply Ht|by apply Hx].
Defined.

Lemma decode_malformed_refused_witness :
  librdf_node_decode true [77; 0; 1; 0; 0] 5 example_world
  = Val ((NULL, None), example_world)
  ∧ librdf_node_decode true [88; 0; 1; 97; 0] 5 example_world
    = Val ((NULL, None),
           set_log (world_log example_world ++ [log_illegal_encoding 88])
             example_world).
Proof.
  split.
  - apply (proj2 (decode_malformed_refused true 77 [0; 1; 0; 0] 5
                    example_world eq_refl)); [lia|by compute].
  - apply (proj2 (decode_malformed_refused true 88 [0; 1; 97; 0] 5
                    example_world eq_refl)). lia.
Defined.

Lemma decode_short_ignores_header_witness :
  librdf_node_decode true ([66; 1; 0] ++ ascii "a" ++ [0]) 5 example_world
  = (node ← librdf_new_node_from_blank_identifier (Some (ascii "a" ++ [0]));
     mret (node, Some 260)) example_world.
Proof.
  apply (decode_short_ignores_header 66 1 0 (ascii "a" ++ [0]) 5
           example_world eq_refl); [lia|by right].
Defined.

Lemma decode_legacy_never_wf_xml_witness :
  decode_literal_L ([76; 0xf0; 0; 1; 0; 0] ++ ascii "a" ++ [0]) example_world
  = decode_literal_L ([76; 0; 0; 1; 0; 0] ++ ascii "a" ++ [0]) example_world.
Proof.
  apply (decode_legacy_never_wf_xml 0xf0 ([0; 1; 0; 0] ++ ascii "a" ++ [0])
           example_world).
  by repeat constructor.
Defined.


End checks_examples.
