(* ===== verification/Statement.v ===== *)
(** * Statements, lists of statements and models

    The storage back end and the parser glue build statements from nodes
    and hand them to a list or to a model.  These objects belong to other
    modules of the library (rdf_statement.c, rdf_list.c, rdf_model.c); the
    definitions here give the behaviour the callers in
    src/rdf_parser_raptor.c and librdf/rdf_storage_tstore.c rely on:

    - a statement owns one reference to each of its nodes, and
      [librdf_free_statement] gives them back with [librdf_free_node];
    - [librdf_list_add] appends and keeps the pointer, [librdf_list_pop]
      takes from the end;
    - a model keeps its own copy of a statement added to it;
    - [librdf_new_list] and [librdf_new_stream] allocate their object and
      can fail. *)

From S2P Require Import Prelude CString Hash Uri Node Encode World Intern.

#[local] Open Scope Z_scope.

(** [struct librdf_statement_s]: three node pointers, NULL when unset. *)
Record librdf_statement : Set := {
  statement_subject : ptr;
  statement_predicate : ptr;
  statement_object : ptr;
}.

#[global] Instance librdf_statement_eq_dec : EqDecision librdf_statement.
Proof. solve_decision. Defined.

Definition empty_statement : librdf_statement :=
  {| statement_subject := NULL; statement_predicate := NULL;
     statement_object := NULL |}.

Definition librdf_statement_set_subject (s : librdf_statement) (node : ptr)
  : librdf_statement :=
  {| statement_subject := node;
     statement_predicate := statement_predicate s;
     statement_object := statement_object s |}.

Definition librdf_statement_set_predicate (s : librdf_statement) (node : ptr)
  : librdf_statement :=
  {| statement_subject := statement_subject s;
     statement_predicate := node;
     statement_object := statement_object s |}.

Definition librdf_statement_set_object (s : librdf_statement) (node : ptr)
  : librdf_statement :=
  {| statement_subject := statement_subject s;
     statement_predicate := statement_predicate s;
     statement_object := node |}.

(** The flags of the [get_method] of a stream. *)
Definition LIBRDF_ITERATOR_GET_METHOD_GET_OBJECT : Z := 0.
Definition LIBRDF_ITERATOR_GET_METHOD_GET_CONTEXT : Z := 1.

(** The nodes of a statement, in the order they are released. *)
Definition statement_nodes (s : librdf_statement) : list ptr :=
  [statement_subject s; statement_predicate s; statement_object s].

Section statement.
Context {T : Type} `{HashTable T} `{BuildConfig} `{UriNormalise}.

Abbreviation M := (st (librdf_world T)).

(** [librdf_new_statement(world)]: an empty statement, or NULL. *)
Definition librdf_new_statement : M (option librdf_statement) :=
  _ ← librdf_world_open;
  e ← next_alloc;
  match e with
  | alloc_fail => mret None
  | alloc_ok _ => mret (Some empty_statement)
  end.

(** [librdf_statement_clear]: each node that is set is released. *)
Definition librdf_statement_clear (s : librdf_statement) : M unit :=
  _ ← librdf_free_node (statement_subject s);
  _ ← librdf_free_node (statement_predicate s);
  librdf_free_node (statement_object s).

(** [librdf_free_statement(statement)]: nothing for NULL. *)
Definition librdf_free_statement (statement : option librdf_statement)
  : M unit :=
  match statement with
  | None => mret tt
  | Some s => librdf_statement_clear s
  end.

(** [librdf_new_statement_from_nodes]: the statement takes over the
    references of the caller; when the statement cannot be allocated they
    are released. *)
Definition librdf_new_statement_from_nodes (subject predicate object : ptr)
  : M (option librdf_statement) :=
  new_statement ← librdf_new_statement;
  match new_statement with
  | None =>
      _ ← librdf_free_node subject;
      _ ← librdf_free_node predicate;
      _ ← librdf_free_node object;
      mret None
  | Some _ =>
      mret (Some {| statement_subject := subject;
                    statement_predicate := predicate;
                    statement_object := object |})
  end.

(** The copy of a node pointer in a copied statement: one more reference,
    NULL stays NULL. *)
Definition copy_node (node : ptr) : M ptr :=
  if is_null node then mret NULL else librdf_new_node_from_node node.

(** [librdf_new_statement_from_statement]: NULL for NULL, else a statement
    with new references to the same nodes. *)
Definition librdf_new_statement_from_statement
    (statement : option librdf_statement) : M (option librdf_statement) :=
  match statement with
  | None => mret None
  | Some s =>
      new_statement ← librdf_new_statement;
      match new_statement with
      | None => mret None
      | Some _ =>
          subject ← copy_node (statement_subject s);
          predicate ← copy_node (statement_predicate s);
          object ← copy_node (statement_object s);
          mret (Some {| statement_subject := subject;
                        statement_predicate := predicate;
                        statement_object := object |})
      end
  end.

(** [librdf_list_add(list, data)]: 0 and the item at the end, or non-zero
    when the cell cannot be allocated. *)
Definition librdf_list_add {A} (l : list A) (data : A) : M (Z * list A) :=
  e ← next_alloc;
  match e with
  | alloc_fail => mret (1, l)
  | alloc_ok _ => mret (0, l ++ [data])
  end.

(** [librdf_list_pop(list)]: the item at the end, or NULL. *)
Definition librdf_list_pop {A} (l : list A) : option A * list A :=
  (l !! pred (length l), take (pred (length l)) l).

Definition librdf_list_size {A} (l : list A) : Z :=
  Z.of_nat (length l).

(** [librdf_new_list(world)]: an empty list, or NULL. *)
Definition librdf_new_list {A} : M (option (list A)) :=
  e ← next_alloc;
  mret (match e with alloc_fail => None | alloc_ok _ => Some [] end).

(** [librdf_new_stream]: whether the stream object could be made. *)
Definition librdf_new_stream : M bool :=
  e ← next_alloc;
  mret (match e with alloc_fail => false | alloc_ok _ => true end).

(** [librdf_model_add_statement(model, statement)]: the model stores a copy
    of the statement; non-zero when the copy fails. *)
Definition librdf_model_add_statement (model : list librdf_statement)
    (statement : librdf_statement) : M (Z * list librdf_statement) :=
  copy ← librdf_new_statement_from_statement (Some statement);
  match copy with
  | None => mret (1, model)
  | Some s => mret (0, model ++ [s])
  end.

End statement.
