(* ===== verification/Tstore.v ===== *)
(** * The tstore storage back end

    librdf/rdf_storage_tstore.c keeps the statements of a model in an
    external triple store reached through the [rs_] client library.  The
    client library is the interface [TripleStore]: a connection, the
    assertion of a triple of strings, and queries whose result hands out
    its triples one at a time.

    The file turns statements into triples of strings
    ([librdf_storage_tstore_statement_as_rs_triple]) and triples into
    statements ([librdf_storage_tstore_statement_from_rs_triple]), and wraps
    a query result as a stream of statements.  A string of a triple is the
    object it points to, [None] for NULL. *)

From S2P Require Import Prelude CString Hash Uri Node Encode World Intern.
From S2P Require Import Statement.

#[local] Open Scope Z_scope.

Inductive rs_obj_type : Set := ObjAny | ObjURI | ObjLiteral.

(** [rs_triple]. *)
Record rs_triple : Set := {
  rs_subject : option (list Z);
  rs_predicate : option (list Z);
  rs_object : option (list Z);
  rs_literal : Z;
}.

(** The client library; a result ([rs_result]) is the list of the triples
    it has not handed out yet. *)
Class TripleStore (DB : Type) : Type := {
  rs_connect : option (list Z) → option (list Z) → option (list Z)
               → option (list Z) → option DB;
  rs_connect_remote : list Z → option (list Z) → option (list Z)
                      → option (list Z) → option (list Z) → option DB;
  rs_assert_triple : option DB → option (list Z) → option (list Z)
                     → option (list Z) → rs_obj_type → Z * option DB;
  rs_find_all_resources : option DB → Z → option (list Z)
                          → option (list rs_triple);
  rs_find_triples : option DB → option (list Z) → option (list Z)
                    → option (list Z) → rs_obj_type → Z → option (list Z)
                    → option (list rs_triple);
}.

(** [rs_next_triple(result)]. *)
Definition rs_next_triple (result : list rs_triple)
  : option rs_triple * list rs_triple :=
  (head result, tail result).

(** [librdf_storage_tstore_context]. *)
Record librdf_storage_tstore_context (DB : Type) : Type := {
  host : option (list Z);
  db : option (list Z);
  user : option (list Z);
  password : option (list Z);
  model : option (list Z);
  rdfsql : option DB;
}.
Arguments host {DB}.
Arguments db {DB}.
Arguments user {DB}.
Arguments password {DB}.
Arguments model {DB}.
Arguments rdfsql {DB}.

Definition set_rdfsql {DB} (c : librdf_storage_tstore_context DB)
    (r : option DB) : librdf_storage_tstore_context DB :=
  {| host := host c; db := db c; user := user c; password := password c;
     model := model c; rdfsql := r |}.

(** The context of a stream over a query result
    ([librdf_storage_tstore_serialise_stream_context] and
    [librdf_storage_tstore_find_stream_context]). *)
Record tstore_stream_context : Set := {
  result : option (list rs_triple);
  triple : option rs_triple;
  search_triple : option rs_triple;
}.

Section tstore.
Context {T : Type} `{HashTable T} `{BuildConfig} `{UriNormalise}.
Context {DB : Type} `{TripleStore DB}.

Abbreviation M := (st (librdf_world T)).
Abbreviation context := (librdf_storage_tstore_context DB).

Definition librdf_storage_tstore_open (c : context) : Z * context :=
  let r := match host c with
           | Some h => rs_connect_remote h (db c) (user c) (password c)
                         (model c)
           | None => rs_connect (db c) (user c) (password c) (model c)
           end in
  (match r with Some _ => 0 | None => 1 end, set_rdfsql c r).

Definition librdf_storage_tstore_close (c : context) : Z := 0.

Definition librdf_storage_tstore_size (c : context) : Z := -1.

Definition librdf_storage_tstore_contains_statement (c : context)
    (statement : librdf_statement) : Z := 0.

(** ** Triples to statements *)

(** The subject of a triple: a blank node for a string that starts with
    ["_:"], else a resource. *)
Definition subject_from_rs (subject : list Z) : M ptr :=
  blank ← st_lift (strncmp_eq subject (ascii "_:" ++ [0]) 2);
  if (blank : bool) then
    id ← st_lift (ptr_add subject 2);
    librdf_new_node_from_blank_identifier (Some id)
  else librdf_new_node_from_uri_string (Some subject).

(** The object of a triple: a literal when the triple says so, a blank
    node when [strncmp(object, ":", 2)] is 0, else a resource. *)
Definition object_from_rs (object : list Z) (literal : Z) : M ptr :=
  if decide (literal ≠ 0) then
    librdf_new_node_from_typed_literal (Some object) None NULL
  else
    blank ← st_lift (strncmp_eq object (ascii ":" ++ [0]) 2);
    if (blank : bool) then
      id ← st_lift (ptr_add object 2);
      librdf_new_node_from_blank_identifier (Some id)
    else librdf_new_node_from_uri_string (Some object).

(** A field of the triple that is NULL gives a NULL node. *)
Definition field_node (field : option (list Z)) (make : list Z → M ptr)
  : M ptr :=
  match field with
  | Some s => make s
  | None => mret NULL
  end.

(** The test [if(!node)] inside the branch of a field that is set. *)
Definition field_failed (field : option (list Z)) (node : ptr) : bool :=
  match field with
  | Some _ => is_null node
  | None => false
  end.

Definition librdf_storage_tstore_statement_from_rs_triple
    (t : option rs_triple) : M (option librdf_statement) :=
  t ← st_lift (of_option t);
  subject_node ← field_node (rs_subject t) subject_from_rs;
  if field_failed (rs_subject t) subject_node then mret None
  else
    predicate_node ← field_node (rs_predicate t)
                       (λ s, librdf_new_node_from_uri_string (Some s));
    if field_failed (rs_predicate t) predicate_node then
      _ ← librdf_free_node subject_node;
      mret None
    else
      object_node ← field_node (rs_object t)
                      (λ s, object_from_rs s (rs_literal t));
      if field_failed (rs_object t) object_node then
        _ ← librdf_free_node subject_node;
        _ ← librdf_free_node predicate_node;
        mret None
      else
        librdf_new_statement_from_nodes subject_node predicate_node
          object_node.

(** ** Statements to triples *)

(** [librdf_uri_as_string(librdf_node_get_uri(node))]. *)
Definition node_uri_string (node : option librdf_node)
  : M (option (list Z)) :=
  uri ← st_lift (librdf_node_get_uri node);
  w ← st_get;
  st_lift (LIBRDF_ASSERT_OBJECT_POINTER_RETURN_VALUE (as_pointer uri) None
             (Some <$> librdf_uri_as_string (world_uris w) uri)).

(** The string of a subject or of an object that is not a literal. *)
Definition blank_or_uri_string (node : option librdf_node)
  : M (option (list Z)) :=
  blank ← st_lift (librdf_node_is_blank node);
  if decide (blank ≠ 0) then st_lift (librdf_node_get_blank_identifier node)
  else node_uri_string node.

(** The string and the [literal] flag of an object. *)
Definition object_string (node : option librdf_node)
  : M (option (list Z) * Z) :=
  literal ← st_lift (librdf_node_is_literal node);
  if decide (literal ≠ 0) then
    s ← st_lift (librdf_node_get_literal_value node); mret (s, 1)
  else
    s ← blank_or_uri_string node; mret (s, 0).

(** The triple is written to as it comes from [LIBRDF_MALLOC], without a
    test. *)
Definition librdf_storage_tstore_statement_as_rs_triple
    (statement : librdf_statement) : M rs_triple :=
  subject_node ← node_deref (statement_subject statement);
  predicate_node ← node_deref (statement_predicate statement);
  object_node ← node_deref (statement_object statement);
  e ← next_alloc;
  match e with
  | alloc_fail => st_stuck UB
  | alloc_ok _ =>
      subject ← match subject_node with
                | Some _ => blank_or_uri_string subject_node
                | None => mret None
                end;
      predicate ← match predicate_node with
                  | Some _ => node_uri_string predicate_node
                  | None => mret None
                  end;
      object ← match object_node with
               | Some _ => object_string object_node
               | None => mret (None, 0)
               end;
      mret {| rs_subject := subject; rs_predicate := predicate;
              rs_object := fst object; rs_literal := snd object |}
  end.

(** ** Adding a statement *)

Definition librdf_storage_tstore_context_add_statement (c : context)
    (context_node : ptr) (statement : librdf_statement) : M (Z * context) :=
  subject_node ← node_deref (statement_subject statement);
  predicate_node ← node_deref (statement_predicate statement);
  object_node ← node_deref (statement_object statement);
  subject ← blank_or_uri_string subject_node;
  predicate ← node_uri_string predicate_node;
  literal ← st_lift (librdf_node_is_literal object_node);
  object ← (if decide (literal ≠ 0)
            then st_lift (librdf_node_get_literal_value object_node)
            else blank_or_uri_string object_node);
  let type := if decide (literal ≠ 0) then ObjLiteral else ObjURI in
  let r := rs_assert_triple (rdfsql c) subject predicate object type in
  mret (if decide (r.1 ≠ 0) then 1 else 0, set_rdfsql c r.2).

Definition librdf_storage_tstore_add_statement (c : context)
    (statement : librdf_statement) : M (Z * context) :=
  librdf_storage_tstore_context_add_statement c NULL statement.

Definition librdf_storage_tstore_context_remove_statement (c : context)
    (context_node : ptr) (statement : librdf_statement) : Z := 0.

Definition librdf_storage_tstore_remove_statement (c : context)
    (statement : librdf_statement) : Z :=
  librdf_storage_tstore_context_remove_statement c NULL statement.

Definition librdf_storage_tstore_context_serialise (c : context)
    (context_node : ptr) : option tstore_stream_context := None.

(** ** Streams over a result *)

(** [scontext->triple=rs_next_triple(scontext->result)], or NULL for an
    empty result. *)
Definition first_triple (r : option (list rs_triple))
    (search : option rs_triple) : tstore_stream_context :=
  match r with
  | None => {| result := None; triple := None; search_triple := search |}
  | Some l => {| result := Some (rs_next_triple l).2;
                 triple := (rs_next_triple l).1; search_triple := search |}
  end.

(** [while(rs_next_triple(scontext->result)) ;]: what is left of the
    result. *)
Fixpoint drain (l : list rs_triple) : list rs_triple :=
  match l with
  | [] => []
  | _ :: l' => drain l'
  end.

(** [..._serialise_finished] and [..._find_finished]: the result as it is
    when [rs_free_result] gets it, [None] when there is none to free. *)
Definition librdf_storage_tstore_serialise_finished
    (scontext : tstore_stream_context) : res (option (list rs_triple)) :=
  match triple scontext with
  | Some _ => l ← of_option (result scontext); Val (Some (drain l))
  | None => Val (result scontext)
  end.

Definition librdf_storage_tstore_find_finished
    (scontext : tstore_stream_context) : res (option (list rs_triple)) :=
  librdf_storage_tstore_serialise_finished scontext.

Definition librdf_storage_tstore_serialise_end_of_stream
    (scontext : tstore_stream_context) : Z :=
  match triple scontext with None => 1 | Some _ => 0 end.

Definition librdf_storage_tstore_find_end_of_stream
    (scontext : tstore_stream_context) : Z :=
  librdf_storage_tstore_serialise_end_of_stream scontext.

Definition librdf_storage_tstore_serialise_next_statement
    (scontext : tstore_stream_context) : res (Z * tstore_stream_context) :=
  match triple scontext with
  | None => Val (1, scontext)
  | Some _ =>
      l ← of_option (result scontext);
      let s := {| result := Some (rs_next_triple l).2;
                  triple := (rs_next_triple l).1;
                  search_triple := search_triple scontext |} in
      Val (librdf_storage_tstore_serialise_end_of_stream s, s)
  end.

Definition librdf_storage_tstore_find_next_statement
    (scontext : tstore_stream_context) : res (Z * tstore_stream_context) :=
  librdf_storage_tstore_serialise_next_statement scontext.

Definition librdf_storage_tstore_serialise_get_statement
    (scontext : tstore_stream_context) (flags : Z)
  : M (option librdf_statement) :=
  if decide (flags = LIBRDF_ITERATOR_GET_METHOD_GET_OBJECT) then
    librdf_storage_tstore_statement_from_rs_triple (triple scontext)
  else if decide (flags = LIBRDF_ITERATOR_GET_METHOD_GET_CONTEXT) then
    mret None
  else
    _ ← librdf_log (log_unknown_iterator_flag flags);
    mret None.

Definition librdf_storage_tstore_find_get_statement
    (scontext : tstore_stream_context) (flags : Z)
  : M (option librdf_statement) :=
  librdf_storage_tstore_serialise_get_statement scontext flags.

(** The end of [librdf_storage_tstore_serialise] and of
    [librdf_storage_tstore_find_statements]: the stream of the context, or
    the context finished and NULL. *)
Definition stream_or_finish (scontext : tstore_stream_context)
  : M (option tstore_stream_context) :=
  stream ← librdf_new_stream;
  if (stream : bool) then mret (Some scontext)
  else
    _ ← st_lift (librdf_storage_tstore_serialise_finished scontext);
    mret None.

Definition librdf_storage_tstore_serialise (c : context)
  : M (option tstore_stream_context) :=
  e ← next_alloc;
  match e with
  | alloc_fail => mret None
  | alloc_ok _ =>
      stream_or_finish
        (first_triple (rs_find_all_resources (rdfsql c) 0 (model c)) None)
  end.

(** The statement is copied, and the copy is not released on any path. *)
Definition librdf_storage_tstore_find_statements (c : context)
    (statement : option librdf_statement)
  : M (option tstore_stream_context) :=
  statement ← librdf_new_statement_from_statement statement;
  match statement with
  | None => mret None
  | Some s =>
      e ← next_alloc;
      match e with
      | alloc_fail => mret None
      | alloc_ok _ =>
          t ← librdf_storage_tstore_statement_as_rs_triple s;
          let type := match rs_object t with
                      | Some _ => if decide (rs_literal t ≠ 0)
                                  then ObjLiteral else ObjURI
                      | None => ObjAny
                      end in
          stream_or_finish
            (first_triple
               (rs_find_triples (rdfsql c) (rs_subject t) (rs_predicate t)
                  (rs_object t) type 0 (model c)) (Some t))
      end
  end.

End tstore.
