(* ===== verification/TstoreStream.v ===== *)
(** * The stream and the strings of the tstore storage

    Theorems about src/librdf/rdf_storage_tstore.c as [Tstore] models it.

    The stream the storage returns is a cursor over the rows of a result:
    [pending] is the abstract state, the rows still to deliver, and
    [stream_refines_cursor] shows that [next_statement], [end_of_stream]
    and [finished] are [tail], the emptiness test and the release of what
    is left of that list.

    The strings of a triple do not carry the kind of the node: the two
    theorems on [subject_from_rs] and [object_from_rs] show what the
    prefix tests of [statement_from_rs_triple] make of the strings
    [statement_as_rs_triple] wrote. *)

From S2P Require Import Prelude CString Hash Uri Node Encode World Intern.
From S2P Require Import Statement Tstore.

#[local] Open Scope Z_scope.

(** The rows a stream has still to deliver: the current one and the rest
    of the result. *)
Definition pending (sc : tstore_stream_context) : list rs_triple :=
  match triple sc with
  | Some t => t :: default [] (result sc)
  | None => []
  end.

(** The stream context as [first_triple] and [next_statement] leave it:
    a current row comes from a result, and at the end nothing is left in
    the result. *)
Definition stream_wf (sc : tstore_stream_context) : Prop :=
  match triple sc with
  | Some _ => is_Some (result sc)
  | None => result sc = None ∨ result sc = Some []
  end.

(** [n] calls of [next_statement]. *)
Fixpoint advance (n : nat) (sc : tstore_stream_context)
  : res tstore_stream_context :=
  match n with
  | O => Val sc
  | S n' =>
      r ← librdf_storage_tstore_serialise_next_statement sc;
      advance n' r.2
  end.

Section tstore_stream.
Context {T : Type} `{HashTable T} `{BuildConfig} `{UriNormalise}.
Implicit Types (w : librdf_world T).

Lemma first_triple_wf r search : stream_wf (first_triple r search).
Proof.
  destruct r as [[|t l]|]; unfold stream_wf; simpl; eauto.
Qed.

Lemma first_triple_pending r search :
  pending (first_triple r search) = default [] r.
Proof. by destruct r as [[|t l]|]. Qed.

Lemma next_statement_pending sc :
  stream_wf sc →
  ∃ sc', librdf_storage_tstore_serialise_next_statement sc
         = Val (librdf_storage_tstore_serialise_end_of_stream sc', sc')
         ∧ stream_wf sc' ∧ pending sc' = tail (pending sc)
         ∧ search_triple sc' = search_triple sc.
Proof.
  unfold stream_wf, pending, librdf_storage_tstore_serialise_next_statement.
  destruct sc as [r [t|] s]; simpl.
  - intros [l ->]. simpl. eexists. split; [done|].
    destruct l as [|t' l]; simpl; eauto.
  - intros Hr. exists {| result := r; triple := None; search_triple := s |}.
    by simpl.
Qed.

Lemma advance_pending n sc :
  stream_wf sc →
  ∃ sc', advance n sc = Val sc' ∧ stream_wf sc'
         ∧ pending sc' = drop n (pending sc)
         ∧ search_triple sc' = search_triple sc.
Proof.
  revert sc. induction n as [|n IH]; intros sc Hwf; simpl.
  - by exists sc.
  - destruct (next_statement_pending sc Hwf) as (sc1 & -> & Hwf1 & Hp & Hs).
    simpl. destruct (IH sc1 Hwf1) as (sc' & -> & Hwf' & Hp' & Hs').
    exists sc'. split_and!; [done|done| |congruence]. rewrite Hp', Hp.
    destruct (pending sc); simpl; [by rewrite drop_nil|done].
Qed.

Lemma drain_nil l : drain l = [].
Proof. by induction l. Qed.

Lemma finished_drained sc :
  stream_wf sc →
  ∃ left, librdf_storage_tstore_serialise_finished sc = Val left
          ∧ (left = None ∨ left = Some []).
Proof.
  unfold stream_wf, librdf_storage_tstore_serialise_finished.
  destruct (triple sc).
  - intros [l ->]. simpl. rewrite drain_nil. eauto.
  - intros Hr. eauto.
Qed.

(** C21: the stream over a result is a cursor over the list of its rows.
    After [n] calls of [next_statement] on the context [serialise] or
    [find_statements] set up, the current row is row [n] of the result,
    [end_of_stream] answers 1 exactly when [n] has reached the number of
    rows, and [finished] leaves no row of the result unread. *)
Theorem stream_refines_cursor r search n :
  ∃ sc, advance n (first_triple r search) = Val sc
        ∧ triple sc = default [] r !! n
        ∧ search_triple sc = search
        ∧ librdf_storage_tstore_serialise_end_of_stream sc
          = (if decide (length (default [] r) ≤ n)%nat then 1 else 0)
        ∧ ∃ left, librdf_storage_tstore_serialise_finished sc = Val left
                  ∧ (left = None ∨ left = Some []).
Proof.
  destruct (advance_pending n (first_triple r search)
              (first_triple_wf r search)) as (sc & Erun & Hwf & Hp & Hs).
  rewrite first_triple_pending in Hp.
  assert (triple sc = default [] r !! n) as Ht.
  { rewrite <- (Nat.add_0_r n), <- lookup_drop, <- Hp. unfold pending.
    by destruct (triple sc). }
  exists sc. split_and!; [done|done| | |by apply finished_drained].
  - rewrite Hs. by destruct r as [[|]|].
  - unfold librdf_storage_tstore_serialise_end_of_stream. rewrite Ht.
    case_decide.
    + by rewrite lookup_ge_None_2.
    + destruct (lookup_lt_is_Some_2 (default [] r) n) as [t ->]; [lia|done].
Qed.

(** The strings the storage writes for a blank node are read back as the
    strings of resources. *)
Lemma blank_string_run w usage b :
  blank_or_uri_string
    (Some {| node_usage := usage; node_value_of := value_blank b |}) w
  = Val (blank_identifier b, w).
Proof. reflexivity. Qed.

Lemma strncmp_prefix2 c1 c2 s :
  (c1, c2) ≠ (95, 58) → c1 ≠ 0 →
  strncmp_eq (c1 :: c2 :: s) (ascii "_:" ++ [0]) 2 = Val false.
Proof.
  intros Hc Hz. unfold strncmp_eq. simpl. repeat case_decide; naive_solver.
Qed.

(** C25: a blank node does not survive the storage.  For a blank subject
    [statement_as_rs_triple] stores the identifier as it is, without the
    prefix [_:] that [statement_from_rs_triple] looks for: unless the
    identifier itself starts with [_:], the string read back from the store
    is passed to [librdf_new_node_from_uri_string] and comes back as a
    resource. *)
Theorem blank_subject_read_back_as_resource w usage b c1 c2 s :
  blank_identifier b = Some (c1 :: c2 :: s) → (c1, c2) ≠ (95, 58) → c1 ≠ 0 →
  ∃ str, blank_or_uri_string
           (Some {| node_usage := usage; node_value_of := value_blank b |}) w
         = Val (Some str, w)
         ∧ ∀ w', subject_from_rs str w'
                 = librdf_new_node_from_uri_string (Some str) w'.
Proof.
  intros Hb Hc Hz. exists (c1 :: c2 :: s). split.
  - by rewrite blank_string_run, Hb.
  - intros w'. unfold subject_from_rs.
    by run_lift (strncmp_prefix2 c1 c2 s Hc Hz).
Qed.

Lemma object_from_rs_cases w c1 c2 s :
  object_from_rs (c1 :: c2 :: s) 0 w
  = (if decide (c1 = 58 ∧ c2 = 0)
     then librdf_new_node_from_blank_identifier (Some s) w
     else librdf_new_node_from_uri_string (Some (c1 :: c2 :: s)) w).
Proof.
  unfold object_from_rs, strncmp_eq.
  change (ascii ":" ++ [0]) with [58; 0]. simpl.
  destruct (decide (c1 = 58)) as [->|]; [destruct (decide (c2 = 0)) as [->|]|].
  + rewrite (decide_True (P:=58 = 58 ∧ 0 = 0)) by done. simpl.
    erewrite st_bind_val; last by apply st_lift_val.
    cbv iota. change (58 :: 0 :: s) with ([58; 0] ++ s).
    by run_lift (ptr_add_app [58; 0] s 2 eq_refl).
  + by rewrite (decide_False (P:=58 = 58 ∧ c2 = 0)) by naive_solver.
  + by rewrite (decide_False (P:=c1 = 58 ∧ c2 = 0)) by naive_solver.
Qed.

(** C26: the object of a triple is tested with [strncmp(object, ":", 2)],
    which also compares the terminator: the only object taken for a blank
    node is the string [:] itself, and its identifier is then read at
    [object+2], past the terminator; every other object that is not a
    literal, [_:id] included, is made a resource.  For the string [:] alone
    in its block the read is outside the block. *)
Theorem object_blank_prefix_test w c1 c2 s :
  object_from_rs (c1 :: c2 :: s) 0 w
  = (if decide (c1 = 58 ∧ c2 = 0)
     then librdf_new_node_from_blank_identifier (Some s) w
     else librdf_new_node_from_uri_string (Some (c1 :: c2 :: s)) w)
  ∧ (world_opened w = true → object_from_rs (ascii ":" ++ [0]) 0 w = Stuck UB).
Proof.
  split; [apply object_from_rs_cases|]. intros Ho.
  change (ascii ":" ++ [0]) with [58; 0]. rewrite object_from_rs_cases.
  rewrite decide_True by done. unfold librdf_new_node_from_blank_identifier.
  by run (librdf_world_open_run w Ho).
Qed.

End tstore_stream.

(** ** Examples *)

Section tstore_stream_examples.
#[local] Existing Instance default_build.
#[local] Existing Instance identity_normalise.

Lemma blank_subject_read_back_as_resource_witness :
  ∃ str, blank_or_uri_string
           (Some {| node_usage := 1;
                    node_value_of :=
                      value_blank {| blank_identifier := Some (ascii "genid42" ++ [0]);
                                     blank_identifier_len := 7 |} |})
           example_world
         = Val (Some str, example_world)
         ∧ ∀ w', subject_from_rs str w'
                 = librdf_new_node_from_uri_string (Some str) w'.
Proof.
  apply (blank_subject_read_back_as_resource example_world 1
           {| blank_identifier := Some (ascii "genid42" ++ [0]);
              blank_identifier_len := 7 |} 103 101 (ascii "nid42" ++ [0]));
    [reflexivity|discriminate|discriminate].
Defined.

Lemma object_blank_prefix_test_witness :
  object_from_rs (ascii ":" ++ [0]) 0 example_world = Stuck UB.
Proof.
  exact (proj2 (object_blank_prefix_test example_world 58 0 []) eq_refl).
Defined.

End tstore_stream_examples.
