(* ===== verification/SelfTest.v ===== *)
(** * The test program of src/rdf_node.c

    The [main] compiled under [STANDALONE] exercises the whole module: it
    builds nodes of every kind, encodes three of them and compares the
    bytes with the arrays of the file, decodes two encodings, checks that
    two ill-formed literals are refused, and frees everything.  [main] is
    the sequence of its calls on the world, with the value of each
    [return]; what it prints is left out, the calls that compute what is
    printed are kept. *)

From S2P Require Import Prelude CString Hash Uri Node Encode World Intern.
From S2P Require Import Decode.

#[local] Open Scope Z_scope.

Definition hp_string1 : list Z := ascii "http://purl.org/net/dajobe/" ++ [0].
Definition hp_string2 : list Z := ascii "http://purl.org/net/dajobe/" ++ [0].
Definition lit_string : list Z := ascii "Dave Beckett" ++ [0].
Definition genid : list Z := ascii "genid42" ++ [0].
Definition datatype_lit_string : list Z :=
  ascii "Datatyped literal value" ++ [0].
Definition datatype_uri_string : list Z :=
  ascii "http://example.org/datatypeURI" ++ [0].

Definition big_literal_N_encoded : list Z :=
  [0x4e; 0x00; 0x01; 0x86; 0xa0; 0x00; 0x00; 0x00; 0x58; 0x58; 0x58; 0x58;
   0x58; 0x58; 0x58; 0x58; 0x58; 0x58; 0x58; 0x58; 0x58; 0x58; 0x58; 0x58;
   0x58; 0x58; 0x58; 0x58; 0x58; 0x58; 0x58; 0x58].

(** The loop of [check_node] from index [i], [n] rounds to go. *)
Fixpoint check_node_from (expected buffer : list Z) (i : Z) (n : nat)
  : res Z :=
  match n with
  | O => Val 0
  | S n' =>
      c ← load buffer i;
      e ← load expected i;
      if decide (c ≠ e) then Val 1
      else check_node_from expected buffer (i + 1) n'
  end.

Definition check_node (expected : list Z) (buffer : option (list Z))
    (size : Z) : res Z :=
  if decide (size ≤ 0) then Val 0
  else
    b ← of_option buffer;
    check_node_from expected b 0 (Z.to_nat size).

(** The loop that fills [big_literal] with ['X']. *)
Definition fill_big_literal (big_literal : option (list Z))
    (big_literal_length : Z) : res (list Z) :=
  if decide (big_literal_length ≤ 0) then of_option big_literal
  else
    b ← of_option big_literal;
    poke b 0 (replicate (Z.to_nat big_literal_length) 0x58).

Section self_test.
Context {T : Type} `{HashTable T} `{BuildConfig} `{UriNormalise}.
Context `{Externals}.

Abbreviation M := (st (librdf_world T)).

(** [librdf_uri_print(uri, stdout)] reads the string of the URI. *)
Definition librdf_uri_print (uri : ptr) : M unit :=
  w ← st_get;
  _ ← st_lift (librdf_uri_as_string (world_uris w) uri);
  mret tt.

(** [librdf_node_print(node, stdout)]. *)
Definition print_node (node : ptr) : M unit :=
  n ← node_deref node;
  w ← st_get;
  e ← next_alloc;
  _ ← st_lift (librdf_node_print (world_uris w) n (Some [])
                 (match e with alloc_fail => false | alloc_ok _ => true end));
  mret tt.

(** [librdf_node_encode] on a pointer. *)
Definition encode_at (node : ptr) (buffer : option (list Z)) (length : Z)
  : M (Z * option (list Z)) :=
  n ← node_deref node;
  w ← st_get;
  r ← st_lift (librdf_node_encode (world_uris w) n buffer length);
  _ ← match encode_logged r with
      | Some e => librdf_log (log_encode e)
      | None => mret tt
      end;
  mret (encode_size r, encode_buffer r).

(** The three passages of [main] that encode a node: the measuring call,
    the buffer from [LIBRDF_MALLOC], the filling call and [check_node] on
    the first [checked size] bytes.  [None] stands for [return(1)]. *)
Definition encode_and_check (node : ptr) (expected : list Z)
    (checked : Z → Z) : M (option (Z * option (list Z))) :=
  m ← encode_at node None 0;
  let size := m.1 in
  buffer ← LIBRDF_MALLOC size;
  f ← encode_at node buffer size;
  if decide (f.1 ≠ size) then mret None
  else
    c ← st_lift (check_node expected f.2 (checked size));
    if decide (c ≠ 0) then mret None else mret (Some (size, f.2)).

(** [librdf_node_decode(world, NULL, buffer, size)]. *)
Definition decode_buffer (buffer : option (list Z)) (size : Z) : M ptr :=
  b ← st_lift (of_option buffer);
  r ← librdf_node_decode false b size;
  mret r.1.

(** [buffer=librdf_node_get_blank_identifier(node); if(!buffer) ...]. *)
Definition blank_identifier_missing (node : ptr) : M bool :=
  n ← node_deref node;
  buffer ← st_lift (librdf_node_get_blank_identifier n);
  mret (bool_decide (buffer = None)).

(** The end of [main]: the nodes are freed in the reverse order of their
    creation, then the world ([librdf_free_world] ends the node module). *)
Definition main_free (nodes : list ptr) : M Z :=
  _ ← foldr (λ node k, _ ← librdf_free_node node; k) (mret tt) nodes;
  _ ← librdf_finish_node;
  mret 0.

(** From the big literal on. *)
Definition main_big_literal (big_literal_length : Z) (nodes : list ptr)
  : M Z :=
  big_literal ← LIBRDF_MALLOC (big_literal_length + 1);
  big_literal ← st_lift (fill_big_literal big_literal big_literal_length);
  node9 ← librdf_new_node_from_typed_counted_literal (Some big_literal)
             big_literal_length None 0 NULL;
  if is_null node9 then mret 1
  else
    e ← encode_and_check node9 big_literal_N_encoded (λ _, 32);
    match e with
    | None => mret 1
    | Some _ => main_free (node9 :: nodes)
    end.

(** From the typed literal to the two literals that must be refused. *)
Definition main_typed_literal (big_literal_length : Z) (nodes : list ptr)
  : M Z :=
  uri2 ← librdf_new_uri datatype_uri_string;
  node7 ← librdf_new_node_from_typed_literal (Some datatype_lit_string) None
             uri2;
  _ ← librdf_free_uri uri2;
  e ← encode_and_check node7 datatyped_literal_M_encoded (λ size, size);
  match e with
  | None => mret 1
  | Some (size, buffer) =>
      node8 ← decode_buffer buffer size;
      if is_null node8 then mret 1
      else
        refused ← librdf_new_node_from_typed_literal
                    (Some (ascii "Datatyped literal value" ++ [0]))
                    (Some (ascii "en-GB" ++ [0])) uri2;
        if negb (is_null refused) then mret 1
        else
          refused ← librdf_new_node_from_literal
                      (Some (ascii "XML literal value" ++ [0]))
                      (Some (ascii "en-GB" ++ [0])) 1;
          if negb (is_null refused) then mret 1
          else main_big_literal big_literal_length (node8 :: node7 :: nodes)
  end.

(** From the plain literal to the generated blank node. *)
Definition main_literal_and_blank (big_literal_length : Z)
    (nodes : list ptr) : M Z :=
  node3 ← librdf_new_node_from_literal (Some lit_string) None 0;
  if is_null node3 then mret 1
  else
    n3 ← node_deref node3;
    buffer ← st_lift (librdf_node_get_literal_value_as_latin1 n3);
    if bool_decide (buffer = None) then mret 1
    else
      node4 ← librdf_new_node_from_blank_identifier (Some genid);
      if is_null node4 then mret 1
      else
        missing ← blank_identifier_missing node4;
        if (missing : bool) then mret 1
        else
          node5 ← librdf_new_node_from_node node4;
          if is_null node5 then mret 1
          else
            missing ← blank_identifier_missing node5;
            if (missing : bool) then mret 1
            else
              node6 ← librdf_new_node;
              if is_null node6 then mret 1
              else
                missing ← blank_identifier_missing node6;
                if (missing : bool) then mret 1
                else main_typed_literal big_literal_length
                       (node6 :: node5 :: node4 :: node3 :: nodes).

(** [main], with the length of the big literal as a parameter. *)
Definition main_with (big_literal_length : Z) : M Z :=
  _ ← librdf_world_open;
  node ← librdf_new_node_from_uri_string (Some hp_string1);
  if is_null node then mret 1
  else
    n ← node_deref node;
    uri ← st_lift (librdf_node_get_uri n);
    _ ← librdf_uri_print uri;
    uri ← librdf_new_uri hp_string2;
    _ ← librdf_uri_print uri;
    _ ← librdf_free_uri uri;
    _ ← print_node node;
    e ← encode_and_check node hp_uri_encoded (λ size, size);
    match e with
    | None => mret 1
    | Some (size, buffer) =>
        node2 ← decode_buffer buffer size;
        if is_null node2 then mret 1
        else
          _ ← print_node node2;
          main_literal_and_blank big_literal_length [node2; node]
    end.

Definition main : M Z := main_with 100000.

End self_test.

(** ** The world of the test *)

(** What the run of the test leaves: the exit status, the nodes and the
    URIs still allocated, the state of the mutex and the log. *)
Definition test_run `{HashTable T} `{BuildConfig} `{UriNormalise}
    `{Externals} (big_literal_length : Z) (allocs : list alloc_event)
  : res (Z * list ptr * list ptr * bool * list log_message) :=
  r ← main_with big_literal_length (librdf_new_world (T:=T) 42 allocs);
  Val (r.1, (map_to_list (world_nodes r.2)).*1,
       (map_to_list (uris (world_uris r.2))).*1, nodes_mutex r.2,
       world_log r.2).

(** The conversions of other modules the test prints with, on ASCII. *)
Definition ascii_externals : Externals :=
  {| raptor_string_ntriples_write := λ s len _, take (Z.to_nat len) s;
     librdf_utf8_to_latin1 := λ s len, Some (take (Z.to_nat len) s ++ [0]) |}.

(** ** The run of the test *)

Section run.
#[local] Existing Instance identity_normalise.
#[local] Existing Instance ascii_externals.

(** A run of the model on the data of the test, as a check of the model
    against the program: in every build configuration, when every
    allocation succeeds, [main] returns 0 and leaves no node and no URI,
    the mutex free and the log empty.  The properties of the functions
    [main] calls are the theorems of the other files. *)
Example main_returns_0 (build : BuildConfig) :
  test_run (T:=gmap librdf_hash_datum librdf_hash_datum) 100000 []
  = Val (0, [], [], false, []).
Proof. destruct build as [[] []]; vm_compute; reflexivity. Qed.

(** The test depends on the length of its big literal: with 70000 bytes
    the header of the encoding differs from [big_literal_N_encoded] and
    [main] returns 1, the nodes made so far never freed. *)
Example main_other_length_fails :
  test_run (H0:=default_build)
    (T:=gmap librdf_hash_datum librdf_hash_datum) 70000 []
  = Val (1, [6%N; 4%N; 2%N; 5%N; 3%N; 1%N], [2%N; 1%N], false, []).
Proof. vm_compute. reflexivity. Qed.

End run.
