(* ===== verification/Parser.v ===== *)
(** * The parser glue

    src/rdf_parser_raptor.c connects the raptor syntax parsers to the
    library.  raptor reads chunks of the input and calls back: once per
    triple ([librdf_parser_raptor_new_statement_handler]), once per
    namespace declaration ([librdf_parser_raptor_namespace_handler]), once
    per blank node identifier ([librdf_parser_raptor_generate_id_handler])
    and once per error or warning.  The handlers build nodes with the
    constructors of [Intern] and statements with [Statement], and queue
    them for the stream the caller reads, or add them to a model.

    raptor itself is the interface [Raptor]: parsing a chunk gives the
    events raptor calls back with and its return value.  A term of a
    raptor statement is its type together with the value the type says it
    has ([raptor_term]); both generations of the raptor interface are
    covered, selected by [RAPTOR_V2_AVAILABLE].

    [librdf_parser_raptor_parse_file_handle_as_stream] sets the stream up:
    it makes the stream context, its list and the sequences of the
    namespaces, registers the handlers ([handle_event] is the dispatch
    that results), starts the parse and reads the first statement.  The
    theorems are in [ParserStream]. *)

From S2P Require Import Prelude CString Hash Uri Node Encode World Intern.
From S2P Require Import Statement.

#[local] Open Scope Z_scope.

(** A subject, predicate or object as raptor passes it.  [rt_uri],
    [rt_blank] and [rt_literal] exist in both interfaces; the older one
    also has XML literals, ordinals and the predicate type. *)
Inductive raptor_term : Type :=
| rt_uri (uri : ptr)
| rt_blank (string : list Z)
| rt_literal (string : list Z) (language : option (list Z))
    (datatype : ptr)
| rt_xml_literal (string : list Z) (language : option (list Z))
| rt_ordinal (ordinal : Z)
| rt_predicate (uri : ptr)
| rt_unknown (type : Z).

(** The value of the type field, [RAPTOR_IDENTIFIER_TYPE_] of the older
    interface and [RAPTOR_TERM_TYPE_] of the newer. *)
Definition raptor_identifier_type (t : raptor_term) : Z :=
  match t with
  | rt_uri _ => 1
  | rt_blank _ => 2
  | rt_predicate _ => 3
  | rt_ordinal _ => 4
  | rt_literal _ _ _ => 5
  | rt_xml_literal _ _ => 6
  | rt_unknown type => type
  end.

Definition raptor_term_type (t : raptor_term) : Z :=
  match t with
  | rt_uri _ => 1
  | rt_literal _ _ _ => 2
  | rt_blank _ => 4
  | rt_unknown type => type
  | _ => 0
  end.

Record raptor_statement : Type := {
  raptor_subject : raptor_term;
  raptor_predicate : raptor_term;
  raptor_object : raptor_term;
}.

(** [raptor_namespace]: its URI and its prefix, either may be NULL. *)
Record raptor_namespace : Type := {
  namespace_uri : ptr;
  namespace_prefix : option (list Z);
}.

(** What raptor calls back with while it parses a chunk. *)
Inductive raptor_event : Type :=
| event_statement (s : raptor_statement)
| event_namespace (n : raptor_namespace)
| event_error (message : list Z)
| event_warning (message : list Z)
| event_generate_id (user_bnodeid : option (list Z)).

(** The raptor library: the interface in use, a parser as a state [R],
    parsing a chunk, and [raptor_parse_abort]; for the start of a parse,
    the flags of the description of the syntax
    ([raptor_parser_get_description], NULL when there is none),
    [raptor_get_need_base_uri] of the older interface,
    [raptor_parser_set_uri_filter], and [raptor_parser_parse_start] or
    [raptor_start_parse] with the base URI, which returns non-zero on
    failure. *)
Class Raptor (R : Type) : Type := {
  RAPTOR_V2_AVAILABLE : bool;
  raptor_parse_chunk : R → list Z → Z → Z → list raptor_event * Z * R;
  raptor_parse_abort : R → R;
  raptor_parser_get_description : R → option Z;
  raptor_get_need_base_uri : R → Z;
  raptor_parser_set_uri_filter : R → R;
  raptor_parser_parse_start : R → ptr → Z * R;
}.

(** [FILE]: what is left to read and the end-of-file indicator. *)
Record FILE : Type := {
  file_rest : list Z;
  file_eof : bool;
}.

Definition RAPTOR_IO_BUFFER_LEN : Z := 1024.

(** [fread(buffer, 1, RAPTOR_IO_BUFFER_LEN, fh)]: the bytes read and the
    file after it; the indicator is set when the file ends before the
    buffer is full. *)
Definition fread (fh : FILE) : list Z * FILE :=
  let n := Z.to_nat RAPTOR_IO_BUFFER_LEN in
  (take n (file_rest fh),
   {| file_rest := drop n (file_rest fh);
      file_eof := file_eof fh
                  || bool_decide (length (file_rest fh) < n)%nat |}).

(** [librdf_parser_raptor_context]; [uri_filter] is whether
    [parser->uri_filter] is set, [parser_name] the characters of the
    name. *)
Record librdf_parser_raptor_context (R : Type) : Type := {
  uri_filter : bool;
  parser_name : list Z;
  bnode_hash : option (gmap (list Z) (list Z));
  rdf_parser : option R;
  nspace_prefixes : option (list (option (list Z)));
  nspace_uris : option (list ptr);
  errors : Z;
  warnings : Z;
}.
Arguments uri_filter {R}.
Arguments parser_name {R}.
Arguments bnode_hash {R}.
Arguments rdf_parser {R}.
Arguments nspace_prefixes {R}.
Arguments nspace_uris {R}.
Arguments errors {R}.
Arguments warnings {R}.

(** [librdf_parser_raptor_stream_context], with the parser context it
    points to. *)
Record librdf_parser_raptor_stream_context (R : Type) : Type := {
  pcontext : librdf_parser_raptor_context R;
  fh : option FILE;
  close_fh : Z;
  finished : Z;
  model : option (list librdf_statement);
  current : option librdf_statement;
  statements : option (list librdf_statement);
}.
Arguments pcontext {R}.
Arguments fh {R}.
Arguments close_fh {R}.
Arguments finished {R}.
Arguments model {R}.
Arguments current {R}.
Arguments statements {R}.

Section setters.
Context {R : Type}.
Implicit Types (pc : librdf_parser_raptor_context R).
Implicit Types (sc : librdf_parser_raptor_stream_context R).

Definition set_rdf_parser (r : option R) pc : librdf_parser_raptor_context R :=
  {| uri_filter := uri_filter pc; parser_name := parser_name pc;
     bnode_hash := bnode_hash pc;
     rdf_parser := r; nspace_prefixes := nspace_prefixes pc;
     nspace_uris := nspace_uris pc; errors := errors pc;
     warnings := warnings pc |}.

Definition set_bnode_hash (h : option (gmap (list Z) (list Z))) pc
  : librdf_parser_raptor_context R :=
  {| uri_filter := uri_filter pc; parser_name := parser_name pc;
     bnode_hash := h;
     rdf_parser := rdf_parser pc; nspace_prefixes := nspace_prefixes pc;
     nspace_uris := nspace_uris pc; errors := errors pc;
     warnings := warnings pc |}.

Definition set_nspace_uris (l : option (list ptr)) pc
  : librdf_parser_raptor_context R :=
  {| uri_filter := uri_filter pc; parser_name := parser_name pc;
     bnode_hash := bnode_hash pc;
     rdf_parser := rdf_parser pc; nspace_prefixes := nspace_prefixes pc;
     nspace_uris := l; errors := errors pc; warnings := warnings pc |}.

Definition set_nspace_prefixes (l : option (list (option (list Z)))) pc
  : librdf_parser_raptor_context R :=
  {| uri_filter := uri_filter pc; parser_name := parser_name pc;
     bnode_hash := bnode_hash pc;
     rdf_parser := rdf_parser pc; nspace_prefixes := l;
     nspace_uris := nspace_uris pc; errors := errors pc;
     warnings := warnings pc |}.

Definition set_errors (n : Z) pc : librdf_parser_raptor_context R :=
  {| uri_filter := uri_filter pc; parser_name := parser_name pc;
     bnode_hash := bnode_hash pc;
     rdf_parser := rdf_parser pc; nspace_prefixes := nspace_prefixes pc;
     nspace_uris := nspace_uris pc; errors := n; warnings := warnings pc |}.

Definition set_warnings (n : Z) pc : librdf_parser_raptor_context R :=
  {| uri_filter := uri_filter pc; parser_name := parser_name pc;
     bnode_hash := bnode_hash pc;
     rdf_parser := rdf_parser pc; nspace_prefixes := nspace_prefixes pc;
     nspace_uris := nspace_uris pc; errors := errors pc; warnings := n |}.

Definition set_pcontext pc sc : librdf_parser_raptor_stream_context R :=
  {| pcontext := pc; fh := fh sc; close_fh := close_fh sc;
     finished := finished sc; model := model sc; current := current sc;
     statements := statements sc |}.

Definition set_close_fh (n : Z) sc : librdf_parser_raptor_stream_context R :=
  {| pcontext := pcontext sc; fh := fh sc; close_fh := n;
     finished := finished sc; model := model sc; current := current sc;
     statements := statements sc |}.

Definition set_fh (f : option FILE) sc
  : librdf_parser_raptor_stream_context R :=
  {| pcontext := pcontext sc; fh := f; close_fh := close_fh sc;
     finished := finished sc; model := model sc; current := current sc;
     statements := statements sc |}.

Definition set_finished (n : Z) sc : librdf_parser_raptor_stream_context R :=
  {| pcontext := pcontext sc; fh := fh sc; close_fh := close_fh sc;
     finished := n; model := model sc; current := current sc;
     statements := statements sc |}.

Definition set_model (m : option (list librdf_statement)) sc
  : librdf_parser_raptor_stream_context R :=
  {| pcontext := pcontext sc; fh := fh sc; close_fh := close_fh sc;
     finished := finished sc; model := m; current := current sc;
     statements := statements sc |}.

Definition set_current (s : option librdf_statement) sc
  : librdf_parser_raptor_stream_context R :=
  {| pcontext := pcontext sc; fh := fh sc; close_fh := close_fh sc;
     finished := finished sc; model := model sc; current := s;
     statements := statements sc |}.

Definition set_statements (l : option (list librdf_statement)) sc
  : librdf_parser_raptor_stream_context R :=
  {| pcontext := pcontext sc; fh := fh sc; close_fh := close_fh sc;
     finished := finished sc; model := model sc; current := current sc;
     statements := l |}.

End setters.

(** [sprintf("%d")] of an [int]. *)
Definition decimal_int (n : Z) : list Z :=
  if decide (n < 0) then 45 :: decimal (- n) else decimal n.

Definition rdf_ordinal_prefix : list Z :=
  ascii "http://www.w3.org/1999/02/22-rdf-syntax-ns#_".

Section parser.
Context {T : Type} `{HashTable T} `{BuildConfig} `{UriNormalise}.
Context {R : Type} `{Raptor R}.

Abbreviation M := (st (librdf_world T)).
Abbreviation stream_context := (librdf_parser_raptor_stream_context R).
Abbreviation parser_context := (librdf_parser_raptor_context R).

(** ** The statement handler *)

(** The type of a term as the messages print it. *)
Definition term_type (t : raptor_term) : Z :=
  if RAPTOR_V2_AVAILABLE then raptor_term_type t
  else raptor_identifier_type t.

(** The constructor call for a subject; [None] for a type that is not
    handled. *)
Definition subject_node (t : raptor_term) : option (M ptr) :=
  match t with
  | rt_blank s => Some (librdf_new_node_from_blank_identifier (Some s))
  | rt_uri uri => Some (librdf_new_node_from_uri uri)
  | _ => None
  end.

(** For a predicate: the older interface also has ordinals, printed into a
    buffer of 100 bytes after the prefix of the RDF namespace. *)
Definition predicate_node (t : raptor_term) : option (M ptr) :=
  match t with
  | rt_uri uri => Some (librdf_new_node_from_uri uri)
  | rt_ordinal ordinal =>
      if RAPTOR_V2_AVAILABLE then None
      else Some (librdf_new_node_from_uri_string
                   (Some (rdf_ordinal_prefix ++ decimal_int ordinal ++ [0])))
  | rt_predicate uri =>
      if RAPTOR_V2_AVAILABLE then None
      else Some (librdf_new_node_from_uri uri)
  | _ => None
  end.

(** For an object. *)
Definition object_node (t : raptor_term) : option (M ptr) :=
  match t with
  | rt_literal s language datatype =>
      Some (librdf_new_node_from_typed_literal (Some s) language datatype)
  | rt_xml_literal s language =>
      if RAPTOR_V2_AVAILABLE then None
      else Some (librdf_new_node_from_literal (Some s) language 1)
  | rt_blank s => Some (librdf_new_node_from_blank_identifier (Some s))
  | rt_uri uri => Some (librdf_new_node_from_uri uri)
  | _ => None
  end.

(** One part of the handler: the node is made; an unknown type and a
    failed constructor are logged, and the statement is freed. *)
Definition make_node (make : option (M ptr)) (unknown cannot : log_message)
    (statement : librdf_statement) : M (option ptr) :=
  match make with
  | None =>
      _ ← librdf_log unknown;
      _ ← librdf_free_statement (Some statement);
      mret None
  | Some m =>
      node ← m;
      if is_null node then
        _ ← librdf_log cannot;
        _ ← librdf_free_statement (Some statement);
        mret None
      else mret (Some node)
  end.

(** The end of the handler: the statement goes to the model, which copies
    it, or to the list of the stream, which keeps it. *)
Definition add_statement (sc : stream_context) (statement : librdf_statement)
  : M stream_context :=
  r ← match model sc with
      | Some m =>
          r ← librdf_model_add_statement m statement;
          _ ← librdf_free_statement (Some statement);
          mret (r.1, set_model (Some r.2) sc)
      | None =>
          l ← st_lift (of_option (statements sc));
          r ← librdf_list_add l statement;
          _ ← (if decide (r.1 ≠ 0)
               then librdf_free_statement (Some statement)
               else mret tt);
          mret (r.1, set_statements (Some r.2) sc)
      end;
  _ ← (if decide (r.1 ≠ 0) then librdf_log log_cannot_add_statement
       else mret tt);
  mret r.2.

Definition librdf_parser_raptor_new_statement_handler (sc : stream_context)
    (rstatement : raptor_statement) : M stream_context :=
  statement ← librdf_new_statement;
  match statement with
  | None => mret sc
  | Some statement =>
      let t := raptor_subject rstatement in
      node ← make_node (subject_node t)
                (log_unknown_subject_type (term_type t))
                log_cannot_create_subject statement;
      match node with
      | None => mret sc
      | Some node =>
          let statement := librdf_statement_set_subject statement node in
          let t := raptor_predicate rstatement in
          node ← make_node (predicate_node t)
                    (log_unknown_predicate_type (term_type t))
                    log_cannot_create_predicate statement;
          match node with
          | None => mret sc
          | Some node =>
              let statement :=
                librdf_statement_set_predicate statement node in
              let t := raptor_object rstatement in
              node ← make_node (object_node t)
                        (log_unknown_object_type (term_type t))
                        log_cannot_create_object statement;
              match node with
              | None => mret sc
              | Some node =>
                  add_statement sc
                    (librdf_statement_set_object statement node)
              end
          end
      end
  end.

(** ** The namespace handler *)

(** The loop over [nspace_uris]: whether the URI has been seen. *)
Definition namespace_seen (uri : ptr) (uris : list ptr) : bool :=
  existsb (λ u, librdf_uri_equals uri u) uris.

(** The copy of the prefix that is pushed: NULL for no prefix and when the
    allocation fails. *)
Definition copy_prefix (prefix : option (list Z)) : M (option (list Z)) :=
  match prefix with
  | None => mret None
  | Some p =>
      prefix_length ← st_lift (strlen p);
      nprefix ← LIBRDF_MALLOC (prefix_length + 1);
      match nprefix with
      | None => mret None
      | Some b =>
          bytes ← st_lift (strncpy_bytes p (prefix_length + 1));
          b ← st_lift (poke b 0 bytes);
          mret (Some b)
      end
  end.

Definition librdf_parser_raptor_namespace_handler (pc : parser_context)
    (nspace : raptor_namespace) : M parser_context :=
  let uri := namespace_uri nspace in
  if is_null uri then mret pc
  else
    uris ← st_lift (of_option (nspace_uris pc));
    if namespace_seen uri uris then mret pc
    else
      uri ← librdf_new_uri_from_uri uri;
      let pc := set_nspace_uris (Some (uris ++ [uri])) pc in
      nprefix ← copy_prefix (namespace_prefix nspace);
      prefixes ← st_lift (of_option (nspace_prefixes pc));
      mret (set_nspace_prefixes (Some (prefixes ++ [nprefix])) pc).

(** ** Errors and warnings (the older interface) *)

Definition LIBRDF_LOG_WARN : Z := 3.
Definition LIBRDF_LOG_ERROR : Z := 4.

(** [pcontext->errors++] on an [int]. *)
Definition count_up (n : Z) : res Z :=
  if decide (n = INT_MAX) then Stuck UB else Val (n + 1).

Definition librdf_parser_raptor_error_handler (pc : parser_context)
    (message : list Z) : M parser_context :=
  n ← st_lift (count_up (errors pc));
  r ← st_lift (of_option (rdf_parser pc));
  _ ← librdf_log (log_simple LIBRDF_LOG_ERROR message);
  mret (set_rdf_parser (Some (raptor_parse_abort r)) (set_errors n pc)).

Definition librdf_parser_raptor_warning_handler (pc : parser_context)
    (message : list Z) : M parser_context :=
  n ← st_lift (count_up (warnings pc));
  _ ← librdf_log (log_simple LIBRDF_LOG_WARN message);
  mret (set_warnings n pc).

(** ** Blank node identifiers *)

(** [librdf_hash_get]: a new copy of the string stored for the key, NULL
    when there is none or the copy cannot be made.  The table holds the
    strings without their terminators. *)
Definition librdf_hash_get (h : gmap (list Z) (list Z)) (key : list Z)
  : M (option (list Z)) :=
  match h !! key with
  | None => mret None
  | Some v =>
      e ← next_alloc;
      mret (match e with
            | alloc_fail => None
            | alloc_ok _ => Some (v ++ [0])
            end)
  end.

(** [librdf_hash_put_strings]: non-zero on failure. *)
Definition librdf_hash_put_strings (h : gmap (list Z) (list Z))
    (key value : list Z) : M (Z * gmap (list Z) (list Z)) :=
  e ← next_alloc;
  mret (match e with
        | alloc_fail => (1, h)
        | alloc_ok _ => (0, <[key := value]> h)
        end).

(** The identifier the library uses for a blank node: the one mapped to
    the identifier of the document, a new one recorded for it, or a new
    one when the document gives none. *)
Definition librdf_parser_raptor_generate_id_handler (pc : parser_context)
    (user_bnodeid : option (list Z))
  : M (option (list Z) * parser_context) :=
  match user_bnodeid with
  | Some id =>
      h ← st_lift (of_option (bnode_hash pc));
      key ← st_lift (c_str id);
      mapped_id ← librdf_hash_get h key;
      match mapped_id with
      | Some m => mret (Some m, pc)
      | None =>
          mapped_id ← librdf_world_get_genid;
          match mapped_id with
          | None => mret (None, pc)
          | Some m =>
              value ← st_lift (c_str m);
              r ← librdf_hash_put_strings h key value;
              if decide (r.1 ≠ 0) then mret (None, pc)
              else mret (Some m, set_bnode_hash (Some r.2) pc)
          end
      end
  | None => g ← librdf_world_get_genid; mret (g, pc)
  end.

(** ** Reading the input *)

(** The handler raptor calls for an event, as
    [librdf_parser_raptor_parse_file_handle_as_stream] registers them.
    With the newer interface errors and warnings go to the handler of the
    world, not to this file.  The identifier the last handler returns goes
    to raptor. *)
Definition handle_event (sc : stream_context) (ev : raptor_event)
  : M stream_context :=
  match ev with
  | event_statement s => librdf_parser_raptor_new_statement_handler sc s
  | event_namespace n =>
      pc ← librdf_parser_raptor_namespace_handler (pcontext sc) n;
      mret (set_pcontext pc sc)
  | event_error message =>
      if RAPTOR_V2_AVAILABLE then mret sc
      else
        pc ← librdf_parser_raptor_error_handler (pcontext sc) message;
        mret (set_pcontext pc sc)
  | event_warning message =>
      if RAPTOR_V2_AVAILABLE then mret sc
      else
        pc ← librdf_parser_raptor_warning_handler (pcontext sc) message;
        mret (set_pcontext pc sc)
  | event_generate_id user_bnodeid =>
      r ← librdf_parser_raptor_generate_id_handler (pcontext sc)
            user_bnodeid;
      mret (set_pcontext r.2 sc)
  end.

Fixpoint handle_events (sc : stream_context) (evs : list raptor_event)
  : M stream_context :=
  match evs with
  | [] => mret sc
  | ev :: evs' => sc ← handle_event sc ev; handle_events sc evs'
  end.

(** [raptor_parse_chunk] with the callbacks it makes. *)
Definition parse_chunk (sc : stream_context) (buffer : list Z) (len : Z)
    (is_end : Z) : M (Z * stream_context) :=
  r ← st_lift (of_option (rdf_parser (pcontext sc)));
  let out := raptor_parse_chunk r buffer len is_end in
  sc ← handle_events
         (set_pcontext (set_rdf_parser (Some out.2) (pcontext sc)) sc)
         out.1.1;
  mret (out.1.2, sc).

(** One round of the loop of [librdf_parser_raptor_get_next_statement] on
    the file [f]: [inl] is [status] and the context at a [break], [inr]
    the context the next round starts with. *)
Definition next_statement_round (f : FILE) (sc : stream_context)
  : M (Z * stream_context + stream_context) :=
  let rd := fread f in
  let len := Z.of_nat (length rd.1) in
  let is_end := if decide (len < RAPTOR_IO_BUFFER_LEN) then 1 else 0 in
  r ← parse_chunk (set_fh (Some rd.2) sc) rd.1 len is_end;
  let sc := r.2 in
  if decide (r.1 ≠ 0) then mret (inl (-1, sc))
  else
    l ← st_lift (of_option (statements sc));
    if decide (librdf_list_size l ≠ 0) then
      let p := librdf_list_pop l in
      mret (inl (1, set_statements (Some p.2) (set_current p.1 sc)))
    else if decide (len < RAPTOR_IO_BUFFER_LEN) then mret (inl (0, sc))
    else mret (inr sc).

(** The loop: [status] and the context when the loop is left; [None]
    when [fuel] rounds were not enough. *)
Fixpoint next_statement_loop (fuel : nat) (sc : stream_context)
  : M (option (Z * stream_context)) :=
  f ← st_lift (of_option (fh sc));
  if file_eof f then mret (Some (0, sc))
  else
    match fuel with
    | O => mret None
    | S fuel' =>
        r ← next_statement_round f sc;
        match r with
        | inl out => mret (Some out)
        | inr sc => next_statement_loop fuel' sc
        end
    end.

(** The rounds the loop can make on a file: one per full buffer, and
    one. *)
Definition rounds (f : FILE) : nat :=
  S (length (file_rest f) / Z.to_nat RAPTOR_IO_BUFFER_LEN).

Definition librdf_parser_raptor_get_next_statement (sc : stream_context)
  : M (option (Z * stream_context)) :=
  match fh sc with
  | None => mret (Some (0, sc))
  | Some f =>
      if decide (finished sc ≠ 0) then mret (Some (0, sc))
      else
        r ← next_statement_loop (rounds f) (set_current None sc);
        match r with
        | None => mret None
        | Some (status, sc) =>
            f ← st_lift (of_option (fh sc));
            if file_eof f || bool_decide (status < 1)
            then mret (Some (status, set_finished 1 sc))
            else mret (Some (status, sc))
        end
  end.

(** ** The stream of parsed statements *)

Definition librdf_parser_raptor_serialise_end_of_stream
    (sc : stream_context) : res Z :=
  match current sc with
  | Some _ => Val 0
  | None =>
      l ← of_option (statements sc);
      Val (if decide (librdf_list_size l ≠ 0) then 0 else 1)
  end.

(** The loop of [librdf_parser_raptor_serialise_next_statement]; [None]
    when [fuel] rounds were not enough. *)
Fixpoint serialise_next_loop (fuel : nat) (sc : stream_context)
  : M (option stream_context) :=
  match current sc with
  | Some _ => mret (Some sc)
  | None =>
      match fuel with
      | O => mret None
      | S fuel' =>
          l ← st_lift (of_option (statements sc));
          let p := librdf_list_pop l in
          let sc := set_statements (Some p.2) (set_current p.1 sc) in
          match p.1 with
          | Some _ => mret (Some sc)
          | None =>
              r ← librdf_parser_raptor_get_next_statement sc;
              match r with
              | None => mret None
              | Some (status, sc) =>
                  if decide (status ≤ 0) then mret (Some sc)
                  else serialise_next_loop fuel' sc
              end
          end
      end
  end.

Definition librdf_parser_raptor_serialise_next_statement
    (sc : stream_context) : M (option (Z * stream_context)) :=
  _ ← librdf_free_statement (current sc);
  r ← serialise_next_loop 2 (set_current None sc);
  match r with
  | None => mret None
  | Some sc =>
      mret (Some (match current sc with None => 1 | Some _ => 0 end, sc))
  end.

Definition librdf_parser_raptor_serialise_get_statement
    (sc : stream_context) (flags : Z) : M (option librdf_statement) :=
  if decide (flags = LIBRDF_ITERATOR_GET_METHOD_GET_OBJECT) then
    mret (current sc)
  else if decide (flags = LIBRDF_ITERATOR_GET_METHOD_GET_CONTEXT) then
    mret None
  else
    _ ← librdf_log (log_unknown_iterator_flag flags);
    mret None.

(** [librdf_parser_raptor_serialise_finished]: the current statement and
    the ones still queued are freed, from the end of the list. *)
Definition librdf_parser_raptor_serialise_finished
    (scontext : option stream_context) : M unit :=
  match scontext with
  | None => mret tt
  | Some sc =>
      _ ← librdf_free_statement (current sc);
      match statements sc with
      | None => mret tt
      | Some l =>
          foldl (λ k s, _ ← librdf_free_statement (Some s); k) (mret tt) l
      end
  end.

(** ** Parsing a file as a stream *)

Definition RAPTOR_SYNTAX_NEED_BASE_URI : Z := 1.
Definition LIBRDF_LOG_FATAL : Z := 5.

(** [need_base_uri] as the function computes it; [None] when raptor has
    no description of the syntax. *)
Definition need_base_uri (r : R) : option Z :=
  if RAPTOR_V2_AVAILABLE then
    (λ flags, Z.land flags RAPTOR_SYNTAX_NEED_BASE_URI)
      <$> raptor_parser_get_description r
  else Some (raptor_get_need_base_uri r).

(** [raptor_new_sequence]: an empty sequence, or NULL. *)
Definition raptor_new_sequence {A} : M (option (list A)) :=
  e ← next_alloc;
  mret (match e with alloc_fail => None | alloc_ok _ => Some [] end).

(** [raptor_free_sequence(pcontext->nspace_uris)]: the sequence releases
    each URI with [librdf_free_uri]. *)
Definition free_nspace_uris (l : option (list ptr)) : M unit :=
  match l with
  | None => mret tt
  | Some l => foldr (λ uri k, _ ← librdf_free_uri uri; k) (mret tt) l
  end.

(** The label [oom]: the stream context is finished and the failure is
    logged; the function returns NULL. *)
Definition parse_oom (scontext : option stream_context) (pc : parser_context)
  : M (option (option stream_context * parser_context)) :=
  _ ← librdf_parser_raptor_serialise_finished scontext;
  _ ← librdf_log (log_simple LIBRDF_LOG_FATAL (ascii "Out of memory"));
  mret (Some (None, pc)).

(** The end of the function, from the URI filter: the parse is started,
    the first statement read, and the stream made. *)
Definition start_parse (sc : stream_context) (r : R) (base_uri : ptr)
  : M (option (option stream_context * parser_context)) :=
  let r := if uri_filter (pcontext sc) then raptor_parser_set_uri_filter r
           else r in
  let rc := raptor_parser_parse_start r base_uri in
  let sc := set_pcontext (set_rdf_parser (Some rc.2) (pcontext sc)) sc in
  if decide (rc.1 ≠ 0) then parse_oom (Some sc) (pcontext sc)
  else
    n ← librdf_parser_raptor_get_next_statement sc;
    match n with
    | None => mret None
    | Some (_, sc) =>
        stream ← librdf_new_stream;
        if (stream : bool) then mret (Some (Some sc, pcontext sc))
        else parse_oom (Some sc) (pcontext sc)
    end.

(** The middle of the function: the stream context, its list and the two
    sequences of the namespaces are allocated. *)
Definition new_stream_context (pc : parser_context) (r : R) (fh : FILE)
    (close_fh : Z) (base_uri : ptr)
  : M (option (option stream_context * parser_context)) :=
  e ← next_alloc;
  match e with
  | alloc_fail => parse_oom None pc
  | alloc_ok _ =>
      let sc := {| pcontext := pc; fh := None; close_fh := 0; finished := 0;
                   model := None; current := None; statements := None |} in
      l ← librdf_new_list;
      let sc := set_statements l sc in
      match l with
      | None => parse_oom (Some sc) pc
      | Some _ =>
          prefixes ← raptor_new_sequence;
          let pc := set_nspace_prefixes prefixes pc in
          match prefixes with
          | None => parse_oom (Some (set_pcontext pc sc)) pc
          | Some _ =>
              _ ← free_nspace_uris (nspace_uris pc);
              uris ← raptor_new_sequence;
              let pc := set_nspace_uris uris pc in
              match uris with
              | None => parse_oom (Some (set_pcontext pc sc)) pc
              | Some _ =>
                  start_parse
                    (set_close_fh close_fh
                       (set_fh (Some fh) (set_pcontext pc sc)))
                    r base_uri
              end
          end
      end
  end.

(** [librdf_parser_raptor_parse_file_handle_as_stream]: the stream context
    of the stream returned, or NULL, and the parser context as the call
    leaves it; [None] when the rounds of the reading loop were not
    enough. *)
Definition librdf_parser_raptor_parse_file_handle_as_stream
    (pc : parser_context) (fh : FILE) (close_fh : Z) (base_uri : ptr)
  : M (option (option stream_context * parser_context)) :=
  _ ← librdf_world_open;
  r ← st_lift (of_option (rdf_parser pc));
  match need_base_uri r with
  | None =>
      _ ← librdf_log
            (log_simple LIBRDF_LOG_ERROR
               (ascii "Could not get description for " ++ parser_name pc
                ++ ascii " parser"));
      mret (Some (None, pc))
  | Some need =>
      if bool_decide (need ≠ 0) && is_null base_uri then
        _ ← librdf_log
              (log_simple LIBRDF_LOG_ERROR
                 (ascii "Missing base URI for " ++ parser_name pc
                  ++ ascii " parser"));
        mret (Some (None, pc))
      else
        new_stream_context (set_warnings 0 (set_errors 0 pc)) r fh close_fh
          base_uri
  end.

(** ** The namespaces seen *)

(** [raptor_sequence_get_at]: NULL outside the sequence. *)
Definition raptor_sequence_get_at {A} (seq : list A) (idx : Z) : option A :=
  if decide (idx < 0) then None else seq !! Z.to_nat idx.

Definition librdf_parser_raptor_get_namespaces_seen_prefix
    (pc : parser_context) (offset : Z) : option (list Z) :=
  match nspace_prefixes pc with
  | None => None
  | Some l =>
      if decide (offset < 0 ∨ offset > Z.of_nat (length l)) then None
      else mjoin (raptor_sequence_get_at l offset)
  end.

Definition librdf_parser_raptor_get_namespaces_seen_uri
    (pc : parser_context) (offset : Z) : ptr :=
  match nspace_uris pc with
  | None => NULL
  | Some l =>
      if decide (offset < 0 ∨ offset > Z.of_nat (length l)) then NULL
      else default NULL (raptor_sequence_get_at l offset)
  end.

Definition librdf_parser_raptor_get_namespaces_seen_count
    (pc : parser_context) : Z :=
  match nspace_uris pc with
  | None => 0
  | Some l => Z.of_nat (length l)
  end.

End parser.
