(* ===== verification/ParserStream.v ===== *)
(** * The stream of the parser

    Theorems about src/rdf_parser_raptor.c as [Parser] models it.

    - The handlers raptor calls back leave the file, the current
      statement and the flags of the stream context alone ([frame]), and
      keep the two sequences of the namespaces seen in order
      ([namespaces_wf]).
    - The two loops of the stream terminate: the reading loop within
      [rounds f] rounds on a file [f], the loop of [next_statement]
      within one; the rounds the model gives them are never used up.
    - Every stream ends: a call of [next_statement] that does not end
      the stream takes a statement from the queue or uses up a round of
      reading ([rounds_left], [queued]).
    - [librdf_parser_raptor_parse_file_handle_as_stream] returns such a
      stream or NULL after a message, and reports a parse that raptor
      refuses to start as a lack of memory.

    The theorems hold for every raptor, that is for every instance of
    the class [Raptor]; the examples at the end use one that finds a
    triple in every chunk. *)

From S2P Require Import Prelude CString Hash Uri Node Encode World Intern.
From S2P Require Import Statement Parser.

#[local] Open Scope Z_scope.

(** What the handlers leave of a stream context: the file, the current
    statement and the flags; they change the parser context, the model and
    the queue. *)
Definition frame {R} (sc sc' : librdf_parser_raptor_stream_context R) : Prop :=
  fh sc' = fh sc ∧ current sc' = current sc ∧ finished sc' = finished sc
  ∧ close_fh sc' = close_fh sc.

(** The rounds of reading a stream has left: none once it is finished. *)
Definition rounds_left {R} (sc : librdf_parser_raptor_stream_context R)
  : nat :=
  match fh sc with
  | Some f => if decide (finished sc ≠ 0) then 0 else rounds f
  | None => 0
  end.

(** The statements queued. *)
Definition queued {R} (sc : librdf_parser_raptor_stream_context R) : nat :=
  length (default [] (statements sc)).

(** The two sequences of the namespaces seen: of the same length, with
    no URI twice and no NULL URI. *)
Definition namespaces_wf {R} (pc : librdf_parser_raptor_context R) : Prop :=
  ∃ us ps, nspace_uris pc = Some us ∧ nspace_prefixes pc = Some ps
           ∧ length us = length ps ∧ NoDup us ∧ NULL ∉ us.

(** The messages [librdf_parser_raptor_parse_file_handle_as_stream] logs
    before it returns NULL. *)
Definition start_messages (parser_name : list Z) : list log_message :=
  [log_simple LIBRDF_LOG_ERROR
     (ascii "Could not get description for " ++ parser_name
      ++ ascii " parser");
   log_simple LIBRDF_LOG_ERROR
     (ascii "Missing base URI for " ++ parser_name ++ ascii " parser");
   log_simple LIBRDF_LOG_FATAL (ascii "Out of memory")].

(** A triple with blank nodes and an ordinal predicate. *)
Definition one_triple : raptor_statement :=
  {| raptor_subject := rt_blank (ascii "a" ++ [0]);
     raptor_predicate := rt_ordinal 1;
     raptor_object := rt_blank (ascii "b" ++ [0]) |}.

(** A raptor of the older interface that finds [one_triple] in every
    chunk, and whose start returns [start]. *)
Definition chunk_raptor (start : Z) : Raptor unit :=
  {| RAPTOR_V2_AVAILABLE := false;
     raptor_parse_chunk := λ r _ _ _, ([event_statement one_triple], 0, r);
     raptor_parse_abort := id;
     raptor_parser_get_description := λ _, None;
     raptor_get_need_base_uri := λ _, 0;
     raptor_parser_set_uri_filter := id;
     raptor_parser_parse_start := λ r _, (start, r) |}.

(** The two raptors of the examples: one starts the parse, one refuses. *)
Definition working_raptor : Raptor unit := chunk_raptor 0.

Definition failing_raptor : Raptor unit := chunk_raptor 1.

(** A parser that has seen one namespace, without a prefix. *)
Definition example_parser : librdf_parser_raptor_context unit :=
  {| uri_filter := false; parser_name := ascii "ntriples";
     bnode_hash := Some ∅; rdf_parser := Some tt;
     nspace_prefixes := Some [None]; nspace_uris := Some [5%N];
     errors := 0; warnings := 0 |}.

(** The parser before its first parse. *)
Definition fresh_parser : librdf_parser_raptor_context unit :=
  set_nspace_uris None (set_nspace_prefixes None example_parser).

(** A file of one line, shorter than a buffer. *)
Definition example_file : FILE :=
  {| file_rest := ascii "_:a rdf:_1 _:b ."; file_eof := false |}.

(** The stream context of a parse of [example_file] before its first
    statement. *)
Definition example_stream : librdf_parser_raptor_stream_context unit :=
  {| pcontext := example_parser; fh := Some example_file; close_fh := 0;
     finished := 0; model := None; current := None;
     statements := Some [] |}.

Section parser_stream.
Context {T : Type} `{HashTable T} `{BuildConfig} `{UriNormalise}.
Context {R : Type} `{Raptor R}.
Implicit Types (w : librdf_world T).
Implicit Types (sc : librdf_parser_raptor_stream_context R).
Implicit Types (pc : librdf_parser_raptor_context R).

(** The stream has ended, or a run is stuck, within [n] more calls of
    [next_statement]. *)
Fixpoint ends_within (n : nat) sc w : Prop :=
  match librdf_parser_raptor_serialise_next_statement sc w with
  | Val (Some (rc, sc'), w') =>
      rc ≠ 0 ∨ match n with O => False | S n' => ends_within n' sc' w' end
  | Val (None, _) => False
  | Stuck _ => True
  end.

(** What [librdf_parser_raptor_parse_file_handle_as_stream] promises of
    its result, for the parser called [name]: a stream over an open file
    with the sequences of the namespaces in order, or NULL with the
    reason as the last message of the log. *)
Definition stream_started (name : list Z)
    (r : option (option (librdf_parser_raptor_stream_context R)
                 * librdf_parser_raptor_context R))
    (w : librdf_world T) : Prop :=
  ∃ stream pc', r = Some (stream, pc') ∧
    match stream with
    | Some sc => pcontext sc = pc' ∧ namespaces_wf pc' ∧ is_Some (fh sc)
    | None => ∃ l msg, world_log w = l ++ [msg] ∧ msg ∈ start_messages name
    end.

Lemma frame_refl sc : frame sc sc.
Proof. done. Qed.

Lemma frame_trans sc1 sc2 sc3 : frame sc1 sc2 → frame sc2 sc3 → frame sc1 sc3.
Proof. unfold frame. intros (-> & -> & -> & ->) (-> & -> & -> & ->). done. Qed.

Lemma frame_pcontext sc pc : frame sc (set_pcontext pc sc).
Proof. done. Qed.

Lemma add_statement_frame sc statement :
  returns (add_statement sc statement)
    (λ sc', frame sc sc' ∧ pcontext sc' = pcontext sc).
Proof.
  unfold add_statement.
  apply (returns_bind (λ r, frame sc r.2 ∧ pcontext r.2 = pcontext sc)).
  - destruct (model sc); repeat (apply returns_bind_any; intros);
      by apply returns_ret.
  - intros r Hr. apply returns_bind_any. intros _. by apply returns_ret.
Qed.

Lemma new_statement_handler_frame sc rstatement :
  returns (librdf_parser_raptor_new_statement_handler sc rstatement)
    (λ sc', frame sc sc' ∧ pcontext sc' = pcontext sc).
Proof.
  unfold librdf_parser_raptor_new_statement_handler.
  apply returns_bind_any. intros [statement|]; [|by apply returns_ret].
  do 3 (apply returns_bind_any; intros [?|]; [|by apply returns_ret]).
  apply add_statement_frame.
Qed.

Lemma handle_event_frame sc ev : returns (handle_event sc ev) (frame sc).
Proof.
  destruct ev; simpl;
    [eapply returns_mono; [apply new_statement_handler_frame|by intros ? []]
    |..];
    try destruct RAPTOR_V2_AVAILABLE;
    try (by apply returns_ret);
    apply returns_bind_any; intros; by apply returns_ret.
Qed.

Lemma handle_events_frame evs sc : returns (handle_events sc evs) (frame sc).
Proof.
  revert sc. induction evs as [|ev evs IH]; intros sc; simpl.
  - by apply returns_ret.
  - apply (returns_bind (frame sc)); [apply handle_event_frame|].
    intros sc1 Hf1. eapply returns_mono; [apply IH|].
    intros sc2. by apply frame_trans.
Qed.

Lemma parse_chunk_frame sc buffer len is_end :
  returns (parse_chunk sc buffer len is_end) (λ r, frame sc r.2).
Proof.
  unfold parse_chunk. apply returns_bind_any. intros r.
  eapply returns_bind; [apply handle_events_frame|].
  intros sc1 Hf1. by apply returns_ret.
Qed.

Lemma div_sub_divisor (L k : nat) :
  (0 < k → k ≤ L → L / k = S ((L - k) / k))%nat.
Proof.
  intros Hk Hle. rewrite <- (Nat.add_1_r ((L - k) / k)).
  rewrite <- Nat.div_add by lia. f_equal. lia.
Qed.

(** A round of the loop that reads a full buffer leaves a file with one
    round less to go. *)
Lemma rounds_fread f :
  ¬ Z.of_nat (length (fread f).1) < RAPTOR_IO_BUFFER_LEN →
  rounds f = S (rounds (fread f).2).
Proof.
  unfold rounds, fread, RAPTOR_IO_BUFFER_LEN. cbn [fst snd file_rest].
  change (Z.to_nat 1024) with (Pos.to_nat 1024).
  rewrite length_take, length_drop. intros Hlen. f_equal.
  apply div_sub_divisor; lia.
Qed.

(** What a round returns: at a [break] with a statement the statement is
    current; a round that goes on has read a full buffer. *)
Lemma next_statement_round_returns f sc :
  returns (next_statement_round f sc) (λ r,
    match r with
    | inl (status, sc') =>
        fh sc' = Some (fread f).2 ∧ finished sc' = finished sc
        ∧ -1 ≤ status ≤ 1 ∧ (0 < status → is_Some (current sc'))
        ∧ (status < 1 → current sc' = current sc)
    | inr sc' => fh sc' = Some (fread f).2 ∧ rounds f = S (rounds (fread f).2)
                 ∧ finished sc' = finished sc ∧ current sc' = current sc
    end).
Proof.
  unfold next_statement_round. cbv zeta.
  eapply returns_bind; [apply parse_chunk_frame|].
  intros [rc sc1] (Hfh & Hcur & Hfin & _). cbn [fst snd] in *.
  change (fh (set_fh _ _)) with (Some (fread f).2) in Hfh.
  change (current (set_fh _ _)) with (current sc) in Hcur.
  change (finished (set_fh _ _)) with (finished sc) in Hfin.
  destruct (decide (rc ≠ 0));
    [apply returns_ret; split_and!; [done|done|lia..|done]|].
  apply returns_bind_any. intros l.
  destruct (decide (librdf_list_size l ≠ 0)) as [Hl|Hl].
  - apply returns_ret. split_and!; [done|done|lia|lia| |lia]. intros _.
    apply lookup_lt_is_Some_2. unfold librdf_list_size in Hl. lia.
  - destruct (decide (Z.of_nat (length (fread f).1) < RAPTOR_IO_BUFFER_LEN));
      apply returns_ret.
    + split_and!; [done|done|lia..|done].
    + split_and!; [done|by apply rounds_fread|done|done].
Qed.

Lemma next_statement_loop_S n sc :
  next_statement_loop (S n) sc
  = (f ← st_lift (of_option (fh sc));
     if file_eof f then mret (Some (0, sc))
     else
       r ← next_statement_round f sc;
       match r with
       | inl out => mret (Some out)
       | inr sc => next_statement_loop n sc
       end).
Proof. reflexivity. Qed.

(** With the rounds of its file the loop does not run out of rounds, and
    more rounds do not change what it does. *)
Lemma next_statement_loop_enough n sc f w :
  fh sc = Some f → (rounds f ≤ n)%nat →
  next_statement_loop n sc w = next_statement_loop (rounds f) sc w
  ∧ ∀ w', next_statement_loop n sc w ≠ Val (None, w').
Proof.
  revert sc f w. induction n as [|n IH]; intros sc f w Hf Hn;
    [unfold rounds in Hn; lia|].
  destruct (rounds f) as [|k] eqn:Hk; [done|].
  rewrite !next_statement_loop_S, Hf.
  unfold mbind at 1 3 5, st_bind. cbn [st_lift of_option].
  destruct (file_eof f); [done|].
  destruct (next_statement_round f sc w) as [[[out|sc1] w1]|e] eqn:E;
    rewrite ?(st_bind_val _ _ _ _ _ E), ?(st_bind_stuck _ _ _ _ E); try done.
  destruct (next_statement_round_returns f sc _ _ _ E) as (Hf1 & Hr & _).
  rewrite Hk in Hr. injection Hr as ->. apply le_S_n in Hn.
  apply (IH sc1 _ w1 Hf1 Hn).
Qed.

(** What the loop leaves when it is left: a file, and with a positive
    status a current statement. *)
Lemma next_statement_loop_returns n sc :
  returns (next_statement_loop n sc) (λ r,
    ∀ status sc', r = Some (status, sc') →
      is_Some (fh sc') ∧ finished sc' = finished sc ∧ -1 ≤ status ≤ 1
      ∧ (0 < status → is_Some (current sc'))
      ∧ (status < 1 → current sc' = current sc)).
Proof.
  revert sc. induction n as [|n IH]; intros sc.
  - apply returns_bind_lift. intros f Hf%of_option_val.
    destruct (file_eof f); apply returns_ret; [|done].
    intros ?? [= <- <-]. rewrite Hf. split_and!; [by eexists|done|lia..|done].
  - rewrite next_statement_loop_S.
    apply returns_bind_lift. intros f Hf%of_option_val.
    destruct (file_eof f).
    { apply returns_ret. intros ?? [= <- <-]. rewrite Hf.
      split_and!; [by eexists|done|lia..|done]. }
    eapply returns_bind; [apply next_statement_round_returns|].
    intros [[status sc1]|sc1].
    + intros (Hf1 & Hfin & Hs & Hc & Hn). apply returns_ret.
      intros ?? [= <- <-]. rewrite Hf1.
      split_and!; [by eexists|done|lia..|done|done].
    + intros (_ & _ & Hfin & Hcur). eapply returns_mono; [apply IH|].
      intros r Hr status sc' Er. rewrite <- Hfin, <- Hcur. by apply Hr.
Qed.

(** [librdf_parser_raptor_get_next_statement] returns a status: 1 with a
    current statement, 0 or -1 with the stream finished. *)
Lemma get_next_statement_run sc w r w' :
  librdf_parser_raptor_get_next_statement sc w = Val (r, w') →
  ∃ status sc', r = Some (status, sc') ∧ -1 ≤ status ≤ 1
    ∧ (0 < status → is_Some (current sc'))
    ∧ (status < 1 → fh sc = None ∨ finished sc' ≠ 0)
    ∧ (status < 1 → current sc = None → current sc' = None).
Proof.
  unfold librdf_parser_raptor_get_next_statement.
  destruct (fh sc) as [f|] eqn:Hf;
    [|intros [= <- _]; exists 0, sc; split_and!; [done|lia..|by left|done]].
  destruct (decide (finished sc ≠ 0)) as [Hfin|Hfin];
    [intros [= <- _]; exists 0, sc; split_and!; [done|lia..|by right|done]|].
  intros (r1 & w1 & E1 & E2)%st_bind_inv.
  destruct (next_statement_loop_enough (rounds f) (set_current None sc) f w
              Hf (le_n _)) as [_ Hsome].
  destruct r1 as [[status sc1]|]; [|by destruct (Hsome w1)].
  destruct (next_statement_loop_returns _ _ _ _ _ E1 status sc1 eq_refl)
    as ([f1 Hf1] & _ & Hs & Hc & Hn).
  rewrite Hf1 in E2. revert E2.
  erewrite st_bind_val; last by apply st_lift_val.
  destruct (file_eof f1 || bool_decide (status < 1)) eqn:Hfinish;
    intros [= <- _]; eexists status, _; (split; [done|]);
    split_and!; [lia|lia|done|by right|by auto|lia|lia|done| |by auto].
  apply orb_false_iff in Hfinish as [_ Hlt%bool_decide_eq_false]. lia.
Qed.

(** The loop of [serialise_next_statement] stops at once when there is a
    current statement. *)
Lemma serialise_next_loop_current n sc :
  is_Some (current sc) → serialise_next_loop n sc = mret (Some sc).
Proof. intros [s Hs]. destruct n; simpl; by rewrite Hs. Qed.

Lemma serialise_next_loop_S n sc :
  current sc = None →
  serialise_next_loop (S n) sc
  = (l ← st_lift (of_option (statements sc));
     let p := librdf_list_pop l in
     let sc := set_statements (Some p.2) (set_current p.1 sc) in
     match p.1 with
     | Some _ => mret (Some sc)
     | None =>
         r ← librdf_parser_raptor_get_next_statement sc;
         match r with
         | None => mret None
         | Some (status, sc) =>
             if decide (status ≤ 0) then mret (Some sc)
             else serialise_next_loop n sc
         end
     end).
Proof. intros Hc. simpl. by rewrite Hc. Qed.

(** One round of the loop of [serialise_next_statement] is enough. *)
Lemma serialise_next_loop_enough n sc w :
  (1 ≤ n)%nat →
  serialise_next_loop n sc w = serialise_next_loop 1 sc w
  ∧ ∀ w', serialise_next_loop n sc w ≠ Val (None, w').
Proof.
  intros Hn. destruct (current sc) as [s|] eqn:Hc.
  { rewrite !serialise_next_loop_current by (by rewrite Hc). done. }
  destruct n as [|n]; [lia|]. rewrite !serialise_next_loop_S by done.
  destruct (of_option (statements sc)) as [l|e] eqn:El;
    [|by rewrite !(st_bind_stuck _ _ _ e) by (by apply st_lift_stuck)].
  erewrite !st_bind_val; try (by apply st_lift_val). cbv zeta.
  destruct (librdf_list_pop l).1; [done|].
  set (sc0 := set_statements _ _).
  destruct (librdf_parser_raptor_get_next_statement sc0 w)
    as [[r w1]|e] eqn:E; [|by rewrite !(st_bind_stuck _ _ _ e E)].
  rewrite !(st_bind_val _ _ _ _ _ E).
  destruct (get_next_statement_run _ _ _ _ E)
    as (status & sc1 & -> & _ & Hcur & _).
  destruct (decide (status ≤ 0)); [done|].
  rewrite !serialise_next_loop_current by (apply Hcur; lia). done.
Qed.

(** Reading sets the end-of-file indicator or leaves fewer rounds. *)
Lemma fread_progress f :
  file_eof (fread f).2 = true ∨ (rounds (fread f).2 < rounds f)%nat.
Proof.
  destruct (decide (Z.of_nat (length (fread f).1) < RAPTOR_IO_BUFFER_LEN))
    as [Hlen|Hlen]; [left|right; rewrite (rounds_fread f Hlen); lia].
  unfold fread in *. cbn [fst snd file_eof] in *.
  rewrite length_take in Hlen. apply orb_true_iff. right.
  apply bool_decide_eq_true. unfold RAPTOR_IO_BUFFER_LEN in *. lia.
Qed.

(** The file of the context the loop leaves with a statement. *)
Lemma next_statement_loop_file n sc f :
  fh sc = Some f →
  returns (next_statement_loop n sc) (λ r,
    ∀ status sc', r = Some (status, sc') → 0 < status →
      ∃ f', fh sc' = Some f'
            ∧ (file_eof f' = true ∨ (rounds f' < rounds f)%nat)).
Proof.
  revert sc f. induction n as [|n IH]; intros sc f Hf.
  - apply returns_bind_lift. intros f' _.
    destruct (file_eof f'); apply returns_ret; [|done].
    intros ?? [= <- <-]. lia.
  - rewrite next_statement_loop_S, Hf.
    apply returns_bind_lift. intros ? [= <-].
    destruct (file_eof f); [apply returns_ret; intros ?? [= <- <-]; lia|].
    eapply returns_bind; [apply next_statement_round_returns|].
    intros [[status sc1]|sc1].
    + intros (Hf1 & _). apply returns_ret. intros ?? [= <- <-] _.
      eexists. split; [done|apply fread_progress].
    + intros (Hf1 & Hr & _). eapply returns_mono; [by apply IH|].
      intros r Hx status sc' Er Hs.
      destruct (Hx status sc' Er Hs) as (f' & Hf' & Hp).
      exists f'. split; [done|]. rewrite Hr. destruct Hp; [by left|right; lia].
Qed.

Lemma rounds_pos f : (0 < rounds f)%nat.
Proof. unfold rounds. lia. Qed.

(** A call that finds a statement has used up a round of reading. *)
Lemma get_next_statement_progress sc w status sc' w' :
  librdf_parser_raptor_get_next_statement sc w = Val (Some (status, sc'), w') →
  0 < status → (rounds_left sc' < rounds_left sc)%nat.
Proof.
  unfold librdf_parser_raptor_get_next_statement, rounds_left.
  destruct (fh sc) as [f|] eqn:Hf; [|intros [= <- _]; lia].
  destruct (decide (finished sc ≠ 0)) as [Hfin|Hfin]; [intros [= <- _]; lia|].
  intros (r1 & w1 & E1 & E2)%st_bind_inv Hs.
  destruct r1 as [[status1 sc1]|]; [|by inversion E2].
  destruct (next_statement_loop_returns _ _ _ _ _ E1 status1 sc1 eq_refl)
    as (_ & Hfin1 & _).
  assert (status1 = status) as ->.
  { apply st_bind_inv in E2 as (f1 & w2 & _ & E2).
    by destruct (_ || _); injection E2 as [= <- _]. }
  destruct (next_statement_loop_file _ (set_current None sc) f Hf _ _ _ E1
              status sc1 eq_refl Hs)
    as (f' & Hf' & Hp).
  rewrite Hf' in E2. revert E2.
  erewrite st_bind_val; last by apply st_lift_val.
  destruct (file_eof f') eqn:Heof; simpl.
  - intros [= <- _]. cbn [fh finished set_finished]. rewrite Hf'.
    rewrite decide_True by done. apply rounds_pos.
  - rewrite bool_decide_eq_false_2 by lia. intros [= <- _]. rewrite Hf'.
    rewrite decide_False by (by rewrite Hfin1). by destruct Hp.
Qed.

(** The run of [serialise_next_statement]: the current statement is freed
    and the loop runs. *)
Lemma serialise_next_statement_inv sc w r w' :
  librdf_parser_raptor_serialise_next_statement sc w = Val (r, w') →
  ∃ w1 sc', serialise_next_loop 1 (set_current None sc) w1 = Val (Some sc', w')
            ∧ r = Some (match current sc' with None => 1 | Some _ => 0 end,
                        sc').
Proof.
  unfold librdf_parser_raptor_serialise_next_statement.
  intros (? & w1 & _ & (r1 & w2 & E1 & E2)%st_bind_inv)%st_bind_inv.
  destruct (serialise_next_loop_enough 2 (set_current None sc) w1)
    as [E Hsome]; [lia|].
  destruct r1 as [sc'|]; [|by destruct (Hsome w2)].
  injection E2 as [= <- <-]. exists w1, sc'. by rewrite <- E.
Qed.

(** A call that does not end the stream takes a statement from the queue
    or uses up a round of reading. *)
Lemma serialise_next_statement_progress sc w rc sc' w' :
  librdf_parser_raptor_serialise_next_statement sc w
  = Val (Some (rc, sc'), w') →
  rc ≠ 0 ∨ (rounds_left sc' < rounds_left sc)%nat
  ∨ (rounds_left sc' = rounds_left sc ∧ queued sc' < queued sc)%nat.
Proof.
  intros (w1 & sc1 & E & [= -> <-])%serialise_next_statement_inv.
  rewrite serialise_next_loop_S in E by done.
  apply st_bind_inv in E as (l & ? & [Hl ->]%st_lift_inv & E).
  apply of_option_val in Hl. cbv zeta in E.
  change (statements (set_current None sc)) with (statements sc) in Hl.
  destruct (librdf_list_pop l).1 as [s|] eqn:Hpop.
  - injection E as [= <- _]. right. right.
    unfold rounds_left, queued. cbn. rewrite Hl. split; [done|].
    cbn. rewrite length_take. unfold librdf_list_pop in Hpop.
    apply lookup_lt_Some in Hpop. lia.
  - apply st_bind_inv in E as (r & w2 & E1 & E2).
    destruct (get_next_statement_run _ _ _ _ E1)
      as (status & sc2 & -> & _ & _ & _ & Hnone).
    destruct (decide (status ≤ 0)).
    + injection E2 as [= <- _]. left. by rewrite Hnone by (done || lia).
    + rewrite serialise_next_loop_current in E2
        by (eapply get_next_statement_run in E1
              as (? & ? & [= <- <-] & _ & Hc & _); apply Hc; lia).
      injection E2 as [= <- _]. right. left.
      apply (get_next_statement_progress _ _ _ _ _ E1). lia.
Qed.

(** Every call returns; the rounds of the model's loops are never used
    up. *)
Lemma serialise_next_statement_some sc w w' :
  librdf_parser_raptor_serialise_next_statement sc w ≠ Val (None, w').
Proof. by intros (? & ? & _ & ?)%serialise_next_statement_inv. Qed.

Lemma ends_within_measure a :
  ∀ b sc w, rounds_left sc = a → queued sc = b → ∃ n, ends_within n sc w.
Proof.
  induction (lt_wf a) as [a _ IHa]. intros b.
  induction (lt_wf b) as [b _ IHb]. intros sc w Ha Hb.
  destruct (librdf_parser_raptor_serialise_next_statement sc w)
    as [[[[rc sc']|] w']|e] eqn:E;
    [|by destruct (serialise_next_statement_some sc w w')
     |exists O; simpl; by rewrite E].
  destruct (serialise_next_statement_progress _ _ _ _ _ E)
    as [Hrc|[Hlt|[Heq Hlt]]].
  - exists O. simpl. rewrite E. by left.
  - destruct (IHa (rounds_left sc') ltac:(lia) _ sc' w' eq_refl eq_refl)
      as [n Hn].
    exists (S n). simpl. rewrite E. by right.
  - destruct (IHb (queued sc') ltac:(lia) sc' w' ltac:(lia) eq_refl)
      as [n Hn].
    exists (S n). simpl. rewrite E. by right.
Qed.

Lemma namespace_seen_false uri us :
  is_null uri = false → NULL ∉ us → namespace_seen uri us = false → uri ∉ us.
Proof.
  unfold namespace_seen, librdf_uri_equals, is_null.
  intros Hu%bool_decide_eq_false Hn Hseen Hin.
  assert (existsb (λ u, if bool_decide (uri = NULL) || bool_decide (u = NULL)
                        then false else bool_decide (uri = u)) us = true);
    [|congruence].
  apply existsb_exists. exists uri. split; [by apply list_elem_of_In|].
  rewrite (bool_decide_eq_false_2 _ Hu). simpl. by apply bool_decide_eq_true.
Qed.

Lemma new_uri_from_uri_returns uri :
  returns (S:=librdf_world T) (librdf_new_uri_from_uri uri) (λ u, u = uri).
Proof.
  unfold librdf_new_uri_from_uri. apply returns_bind_any. intros _.
  by apply returns_ret.
Qed.

Lemma namespace_handler_wf pc nspace :
  namespaces_wf pc →
  returns (librdf_parser_raptor_namespace_handler (T:=T) pc nspace)
    namespaces_wf.
Proof.
  intros Hwf. pose proof Hwf as (us & ps & Hus & Hps & Hlen & Hnd & Hnull).
  unfold librdf_parser_raptor_namespace_handler. cbv zeta.
  destruct (is_null (namespace_uri nspace)) eqn:Hu; [by apply returns_ret|].
  rewrite Hus. apply returns_bind_lift. intros ? [= <-].
  destruct (namespace_seen _ us) eqn:Hseen; [by apply returns_ret|].
  apply (returns_bind (λ u, u = namespace_uri nspace));
    [apply new_uri_from_uri_returns|]. intros ? ->.
  apply returns_bind_any. intros nprefix. cbn [nspace_prefixes set_nspace_uris].
  rewrite Hps. apply returns_bind_lift. intros ? [= <-]. apply returns_ret.
  exists (us ++ [namespace_uri nspace]), (ps ++ [nprefix]).
  split_and!; [done|done|by rewrite !length_app, Hlen| |].
  - apply list.NoDup_app. split_and!; [done| |apply list.NoDup_singleton].
    intros u Hin ->%list_elem_of_singleton.
    by apply (namespace_seen_false _ us Hu Hnull Hseen).
  - intros [?|Hin%list_elem_of_singleton]%elem_of_app; [done|].
    unfold is_null in Hu. apply bool_decide_eq_false in Hu. congruence.
Qed.

Lemma error_handler_wf pc message :
  namespaces_wf pc →
  returns (librdf_parser_raptor_error_handler (T:=T) pc message)
    namespaces_wf.
Proof.
  intros Hwf. unfold librdf_parser_raptor_error_handler.
  do 3 (apply returns_bind_any; intros ?). by apply returns_ret.
Qed.

Lemma warning_handler_wf pc message :
  namespaces_wf pc →
  returns (librdf_parser_raptor_warning_handler (T:=T) pc message)
    namespaces_wf.
Proof.
  intros Hwf. unfold librdf_parser_raptor_warning_handler.
  do 2 (apply returns_bind_any; intros ?). by apply returns_ret.
Qed.

Lemma generate_id_handler_wf pc user_bnodeid :
  namespaces_wf pc →
  returns (librdf_parser_raptor_generate_id_handler (T:=T) pc user_bnodeid)
    (λ r, namespaces_wf r.2).
Proof.
  intros Hwf. unfold librdf_parser_raptor_generate_id_handler.
  destruct user_bnodeid;
    [|apply returns_bind_any; intros ?; by apply returns_ret].
  do 3 (apply returns_bind_any; intros ?).
  destruct a1; [by apply returns_ret|].
  apply returns_bind_any. intros [m|]; [|by apply returns_ret].
  do 2 (apply returns_bind_any; intros ?).
  case_decide; by apply returns_ret.
Qed.

(** Whatever raptor calls back, the sequences of the namespaces keep
    their form. *)
Lemma handle_event_namespaces sc ev :
  namespaces_wf (pcontext sc) →
  returns (handle_event sc ev) (λ sc', namespaces_wf (pcontext sc')).
Proof.
  intros Hwf. destruct ev; simpl.
  - eapply returns_mono; [apply new_statement_handler_frame|].
    by intros sc' [_ ->].
  - eapply returns_bind; [by apply namespace_handler_wf|].
    intros pc Hpc. by apply returns_ret.
  - destruct RAPTOR_V2_AVAILABLE; [by apply returns_ret|].
    eapply returns_bind; [by apply error_handler_wf|].
    intros pc Hpc. by apply returns_ret.
  - destruct RAPTOR_V2_AVAILABLE; [by apply returns_ret|].
    eapply returns_bind; [by apply warning_handler_wf|].
    intros pc Hpc. by apply returns_ret.
  - eapply returns_bind; [by apply generate_id_handler_wf|].
    intros r Hr. by apply returns_ret.
Qed.

Lemma handle_events_namespaces evs sc :
  namespaces_wf (pcontext sc) →
  returns (handle_events sc evs) (λ sc', namespaces_wf (pcontext sc')).
Proof.
  revert sc. induction evs as [|ev evs IH]; intros sc Hwf; simpl.
  - by apply returns_ret.
  - eapply returns_bind; [by apply handle_event_namespaces|]. apply IH.
Qed.

Lemma next_statement_round_namespaces f sc :
  namespaces_wf (pcontext sc) →
  returns (next_statement_round f sc) (λ r,
    namespaces_wf (pcontext (match r with inl out => out.2 | inr sc' => sc' end))).
Proof.
  intros Hwf. unfold next_statement_round, parse_chunk. cbv zeta.
  eapply (returns_bind (λ r, namespaces_wf (pcontext r.2))).
  - apply returns_bind_any. intros r.
    eapply returns_bind; [by apply handle_events_namespaces|].
    intros sc1 Hwf1. by apply returns_ret.
  - intros [rc sc1] Hwf1. cbn [fst snd] in *.
    destruct (decide (rc ≠ 0)); [by apply returns_ret|].
    apply returns_bind_any. intros l.
    repeat case_decide; by apply returns_ret.
Qed.

Lemma next_statement_loop_namespaces n sc :
  namespaces_wf (pcontext sc) →
  returns (next_statement_loop n sc) (λ r,
    ∀ status sc', r = Some (status, sc') → namespaces_wf (pcontext sc')).
Proof.
  revert sc. induction n as [|n IH]; intros sc Hwf.
  - apply returns_bind_any. intros f.
    destruct (file_eof f); apply returns_ret; [|done]. by intros ?? [= _ <-].
  - rewrite next_statement_loop_S. apply returns_bind_any. intros f.
    destruct (file_eof f); [apply returns_ret; by intros ?? [= _ <-]|].
    eapply returns_bind; [by apply next_statement_round_namespaces|].
    intros [[status sc1]|sc1] Hwf1; [|by apply IH].
    apply returns_ret. by intros ?? [= _ <-].
Qed.

Lemma get_next_statement_namespaces sc :
  namespaces_wf (pcontext sc) →
  returns (librdf_parser_raptor_get_next_statement sc) (λ r,
    ∀ status sc', r = Some (status, sc') → namespaces_wf (pcontext sc')).
Proof.
  intros Hwf. unfold librdf_parser_raptor_get_next_statement.
  destruct (fh sc); [|apply returns_ret; by intros ?? [= _ <-]].
  case_decide; [apply returns_ret; by intros ?? [= _ <-]|].
  eapply returns_bind; [by apply next_statement_loop_namespaces|].
  intros [[status sc1]|] Hwf1; [|by apply returns_ret].
  apply returns_bind_any. intros f1.
  destruct (_ || _); apply returns_ret; intros ?? [= _ <-];
    by apply (Hwf1 status sc1).
Qed.

Lemma serialise_next_loop_namespaces n sc :
  namespaces_wf (pcontext sc) →
  returns (serialise_next_loop n sc) (λ r,
    ∀ sc', r = Some sc' → namespaces_wf (pcontext sc')).
Proof.
  revert sc. induction n as [|n IH]; intros sc Hwf;
    (destruct (current sc) as [s|] eqn:Hc;
       [rewrite serialise_next_loop_current by (by rewrite Hc);
        apply returns_ret; by intros ? [= <-]|]).
  - simpl. rewrite Hc. by apply returns_ret.
  - rewrite serialise_next_loop_S by done. apply returns_bind_any.
    intros l. cbv zeta.
    destruct (librdf_list_pop l).1; [apply returns_ret; by intros ? [= <-]|].
    eapply returns_bind; [by apply get_next_statement_namespaces|].
    intros [[status sc1]|] Hwf1; [|by apply returns_ret].
    case_decide; [apply returns_ret; intros ? [= <-]|apply IH];
      by apply (Hwf1 status sc1).
Qed.

Lemma serialise_next_statement_namespaces sc :
  namespaces_wf (pcontext sc) →
  returns (librdf_parser_raptor_serialise_next_statement sc) (λ r,
    ∀ rc sc', r = Some (rc, sc') → namespaces_wf (pcontext sc')).
Proof.
  intros Hwf. unfold librdf_parser_raptor_serialise_next_statement.
  apply returns_bind_any. intros _.
  eapply returns_bind; [by apply serialise_next_loop_namespaces|].
  intros [sc1|] Hwf1; apply returns_ret; [|done].
  intros ?? [= _ <-]. by apply Hwf1.
Qed.

Lemma log_then_null name msg pc :
  msg ∈ start_messages name →
  leaves (_ ← librdf_log msg; mret (Some (None, pc))) (stream_started name).
Proof.
  intros Hmsg w r w' [= <- <-]. exists None, pc. split; [done|].
  by exists (world_log w), msg.
Qed.

Lemma parse_oom_leaves name scontext pc :
  leaves (parse_oom scontext pc) (stream_started name).
Proof.
  unfold parse_oom. apply leaves_bind_any. intros _. apply log_then_null.
  unfold start_messages. set_solver.
Qed.

Lemma get_next_statement_file sc :
  is_Some (fh sc) →
  returns (librdf_parser_raptor_get_next_statement sc) (λ r,
    ∃ status sc', r = Some (status, sc') ∧ is_Some (fh sc')).
Proof.
  intros Hfh w r w' E.
  destruct (get_next_statement_run _ _ _ _ E) as (status & sc' & -> & _).
  exists status, sc'. split; [done|]. revert E.
  unfold librdf_parser_raptor_get_next_statement.
  destruct (fh sc) as [f|] eqn:Hf; [|by destruct Hfh].
  case_decide; [intros [= _ <- _]; by rewrite Hf|].
  intros ([[status1 sc1]|] & w1 & E1 & E2)%st_bind_inv; [|done].
  destruct (next_statement_loop_returns _ _ _ _ _ E1 status1 sc1 eq_refl)
    as (Hf1 & _).
  apply st_bind_inv in E2 as (f1 & w2 & _ & E2).
  by destruct (_ || _); injection E2 as [= _ <- _].
Qed.

Lemma start_parse_leaves name sc r base_uri :
  namespaces_wf (pcontext sc) → is_Some (fh sc) →
  leaves (start_parse sc r base_uri) (stream_started name).
Proof.
  intros Hwf Hfh. unfold start_parse. cbv zeta.
  set (sc0 := set_pcontext _ sc).
  case_decide; [apply parse_oom_leaves|].
  eapply leaves_bind.
  { apply returns_and;
      [apply (get_next_statement_namespaces sc0 Hwf)
      |apply (get_next_statement_file sc0 Hfh)]. }
  intros ? [Hwf1 (status & sc1 & -> & Hf1)].
  pose proof (Hwf1 status sc1 eq_refl) as Hwf2.
  apply leaves_bind_any. intros [|]; [|apply parse_oom_leaves].
  apply leaves_ret. intros w. by exists (Some sc1), (pcontext sc1).
Qed.

Lemma raptor_new_sequence_returns {A} :
  returns (S:=librdf_world T) (raptor_new_sequence (A:=A))
    (λ o, ∀ l, o = Some l → l = []).
Proof.
  unfold raptor_new_sequence. apply returns_bind_any. intros [|?];
    apply returns_ret; [done|]. by intros ? [= <-].
Qed.

Lemma new_stream_context_leaves pc r f close_fh base_uri :
  leaves (new_stream_context pc r f close_fh base_uri)
    (stream_started (parser_name pc)).
Proof.
  unfold new_stream_context.
  apply leaves_bind_any. intros [|?]; [apply parse_oom_leaves|]. cbv zeta.
  apply leaves_bind_any. intros [l|]; [|apply parse_oom_leaves].
  eapply leaves_bind; [apply raptor_new_sequence_returns|].
  intros [ps|] Hps; [|apply parse_oom_leaves]. rewrite (Hps ps eq_refl).
  apply leaves_bind_any. intros _.
  eapply leaves_bind; [apply raptor_new_sequence_returns|].
  intros [us|] Hus; [|apply parse_oom_leaves]. rewrite (Hus us eq_refl).
  apply start_parse_leaves; [|by eexists].
  exists [], []. split_and!; [done..|constructor|by intros ?%elem_of_nil].
Qed.

(** C24: what [librdf_parser_raptor_parse_file_handle_as_stream] returns.
    A call that returns gives a stream whose context has an open file and
    the two sequences of the namespaces of the same length, without a
    NULL and without a URI twice, or it gives NULL after a message: the
    last message of the log is then one of the three of [start_messages].
    The rounds the model gives the reading loop are never used up. *)
Theorem parse_file_handle_as_stream_started pc f close_fh base_uri w r w' :
  librdf_parser_raptor_parse_file_handle_as_stream pc f close_fh base_uri w
  = Val (r, w') →
  stream_started (parser_name pc) r w'.
Proof.
  revert w r w'.
  change (leaves (librdf_parser_raptor_parse_file_handle_as_stream pc f
                    close_fh base_uri) (stream_started (parser_name pc))).
  unfold librdf_parser_raptor_parse_file_handle_as_stream.
  do 2 (apply leaves_bind_any; intros ?).
  destruct (need_base_uri _) as [need|];
    [|apply log_then_null; unfold start_messages; set_solver].
  destruct (_ && _);
    [apply log_then_null; unfold start_messages; set_solver|].
  apply (new_stream_context_leaves (set_warnings 0 (set_errors 0 pc))).
Qed.

Lemma parse_oom_run scontext pc w res w' :
  parse_oom scontext pc w = Val (res, w') →
  res = Some (None, pc)
  ∧ ∃ l, world_log w'
         = l ++ [log_simple LIBRDF_LOG_FATAL (ascii "Out of memory")].
Proof.
  unfold parse_oom. intros (_ & w1 & _ & [= <- <-])%st_bind_inv.
  split; [done|]. by exists (world_log w1).
Qed.

(** C30: a parse that raptor refuses to start is reported as a lack of
    memory.  When [raptor_parser_parse_start] (or [raptor_start_parse])
    returns non-zero the function goes to its label [oom]: the stream
    context is finished, NULL is returned, and the last message of the
    log is "Out of memory", although no allocation was attempted after
    the sequences were made. *)
Theorem parse_start_failure_logged_as_oom sc r base_uri w res w' :
  (raptor_parser_parse_start
     (if uri_filter (pcontext sc) then raptor_parser_set_uri_filter r else r)
     base_uri).1 ≠ 0 →
  start_parse sc r base_uri w = Val (res, w') →
  (∃ pc', res = Some (None, pc'))
  ∧ ∃ l, world_log w'
         = l ++ [log_simple LIBRDF_LOG_FATAL (ascii "Out of memory")].
Proof.
  intros Hrc. unfold start_parse. cbv zeta. rewrite decide_True by done.
  intros [-> Hlog]%parse_oom_run. split; [by eexists|done].
Qed.

(** C31: the offsets of the namespaces seen.  With the sequences in
    order, [get_namespaces_seen_count] is their length; an offset below
    it gives a URI that is not NULL, the one at that place; the offset
    equal to the count passes the test [offset > size] of the two
    accessors and is refused by [raptor_sequence_get_at] only: like every
    other offset outside the sequence it gives NULL for the URI and for
    the prefix. *)
Theorem namespaces_seen_bounds pc offset :
  namespaces_wf pc →
  let count := librdf_parser_raptor_get_namespaces_seen_count pc in
  (0 ≤ offset < count →
   librdf_parser_raptor_get_namespaces_seen_uri pc offset ≠ NULL
   ∧ (nspace_uris pc ≫= (.!! Z.to_nat offset))
     = Some (librdf_parser_raptor_get_namespaces_seen_uri pc offset)
   ∧ librdf_parser_raptor_get_namespaces_seen_prefix pc offset
     = mjoin (nspace_prefixes pc ≫= (.!! Z.to_nat offset)))
  ∧ (¬ 0 ≤ offset < count →
     librdf_parser_raptor_get_namespaces_seen_uri pc offset = NULL
     ∧ librdf_parser_raptor_get_namespaces_seen_prefix pc offset = None).
Proof.
  intros (us & ps & Hus & Hps & Hlen & _ & Hnull) count. subst count.
  unfold librdf_parser_raptor_get_namespaces_seen_count,
    librdf_parser_raptor_get_namespaces_seen_uri,
    librdf_parser_raptor_get_namespaces_seen_prefix, raptor_sequence_get_at.
  rewrite Hus, Hps. cbn [mbind option_bind]. split; intros Hoff.
  - rewrite !decide_False by lia.
    destruct (lookup_lt_is_Some_2 us (Z.to_nat offset)) as [u Hu]; [lia|].
    rewrite Hu. cbn. split_and!; [|done..].
    intros ->. by apply Hnull, (list_elem_of_lookup_2 _ _ _ Hu).
  - destruct (decide (offset < 0 ∨ offset > Z.of_nat (length us)));
      [by rewrite decide_True by lia|].
    rewrite (decide_False (P:=offset < 0 ∨ offset > Z.of_nat (length ps)))
      by lia.
    rewrite !decide_False by lia.
    by rewrite !lookup_ge_None_2 by lia.
Qed.

(** C23: the reading loop of [librdf_parser_raptor_get_next_statement]
    terminates.  On a file [f] the loop makes at most [rounds f] rounds,
    one per buffer of [RAPTOR_IO_BUFFER_LEN] bytes and one: with that
    many rounds or more the model never answers that its rounds were
    used up, and what it does is what it does with exactly
    [rounds f]. *)
Theorem next_statement_loop_terminates n sc f w :
  fh sc = Some f → (rounds f ≤ n)%nat →
  next_statement_loop n sc w = next_statement_loop (rounds f) sc w
  ∧ ∀ w', next_statement_loop n sc w ≠ Val (None, w').
Proof. apply next_statement_loop_enough. Qed.

(** C27: the loop of [librdf_parser_raptor_serialise_next_statement]
    terminates: its body runs once at most, because a call of
    [get_next_statement] with a positive status leaves a current
    statement.  With one round or more the model never answers that its
    rounds were used up. *)
Theorem serialise_next_loop_terminates n sc w :
  (1 ≤ n)%nat →
  serialise_next_loop n sc w = serialise_next_loop 1 sc w
  ∧ ∀ w', serialise_next_loop n sc w ≠ Val (None, w').
Proof. apply serialise_next_loop_enough. Qed.

(** C28: the status of [librdf_parser_raptor_get_next_statement].  A call
    that returns gives a status of -1, 0 or 1; with 1 there is a current
    statement; with 0 or -1 the stream is finished, unless it has no
    file, and a stream without a current statement still has none. *)
Theorem get_next_statement_status sc w r w' :
  librdf_parser_raptor_get_next_statement sc w = Val (r, w') →
  ∃ status sc', r = Some (status, sc') ∧ -1 ≤ status ≤ 1
    ∧ (0 < status → is_Some (current sc'))
    ∧ (status < 1 → fh sc = None ∨ finished sc' ≠ 0)
    ∧ (status < 1 → current sc = None → current sc' = None).
Proof. apply get_next_statement_run. Qed.

(** C22: every stream of the parser ends.  Whatever raptor calls back
    with, after finitely many calls of
    [librdf_parser_raptor_serialise_next_statement] a call answers that
    the stream has ended, or a call is stuck: each call that does not
    end the stream takes a statement from the queue or uses up a round
    of reading the file. *)
Theorem stream_ends sc w : ∃ n, ends_within n sc w.
Proof. exact (ends_within_measure _ _ sc w eq_refl eq_refl). Qed.

(** C29: the namespaces seen stay in order while the stream is read.  If
    the two sequences have the same length, no NULL and no URI twice
    before a call of [librdf_parser_raptor_serialise_next_statement],
    they have after it, whatever raptor called back with. *)
Theorem next_statement_keeps_namespaces sc w rc sc' w' :
  namespaces_wf (pcontext sc) →
  librdf_parser_raptor_serialise_next_statement sc w
  = Val (Some (rc, sc'), w') →
  namespaces_wf (pcontext sc').
Proof.
  intros Hwf E.
  exact (serialise_next_statement_namespaces sc Hwf _ _ _ E rc sc' eq_refl).
Qed.

End parser_stream.

(** ** Examples *)

Section parser_examples.
#[local] Existing Instance default_build.
#[local] Existing Instance identity_normalise.

Lemma example_parser_wf : namespaces_wf example_parser.
Proof.
  exists [5%N], [None]. split_and!; [done..|apply list.NoDup_singleton|].
  by intros ?%list_elem_of_singleton.
Qed.

Lemma namespaces_seen_bounds_witness :
  librdf_parser_raptor_get_namespaces_seen_uri example_parser 1 = NULL
  ∧ librdf_parser_raptor_get_namespaces_seen_prefix example_parser 1 = None.
Proof.
  apply (namespaces_seen_bounds example_parser 1 example_parser_wf).
  cbn. lia.
Defined.

Section started.
#[local] Existing Instance working_raptor.

Lemma next_statement_loop_terminates_witness :
  next_statement_loop 5 example_stream example_world
  = next_statement_loop (rounds example_file) example_stream example_world
  ∧ ∀ w', next_statement_loop 5 example_stream example_world
          ≠ Val (None, w').
Proof.
  apply (next_statement_loop_terminates 5 example_stream example_file
           example_world eq_refl).
  vm_compute. lia.
Defined.

Lemma serialise_next_loop_terminates_witness :
  serialise_next_loop 2 example_stream example_world
  = serialise_next_loop 1 example_stream example_world
  ∧ ∀ w', serialise_next_loop 2 example_stream example_world
          ≠ Val (None, w').
Proof. apply (serialise_next_loop_terminates 2). lia. Defined.

Lemma get_next_statement_status_witness :
  ∃ r w', librdf_parser_raptor_get_next_statement example_stream
            example_world = Val (r, w')
    ∧ ∃ status sc', r = Some (status, sc') ∧ -1 ≤ status ≤ 1
        ∧ (0 < status → is_Some (current sc'))
        ∧ (status < 1 → fh example_stream = None ∨ finished sc' ≠ 0)
        ∧ (status < 1 → current example_stream = None → current sc' = None).
Proof.
  eexists _, _. split; [vm_compute; reflexivity|].
  eapply (get_next_statement_status example_stream example_world).
  vm_compute. reflexivity.
Defined.

Lemma next_statement_keeps_namespaces_witness :
  ∃ rc sc' w', librdf_parser_raptor_serialise_next_statement example_stream
                 example_world = Val (Some (rc, sc'), w')
               ∧ namespaces_wf (pcontext sc').
Proof.
  eexists _, _, _. split; [vm_compute; reflexivity|].
  eapply (next_statement_keeps_namespaces example_stream example_world);
    [apply example_parser_wf|].
  vm_compute. reflexivity.
Defined.

Lemma parse_file_handle_as_stream_started_witness :
  ∃ r w', librdf_parser_raptor_parse_file_handle_as_stream fresh_parser
            example_file 0 NULL example_world = Val (r, w')
          ∧ stream_started (parser_name fresh_parser) r w'.
Proof.
  eexists _, _. split; [vm_compute; reflexivity|].
  apply (parse_file_handle_as_stream_started fresh_parser example_file 0
           NULL example_world).
  vm_compute. reflexivity.
Defined.

End started.

Section refused.
#[local] Existing Instance failing_raptor.

Lemma parse_start_failure_logged_as_oom_witness :
  ∃ res w', start_parse example_stream tt NULL example_world = Val (res, w')
    ∧ (∃ pc', res = Some (None, pc'))
    ∧ ∃ l, world_log w'
           = l ++ [log_simple LIBRDF_LOG_FATAL (ascii "Out of memory")].
Proof.
  eexists _, _. split; [vm_compute; reflexivity|].
  apply (parse_start_failure_logged_as_oom example_stream tt NULL
           example_world); [done|].
  vm_compute. reflexivity.
Defined.

End refused.
End parser_examples.
