(* ===== verification/ParserNodes.v ===== *)
(** * The handlers of the parser and the objects they make

    Theorems about the handlers of src/rdf_parser_raptor.c that involve
    the life cycle of nodes of src/rdf_node.c and the table of blank node
    identifiers.

    - A triple whose predicate the statement handler cannot convert is
      dropped without a trace: the node made for its subject is released
      again, by the contracts of the constructor ([Blank]) and of
      [librdf_free_node] ([Release]).
    - The handler of blank node identifiers maps an identifier of the
      document once, except when the copy of the mapped string cannot be
      allocated: then the entry is overwritten. *)

From S2P Require Import Prelude CString Hash Uri Node Encode World Intern.
From S2P Require Import Invariant Lifecycle Open Blank Literal Release.
From S2P Require Import Interning Statement Parser ParserStream.

#[local] Open Scope Z_scope.

(** A parser whose table maps the identifier [b1] of the document. *)
Definition mapped_parser : librdf_parser_raptor_context unit :=
  {| uri_filter := false; parser_name := ascii "ntriples";
     bnode_hash := Some {[ ascii "b1" := ascii "r1r42r7" ]};
     rdf_parser := Some tt; nspace_prefixes := None; nspace_uris := None;
     errors := 0; warnings := 0 |}.

Section parser_nodes.
Context {T : Type} `{HashTable T} `{BuildConfig} `{UriNormalise}.
Context {R : Type} `{Raptor R}.
Implicit Types (w : librdf_world T) (p q : ptr) (n : librdf_node).
Implicit Types (ext : ptr → Z).
Implicit Types (sc : librdf_parser_raptor_stream_context R).
Implicit Types (pc : librdf_parser_raptor_context R).

(** [librdf_new_statement] when the allocation succeeds. *)
Lemma new_statement_run ext w :
  world_wf ext w → alloc_fail ∉ world_allocs w →
  librdf_new_statement w = Val (Some empty_statement, alloc_rest w).
Proof.
  intros Hwf Hno. unfold librdf_new_statement.
  run (librdf_world_open_run w (wf_opened _ _ Hwf)). run (next_alloc_run w).
  pose proof (no_failure_head w Hno). by destruct (alloc_head w).
Qed.

(** A statement with a blank subject and nothing else is freed: the
    subject is released, the world is as it was before the subject was
    made. *)
Lemma free_subject_run ext w id len p w' msg :
  world_wf ext w → world_room w →
  intern_outcome w H_BLANK (datum_bytes (take (Z.to_nat len) id))
    (blank_node (take (Z.to_nat (len + 1)) id) len) p w' →
  world_wf ext w' → nodes_mutex w' = false → p ≠ NULL → 0 ≤ len →
  ∃ w'', (_ ← librdf_log msg;
          librdf_free_statement
            (Some (librdf_statement_set_subject empty_statement p))) w'
         = Val (tt, w'')
         ∧ w'' ≡ w ∧ nodes_mutex w'' = false.
Proof.
  intros Hwf Hroom Hout Hwf' Hm Hp Hlen.
  set (w3 := set_log (world_log w' ++ [msg]) w').
  assert (w3 ≡ w') as E3 by apply set_log_equiv.
  destruct (intern_outcome_free ext w H_BLANK
              (datum_bytes (take (Z.to_nat len) id))
              (blank_node (take (Z.to_nat (len + 1)) id) len) p w3 Hwf
              (proj1 Hroom))
    as (w'' & Ef & E & Hm''); [|by rewrite E3|done|done| |done..|].
  { by apply (intern_outcome_equiv ext w w _ _ _ _ w' w3). }
  { unfold node_key. simpl. rewrite take_take. do 4 f_equal. lia. }
  exists w''. split; [|done].
  unfold librdf_log. rewrite (st_bind_val _ _ _ tt w3) by done.
  unfold librdf_free_statement, librdf_statement_clear. simpl.
  by run Ef.
Qed.

(** The node of a blank subject, when the allocations succeed. *)
Lemma make_node_blank_run ext w id rest unknown cannot statement :
  world_wf ext w → world_room w → nodes_mutex w = false →
  alloc_fail ∉ world_allocs w → 0 ∉ id → blen id < SIZE_MAX →
  ∃ p w', make_node (subject_node (rt_blank (id ++ 0 :: rest))) unknown
            cannot statement w = Val (Some p, w')
          ∧ p ≠ NULL ∧ nodes_mutex w' = false ∧ world_wf ext w'
          ∧ intern_outcome w H_BLANK
              (datum_bytes (take (Z.to_nat (blen id)) (id ++ 0 :: rest)))
              (blank_node (take (Z.to_nat (blen id + 1)) (id ++ 0 :: rest))
                 (blen id)) p w'.
Proof.
  intros Hwf Hroom Hm Hno Hid Hlen.
  destruct (new_blank_node_run ext w (id ++ 0 :: rest) (blen id) Hwf Hroom)
    as (p & w2 & Erun & Hm2 & Hwf2 & Hout & Hok);
    [done|pose proof (blen_nonneg id); lia
    |rewrite blen_app, blen_cons; pose proof (blen_nonneg rest); lia|].
  specialize (Hok Hno). exists p, w2. split; [|done].
  unfold make_node, subject_node.
  rewrite <- (new_node_from_blank_identifier_run w id rest
                (wf_opened _ _ Hwf) Hid) in Erun.
  run Erun. unfold is_null. by rewrite bool_decide_eq_false_2.
Qed.

Lemma make_node_unknown_run unknown cannot statement w w' :
  (_ ← librdf_log unknown; librdf_free_statement (Some statement)) w
  = Val (tt, w') →
  make_node None unknown cannot statement w = Val (None, w').
Proof.
  unfold make_node. intros ([] & w3 & E1 & E2)%st_bind_inv.
  run E1. by run E2.
Qed.

(** C37: a triple the handler cannot convert leaves nothing behind.  When
    raptor reports a triple with a blank subject and a predicate of a
    type the handler does not know, on a well-formed world whose
    allocations succeed, [librdf_parser_raptor_new_statement_handler]
    makes the statement and the node of the subject, logs the unknown
    type and frees the statement: the stream context is unchanged (no
    statement is queued), the node made for the subject is released, and
    the world is as it was, its mutex free. *)
Theorem unknown_predicate_rolled_back ext sc w id rest t o :
  world_wf ext w → world_room w → nodes_mutex w = false →
  alloc_fail ∉ world_allocs w →
  0 ∉ id → blen id < SIZE_MAX → predicate_node t = None →
  ∃ w', librdf_parser_raptor_new_statement_handler sc
          {| raptor_subject := rt_blank (id ++ 0 :: rest);
             raptor_predicate := t; raptor_object := o |} w
        = Val (sc, w')
        ∧ w' ≡ w ∧ world_wf ext w' ∧ nodes_mutex w' = false.
Proof.
  intros Hwf Hroom Hm Hno Hid Hlen Ht.
  unfold librdf_parser_raptor_new_statement_handler.
  run (new_statement_run ext w Hwf Hno). cbv zeta.
  cbn [raptor_subject raptor_predicate].
  pose proof (alloc_rest_equiv w) as E1. set (w1 := alloc_rest w) in *.
  assert (world_wf ext w1) as Hwf1 by (by rewrite E1).
  assert (world_room w1) as Hroom1 by (by rewrite E1).
  destruct (make_node_blank_run ext w1 id rest
              (log_unknown_subject_type
                 (term_type (rt_blank (id ++ 0 :: rest))))
              log_cannot_create_subject empty_statement Hwf1 Hroom1 Hm
              (alloc_rest_no_failure w Hno) Hid Hlen)
    as (p & w2 & Erun & Hp & Hm2 & Hwf2 & Hout).
  run Erun. rewrite Ht.
  destruct (free_subject_run ext w1 _ _ p w2
              (log_unknown_predicate_type (term_type t)) Hwf1 Hroom1 Hout
              Hwf2 Hm2 Hp (blen_nonneg id)) as (w4 & Ef & E4 & Hm4).
  exists w4. split_and!; [|by rewrite E4|by rewrite E4, E1|done].
  by run (make_node_unknown_run _ log_cannot_create_predicate _ _ _ Ef).
Qed.

(** A second look-up of an identifier that is in the table. *)
Lemma generate_id_hit pc h id key v w :
  bnode_hash pc = Some h → c_str id = Val key → h !! key = Some v →
  alloc_head w ≠ alloc_fail →
  librdf_parser_raptor_generate_id_handler pc (Some id) w
  = Val ((Some (v ++ [0]), pc), alloc_rest w).
Proof.
  intros Hh Hkey Hv Ha. unfold librdf_parser_raptor_generate_id_handler.
  rewrite Hh, Hkey. do 2 (erewrite st_bind_val; last by apply st_lift_val).
  unfold librdf_hash_get. rewrite Hv.
  rewrite (st_bind_val _ _ _ _ _ (st_bind_val _ _ _ _ _ (next_alloc_run w))).
  by destruct (alloc_head w).
Qed.

Lemma c_str_again s r : c_str s = Val r → c_str (r ++ [0]) = Val r.
Proof.
  intros [Hr _]%of_option_val%c_str_opt_inv. by apply c_str_cstr.
Qed.

(** C38: the identifier of a blank node of the document is mapped once.
    When [librdf_parser_raptor_generate_id_handler] has answered an
    identifier of the document with an identifier [m], the next call for
    the same identifier of the document (if its copy can be allocated)
    answers with the same string, takes no new identifier from the
    generator and leaves the table as it is. *)
Theorem generate_id_stable pc id w m pc1 w1 :
  librdf_parser_raptor_generate_id_handler pc (Some id) w
  = Val ((Some m, pc1), w1) →
  alloc_head w1 ≠ alloc_fail →
  ∃ m', librdf_parser_raptor_generate_id_handler pc1 (Some id) w1
        = Val ((Some m', pc1), alloc_rest w1)
        ∧ c_str m' = c_str m
        ∧ genid_counter (alloc_rest w1) = genid_counter w1.
Proof.
  unfold librdf_parser_raptor_generate_id_handler at 1.
  intros (h & ? & [Hh ->]%st_lift_inv & E)%st_bind_inv Ha.
  apply of_option_val in Hh.
  apply st_bind_inv in E as (key & ? & [Hkey ->]%st_lift_inv & E).
  apply st_bind_inv in E as ([m0|] & w2 & Eget & E).
  - injection E as [= <- <- <-]. unfold librdf_hash_get in Eget.
    destruct (h !! key) as [v|] eqn:Hv; [|done].
    apply st_bind_inv in Eget as (e & ? & [= <- <-] & Eget).
    destruct (alloc_head w); [done|]. injection Eget as [= <- <-].
    exists (v ++ [0]). split; [by apply (generate_id_hit pc h _ key)|done].
  - apply st_bind_inv in E as ([g|] & w3 & Egen & E); [|done].
    apply st_bind_inv in E as (value & ? & [Hval ->]%st_lift_inv & E).
    apply st_bind_inv in E as (r & w4 & Eput & E).
    apply st_bind_inv in Eput as (e & ? & [= <- <-] & [= <- <-]).
    destruct (alloc_head w3) eqn:Hal; simpl in E; [done|].
    injection E as [= <- <- <-]. exists (value ++ [0]).
    split_and!; [|by rewrite (c_str_again _ _ Hval)|done].
    apply (generate_id_hit _ (<[key:=value]> h) _ key); [done..| |done].
    apply lookup_insert_eq.
Qed.

(** C39: a failed copy is taken for a missing entry.  [librdf_hash_get]
    returns NULL both when the identifier is not in the table and when
    the copy of the mapped string cannot be allocated; in the second case
    too the handler takes a new identifier [g] from the generator and,
    when the table can store it, overwrites the entry: the identifier of
    the document that was mapped to [v] is now mapped to [g]. *)
Theorem generate_id_remaps_after_failed_copy pc h id key v w g value w2 :
  bnode_hash pc = Some h → c_str id = Val key → h !! key = Some v →
  alloc_head w = alloc_fail →
  librdf_world_get_genid (alloc_rest w) = Val (Some g, w2) →
  c_str g = Val value → alloc_head w2 ≠ alloc_fail →
  librdf_parser_raptor_generate_id_handler pc (Some id) w
  = Val ((Some g, set_bnode_hash (Some (<[key:=value]> h)) pc),
         alloc_rest w2).
Proof.
  intros Hh Hkey Hv Hal Hgen Hg Hal2.
  unfold librdf_parser_raptor_generate_id_handler.
  rewrite Hh, Hkey. do 2 (erewrite st_bind_val; last by apply st_lift_val).
  unfold librdf_hash_get. rewrite Hv.
  rewrite (st_bind_val _ _ _ _ _ (st_bind_val _ _ _ _ _ (next_alloc_run w))).
  rewrite Hal. cbv beta iota. run Hgen. run_lift Hg.
  unfold librdf_hash_put_strings.
  rewrite (st_bind_val _ _ _ _ _ (st_bind_val _ _ _ _ _ (next_alloc_run w2))).
  by destruct (alloc_head w2).
Qed.

End parser_nodes.

(** ** Examples *)

Section parser_nodes_examples.
#[local] Existing Instance default_build.
#[local] Existing Instance identity_normalise.
#[local] Existing Instance working_raptor.

Lemma generate_id_stable_witness :
  ∃ m', librdf_parser_raptor_generate_id_handler mapped_parser
          (Some (ascii "b1" ++ [0])) example_world
        = Val ((Some m', mapped_parser), alloc_rest example_world)
        ∧ c_str m' = c_str (ascii "r1r42r7" ++ [0])
        ∧ genid_counter (alloc_rest example_world)
          = genid_counter example_world.
Proof.
  apply (generate_id_stable mapped_parser (ascii "b1" ++ [0]) example_world
           (ascii "r1r42r7" ++ [0]) mapped_parser example_world);
    [vm_compute; reflexivity|discriminate].
Defined.

Lemma generate_id_remaps_after_failed_copy_witness :
  librdf_parser_raptor_generate_id_handler mapped_parser
    (Some (ascii "b1" ++ [0])) (set_allocs [alloc_fail] example_world)
  = Val ((Some (ascii "r1r42r1" ++ [0]),
          set_bnode_hash (Some (<[ascii "b1" := ascii "r1r42r1"]>
                                  {[ ascii "b1" := ascii "r1r42r7" ]}))
            mapped_parser),
         alloc_rest (set_genid_counter 2
                       (alloc_rest (alloc_rest
                          (set_allocs [alloc_fail] example_world))))).
Proof.
  apply (generate_id_remaps_after_failed_copy mapped_parser
           {[ ascii "b1" := ascii "r1r42r7" ]} (ascii "b1" ++ [0])
           (ascii "b1") (ascii "r1r42r7")
           (set_allocs [alloc_fail] example_world));
    [reflexivity|vm_compute; reflexivity|reflexivity|reflexivity
    |vm_compute; reflexivity|vm_compute; reflexivity|discriminate].
Defined.

Lemma unknown_predicate_rolled_back_witness :
  ∃ w', librdf_parser_raptor_new_statement_handler example_stream
          {| raptor_subject := rt_blank (ascii "a" ++ 0 :: []);
             raptor_predicate := rt_blank (ascii "p" ++ [0]);
             raptor_object := rt_unknown 9 |} example_world
        = Val (example_stream, w')
        ∧ w' ≡ example_world ∧ world_wf (λ _, 0) w'
        ∧ nodes_mutex w' = false.
Proof.
  destruct opened_world_ready as (Hwf & Hroom & Hm & Hno).
  apply (unknown_predicate_rolled_back (λ _, 0) example_stream example_world
           (ascii "a") []); [done..| |done|done].
  by intros [=]%list_elem_of_singleton.
Defined.

End parser_nodes_examples.
